(* ===== verification/_CoqProject ===== *)
-Q . S2P
Prelude.v
AsyncIO.v
Frame.v
FrameTests.v
Duration.v
Status.v
Request.v
Shell.v
Outbound.v
Pump.v
Stdin.v
Exec.v
FdOps.v
Pty.v
Session.v
SessionTime.v
SessionWire.v
SessionKills.v
SessionSpec.v
SessionEnds.v
SessionDeadline.v
SessionInput.v
SessionDelivery.v
Disconnect.v
Cancel.v
Portal.v
Startup.v
Agent.v
AgentIsolation.v
Memory.v
Machine.v
Scenarios.v
