(* ===== verification/Prelude.v ===== *)
(** * guesthopper: the in-guest command channel agent

    guesthopper runs inside an emulated guest and serves commands and terminals
    to the host over vsock: one connection is one session.  This development
    models the agent's Rust crate and proves what makes it safe to leave running:
    the wire protocol is exact, a session answers with the command's own output
    and then one verdict, a dead or stalled peer cannot hold a slot, descriptors
    and processes are not leaked, and connections do not mix.

    ** The program and its model, part by part

    - Framing, [src/frame.rs]: [Frame].  [read_frame] and [write_frame] over the
      stream interfaces of [AsyncIO]; the process-wide inbound cap is the value
      [inbound_cell], threaded to every read.
    - The control plane of [src/session.rs]: [Request] (the JSON requests, the
      error messages, the dispatch at the top of [drive]), [Shell] (the shell
      resolution of [exec] and [open_pty], and [warn_long_command]), [Duration]
      (deadlines from binary64 seconds), [Status] ([exit_fields], [kill_group],
      [reap_bounded]).
    - The output path of [run_session]: [Outbound] (the bounded channel, the
      writer task with its two biased selects, the write timeout), [Pump] ([pump],
      the task of each output stream).
    - [Cancel]: the [Cancel] type at the grain of its atomic operations.  It
      proves what the rest uses: [fire] and [wait] behave as the flag [ob_cancel]
      of [Outbound].
    - [exec]: [Stdin] (its [stdin_task]) and [Exec] (deadline, spawn, the biased
      select loop, reap, drain, EXIT).
    - [open_pty] and [hangup]: [FdOps] (the descriptor helpers, [write_all_fd])
      and [Pty] (every failure path of the set-up, the output and input tasks,
      the unbiased select, the hangup, the drain).
    - [run_session] and [drive] composed with all the tasks: [Session].
    - [src/main.rs]: [Startup] (environment variables, [str::parse], defaults,
      the listening address),
      [Agent] (semaphore, accept loop, the running sessions), and
      [src/portalcall.rs]: [Portal].

    ** How execution is modelled

    Each task is a state machine whose states are the program's await points; one
    poll is a function ([poll_writer], [poll_pump], [poll_stdin], [poll_exec],
    [poll_pty], [poll_main], ...) that returns [None] when the task stays parked.
    Whether the awaited I/O completes, and how much of an abandoned write was
    taken, is decided by the environment ([poll_env]); a select that is not biased
    takes its starting arm from the environment too.  [Session.step] lets the
    environment poll any task, let the child exit, or let time pass: time passes
    only while every task is parked and never beyond an armed timer, which is
    what tokio's [sleep] and [timeout] provide on an idle runtime.  A disabled
    event changes nothing, so every list of events is an execution, and a theorem
    about all lists is a theorem about all interleavings.  Times are integers, in
    nanoseconds, and polls take none of it: a timer fires when it is due.  An
    aborted task drops what it owns at the abort, where tokio does so when the
    scheduler next runs it.  [Agent.agent_step] runs any number of sessions, which
    share the kernel -- read and changed by [spawn] and by every operation on a
    terminal -- and the long-command flag; each has its own clock, counted from
    its start, so its executions include those of one common clock and others.

    Third-party code is an interface: a class of operations, a class of views,
    and a class of the documented laws the program relies on ([AsyncIO.AsyncRead],
    [AsyncWrite], [Outbound.Mpsc], [Cancel.Notify], [Agent.Semaphore], the system
    calls [FdOps.Kernel] and [FdWrite], [Exec.Spawn], [Pty.PtyStreams],
    [Request.Json], [Request.Fmt], [Shell.Shlex], [Portal.Syscall], [Startup.Vsock]).  Each has an
    implementation that meets the laws, next to the class or in [Machine].

    ** What the theorems show

    - Framing: round trips of one frame and of whole conversations, agreement of
      [read_frame] with a reference decoder on every input, injectivity of the
      encoding, the allocation bound and the cap that no setting can escape;
      [FrameTests] runs the file's own assertions and unit tests.
    - Sessions, over every execution: [SessionWire] (the reply contract, and that
      no output is lost), [SessionSpec] (the session implements an abstract
      automaton that accepts output, then one verdict, then nothing),
      [SessionKills] (a command's group is signalled at most
      once and only for its own deadline or a lost peer),
      [SessionDelivery] (once a session's verdict is settled, a peer that reads
      receives all that was accepted, then at most more output, then the verdict),
      [SessionInput] (the child receives exactly its host's input,
      and its terminal exactly the window sizes asked for), [SessionTime] (a
      cancelled session is over within 7.2 seconds and needs nothing from outside
      to get there), [SessionEnds] (every session ends by the passing of time,
      with the two exceptions named there), [SessionDeadline] (what a deadline
      bounds), [Disconnect] (a running command's session hears the loss of its peer
      in every state but one, in which it is deaf), [Outbound] (order and
      completeness on the wire, what every poll of the writer does), [Stdin] (the
      STDIN task alone), [Pty] (hangup discipline, descriptor balance), [Cancel] (no lost wake-up, no spurious cancellation).
    - The agent: permits are conserved, slots come back, start-up limits are
      sane, and the one setting that panics it; [AgentIsolation] (up to the kernel,
      the long-command flag and the console, an accepted connection that asks for
      no terminal goes on in the agent exactly as it would alone, so what the
      session theorems say of it holds there); [Memory] (what one session, and the
      agent as a whole, can be made to hold: the output and input under way, not
      the fixed read buffers of the output tasks nor the request itself).

    [Machine] and [Scenarios] execute whole sessions and instantiate the
    theorems there.

    ** Bounds and fuel

    The definitions need no fuel: polls are single steps and runs follow a list
    of events.  [Frame.read_frames] takes one unit per frame and is used with
    more fuel than frames; [FdOps.write_fd_loop] follows its list of wake-ups, and
    [write_all_fd_total] says how many are enough.  The liveness theorems bound the
    number of events they need: twenty once cancelled, sixty-four from any state to
    its end by timers alone, fewer than 370 to write out a full queue and the
    verdict behind it.

    ** Not modelled

    The Python clients, the build files, the integration tests and benchmarks;
    argument parsing (structopt) and logging; what binding a vsock address does
    beyond its success; the fork and exec of a child and
    what it does (its output, its exit and its use of stdin are the
    environment's); the failure of the guest console in [warn_long_command]
    (only what is handed to the console writer is recorded); the memory orderings
    of the process-wide atomics.

    ** Next

    The integration tests of [tests/session_tests.rs] as scenarios; isolation of
    the sessions that open a terminal, up to a renaming of descriptors.

    This file holds what every part shares: results and I/O errors, the [?]
    operator as a monad, bytes and machine integers, list lemmas, automation. *)

From Stdlib Require Export ZArith Lia.
From Stdlib Require Export Strings.Byte.
From stdpp Require Export prelude strings gmap.

#[global] Open Scope Z_scope.

(** ** Results and I/O errors *)

(** [std::io::ErrorKind], the kinds the program builds or tests for; an error
    that comes from the operating system carries its [errno] instead. *)
Inductive ErrorKind :=
| UnexpectedEof | InvalidData | TimedOut | WriteZero | BrokenPipe.

Inductive io_error :=
| Custom (k : ErrorKind)
| Os (errno : Z).

#[export] Instance ErrorKind_eq_dec : EqDecision ErrorKind.
Proof. solve_decision. Defined.
#[export] Instance io_error_eq_dec : EqDecision io_error.
Proof. solve_decision. Defined.

Inductive result (T E : Type) :=
| Ok (t : T)
| Err (e : E).
Arguments Ok {T E} t.
Arguments Err {T E} e.

#[export] Instance result_eq_dec {T E} `{EqDecision T, EqDecision E} : EqDecision (result T E).
Proof. solve_decision. Defined.

Abbreviation io_result T := (result T io_error).

(** [e.kind() == ErrorKind::UnexpectedEof]: no [errno] maps to that kind. *)
Definition is_unexpected_eof (e : io_error) : bool :=
  match e with Custom UnexpectedEof => true | _ => false end.

Definition is_ok {T E} (r : result T E) : bool :=
  match r with Ok _ => true | Err _ => false end.

(** ** State passing with early return: the [?] operator *)

(** A call that mutates a state of type [S] and may fail. *)
Definition io (S A : Type) : Type := S -> io_result A * S.

Definition io_ret {S A} (a : A) : io S A := fun s => (Ok a, s).

Definition io_bind {S A B} (c : io S A) (k : A -> io S B) : io S B :=
  fun s => match c s with
           | (Ok a, s') => k a s'
           | (Err e, s') => (Err e, s')
           end.

Declare Scope io_scope.
Delimit Scope io_scope with io.
Notation "'let?' x := c 'in' k" := (io_bind c (fun x => k))
  (at level 10, x pattern, c at level 100, k at level 200) : io_scope.

Lemma io_bind_ok {S A B} (c : io S A) (k : A -> io S B) s a s' :
  c s = (Ok a, s') -> io_bind c k s = k a s'.
Proof. unfold io_bind. by intros ->. Qed.

Lemma io_bind_err {S A B} (c : io S A) (k : A -> io S B) s e s' :
  c s = (Err e, s') -> io_bind c k s = (Err e, s').
Proof. unfold io_bind. by intros ->. Qed.

(** ** Bytes and machine integers *)

#[export] Instance byte_eq_decision : EqDecision byte := Byte.byte_eq_dec.

(** The value of a [u8], and the truncating cast [as u8]. *)
Definition u8_val (b : byte) : Z := Z.of_N (Byte.to_N b).
Definition as_u8 (z : Z) : byte :=
  match Byte.of_N (Z.to_N (z mod 256)) with Some b => b | None => x00 end.

(** The truncating cast [as u32], and the sign-reinterpreting cast to [i32]. *)
Definition as_u32 (z : Z) : Z := z mod 2 ^ 32.
Definition as_i32 (z : Z) : Z := (z + 2 ^ 31) mod 2 ^ 32 - 2 ^ 31.

(** [u32::to_be_bytes] and [u32::from_be_bytes]. *)
Definition u32_to_be_bytes (z : Z) : list byte :=
  [as_u8 (Z.shiftr z 24); as_u8 (Z.shiftr z 16); as_u8 (Z.shiftr z 8); as_u8 z].
Definition u32_from_be_bytes (b0 b1 b2 b3 : byte) : Z :=
  u8_val b0 * 2 ^ 24 + u8_val b1 * 2 ^ 16 + u8_val b2 * 2 ^ 8 + u8_val b3.

Lemma u8_val_range b : 0 <= u8_val b < 256.
Proof. unfold u8_val. pose proof (Byte.to_N_bounded b). lia. Qed.

Lemma u8_val_as_u8 z : u8_val (as_u8 z) = z mod 256.
Proof.
  unfold u8_val, as_u8. pose proof (Z.mod_pos_bound z 256 eq_refl).
  destruct (Byte.of_N _) as [b|] eqn:E.
  - apply Byte.to_of_N in E. lia.
  - apply Byte.of_N_None_iff in E. lia.
Qed.

Lemma u8_val_inj a b : u8_val a = u8_val b -> a = b.
Proof.
  unfold u8_val. intros H. apply N2Z.inj in H.
  pose proof (Byte.of_to_N a) as Ha. rewrite H, Byte.of_to_N in Ha. congruence.
Qed.

Lemma as_u8_u8_val b : as_u8 (u8_val b) = b.
Proof.
  apply u8_val_inj. rewrite u8_val_as_u8. apply Z.mod_small, u8_val_range.
Qed.

Lemma u32_from_be_bytes_range b0 b1 b2 b3 :
  0 <= u32_from_be_bytes b0 b1 b2 b3 < 2 ^ 32.
Proof.
  unfold u32_from_be_bytes.
  pose proof (u8_val_range b0). pose proof (u8_val_range b1).
  pose proof (u8_val_range b2). pose proof (u8_val_range b3). lia.
Qed.

Lemma u32_be_roundtrip z :
  0 <= z < 2 ^ 32 ->
  u32_from_be_bytes (as_u8 (Z.shiftr z 24)) (as_u8 (Z.shiftr z 16))
    (as_u8 (Z.shiftr z 8)) (as_u8 z) = z.
Proof.
  intros Hz. unfold u32_from_be_bytes. rewrite !u8_val_as_u8.
  rewrite !Z.shiftr_div_pow2 by lia. Z.to_euclidean_division_equations. lia.
Qed.

Lemma u32_be_bytes_inj z1 z2 :
  0 <= z1 < 2 ^ 32 -> 0 <= z2 < 2 ^ 32 ->
  u32_to_be_bytes z1 = u32_to_be_bytes z2 -> z1 = z2.
Proof.
  intros H1 H2 Heq. unfold u32_to_be_bytes in Heq. injection Heq as E1 E2 E3 E4.
  rewrite <- (u32_be_roundtrip z1 H1), <- (u32_be_roundtrip z2 H2). congruence.
Qed.

(** ** Lists *)

Lemma prefix_app_split {A} (l k : list A) : l `prefix_of` l ++ k.
Proof. by exists k. Qed.

Lemma drop_app_exact {A} (l k : list A) n : n = length l -> drop n (l ++ k) = k.
Proof. intros ->. apply drop_app_length. Qed.

Lemma take_app_exact {A} (l k : list A) n : n = length l -> take n (l ++ k) = l.
Proof. intros ->. apply take_app_length. Qed.

Lemma take_min_app {A} (l k : list A) n : take (min n (length l)) (l ++ k) = take n l.
Proof.
  rewrite take_app_le by lia. destruct (Nat.le_gt_cases n (length l)).
  - by rewrite Nat.min_l.
  - rewrite Nat.min_r, !take_ge by lia. done.
Qed.

(** ** Automation *)

Create HintDb guest.
Create Rewrite HintDb guest.
#[export] Hint Rewrite u8_val_as_u8 as_u8_u8_val @app_nil_r @length_app : guest.
#[export] Hint Resolve u8_val_range u32_from_be_bytes_range prefix_app_split : guest.

(** Case analysis on a scrutinee of a hypothesis that is not itself a [match],
    remembering the equation. *)
Ltac case_hyp H :=
  match type of H with
  | context [match ?x with _ => _ end] =>
      lazymatch x with
      | context [match _ with _ => _ end] => fail
      | _ => destruct x eqn:?
      end
  end.

(** Turn the boolean comparisons of the context into propositions. *)
Ltac bool_prop :=
  repeat match goal with
  | H : (_ <? _)%Z = true |- _ => apply Z.ltb_lt in H
  | H : (_ <? _)%Z = false |- _ => apply Z.ltb_ge in H
  | H : (_ <=? _)%Z = true |- _ => apply Z.leb_le in H
  | H : (_ <=? _)%Z = false |- _ => apply Z.leb_gt in H
  | H : (_ =? _)%Z = true |- _ => apply Z.eqb_eq in H
  | H : (_ =? _)%Z = false |- _ => apply Z.eqb_neq in H
  | H : andb _ _ = true |- _ => apply andb_true_iff in H as [? ?]
  | H : andb _ _ = false |- _ => apply andb_false_iff in H
  | H : orb _ _ = false |- _ => apply orb_false_iff in H as [? ?]
  | H : negb _ = true |- _ => apply negb_true_iff in H
  | H : negb _ = false |- _ => apply negb_false_iff in H
  | H : bool_decide _ = true |- _ => apply bool_decide_eq_true in H
  | H : bool_decide _ = false |- _ => apply bool_decide_eq_false in H
  end.
