(* ===== verification/AsyncIO.v ===== *)
(** * AsyncIO: the asynchronous byte streams the program is generic over

    The program reads and writes through tokio's [AsyncRead] and [AsyncWrite]
    traits and their [Ext] combinators, which are third-party code.  This file
    states what the program relies on as two interfaces (operations, a view of
    the bytes, and the documented laws), and gives an in-memory implementation
    of each, the counterpart of the [tokio::io::duplex] pair the repository's
    own tests run on.

    An operation is the result of the *completed* future.  When a future
    completes, stalls, or is dropped half way is decided by the environment of
    the state machines of the other files. *)

From S2P Require Import Prelude.

(** ** Reading *)

Class AsyncRead (R : Type) := {
  (** [read(&mut buf)] with [buf.len() = n]: at most [n] bytes; [Ok []] is EOF. *)
  read : nat -> io R (list byte);
  (** [read_exact(&mut buf)] with [buf.len() = n]. *)
  read_exact : nat -> io R (list byte);
}.

(** What the peer will ever deliver, and how the stream then ends: [None] is a
    clean EOF, [Some e] a transport error. *)
Class ReadView (R : Type) := {
  incoming : R -> list byte;
  ending : R -> option io_error;
}.

Class AsyncReadSpec (R : Type) `{!AsyncRead R, !ReadView R} : Prop := {
  read_exact_ok n (r : R) :
    (n <= length (incoming r))%nat ->
    exists r', read_exact n r = (Ok (take n (incoming r)), r') /\
      incoming r' = drop n (incoming r) /\ ending r' = ending r;
  read_exact_eof n (r : R) :
    (length (incoming r) < n)%nat -> ending r = None ->
    exists r', read_exact n r = (Err (Custom UnexpectedEof), r');
  read_exact_err n (r : R) e :
    (length (incoming r) < n)%nat -> ending r = Some e ->
    exists r', read_exact n r = (Err e, r');
  read_data n (r : R) :
    (0 < n)%nat -> incoming r <> [] ->
    exists c r', read n r = (Ok c, r') /\ c <> [] /\ (length c <= n)%nat /\
      incoming r = c ++ incoming r' /\ ending r' = ending r;
  read_eof n (r : R) :
    (0 < n)%nat -> incoming r = [] -> ending r = None ->
    exists r', read n r = (Ok [], r') /\ incoming r' = [] /\ ending r' = None;
  read_err n (r : R) e :
    (0 < n)%nat -> incoming r = [] -> ending r = Some e ->
    exists r', read n r = (Err e, r') /\ incoming r' = [];
}.

(** [read_exact] fills its buffer or fails. *)
Lemma read_exact_length {R} `{AsyncReadSpec R} n (r r' : R) bs :
  read_exact n r = (Ok bs, r') -> length bs = n.
Proof.
  intros E. destruct (Nat.le_gt_cases n (length (incoming r))) as [Hn|Hn].
  - destruct (read_exact_ok n r Hn) as (r1 & E1 & _). rewrite E in E1. simplify_eq. rewrite length_take. lia.
  - destruct (ending r) as [e|] eqn:Ee.
    + destruct (read_exact_err n r e Hn Ee) as (r1 & E1). rewrite E in E1. done.
    + destruct (read_exact_eof n r Hn Ee) as (r1 & E1). rewrite E in E1. done.
Qed.

(** ** Writing *)

Class AsyncWrite (W : Type) := {
  write_all : list byte -> io W unit;
  flush : io W unit;
  (** The stream after a [write_all] future was dropped with [k] bytes taken
      (tokio documents [write_all] as not cancellation safe). *)
  write_dropped : list byte -> nat -> W -> W;
}.

(** The bytes the stream has taken so far. *)
Class WriteView (W : Type) := written : W -> list byte.

Class AsyncWriteSpec (W : Type) `{!AsyncWrite W, !WriteView W} : Prop := {
  write_all_ok bs (w w' : W) :
    write_all bs w = (Ok tt, w') -> written w' = written w ++ bs;
  write_all_err bs (w w' : W) e :
    write_all bs w = (Err e, w') ->
    exists k, written w' = written w ++ take k bs;
  flush_written (w w' : W) r : flush w = (r, w') -> written w' = written w;
  write_dropped_written bs k (w : W) :
    written (write_dropped bs k w) = written w ++ take k bs;
}.

(** ** In-memory streams *)

(** A peer that sends [st_bytes] and then ends the stream. *)
Record mem_reader := MemReader { st_bytes : list byte; st_end : option io_error }.

Definition mem_stop (r : mem_reader) : io_error :=
  match st_end r with Some e => e | None => Custom UnexpectedEof end.

#[export] Instance mem_AsyncRead : AsyncRead mem_reader := {
  read n r :=
    match st_bytes r, st_end r with
    | [], Some e => (Err e, r)
    | bs, e => (Ok (take n bs), MemReader (drop n bs) e)
    end;
  read_exact n r :=
    if (n <=? length (st_bytes r))%nat
    then (Ok (take n (st_bytes r)), MemReader (drop n (st_bytes r)) (st_end r))
    else (Err (mem_stop r), MemReader [] (st_end r));
}.

#[export] Instance mem_ReadView : ReadView mem_reader :=
  { incoming := st_bytes; ending := st_end }.

#[export] Instance mem_AsyncReadSpec : AsyncReadSpec mem_reader.
Proof.
  split; intros n [bs e]; simpl.
  - intros Hn. rewrite (proj2 (Nat.leb_le _ _) Hn). eauto.
  - intros Hn ->. rewrite (proj2 (Nat.leb_gt _ _) Hn). eauto.
  - intros e' Hn ->. rewrite (proj2 (Nat.leb_gt _ _) Hn). eauto.
  - intros Hn Hbs. destruct bs as [|b bs]; [done|]. destruct n as [|n]; [lia|].
    exists (take (S n) (b :: bs)), (MemReader (drop (S n) (b :: bs)) e).
    split_and!; [done | done | | symmetry; apply take_drop | done].
    rewrite length_take. lia.
  - intros Hn -> ->. exists (MemReader [] None). by destruct n.
  - intros e' Hn -> ->. eauto.
Qed.

(** A sink that takes [room] bytes and then fails with [EPIPE]. *)
Record mem_writer := MemWriter { wr_bytes : list byte; wr_room : nat }.

Definition EPIPE : Z := 32.

#[export] Instance mem_AsyncWrite : AsyncWrite mem_writer := {
  write_all bs w :=
    if (length bs <=? wr_room w)%nat
    then (Ok tt, MemWriter (wr_bytes w ++ bs) (wr_room w - length bs))
    else (Err (Os EPIPE), MemWriter (wr_bytes w ++ take (wr_room w) bs) 0);
  flush w := (Ok tt, w);
  write_dropped bs k w := MemWriter (wr_bytes w ++ take k bs) (wr_room w);
}.

#[export] Instance mem_WriteView : WriteView mem_writer := wr_bytes.

#[export] Instance mem_AsyncWriteSpec : AsyncWriteSpec mem_writer.
Proof.
  split.
  - intros bs w w'; simpl. case_match; intros [= <-]; done.
  - intros bs w w' e; simpl. case_match; intros [= <- <-]. by exists (wr_room w).
  - by intros w w' r [= <- <-].
  - done.
Qed.

(** A sink that takes everything. *)
Record open_sink := OpenSink { sk_bytes : list byte }.

#[export] Instance open_AsyncWrite : AsyncWrite open_sink := {
  write_all bs w := (Ok tt, OpenSink (sk_bytes w ++ bs));
  flush w := (Ok tt, w);
  write_dropped bs k w := OpenSink (sk_bytes w ++ take k bs);
}.

#[export] Instance open_WriteView : WriteView open_sink := sk_bytes.

#[export] Instance open_AsyncWriteSpec : AsyncWriteSpec open_sink.
Proof. split; [by intros bs w w' [= <-] | done | by intros w w' r [= <- <-] | done]. Qed.
