(* ===== verification/Frame.v ===== *)
(** * Frame: the length-prefixed framing of [src/frame.rs]

    The wire format is [type: u8][len: u32 big-endian][payload].  The file
    translates the constants, the process-global inbound cap, [read_frame] and
    [write_frame]; its theorems are the round trip on a byte stream, the
    behaviour of the reader on every input, and the bounds on the lengths. *)

From S2P Require Import Prelude AsyncIO.

(** ** Constants *)

(* Host -> guest. *)
Definition FRAME_REQUEST : byte := as_u8 1.
Definition FRAME_STDIN : byte := as_u8 2.
Definition FRAME_STDIN_EOF : byte := as_u8 3.
Definition FRAME_PING : byte := as_u8 4.
Definition FRAME_RESIZE : byte := as_u8 5.
(* Guest -> host. *)
Definition FRAME_STDOUT : byte := as_u8 16.
Definition FRAME_STDERR : byte := as_u8 17.
Definition FRAME_EXIT : byte := as_u8 18.
Definition FRAME_ERROR : byte := as_u8 19.

Definition MAX_FRAME_LEN : Z := 16 * 1024 * 1024.
Definition DEFAULT_MAX_INBOUND_FRAME_LEN : Z := 1024 * 1024.
Definition MIN_INBOUND_FRAME_LEN : Z := 64 * 1024.

(** ** The inbound cap *)

(** [usize::clamp]. *)
Definition clamp (v lo hi : Z) : Z := Z.min (Z.max v lo) hi.

Definition clamp_inbound (v : Z) : Z := clamp v MIN_INBOUND_FRAME_LEN MAX_FRAME_LEN.

(** The static [MAX_INBOUND_FRAME_LEN]: an [AtomicUsize], as its value. *)
Definition inbound_cell : Type := Z.
Definition MAX_INBOUND_FRAME_LEN : inbound_cell := DEFAULT_MAX_INBOUND_FRAME_LEN.

Definition set_max_inbound_frame_len (v : Z) (c : inbound_cell) : inbound_cell :=
  clamp_inbound v.

Definition max_inbound_frame_len (c : inbound_cell) : Z := c.

(** ** Frames *)

Record Frame := mkFrame { ftype : byte; payload : list byte }.

#[export] Instance Frame_eq_dec : EqDecision Frame.
Proof. solve_decision. Defined.

Section read.
Context {R : Type} `{!AsyncRead R}.

(** [read_frame]: the header, the check against the inbound cap, the payload. *)
Definition read_frame (c : inbound_cell) : io R (option Frame) := fun r =>
  match read_exact 5 r with
  | (Err e, r1) => if is_unexpected_eof e then (Ok None, r1) else (Err e, r1)
  | (Ok hdr, r1) =>
      let ft := nth 0 hdr x00 in
      let len := u32_from_be_bytes (nth 1 hdr x00) (nth 2 hdr x00)
                   (nth 3 hdr x00) (nth 4 hdr x00) in
      let cap := max_inbound_frame_len c in
      if cap <? len then (Err (Custom InvalidData), r1)
      else if 0 <? len then
        (let? p := read_exact (Z.to_nat len) in io_ret (Some (mkFrame ft p)))%io r1
      else (Ok (Some (mkFrame ft [])), r1)
  end.
End read.

(** The header [write_frame] builds: [hdr[0] = ftype], [hdr[1..5]] the length. *)
Definition frame_header (ft : byte) (p : list byte) : list byte :=
  ft :: u32_to_be_bytes (as_u32 (Z.of_nat (length p))).

Section write.
Context {W : Type} `{!AsyncWrite W}.

Definition write_frame (ft : byte) (p : list byte) : io W unit := fun w =>
  if MAX_FRAME_LEN <? Z.of_nat (length p) then (Err (Custom InvalidData), w)
  else
    (let? _ := write_all (frame_header ft p) in
     let? _ := (match p with [] => io_ret tt | _ => write_all p end) in
     flush)%io w.

(** The stream after the [write_frame] future was dropped at one of its
    [await]s with [k] bytes of the frame taken. *)
Definition write_frame_dropped (ft : byte) (p : list byte) (k : nat) (w : W) : W :=
  if MAX_FRAME_LEN <? Z.of_nat (length p) then w
  else write_dropped (frame_header ft p ++ p) k w.
End write.

(** ** The wire format as a specification *)

Definition encode_frame (f : Frame) : list byte := frame_header (ftype f) (payload f) ++ payload f.
Definition encode_frames (fs : list Frame) : list byte := concat (map encode_frame fs).

Definition frame_fits (cap : Z) (f : Frame) : Prop := Z.of_nat (length (payload f)) <= cap.
Definition cap_ok (c : inbound_cell) : Prop := MIN_INBOUND_FRAME_LEN <= c <= MAX_FRAME_LEN.

(** ** The encoding *)

Lemma length_frame_header ft p : length (frame_header ft p) = 5%nat.
Proof. reflexivity. Qed.

Lemma encode_frame_length f : length (encode_frame f) = (5 + length (payload f))%nat.
Proof. reflexivity. Qed.

Lemma encode_frames_cons f fs : encode_frames (f :: fs) = encode_frame f ++ encode_frames fs.
Proof. reflexivity. Qed.

Lemma encode_frames_app fs gs : encode_frames (fs ++ gs) = encode_frames fs ++ encode_frames gs.
Proof. unfold encode_frames. by rewrite map_app, concat_app. Qed.

Lemma as_u32_small z : 0 <= z <= MAX_FRAME_LEN -> as_u32 z = z.
Proof. unfold as_u32, MAX_FRAME_LEN. intros. apply Z.mod_small. lia. Qed.

Lemma clamp_inbound_ok v : cap_ok (clamp_inbound v).
Proof.
  unfold cap_ok, clamp_inbound, clamp, MIN_INBOUND_FRAME_LEN, MAX_FRAME_LEN. lia.
Qed.

(** The length field of a frame header, read back, is the length of a payload
    that fits the hard ceiling: the [as u32] cast loses nothing. *)
Lemma header_length_exact ft p :
  Z.of_nat (length p) <= MAX_FRAME_LEN ->
  u32_from_be_bytes (nth 1 (frame_header ft p) x00) (nth 2 (frame_header ft p) x00)
    (nth 3 (frame_header ft p) x00) (nth 4 (frame_header ft p) x00)
  = Z.of_nat (length p).
Proof.
  intros Hp. cbn [frame_header nth u32_to_be_bytes].
  rewrite as_u32_small by lia. apply u32_be_roundtrip. unfold MAX_FRAME_LEN in Hp. lia.
Qed.

(** ** The reader *)

Section read_proofs.
Context {R : Type} `{AsyncReadSpec R}.
Implicit Type r : R.

(** The five header bytes are there: one lemma for the three outcomes that
    depend only on the advertised length. *)
Lemma read_frame_header c r ft b1 b2 b3 b4 rest :
  incoming r = ft :: b1 :: b2 :: b3 :: b4 :: rest ->
  let len := u32_from_be_bytes b1 b2 b3 b4 in
  exists r1, incoming r1 = rest /\ ending r1 = ending r /\
    read_frame c r =
      if c <? len then (Err (Custom InvalidData), r1)
      else if 0 <? len then
        (let? p := read_exact (Z.to_nat len) in io_ret (Some (mkFrame ft p)))%io r1
      else (Ok (Some (mkFrame ft [])), r1).
Proof.
  intros Hin len. destruct (read_exact_ok 5 r) as (r1 & E & Hi & He).
  { rewrite Hin. simpl. lia. }
  exists r1. rewrite Hi, Hin. split; [done|]. split; [done|].
  unfold read_frame. rewrite E, Hin. reflexivity.
Qed.

Lemma read_frame_payload c r ft b1 b2 b3 b4 rest :
  incoming r = ft :: b1 :: b2 :: b3 :: b4 :: rest ->
  let len := u32_from_be_bytes b1 b2 b3 b4 in
  len <= c -> len <= Z.of_nat (length rest) ->
  exists r', read_frame c r = (Ok (Some (mkFrame ft (take (Z.to_nat len) rest))), r') /\
    incoming r' = drop (Z.to_nat len) rest /\ ending r' = ending r.
Proof.
  intros Hin len Hc Hl. destruct (read_frame_header c r _ _ _ _ _ _ Hin) as (r1 & Hi & He & ->).
  fold len. rewrite (proj2 (Z.ltb_ge _ _) Hc).
  assert (0 <= len) by apply u32_from_be_bytes_range.
  destruct (0 <? len) eqn:E0; bool_prop.
  - destruct (read_exact_ok (Z.to_nat len) r1) as (r2 & E & Hi2 & He2).
    { rewrite Hi. lia. }
    exists r2. rewrite (io_bind_ok _ _ _ _ _ E). rewrite Hi in *.
    split_and!; [done | done | congruence].
  - assert (len = 0) as -> by lia. exists r1. done.
Qed.

(** Reading back one encoded frame from any stream that starts with it. *)
Lemma read_frame_encoded c r f rest :
  frame_fits MAX_FRAME_LEN f -> frame_fits c f ->
  incoming r = encode_frame f ++ rest ->
  exists r', read_frame c r = (Ok (Some f), r') /\
    incoming r' = rest /\ ending r' = ending r.
Proof.
  intros HM Hc Hin. destruct f as [ft p]. unfold frame_fits in *. cbn [payload] in *.
  pose proof (header_length_exact ft p HM) as Hlen. cbn in Hlen.
  destruct (read_frame_payload c r ft _ _ _ _ (p ++ rest) Hin) as (r' & E & Hi & He).
  { cbn. rewrite Hlen. done. }
  { cbn. rewrite Hlen, length_app. lia. }
  exists r'. rewrite E. cbn in *. rewrite Hlen in *.
  rewrite take_app_exact, drop_app_exact in * by lia. done.
Qed.

(** A frame is allocated only after its length was checked. *)
Lemma read_frame_fits c r r' f : read_frame c r = (Ok (Some f), r') -> frame_fits c f.
Proof.
  unfold read_frame, frame_fits. destruct (read_exact 5 r) as [[hdr|e] r1]; [|by case_match].
  unfold max_inbound_frame_len. destruct (c <? _) eqn:Ec; [done|]. bool_prop.
  pose proof (u32_from_be_bytes_range (nth 1 hdr x00) (nth 2 hdr x00) (nth 3 hdr x00) (nth 4 hdr x00)).
  destruct (0 <? _) eqn:E0; [|intros [= <- _]; cbn; lia]. bool_prop. unfold io_bind.
  destruct (read_exact _ r1) as [[p|e] r2] eqn:E; [|done]. apply read_exact_length in E. intros [= <- _].
  cbn. lia.
Qed.

Lemma read_frame_short c r :
  (length (incoming r) < 5)%nat ->
  exists r', read_frame c r =
    (match ending r with
     | None => Ok None
     | Some e => if is_unexpected_eof e then Ok None else Err e
     end, r').
Proof.
  intros Hl. unfold read_frame. destruct (ending r) as [e|] eqn:E.
  - destruct (read_exact_err 5 r e Hl E) as (r' & ->). exists r'. by case_match.
  - destruct (read_exact_eof 5 r Hl E) as (r' & ->). by exists r'.
Qed.

Lemma read_frame_truncated c r ft b1 b2 b3 b4 rest :
  incoming r = ft :: b1 :: b2 :: b3 :: b4 :: rest ->
  let len := u32_from_be_bytes b1 b2 b3 b4 in
  len <= c -> Z.of_nat (length rest) < len ->
  exists r', read_frame c r =
    (Err (match ending r with None => Custom UnexpectedEof | Some e => e end), r').
Proof.
  intros Hin len Hc Hl. destruct (read_frame_header c r _ _ _ _ _ _ Hin) as (r1 & Hi & He & ->).
  fold len. rewrite (proj2 (Z.ltb_ge _ _) Hc), (proj2 (Z.ltb_lt _ _)) by lia.
  rewrite <- He. destruct (ending r1) as [e|] eqn:Ee.
  - destruct (read_exact_err (Z.to_nat len) r1 e) as (r2 & E); [rewrite Hi; lia | done |].
    exists r2. by rewrite (io_bind_err _ _ _ _ _ E).
  - destruct (read_exact_eof (Z.to_nat len) r1) as (r2 & E); [rewrite Hi; lia | done |].
    exists r2. by rewrite (io_bind_err _ _ _ _ _ E).
Qed.
End read_proofs.

(** ** The writer *)

Section write_proofs.
Context {W : Type} `{AsyncWriteSpec W}.
Implicit Type w : W.

Lemma write_frame_too_long ft p w :
  MAX_FRAME_LEN < Z.of_nat (length p) ->
  write_frame ft p w = (Err (Custom InvalidData), w).
Proof. intros Hp. unfold write_frame. by rewrite (proj2 (Z.ltb_lt _ _) Hp). Qed.

(** The two [write_all]s of a frame take one run of bytes between them. *)
Lemma write_frame_written ft p w r w' :
  write_frame ft p w = (r, w') ->
  match r with
  | Ok _ => frame_fits MAX_FRAME_LEN (mkFrame ft p) /\
            written w' = written w ++ encode_frame (mkFrame ft p)
  | Err _ => exists k, written w' = written w ++ take k (encode_frame (mkFrame ft p))
  end.
Proof.
  unfold write_frame, encode_frame, frame_fits. cbn [ftype payload].
  destruct (MAX_FRAME_LEN <? _) eqn:EM; bool_prop.
  { intros [= <- <-]. exists 0%nat. by rewrite take_0, app_nil_r. }
  unfold io_bind at 1. destruct (write_all (frame_header ft p) w) as [[[]|e] w1] eqn:E1.
  2:{ intros [= <- <-]. destruct (write_all_err _ _ _ _ E1) as (k & ->).
      exists (min k (length (frame_header ft p))). by rewrite take_min_app. }
  apply write_all_ok in E1. unfold io_bind at 1.
  set (body := match p with [] => io_ret tt | _ => write_all p end).
  assert (Hbody : forall r1 w2, body w1 = (r1, w2) ->
    match r1 with Ok _ => written w2 = written w1 ++ p
                | Err _ => exists k, written w2 = written w1 ++ take k p end).
  { intros r1 w2. subst body. destruct p as [|b p].
    - intros [= <- <-]. by rewrite app_nil_r.
    - intros Ew. destruct r1 as [[]|e]; [by apply write_all_ok | by eapply write_all_err]. }
  destruct (body w1) as [[[]|e] w2] eqn:E2; pose proof (Hbody _ _ eq_refl) as Hb.
  - intros Ef. apply flush_written in Ef. destruct r as [[]|e].
    + split; [done|]. by rewrite Ef, Hb, E1, app_assoc.
    + exists (length (frame_header ft p ++ p)). rewrite firstn_all.
      by rewrite Ef, Hb, E1, app_assoc.
  - intros [= <- <-]. destruct Hb as (k & ->).
    exists (length (frame_header ft p) + k)%nat. rewrite E1, <- app_assoc.
    by rewrite take_app_add.
Qed.

Lemma write_frame_dropped_written ft p k w :
  exists k', written (write_frame_dropped ft p k w) =
    written w ++ take k' (encode_frame (mkFrame ft p)).
Proof.
  unfold write_frame_dropped. case_match.
  - exists 0%nat. by rewrite take_0, app_nil_r.
  - exists k. apply write_dropped_written.
Qed.
End write_proofs.

(** ** Reading a whole stream *)

Section stream.
Context {R : Type} `{!AsyncRead R}.

(** The loop every consumer of a stream runs: [read_frame] until it returns
    [None] or an error; [None] in the second place is fuel exhaustion. *)
Fixpoint read_frames (fuel : nat) (c : inbound_cell) (r : R) :
    list Frame * option (io_result unit) :=
  match fuel with
  | O => ([], None)
  | S fuel' =>
      match read_frame c r with
      | (Ok (Some f), r') => let (fs, e) := read_frames fuel' c r' in (f :: fs, e)
      | (Ok None, _) => ([], Some (Ok tt))
      | (Err e, _) => ([], Some (Err e))
      end
  end.
End stream.

(** Frames written one after the other, as the tasks that own a write half do. *)
Fixpoint write_frames {W} `{!AsyncWrite W} (fs : list Frame) : io W unit :=
  match fs with
  | [] => io_ret tt
  | f :: fs' => (let? _ := write_frame (ftype f) (payload f) in write_frames fs')%io
  end.

(** The reference decoder: what one call returns on the bytes [bs] of a stream
    that then ends with [e], and the bytes it leaves. *)
Definition decode_frame (cap : Z) (bs : list byte) (e : option io_error) :
    io_result (option Frame) * list byte :=
  match bs with
  | ft :: b1 :: b2 :: b3 :: b4 :: rest =>
      let len := u32_from_be_bytes b1 b2 b3 b4 in
      if cap <? len then (Err (Custom InvalidData), rest)
      else if Z.of_nat (length rest) <? len
      then (Err (match e with None => Custom UnexpectedEof | Some e => e end), [])
      else (Ok (Some (mkFrame ft (take (Z.to_nat len) rest))), drop (Z.to_nat len) rest)
  | _ =>
      (match e with
       | None => Ok None
       | Some e => if is_unexpected_eof e then Ok None else Err e
       end, [])
  end.

Section properties.
Context {R : Type} `{AsyncReadSpec R}.
Context {W : Type} `{AsyncWriteSpec W}.

(** Fuel one more than the number of frames is enough to read them all. *)
Lemma read_frames_encoded c fs (r : R) fuel :
  Forall (frame_fits MAX_FRAME_LEN) fs -> Forall (frame_fits c) fs ->
  incoming r = encode_frames fs -> ending r = None -> (length fs < fuel)%nat ->
  read_frames fuel c r = (fs, Some (Ok tt)).
Proof.
  intros HM. revert r fuel.
  induction HM as [|f fs Hf HM IH]; intros r [|fuel] Hc Hin He Hl; simpl in Hl; try lia;
    cbn [read_frames].
  - destruct (read_frame_short c r) as (r' & ->); [rewrite Hin; simpl; lia|]. by rewrite He.
  - apply Forall_cons in Hc as [Hfc Hc]. rewrite encode_frames_cons in Hin.
    destruct (read_frame_encoded c r f _ Hf Hfc Hin) as (r' & -> & Hi & He').
    rewrite (IH r' fuel); [done | done | done | congruence | lia].
Qed.

Lemma write_frames_written fs (w w' : W) :
  write_frames fs w = (Ok tt, w') ->
  Forall (frame_fits MAX_FRAME_LEN) fs /\ written w' = written w ++ encode_frames fs.
Proof.
  revert w. induction fs as [|[ft p] fs IH]; intros w; cbn [write_frames].
  - intros [= <-]. split; [constructor | by rewrite app_nil_r].
  - unfold io_bind. cbn [ftype payload]. destruct (write_frame ft p w) as [[[]|e] w1] eqn:E1; [|done].
    intros [Hf Hw]%IH. apply write_frame_written in E1 as [Hf1 Hw1].
    split; [by constructor|]. by rewrite Hw, Hw1, encode_frames_cons, app_assoc.
Qed.

(** A frame that [write_frame] accepts is read back intact by
    [read_frame] from any stream that delivers the bytes written, and the
    reader is left exactly at the next frame, whatever follows. *)
Theorem frame_roundtrip c ft p (w w' : W) (r : R) rest :
  write_frame ft p w = (Ok tt, w') ->
  Z.of_nat (length p) <= c ->
  incoming r = drop (length (written w)) (written w') ++ rest ->
  exists r', read_frame c r = (Ok (Some (mkFrame ft p)), r') /\
    incoming r' = rest /\ ending r' = ending r.
Proof.
  intros [HM Hw]%write_frame_written Hc Hin.
  rewrite Hw, drop_app_length in Hin. by apply read_frame_encoded.
Qed.

(** C18 On every stream, [read_frame] agrees with the reference decoder: a
    complete frame within the cap is returned and nothing behind it is
    consumed, an over-long length is refused with [InvalidData] right after
    the header, a truncated payload is an error, and a stream with fewer than
    five bytes left is the end of input. *)
Theorem read_frame_decodes c (r : R) :
  exists r', read_frame c r = (fst (decode_frame c (incoming r) (ending r)), r') /\
    forall f, fst (decode_frame c (incoming r) (ending r)) = Ok (Some f) ->
      incoming r' = snd (decode_frame c (incoming r) (ending r)) /\ ending r' = ending r.
Proof.
  destruct (Nat.lt_ge_cases (length (incoming r)) 5) as [Hl | Hl].
  - destruct (read_frame_short c r Hl) as (r' & ->). exists r'.
    destruct (incoming r) as [|? [|? [|? [|? [|]]]]]; simpl in *; try lia;
      (split; [done | intros f Hf; repeat case_match; discriminate]).
  - destruct (incoming r) as [|ft [|b1 [|b2 [|b3 [|b4 rest]]]]] eqn:Hin; simpl in Hl; try lia.
    cbn [decode_frame]. set (len := u32_from_be_bytes b1 b2 b3 b4).
    destruct (c <? len) eqn:E1; [|destruct (Z.of_nat (length rest) <? len) eqn:E2]; bool_prop.
    + destruct (read_frame_header c r _ _ _ _ _ _ Hin) as (r' & _ & _ & ->).
      fold len. rewrite (proj2 (Z.ltb_lt _ _) E1). by exists r'.
    + destruct (read_frame_truncated c r _ _ _ _ _ _ Hin) as (r' & ->); [lia..|].
      by exists r'.
    + destruct (read_frame_payload c r _ _ _ _ _ _ Hin) as (r' & -> & Hi & He); [lia..|].
      exists r'. split; [done|]. by intros f _.
Qed.

(** C17 A sequence of frames written one after the other is read back, when
    the stream then ends cleanly, as exactly those frames in order, and the
    reader stops without an error. *)
Theorem write_frames_roundtrip c fs (w w' : W) (r : R) :
  write_frames fs w = (Ok tt, w') -> Forall (frame_fits c) fs ->
  incoming r = drop (length (written w)) (written w') -> ending r = None ->
  read_frames (S (length fs)) c r = (fs, Some (Ok tt)).
Proof.
  intros [HM Hw]%write_frames_written Hc Hin He.
  rewrite Hw, drop_app_length in Hin. apply read_frames_encoded; [done.. | lia].
Qed.

(** Every frame [read_frame] returns has a payload no longer than the
    inbound cap, and a longer advertised length is refused with exactly the
    five header bytes consumed: no payload buffer is filled for it. *)
Theorem read_frame_bounded c (r r' : R) res :
  read_frame c r = (res, r') ->
  match res with
  | Ok (Some f) => frame_fits c f
  | Ok None => True
  | Err _ => forall ft b1 b2 b3 b4 rest,
      incoming r = ft :: b1 :: b2 :: b3 :: b4 :: rest ->
      c < u32_from_be_bytes b1 b2 b3 b4 ->
      res = Err (Custom InvalidData) /\ incoming r' = rest
  end.
Proof.
  intros E. destruct res as [[f|]|e]; [| done |].
  - by apply read_frame_fits in E.
  - intros ft b1 b2 b3 b4 rest Hin Hlt.
    destruct (read_frame_header c r _ _ _ _ _ _ Hin) as (r1 & Hi & _ & E1).
    rewrite (proj2 (Z.ltb_lt _ _) Hlt), E in E1. by simplify_eq.
Qed.

(** C31 A stream that ends inside a frame header (one to four bytes) is
    reported exactly like a clean EOF at a frame boundary: [Ok None]. *)
Theorem read_frame_partial_header_is_eof c (r : R) :
  (0 < length (incoming r) < 5)%nat -> ending r = None ->
  exists r', read_frame c r = (Ok None, r').
Proof.
  intros Hl He. destruct (read_frame_short c r) as (r' & E); [lia|].
  rewrite He in E. eauto.
Qed.

(** C30 [write_frame] is all or nothing on the length: a payload over
    [MAX_FRAME_LEN] is refused before a byte is written; any other success
    writes five header bytes, whose length field is the exact payload length,
    and the payload; and a failure leaves a prefix of that. *)
Theorem write_frame_exact ft p (w w' : W) res :
  write_frame ft p w = (res, w') ->
  (MAX_FRAME_LEN < Z.of_nat (length p) /\ res = Err (Custom InvalidData) /\ w' = w) \/
  (Z.of_nat (length p) <= MAX_FRAME_LEN /\
   exists b1 b2 b3 b4 k,
     u32_from_be_bytes b1 b2 b3 b4 = Z.of_nat (length p) /\
     written w' = written w ++ take k (ft :: b1 :: b2 :: b3 :: b4 :: p) /\
     (res = Ok tt -> k = (5 + length p)%nat)).
Proof.
  intros E. destruct (Z.lt_ge_cases MAX_FRAME_LEN (Z.of_nat (length p))) as [Hp | Hp].
  { left. rewrite write_frame_too_long in E by done. by simplify_eq. }
  right. split; [done|]. pose proof (header_length_exact ft p Hp) as Hlen.
  apply write_frame_written in E. do 4 eexists.
  destruct res as [[]|e].
  - exists (5 + length p)%nat. split; [exact Hlen|]. split; [|done].
    destruct E as [_ ->]. f_equal. symmetry. apply take_ge. simpl. lia.
  - destruct E as (k & E). exists k. split; [exact Hlen|]. split; [exact E | done].
Qed.
End properties.

(** Encoded frame sequences are uniquely decodable: two sequences of frames
    that fit the ceiling and have the same bytes on the wire are equal. *)
Theorem encode_frames_inj fs gs :
  Forall (frame_fits MAX_FRAME_LEN) fs -> Forall (frame_fits MAX_FRAME_LEN) gs ->
  encode_frames fs = encode_frames gs -> fs = gs.
Proof.
  intros Hf Hg E. set (fuel := S (length fs + length gs)).
  pose proof (read_frames_encoded (R := mem_reader) MAX_FRAME_LEN fs
    (MemReader (encode_frames fs) None) fuel Hf Hf eq_refl eq_refl) as E1.
  pose proof (read_frames_encoded (R := mem_reader) MAX_FRAME_LEN gs
    (MemReader (encode_frames fs) None) fuel Hg Hg E eq_refl) as E2.
  rewrite E1 in E2 by (subst fuel; lia). specialize (E2 ltac:(subst fuel; lia)). congruence.
Qed.

(** Whatever sequence of values the environment asks for, the installed
    inbound cap lies between the floor and the hard ceiling, and a value
    already in that range is installed unchanged. *)
Theorem inbound_cap_invariant (vs : list Z) :
  cap_ok (max_inbound_frame_len
    (fold_left (fun c v => set_max_inbound_frame_len v c) vs MAX_INBOUND_FRAME_LEN)) /\
  forall v c, cap_ok v -> max_inbound_frame_len (set_max_inbound_frame_len v c) = v.
Proof.
  split.
  - assert (H0 : cap_ok MAX_INBOUND_FRAME_LEN) by (unfold cap_ok; by vm_compute).
    revert H0. generalize MAX_INBOUND_FRAME_LEN.
    induction vs as [|v vs IH]; intros c Hc; [done|].
    cbn [fold_left]. apply IH, clamp_inbound_ok.
  - intros v c. unfold cap_ok, max_inbound_frame_len, set_max_inbound_frame_len,
      clamp_inbound, clamp. lia.
Qed.

(** ** Concrete runs, on the in-memory streams *)

Definition demo_sink : mem_writer := MemWriter [] 100.
Definition demo_payload : list byte := [x00; xff; x01; x00; xfe].
Definition demo_frames : list Frame :=
  [mkFrame FRAME_STDOUT demo_payload; mkFrame FRAME_PING []; mkFrame FRAME_EXIT [x7b; x7d]].
Definition demo_wire (fs : list Frame) : list byte := wr_bytes (write_frames fs demo_sink).2.

Lemma frame_roundtrip_witness :
  exists r', read_frame MAX_INBOUND_FRAME_LEN
      (MemReader (demo_wire [mkFrame FRAME_STDOUT demo_payload] ++ [x02]) None) =
    (Ok (Some (mkFrame FRAME_STDOUT demo_payload)), r') /\ incoming r' = [x02].
Proof.
  destruct (frame_roundtrip MAX_INBOUND_FRAME_LEN FRAME_STDOUT demo_payload demo_sink
    (write_frame FRAME_STDOUT demo_payload demo_sink).2
    (MemReader (demo_wire [mkFrame FRAME_STDOUT demo_payload] ++ [x02]) None) [x02])
    as (r' & E & Hi & _);
    [vm_compute; reflexivity | vm_compute; congruence | vm_compute; reflexivity |].
  exists r'. split; [exact E | exact Hi].
Defined.

Lemma read_frame_decodes_witness :
  exists r', read_frame MAX_INBOUND_FRAME_LEN (MemReader [x02; x7f; xff; xff; xff; x61] None) =
    (Err (Custom InvalidData), r').
Proof.
  destruct (read_frame_decodes MAX_INBOUND_FRAME_LEN
    (MemReader [x02; x7f; xff; xff; xff; x61] None)) as (r' & E & _).
  exists r'. exact E.
Defined.

Lemma write_frames_roundtrip_witness :
  read_frames 4 MAX_INBOUND_FRAME_LEN (MemReader (demo_wire demo_frames) None) =
    (demo_frames, Some (Ok tt)).
Proof.
  eapply (write_frames_roundtrip MAX_INBOUND_FRAME_LEN demo_frames demo_sink);
    [vm_compute; reflexivity | | vm_compute; reflexivity | reflexivity].
  repeat constructor; vm_compute; congruence.
Defined.

Lemma read_frame_bounded_witness :
  frame_fits MAX_INBOUND_FRAME_LEN (mkFrame FRAME_STDIN [x61]).
Proof.
  apply (read_frame_bounded MAX_INBOUND_FRAME_LEN
    (MemReader [x02; x00; x00; x00; x01; x61] None) (MemReader [] None)
    (Ok (Some (mkFrame FRAME_STDIN [x61])))).
  vm_compute. reflexivity.
Defined.

Lemma read_frame_partial_header_is_eof_witness :
  exists r', read_frame MAX_INBOUND_FRAME_LEN (MemReader [x02; x00; x00] None) = (Ok None, r').
Proof.
  apply (read_frame_partial_header_is_eof MAX_INBOUND_FRAME_LEN (MemReader [x02; x00; x00] None));
    [vm_compute; lia | reflexivity].
Defined.

Lemma write_frame_exact_witness :
  exists b1 b2 b3 b4 k,
    u32_from_be_bytes b1 b2 b3 b4 = 5 /\
    written (write_frame FRAME_STDOUT demo_payload (MemWriter [] 7)).2 =
      take k (x10 :: b1 :: b2 :: b3 :: b4 :: demo_payload).
Proof.
  destruct (write_frame_exact FRAME_STDOUT demo_payload (MemWriter [] 7)
    (write_frame FRAME_STDOUT demo_payload (MemWriter [] 7)).2 (Err (Os EPIPE)))
    as [(H & _) | (_ & b1 & b2 & b3 & b4 & k & Hl & Hw & _)].
  - vm_compute. reflexivity.
  - exfalso. vm_compute in H. congruence.
  - exists b1, b2, b3, b4, k. split; [exact Hl | exact Hw].
Defined.

Lemma encode_frames_inj_witness :
  encode_frames demo_frames = encode_frames demo_frames /\ demo_frames = demo_frames.
Proof.
  split; [reflexivity|]. apply (encode_frames_inj demo_frames demo_frames);
    [repeat constructor; vm_compute; congruence.. | reflexivity].
Defined.
