(* ===== verification/FrameTests.v ===== *)
(** * FrameTests: the checks [src/frame.rs] makes of itself

    The compile-time assertions and the unit tests of the framing module, each
    as the boolean its assertions evaluate to, run on the in-memory streams of
    [AsyncIO].  A test's duplex pipe is the byte list its writer leaves. *)

From S2P Require Import Prelude AsyncIO Frame.

(** ** Compile-time assertions *)

Definition const_asserts : bool :=
  (MIN_INBOUND_FRAME_LEN <=? DEFAULT_MAX_INBOUND_FRAME_LEN) && (DEFAULT_MAX_INBOUND_FRAME_LEN <=? MAX_FRAME_LEN).

(** ** Unit tests *)

(** [vec![0u8, 255u8, 1u8, 0u8, 254u8]], then [(0..n).map(|i| (i % 256) as u8)]. *)
Definition large_payload (n : nat) : list byte :=
  [x00; xff; x01; x00; xfe] ++ map (fun i => as_u8 (Z.of_nat i mod 256)) (seq 0 n).

Definition is_eof (res : io_result (option Frame)) : bool :=
  match res with Ok None => true | _ => false end.
Definition is_invalid_data (res : io_result (option Frame)) : bool :=
  match res with Err (Custom InvalidData) => true | _ => false end.

Definition roundtrip_binary_safe_and_large (n : nat) : bool :=
  let p := large_payload n in
  match write_frame FRAME_STDOUT p (OpenSink []) with
  | (Err _, _) => false
  | (Ok _, w) =>
      match read_frame MAX_INBOUND_FRAME_LEN (MemReader (sk_bytes w) None) with
      | (Ok (Some f), r) =>
          bool_decide (ftype f = FRAME_STDOUT) && bool_decide (payload f = p) &&
          is_eof (read_frame MAX_INBOUND_FRAME_LEN r).1
      | _ => false
      end
  end.

Definition inbound_cap_is_clamped_to_sane_bounds (width : Z) : bool :=
  (clamp_inbound 0 =? MIN_INBOUND_FRAME_LEN) && (clamp_inbound 1 =? MIN_INBOUND_FRAME_LEN) &&
  (clamp_inbound (2 ^ width - 1) =? MAX_FRAME_LEN) && (clamp_inbound (2 * 1024 * 1024) =? 2 * 1024 * 1024).

(** A header alone: [hdr[0]], then [hdr[1..5]]. *)
Definition read_header (ft : byte) (len : Z) : io_result (option Frame) :=
  (read_frame MAX_INBOUND_FRAME_LEN (MemReader (ft :: u32_to_be_bytes len) None)).1.

Definition frame_over_default_inbound_cap_is_rejected : bool :=
  is_invalid_data (read_header FRAME_STDIN (2 * 1024 * 1024)).

Definition oversize_len_is_rejected : bool := is_invalid_data (read_header FRAME_STDOUT (2 ^ 32 - 1)).

(** ** Their outcome *)

Example const_asserts_hold : const_asserts = true.
Proof. reflexivity. Qed.

Example clamped_32 : inbound_cap_is_clamped_to_sane_bounds 32 = true.
Proof. reflexivity. Qed.
Example clamped_64 : inbound_cap_is_clamped_to_sane_bounds 64 = true.
Proof. reflexivity. Qed.
Example over_cap_rejected : frame_over_default_inbound_cap_is_rejected = true.
Proof. vm_compute. reflexivity. Qed.
Example oversize_rejected : oversize_len_is_rejected = true.
Proof. vm_compute. reflexivity. Qed.

(** The round trip holds of every payload of the test's form that fits the
    default cap, the test's own 100000 bytes among them. *)
Lemma large_payload_length n : length (large_payload n) = (5 + n)%nat.
Proof. unfold large_payload. by rewrite length_app, length_map, length_seq. Qed.

Lemma roundtrip_large n : Z.of_nat n <= DEFAULT_MAX_INBOUND_FRAME_LEN - 5 -> roundtrip_binary_safe_and_large n = true.
Proof.
  intros Hn. unfold roundtrip_binary_safe_and_large. set (p := large_payload n).
  assert (Hp : Z.of_nat (length p) <= DEFAULT_MAX_INBOUND_FRAME_LEN)
    by (unfold p; rewrite large_payload_length; lia).
  assert (Hfit : frame_fits MAX_FRAME_LEN (mkFrame FRAME_STDOUT p)).
  { unfold frame_fits. cbn [payload]. unfold DEFAULT_MAX_INBOUND_FRAME_LEN, MAX_FRAME_LEN in *. lia. }
  destruct (write_frame FRAME_STDOUT p (OpenSink [])) as [[[]|e] w] eqn:Ew.
  - apply write_frame_written in Ew as [_ Hw]. cbn in Hw.
    destruct (read_frame_encoded MAX_INBOUND_FRAME_LEN (MemReader (sk_bytes w) None) (mkFrame FRAME_STDOUT p) [])
      as (r & -> & Hr & He); [done|exact Hp|by rewrite app_nil_r|].
    cbn [ftype payload]. rewrite !bool_decide_eq_true_2 by done.
    destruct (read_frame_short MAX_INBOUND_FRAME_LEN r) as (r' & ->); [rewrite Hr; cbn; lia|]. by rewrite He.
  - exfalso. revert Ew. unfold write_frame. rewrite (proj2 (Z.ltb_ge _ _)) by exact Hfit. by destruct p.
Qed.

Example roundtrip_100000 : roundtrip_binary_safe_and_large (Z.to_nat 100000) = true.
Proof. apply roundtrip_large. rewrite Z2Nat.id by lia. unfold DEFAULT_MAX_INBOUND_FRAME_LEN. lia. Qed.
