(* ===== verification/Duration.v ===== *)
(** * Duration: time spans and the deadlines built from floating-point seconds

    A [std::time::Duration] is its total number of nanoseconds.  An [f64] is a
    [spec_float] in binary64 ([f64_ok]); [try_from_secs_f64] is the standard
    library's fallible conversion, which rounds to the nearest nanosecond (ties
    to even).  The file then translates the two places that build a deadline:
    [exec] in [src/session.rs] and the default of [src/main.rs]. *)

From Stdlib Require Export Floats.SpecFloat.
From S2P Require Import Prelude.

(** ** Durations *)

Definition NANOS_PER_SEC : Z := 10 ^ 9.
Definition from_secs (s : Z) : Z := s * NANOS_PER_SEC.
Definition from_millis (ms : Z) : Z := ms * 10 ^ 6.

(** What a [Duration] can hold: whole seconds in a [u64]. *)
Definition duration_ok (d : Z) : Prop := 0 <= d < 2 ^ 64 * NANOS_PER_SEC.

(** ** binary64 *)

Abbreviation f64 := spec_float.
Definition f64_ok (x : f64) : Prop := valid_binary 53 1024 x = true.
Definition f64_of_Z (z : Z) : f64 := binary_normalize 53 1024 z 0 false.
Definition f64_zero : f64 := S754_zero false.

Inductive float_secs_error := Negative | Overflow.

(** [n / d] rounded to the nearest integer, ties to even ([0 < d]). *)
Definition round_half_even (n d : Z) : Z :=
  let q := n / d in
  let r := n mod d in
  if 2 * r <? d then q
  else if d <? 2 * r then q + 1
  else if Z.even q then q else q + 1.

Definition try_from_secs_f64 (x : f64) : result Z float_secs_error :=
  match x with
  | S754_zero _ => Ok 0
  | S754_nan => Err Overflow
  | S754_infinity s => Err (if s then Negative else Overflow)
  | S754_finite true _ _ => Err Negative
  | S754_finite false m e =>
      let num := Zpos m * 2 ^ Z.max e 0 in
      let den := 2 ^ Z.max (- e) 0 in
      if 2 ^ 64 <=? num / den then Err Overflow
      else Ok (round_half_even (num * NANOS_PER_SEC) den)
  end.

(** ** The deadline of one [exec]

    Absent: the agent's default.  [s == 0.0]: no cap.  Anything else must
    convert; the refused value is returned for the error message. *)
Definition effective_deadline (default_deadline : option Z) (deadline : option f64) :
    result (option Z) f64 :=
  match deadline with
  | None => Ok default_deadline
  | Some s =>
      if SFeqb s f64_zero then Ok None
      else match try_from_secs_f64 s with
           | Ok d => Ok (Some d)
           | Err _ => Err s
           end
  end.

(** ** The agent's default cap, from the parsed environment variable *)
Definition default_deadline (var : option f64) : option Z :=
  let secs := match var with Some s => s | None => f64_of_Z 3600 end in
  if SFleb secs f64_zero then None
  else Some (match try_from_secs_f64 secs with
             | Ok d => d
             | Err _ => from_secs 3600
             end).

(** ** Rounding *)

Lemma round_half_even_error n d :
  0 < d -> 2 * Z.abs (round_half_even n d * d - n) <= d.
Proof.
  intros Hd. unfold round_half_even.
  pose proof (Z.mod_pos_bound n d Hd). pose proof (Z.div_mod n d ltac:(lia)) as E.
  set (q := n / d) in *. set (r := n mod d) in *.
  destruct (2 * r <? d) eqn:E1; bool_prop; [nia|].
  destruct (d <? 2 * r) eqn:E2; bool_prop; [nia|].
  destruct (Z.even q); nia.
Qed.

Lemma round_half_even_nonneg n d : 0 < d -> 0 <= n -> 0 <= round_half_even n d.
Proof.
  intros Hd Hn. unfold round_half_even. pose proof (Z.div_pos n d Hn Hd).
  repeat case_match; lia.
Qed.

Lemma round_half_even_le n d : 0 < d -> round_half_even n d <= n / d + 1.
Proof. intros Hd. unfold round_half_even. repeat case_match; lia. Qed.

(** ** The conversion *)

(** [x] is the positive real [num / den]. *)
Definition f64_value (x : f64) (num den : Z) : Prop :=
  match x with
  | S754_finite false m e => num = Zpos m * 2 ^ Z.max e 0 /\ den = 2 ^ Z.max (- e) 0
  | _ => False
  end.

Lemma f64_value_finite m e :
  f64_value (S754_finite false m e) (Zpos m * 2 ^ Z.max e 0) (2 ^ Z.max (- e) 0).
Proof. done. Qed.

Lemma f64_value_pos x num den : f64_value x num den -> 0 < num /\ 0 < den.
Proof.
  destruct x as [| | |[] m e]; try done. intros [-> ->].
  split; [apply Z.mul_pos_pos; [done|]|]; apply Z.pow_pos_nonneg; lia.
Qed.

Lemma try_from_secs_f64_pos x num den :
  f64_value x num den ->
  try_from_secs_f64 x =
    if 2 ^ 64 <=? num / den then Err Overflow
    else Ok (round_half_even (num * NANOS_PER_SEC) den).
Proof. destruct x as [| | |[] m e]; try done. by intros [-> ->]. Qed.

(** A finite binary64 value is below [2 ^ 53] or is an integer. *)
Lemma f64_small_or_integer m e :
  f64_ok (S754_finite false m e) -> Zpos m < 2 ^ 53.
Proof.
  unfold f64_ok. cbn [valid_binary]. unfold bounded, canonical_mantissa.
  intros [H1 H2]%andb_true_iff. apply Z.eqb_eq in H1. clear H2.
  unfold fexp, emin in H1.
  assert (Hd : Zpos (digits2_pos m) <= 53) by lia. clear H1.
  assert (Hm : forall p, Zpos p < 2 ^ Zpos (digits2_pos p)).
  { induction p as [p IH|p IH|]; cbn [digits2_pos]; [| |done];
      rewrite Pos2Z.inj_succ, Z.pow_succ_r by lia; lia. }
  apply (Z.lt_le_trans _ _ _ (Hm m)). apply Z.pow_le_mono_r; lia.
Qed.

Lemma try_from_secs_f64_ok x d :
  f64_ok x -> try_from_secs_f64 x = Ok d -> duration_ok d.
Proof.
  intros Hok. destruct x as [s|s| |[] m e]; try done.
  - intros [= <-]. split; vm_compute; congruence.
  - rewrite (try_from_secs_f64_pos _ _ _ (f64_value_finite m e)).
    destruct (2 ^ 64 <=? _) eqn:E; [done|]. bool_prop. intros [= <-].
    pose proof (f64_small_or_integer _ _ Hok) as Hm.
    unfold duration_ok. destruct (Z.le_gt_cases 0 e) as [He | He].
    + rewrite !(Z.max_r (- e) 0), !(Z.max_l e 0) in * by lia. change (2 ^ 0) with 1 in *.
      rewrite Z.div_1_r in E. unfold round_half_even.
      rewrite Z.div_1_r, Z.mod_1_r. change (2 * 0 <? 1) with true. cbv iota zeta.
      assert (0 <= Zpos m * 2 ^ e) by (apply Z.mul_nonneg_nonneg; [done | apply Z.pow_nonneg; lia]).
      unfold NANOS_PER_SEC. lia.
    + rewrite !(Z.max_l (- e) 0), !(Z.max_r e 0) in * by lia.
      change (2 ^ 0) with 1 in *. rewrite !Z.mul_1_r in *.
      assert (Hp : 0 < 2 ^ (- e)) by (apply Z.pow_pos_nonneg; lia).
      split; [apply round_half_even_nonneg; unfold NANOS_PER_SEC; lia|].
      pose proof (round_half_even_le (Zpos m * NANOS_PER_SEC) _ Hp) as Hr.
      assert (Zpos m * NANOS_PER_SEC / 2 ^ (- e) <= Zpos m * NANOS_PER_SEC).
      { apply Z.div_le_upper_bound; [done|]. unfold NANOS_PER_SEC. nia. }
      unfold NANOS_PER_SEC in *. lia.
Qed.

Lemma try_from_secs_f64_nonneg x d : try_from_secs_f64 x = Ok d -> 0 <= d.
Proof.
  destruct x as [s|s| |[] m e]; try done; [by intros [= <-]|].
  pose proof (f64_value_pos _ _ _ (f64_value_finite m e)) as [Hn Hd].
  rewrite (try_from_secs_f64_pos _ _ _ (f64_value_finite m e)).
  case_match; [done|]. intros [= <-].
  apply round_half_even_nonneg; [done|]. unfold NANOS_PER_SEC. lia.
Qed.

Lemma effective_deadline_nonneg dflt x d :
  (forall d', dflt = Some d' -> 0 <= d') -> effective_deadline dflt x = Ok (Some d) -> 0 <= d.
Proof.
  intros Hd. unfold effective_deadline. destruct x as [x|]; [|intros [= ?]; auto].
  case_match; [done|]. destruct (try_from_secs_f64 x) as [d'|] eqn:E; [|done].
  intros [= <-]. by eapply try_from_secs_f64_nonneg.
Qed.

(** ** Properties *)

(** C33 The deadline of a request is resolved exactly as documented, for every
    binary64 value: absent takes the default; plus or minus zero means no cap;
    a positive value below [2^64] seconds gives a representable duration within
    half a nanosecond of it; everything else -- NaN, infinities, negatives and
    magnitudes that overflow -- is refused with the value itself. *)
Theorem effective_deadline_policy dflt x num den :
  f64_ok x ->
  effective_deadline dflt None = Ok dflt /\
  (effective_deadline dflt (Some x) = Ok None <-> exists s, x = S754_zero s) /\
  (f64_value x num den -> num < 2 ^ 64 * den ->
   exists d, effective_deadline dflt (Some x) = Ok (Some d) /\ duration_ok d /\
     2 * Z.abs (d * den - num * NANOS_PER_SEC) <= den) /\
  ((forall s, x <> S754_zero s) ->
   (forall n d, f64_value x n d -> 2 ^ 64 * d <= n) ->
   effective_deadline dflt (Some x) = Err x).
Proof.
  intros Hok. split; [done|]. split_and!.
  - unfold effective_deadline. split; [|by intros [[] ->]].
    destruct x as [s|s| |s m e]; [by exists s | by destruct s | done |].
    replace (SFeqb _ _) with false by (by destruct s).
    by destruct (try_from_secs_f64 _).
  - intros Hv Hlt. pose proof (f64_value_pos _ _ _ Hv) as [Hn Hd].
    pose proof (try_from_secs_f64_pos _ _ _ Hv) as E.
    rewrite (proj2 (Z.leb_gt _ _)) in E by (apply Z.div_lt_upper_bound; lia).
    eexists. unfold effective_deadline.
    replace (SFeqb x f64_zero) with false by (by destruct x as [| | |[]]).
    rewrite E. split; [done|]. split; [by eapply try_from_secs_f64_ok|].
    by apply round_half_even_error.
  - intros Hz Hv. unfold effective_deadline.
    destruct x as [s|s| |[] m e]; [by destruct (Hz s) | by destruct s | done | done |].
    specialize (Hv _ _ (f64_value_finite m e)).
    rewrite (try_from_secs_f64_pos _ _ _ (f64_value_finite m e)).
    rewrite (proj2 (Z.leb_le _ _)); [done|].
    apply Z.div_le_lower_bound; [apply Z.pow_pos_nonneg; lia | lia].
Qed.

(** C34 Whatever [GUESTHOPPER_COMMAND_TIMEOUT_SECS] parses to, the default cap
    is computed without a panic: a value at or below zero disables it, a
    NaN or a value that does not fit a [Duration] falls back to one hour, and
    an unset or unparsable variable is one hour. *)
Theorem default_deadline_total x :
  f64_ok x ->
  default_deadline None = Some (from_secs 3600) /\
  match default_deadline (Some x) with
  | None => SFleb x f64_zero = true
  | Some d => duration_ok d /\ SFleb x f64_zero = false /\
      (try_from_secs_f64 x = Ok d \/
       is_ok (try_from_secs_f64 x) = false /\ d = from_secs 3600)
  end.
Proof.
  intros Hok. split; [by vm_compute|]. unfold default_deadline.
  destruct (SFleb x f64_zero) eqn:E; [done|].
  destruct (try_from_secs_f64 x) as [d|e] eqn:Et.
  - split; [by eapply try_from_secs_f64_ok|]. auto.
  - split; [|auto]. split; vm_compute; congruence.
Qed.

Lemma effective_deadline_policy_witness :
  f64_ok (f64_of_Z 3) /\
  effective_deadline None (Some (f64_of_Z 3)) = Ok (Some (from_secs 3)) /\
  exists d, effective_deadline None (Some (f64_of_Z 3)) = Ok (Some d) /\ duration_ok d /\
    2 * Z.abs (d * 2 ^ 51 - (3 * 2 ^ 51) * NANOS_PER_SEC) <= 2 ^ 51.
Proof.
  split; [reflexivity|]. split; [vm_compute; reflexivity|].
  apply (effective_deadline_policy None (f64_of_Z 3) (3 * 2 ^ 51) (2 ^ 51));
    [reflexivity | by vm_compute | by vm_compute].
Defined.

Lemma default_deadline_total_witness :
  default_deadline (Some (f64_of_Z 90)) = Some (from_secs 90) /\
  default_deadline None = Some (from_secs 3600).
Proof.
  split; [by vm_compute|]. apply (default_deadline_total (f64_of_Z 90)). reflexivity.
Defined.
