(* ===== verification/Status.v ===== *)
(** * Status: how a child ended, and how it is signalled

    The exit-reporting and signalling helpers of [src/session.rs]:
    [exit_fields], [kill_group] and the bound of [reap_bounded].  An
    [ExitStatus] is the raw wait status word, read with the [wait(2)] macros
    the standard library uses for [code()] and [signal()]. *)

From S2P Require Import Prelude Duration.

(** ** Wait status words *)

Definition as_i8 (z : Z) : Z := (z + 128) mod 256 - 128.

Definition WIFEXITED (s : Z) : bool := Z.land s 127 =? 0.
Definition WEXITSTATUS (s : Z) : Z := Z.land (Z.shiftr s 8) 255.
Definition WIFSIGNALED (s : Z) : bool := 2 <=? as_i8 (Z.land s 127 + 1).
Definition WTERMSIG (s : Z) : Z := Z.land s 127.

(** [ExitStatus::code] and [ExitStatusExt::signal]. *)
Definition status_code (s : Z) : option Z :=
  if WIFEXITED s then Some (WEXITSTATUS s) else None.
Definition status_signal (s : Z) : option Z :=
  if WIFSIGNALED s then Some (WTERMSIG s) else None.

(** The status words of a normal exit and of a death by signal. *)
Definition exited_status (code : Z) : Z := Z.shiftl code 8.
Definition signaled_status (sig : Z) (core : bool) : Z := sig + (if core then 128 else 0).

(** ** [exit_fields] *)

Definition or_override (reason_override reason : string) : string :=
  if bool_decide (reason_override = "") then reason else reason_override.

Definition exit_fields (status : io_result Z) (reason_override : string) : Z * string :=
  match status with
  | Ok s =>
      match status_code s with
      | Some code => (code, or_override reason_override "exited")
      | None =>
          match status_signal s with
          | Some sig => (128 + sig, or_override reason_override "signaled")
          | None => (-1, or_override reason_override "exited")
          end
      end
  | Err _ => (-1, "error")
  end.

(** ** Signals *)

Definition SIGHUP : Z := 1.
Definition SIGKILL : Z := 9.

(** One [kill(2)] call: the target and the signal. *)
Definition kill_call : Type := Z * Z.

(** [kill(-(pid as pid_t), sig)]: the whole group of the child. *)
Definition signal_group (pid : option Z) (sig : Z) : list kill_call :=
  match pid with
  | Some pid => [(- as_i32 pid, sig)]
  | None => []
  end.

Definition kill_group (pid : option Z) : list kill_call := signal_group pid SIGKILL.

(** ** Bounded reaping *)

Definition REAP_GRACE : Z := from_secs 5.

Inductive child_state :=
| ChildRunning
| ChildZombie (status : Z)
| ChildReaped.

(** The child exits, once: its status waits to be reaped. *)
Definition child_exits (s : Z) (ch : child_state) : child_state :=
  match ch with ChildRunning => ChildZombie s | _ => ch end.

(** One poll, at time [now], of [timeout(limit, child.wait())] armed at
    [since]: the wait is polled before the timer, and an elapsed timer is the
    synthetic [TimedOut] error. [None] is pending. *)
Definition poll_reap (limit now since : Z) (child : child_state) :
    option (io_result Z * child_state) :=
  match child with
  | ChildZombie s => Some (Ok s, ChildReaped)
  | _ => if since + limit <=? now then Some (Err (Custom TimedOut), child) else None
  end.

Definition reap_bounded (now since : Z) (child : child_state) :
    option (io_result Z * child_state) := poll_reap REAP_GRACE now since child.

(** ** Lemmas *)

Lemma land_127_mod s : Z.land s 127 = s mod 128.
Proof. change 127 with (Z.ones 7). by rewrite Z.land_ones. Qed.

Lemma land_255_mod s : Z.land s 255 = s mod 256.
Proof. change 255 with (Z.ones 8). by rewrite Z.land_ones. Qed.

Lemma WEXITSTATUS_range s : 0 <= WEXITSTATUS s <= 255.
Proof. unfold WEXITSTATUS. rewrite land_255_mod. pose proof (Z.mod_pos_bound (Z.shiftr s 8) 256 eq_refl). lia. Qed.

Lemma WIFSIGNALED_spec s : WIFSIGNALED s = true <-> 1 <= WTERMSIG s <= 126.
Proof.
  unfold WIFSIGNALED, WTERMSIG, as_i8. rewrite land_127_mod, Z.leb_le.
  pose proof (Z.mod_pos_bound s 128 eq_refl) as Hb. revert Hb.
  generalize (s mod 128). intros z Hz.
  Z.to_euclidean_division_equations. lia.
Qed.

Lemma status_code_exited code :
  0 <= code <= 255 -> status_code (exited_status code) = Some code.
Proof.
  intros Hc. unfold status_code, WIFEXITED, WEXITSTATUS, exited_status.
  rewrite land_127_mod, land_255_mod, Z.shiftl_mul_pow2, Z.shiftr_div_pow2 by lia.
  rewrite Z.div_mul, (Z.mod_small code) by lia.
  replace ((code * 2 ^ 8) mod 128) with 0; [done|].
  symmetry. apply Z.mod_divide; [lia|]. exists (code * 2). lia.
Qed.

Lemma status_signaled sig core :
  1 <= sig <= 126 ->
  status_code (signaled_status sig core) = None /\
  status_signal (signaled_status sig core) = Some sig.
Proof.
  intros Hs.
  assert (Hm : Z.land (signaled_status sig core) 127 = sig).
  { unfold signaled_status. rewrite land_127_mod. destruct core.
    - replace (sig + 128) with (sig + 1 * 128) by lia. rewrite Z.mod_add, Z.mod_small by lia. done.
    - rewrite Z.add_0_r, Z.mod_small by lia. done. }
  unfold status_code, WIFEXITED. rewrite Hm.
  split; [by rewrite (proj2 (Z.eqb_neq _ _)) by lia|].
  unfold status_signal. assert (HW : WIFSIGNALED (signaled_status sig core) = true).
  { apply WIFSIGNALED_spec. unfold WTERMSIG. lia. }
  rewrite HW. unfold WTERMSIG. by rewrite Hm.
Qed.

(** ** Properties *)

(** C32 The EXIT fields report how the child ended: an exit status is reported
    as itself, a death by signal as 128 plus the signal, a teardown reason
    ("timeout", "disconnected") replaces "exited" and "signaled" but never
    changes the code, and a child that could not be reaped is (-1, "error")
    whatever the teardown reason was. *)
Theorem exit_fields_report code sig core ov e :
  0 <= code <= 255 -> 1 <= sig <= 126 ->
  exit_fields (Ok (exited_status code)) "" = (code, "exited") /\
  exit_fields (Ok (signaled_status sig core)) "" = (128 + sig, "signaled") /\
  exit_fields (Err e) ov = (-1, "error") /\
  (ov <> "" ->
   exit_fields (Ok (exited_status code)) ov = (code, ov) /\
   exit_fields (Ok (signaled_status sig core)) ov = (128 + sig, ov)).
Proof.
  intros Hc Hs. unfold exit_fields.
  rewrite (status_code_exited _ Hc).
  destruct (status_signaled sig core Hs) as [-> ->].
  split_and!; [done..|]. intros Hov. unfold or_override.
  by rewrite bool_decide_eq_false_2.
Qed.

(** The code of an EXIT frame is in range for every status word: an exit
    status (0 to 255), 128 plus a signal (129 to 254), or -1, and -1 is used
    only when the child neither exited nor was killed by a signal. *)
Theorem exit_fields_code_range st ov :
  let '(code, _) := exit_fields st ov in
  -1 <= code <= 255 /\
  (code = -1 <-> match st with
                 | Ok s => status_code s = None /\ status_signal s = None
                 | Err _ => True
                 end).
Proof.
  unfold exit_fields. destruct st as [s|e]; [|by split].
  destruct (status_code s) as [c|] eqn:E.
  - unfold status_code in E. pose proof (WEXITSTATUS_range s). case_match; simplify_eq.
    split; [lia|]. split; [lia | by intros []].
  - destruct (status_signal s) as [g|] eqn:E2; [|by split].
    unfold status_signal in E2. destruct (WIFSIGNALED s) eqn:Ew; [|done].
    apply WIFSIGNALED_spec in Ew. simplify_eq.
    split; [lia|]. split; [lia | by intros []].
Qed.

(** For every pid a child can have the target is the negated pid. *)
Lemma kill_group_target pid : 1 < pid < 2 ^ 31 -> kill_group (Some pid) = [(- pid, SIGKILL)].
Proof.
  intros Hp. cbn. unfold as_i32. rewrite Z.mod_small by lia.
  by replace (pid + 2 ^ 31 - 2 ^ 31) with pid by lia.
Qed.

Lemma exit_fields_report_witness :
  0 <= 3 <= 255 /\ exit_fields (Ok (signaled_status SIGKILL false)) "timeout" = (137, "timeout").
Proof.
  split; [lia|].
  apply (exit_fields_report 3 SIGKILL false "timeout" (Custom TimedOut));
    [lia | unfold SIGKILL; lia | discriminate].
Defined.
