(* ===== verification/Request.v ===== *)
(** * Request: the control plane of a session

    The JSON requests of [src/session.rs] and the messages the agent answers
    with.  [serde_json] is third-party code and the [Display] and [Debug] of
    foreign values are not the program's: both are class parameters. *)

From S2P Require Import Prelude Duration Frame.

(** ** Requests *)

Record Request := mkRequest {
  verb : string;
  cmd : option string;
  deadline : option f64;
  rows : option Z;
  cols : option Z;
}.

Record Resize := mkResize { rs_rows : Z; rs_cols : Z }.

(** [serde_json]: parsing, with the error's text, and printing of the two
    payloads the agent emits, [{"message"}] and [{"code", "reason"}]. *)
Class Json := {
  from_slice_request : list byte -> result Request string;
  from_slice_resize : list byte -> result Resize string;
  to_vec_message : string -> result (list byte) string;
  to_vec_exit : Z -> string -> result (list byte) string;
}.

(** [Display] of [f64] and of [io::Error], and [Debug] of [str]. *)
Class Fmt := {
  fmt_f64 : f64 -> string;
  fmt_io_error : io_error -> string;
  fmt_debug_str : string -> string;
}.

(** ** Messages *)

(** [serde_json::to_vec(..).unwrap_or_else(|_| Vec::new())]. *)
Definition error_frame `{!Json} (msg : string) : Frame :=
  mkFrame FRAME_ERROR (match to_vec_message msg with Ok v => v | Err _ => [] end).

Definition invalid_deadline_msg `{!Fmt} (s : f64) : string :=
  "invalid deadline " +:+ fmt_f64 s +:+ ": must be finite, >= 0, and in range".

Definition invalid_request_msg (e : string) : string := "invalid REQUEST json: " +:+ e.
Definition expected_request_msg : string := "expected a REQUEST frame first".
Definition unsupported_verb_msg `{!Fmt} (v : string) : string :=
  "unsupported verb: " +:+ fmt_debug_str v.
Definition session_error_msg (e : string) : string := "session error: " +:+ e.

(** ** What the first frame asks for: the start of [drive] *)

Inductive first_action :=
| RunExec (req : Request)
| RunPty (req : Request)
| Refuse (msg : string)          (* send_error, then Ok(()) *)
| PeerClosed                     (* Ok(()) *)
| ReadFailed (e : io_error).     (* the [?] on the read *)

Definition dispatch `{!Json, !Fmt} (first : io_result (option Frame)) : first_action :=
  match first with
  | Err e => ReadFailed e
  | Ok (Some f) =>
      if bool_decide (ftype f = FRAME_REQUEST) then
        match from_slice_request (payload f) with
        | Ok req =>
            if bool_decide (verb req = "exec") then RunExec req
            else if bool_decide (verb req = "open-pty") then RunPty req
            else Refuse (unsupported_verb_msg (verb req))
        | Err e => Refuse (invalid_request_msg e)
        end
      else Refuse expected_request_msg
  | Ok None => PeerClosed
  end.

(** ** Properties *)

Section properties.
Context `{!Json, !Fmt}.

(** C35 A command or a shell is started only by a first frame of type
    REQUEST whose payload parses and names the verb exactly; any other
    first frame is answered with an error, and no first frame at all ends
    the session silently or with the read's error. *)
Theorem dispatch_runs_only_requests first req :
  (dispatch first = RunExec req <->
   exists p, first = Ok (Some (mkFrame FRAME_REQUEST p)) /\
     from_slice_request p = Ok req /\ verb req = "exec") /\
  (dispatch first = RunPty req <->
   exists p, first = Ok (Some (mkFrame FRAME_REQUEST p)) /\
     from_slice_request p = Ok req /\ verb req = "open-pty") /\
  (forall f, first = Ok (Some f) ->
     match dispatch first with
     | RunExec _ | RunPty _ | Refuse _ => True
     | PeerClosed | ReadFailed _ => False
     end).
Proof.
  unfold dispatch. split_and!.
  - split.
    + intros Hd. repeat (case_match || case_bool_decide); simplify_eq.
      destruct f as [ft p]; cbn in *; subst. eauto.
    + intros (p & -> & E & Hv). cbn. by rewrite bool_decide_eq_true_2, E, bool_decide_eq_true_2.
  - split.
    + intros Hd. repeat (case_match || case_bool_decide); simplify_eq.
      destruct f as [ft p]; cbn in *; subst. eauto.
    + intros (p & -> & E & Hv). cbn. rewrite bool_decide_eq_true_2, E by done.
      rewrite bool_decide_eq_false_2 by (by rewrite Hv). by rewrite bool_decide_eq_true_2.
  - intros f ->. by repeat (case_match || case_bool_decide).
Qed.
End properties.
