(* ===== verification/Shell.v ===== *)
(** * Shell: which program a verb runs, and the long-command warning

    The shell resolution shared by [exec] and [open_pty] in [src/session.rs]
    ([shlex] is third-party code: its [split] is a parameter), the commands
    the two verbs build, and [warn_long_command] with its process-global
    flag. *)

From S2P Require Import Prelude.

(** ** Shell resolution *)

(** [str::ends_with]. *)
Definition ends_with (suffix s : string) : bool :=
  String.eqb suffix
    (String.substring (String.length s - String.length suffix) (String.length suffix) s)
  && (String.length suffix <=? String.length s)%nat.

Record shell_cmd := mkShell { program : string; extra : list string; arg0 : string }.

Class Shlex := shlex_split : string -> option (list string).

Definition resolve_shell `{!Shlex} (shell : string) : shell_cmd :=
  let parts := default [] (shlex_split shell) in
  let '(p, ex) := match parts with
                  | p :: rest => (p, rest)
                  | [] => ("/bin/sh", [])
                  end in
  mkShell p ex (if ends_with "sh" p then p else "sh").

(** ** Commands *)

Inductive stdio := Piped | PtySlave.

Record command := mkCommand {
  c_program : string;
  c_argv : list string;          (* argv, argv[0] first *)
  c_stdio : stdio;
  c_process_group : option Z;    (* process_group(0) *)
  c_setsid : bool;               (* the pre-exec hook: setsid + TIOCSCTTY *)
}.

(** [exec]: [-c <cmd>] after the shell's own arguments, piped, its own group. *)
Definition exec_command `{!Shlex} (shell cmd : string) : command :=
  let sh := resolve_shell shell in
  mkCommand (program sh) (arg0 sh :: extra sh ++ ["-c"; cmd]) Piped (Some 0) false.

(** [open_pty]: the shell alone, on the slave, leading its own session. *)
Definition pty_command `{!Shlex} (shell : string) : command :=
  let sh := resolve_shell shell in
  mkCommand (program sh) (arg0 sh :: extra sh) PtySlave None true.

(** ** The long-command warning *)

Definition LONG_COMMAND_THRESHOLD : nat := 2048.

Definition long_command_warning : string :=
  "[IGLOO] warning: long guest command detected; consider putting large " +:+
  "commands in static_files, init.d, or the shared results directory instead." +:+
  String (Ascii.ascii_of_nat 10) EmptyString.

(** The new value of [LONG_COMMAND_WARNED], and the text handed to the blocking
    writer of the guest console, if any. *)
Definition warn_long_command (warned : bool) (command : string) : bool * option string :=
  if (String.length command <? LONG_COMMAND_THRESHOLD)%nat then (warned, None)
  else if warned then (true, None)
  else (true, Some long_command_warning).

(** The commands of a run of the agent, in the order their sessions reach the
    check; the result holds the console lines. *)
Fixpoint warn_all (warned : bool) (cmds : list string) : bool * list string :=
  match cmds with
  | [] => (warned, [])
  | c :: cs =>
      let '(w, line) := warn_long_command warned c in
      let '(w', lines) := warn_all w cs in
      (w', option_list line ++ lines)
  end.

(** ** Lemmas *)

Lemma warn_all_after cmds : warn_all true cmds = (true, []).
Proof.
  induction cmds as [|c cs IH]; [done|]. cbn [warn_all]. unfold warn_long_command.
  destruct (_ <? _)%nat; by rewrite IH.
Qed.

Definition long_command (c : string) : Prop := (LONG_COMMAND_THRESHOLD <= String.length c)%nat.

Lemma warn_long_command_first c :
  warn_long_command false c =
    if decide (long_command c) then (true, Some long_command_warning) else (false, None).
Proof.
  unfold warn_long_command, long_command.
  destruct (Nat.ltb_spec (String.length c) LONG_COMMAND_THRESHOLD);
    case_decide; first [done | lia].
Qed.

(** ** Properties *)

(** C37 Over the whole life of the agent the console warning is written at
    most once, and it is written exactly when some command reaches the
    threshold, whatever the order of the commands. *)
Theorem warn_long_command_once cmds :
  warn_all false cmds =
    if decide (Exists long_command cmds) then (true, [long_command_warning]) else (false, []).
Proof.
  induction cmds as [|c cs IH]; [done|]. cbn [warn_all].
  rewrite warn_long_command_first. destruct (decide (long_command c)) as [Hc|Hc]; cbn -[long_command_warning].
  - rewrite warn_all_after. rewrite decide_True; [done | by apply Exists_cons_hd].
  - rewrite IH. case_decide as He; cbn -[long_command_warning].
    + by rewrite decide_True by (by apply Exists_cons_tl).
    + rewrite decide_False; [done|]. rewrite Exists_cons. tauto.
Qed.

Section properties.
Context `{!Shlex}.

(** C36 For every configured shell string the command of an [exec] is a
    non-empty argv whose last two words are [-c] and the request's text
    verbatim; [argv[0]] ends in "sh"; a string that [shlex] rejects or splits
    into nothing runs /bin/sh; and the child leads a process group of its own,
    so that signalling the group cannot reach the agent. *)
Theorem exec_command_wellformed shell cmd :
  let c := exec_command shell cmd in
  (exists a0 mid, c_argv c = a0 :: mid ++ ["-c"; cmd] /\ ends_with "sh" a0 = true) /\
  (default [] (shlex_split shell) = [] -> c_program c = "/bin/sh" /\
     c_argv c = ["/bin/sh"; "-c"; cmd]) /\
  (forall p rest, shlex_split shell = Some (p :: rest) -> c_program c = p /\
     drop 1 (c_argv c) = rest ++ ["-c"; cmd]) /\
  c_process_group c = Some 0.
Proof.
  unfold exec_command, resolve_shell. split_and!.
  - do 2 eexists. split; [reflexivity|].
    destruct (default [] (shlex_split shell)) as [|p rest]; [by vm_compute|].
    cbn. by destruct (ends_with "sh" p) eqn:E.
  - by intros ->.
  - by intros p rest ->.
  - done.
Qed.
End properties.
