(* ===== verification/Outbound.v ===== *)
(** * Outbound: the bounded channel and the writer task of a session

    [run_session] in [src/session.rs] gives the write half of the connection to
    one writer task; every producer sends frames through a bounded channel.
    The file translates the channel's use ([send], [send_error]'s hand-off) and
    the writer task's loop, one poll at a time.  tokio's mpsc channel is
    third-party code: it is the interface [Mpsc], with a list implementation
    for the concrete runs.

    The [Cancel] flag of the session is [ob_cancel]; [Cancel.v] proves that
    [fire] and [wait] behave as this flag does. *)

From S2P Require Import Prelude AsyncIO Frame.

Definition CHANNEL_BOUND : nat := 64.

(** ** The bounded channel *)

Class Mpsc (C : Type) := {
  mpsc_channel : nat -> C;
  try_send : Frame -> C -> option C;     (* [None]: full, the sender waits *)
  try_recv : C -> option (Frame * C);    (* [None]: empty *)
}.

Class MpscView (C : Type) := {
  queued : C -> list Frame;
  bound : C -> nat;
}.

Class MpscSpec (C : Type) `{!Mpsc C, !MpscView C} : Prop := {
  mpsc_channel_new n : queued (mpsc_channel n) = [] /\ bound (mpsc_channel n) = n;
  try_send_room f c :
    (length (queued c) < bound c)%nat ->
    exists c', try_send f c = Some c' /\ queued c' = queued c ++ [f] /\ bound c' = bound c;
  try_send_full f c : (bound c <= length (queued c))%nat -> try_send f c = None;
  try_recv_some f l c :
    queued c = f :: l ->
    exists c', try_recv c = Some (f, c') /\ queued c' = l /\ bound c' = bound c;
  try_recv_none c : queued c = [] -> try_recv c = None;
}.

Record list_chan := ListChan { lc_queue : list Frame; lc_bound : nat }.

#[export] Instance list_Mpsc : Mpsc list_chan := {
  mpsc_channel n := ListChan [] n;
  try_send f c :=
    if (length (lc_queue c) <? lc_bound c)%nat
    then Some (ListChan (lc_queue c ++ [f]) (lc_bound c)) else None;
  try_recv c :=
    match lc_queue c with [] => None | f :: l => Some (f, ListChan l (lc_bound c)) end;
}.
#[export] Instance list_MpscView : MpscView list_chan :=
  { queued := lc_queue; bound := lc_bound }.
#[export] Instance list_MpscSpec : MpscSpec list_chan.
Proof.
  split.
  - done.
  - intros f c Hl. simpl in *. rewrite (proj2 (Nat.ltb_lt _ _) Hl). eauto.
  - intros f c Hl. simpl in *. by rewrite (proj2 (Nat.ltb_ge _ _) Hl).
  - intros f l [q b] Hq. simpl in *. subst. eauto.
  - intros [q b] Hq. simpl in *. by subst.
Qed.

(** ** State *)

(** What the environment decides when a task is polled: whether the I/O the
    task waits for completes in this poll, and, when a write is abandoned
    instead, how many of its bytes were taken. *)
Record poll_env := PollEnv { io_ready : bool; io_taken : nat }.
Definition parked_env : poll_env := PollEnv false 0.

Inductive writer_state :=
| WRecv                              (* in rx.recv() *)
| WWriting (f : Frame) (since : Z)   (* in timeout(write_timeout, write_frame(..)) *)
| WDone.                             (* task over, receiver dropped *)

Record outbound (C W : Type) := Outbound {
  ob_chan : C;
  ob_senders : nat;                  (* live clones of tx *)
  ob_writer : writer_state;
  ob_sink : W;
  ob_cancel : bool;                  (* Cancel.fired *)
}.
Arguments Outbound {C W} _ _ _ _ _.
Arguments ob_chan {C W} _.
Arguments ob_senders {C W} _.
Arguments ob_writer {C W} _.
Arguments ob_sink {C W} _.
Arguments ob_cancel {C W} _.

Section ops.
Context {C W : Type} `{!Mpsc C, !AsyncWrite W}.
Implicit Type ob : outbound C W.

Definition new_outbound (w : W) : outbound C W :=
  Outbound (mpsc_channel CHANNEL_BOUND) 1 WRecv w false.

Definition fire ob : outbound C W :=
  Outbound (ob_chan ob) (ob_senders ob) (ob_writer ob) (ob_sink ob) true.
Definition clone_sender ob : outbound C W :=
  Outbound (ob_chan ob) (S (ob_senders ob)) (ob_writer ob) (ob_sink ob) (ob_cancel ob).
Definition drop_sender ob : outbound C W :=
  Outbound (ob_chan ob) (pred (ob_senders ob)) (ob_writer ob) (ob_sink ob) (ob_cancel ob).
Definition set_writer (st : writer_state) ob : outbound C W :=
  Outbound (ob_chan ob) (ob_senders ob) st (ob_sink ob) (ob_cancel ob).
Definition set_chan (c : C) ob : outbound C W :=
  Outbound c (ob_senders ob) (ob_writer ob) (ob_sink ob) (ob_cancel ob).
Definition set_sink (w : W) ob : outbound C W :=
  Outbound (ob_chan ob) (ob_senders ob) (ob_writer ob) w (ob_cancel ob).

Definition receiver_gone ob : bool :=
  match ob_writer ob with WDone => true | _ => false end.

(** One poll of [tx.send(f).await]: [None] while the queue is full; the flag
    tells whether the frame was queued ([Ok]) or the receiver is gone. *)
Definition poll_send (f : Frame) ob : option (bool * outbound C W) :=
  if receiver_gone ob then Some (false, ob)
  else match try_send f (ob_chan ob) with
       | Some c' => Some (true, set_chan c' ob)
       | None => None
       end.

(** One poll of the writer task at time [now]; [None] when it stays parked.
    Both selects are biased: the cancel flag is looked at first. *)
Definition poll_writer (write_timeout now : Z) (env : poll_env) ob :
    option (outbound C W) :=
  match ob_writer ob with
  | WRecv =>
      if ob_cancel ob then Some (set_writer WDone ob)
      else match try_recv (ob_chan ob) with
           | Some (f, c') => Some (set_writer (WWriting f now) (set_chan c' ob))
           | None => if (ob_senders ob =? 0)%nat then Some (set_writer WDone ob) else None
           end
  | WWriting f since =>
      let abandoned :=
        set_sink (write_frame_dropped (ftype f) (payload f) (io_taken env) (ob_sink ob)) ob in
      if ob_cancel ob then Some (set_writer WDone abandoned)
      else if io_ready env then
        match write_frame (ftype f) (payload f) (ob_sink ob) with
        | (Ok _, w') => Some (set_writer WRecv (set_sink w' ob))
        | (Err _, w') => Some (set_writer WDone (fire (set_sink w' ob)))
        end
      else if since + write_timeout <=? now
      then Some (set_writer WDone (fire abandoned))
      else None
  | WDone => None
  end.
End ops.

(** ** What is on the wire *)

Section invariant.
Context {C W : Type} `{MpscSpec C, AsyncWriteSpec W}.
Implicit Type ob : outbound C W.

(** [log] is every frame the channel accepted, in order.  While the writer
    lives, the frames on the wire, the one in its hands and the queue are
    the log; once it is gone the wire holds a prefix of the log's encoding,
    and all of it unless the session was cancelled. *)
Definition wire_inv (log : list Frame) ob : Prop :=
  bound (ob_chan ob) = CHANNEL_BOUND /\
  (length (queued (ob_chan ob)) <= CHANNEL_BOUND)%nat /\
  match ob_writer ob with
  | WRecv => exists fs, written (ob_sink ob) = encode_frames fs /\
      log = fs ++ queued (ob_chan ob)
  | WWriting f _ => exists fs, written (ob_sink ob) = encode_frames fs /\
      log = fs ++ f :: queued (ob_chan ob)
  | WDone => written (ob_sink ob) `prefix_of` encode_frames log /\
      (ob_cancel ob = false -> written (ob_sink ob) = encode_frames log)
  end.

Lemma wire_inv_new w : written w = [] -> wire_inv [] (new_outbound w).
Proof.
  intros Hw. unfold wire_inv, new_outbound; cbn.
  destruct (mpsc_channel_new (C := C) CHANNEL_BOUND) as [Hq Hb]. rewrite Hq, Hb.
  split_and!; [done | simpl; lia |]. by exists [].
Qed.

Lemma wire_inv_fire log ob : wire_inv log ob -> wire_inv log (fire ob).
Proof.
  unfold wire_inv; cbn. destruct (ob_writer ob); [done..|].
  intros (? & ? & Hw & _). by split_and!.
Qed.
Lemma wire_inv_clone log ob : wire_inv log ob -> wire_inv log (clone_sender ob).
Proof. done. Qed.
Lemma wire_inv_drop log ob : wire_inv log ob -> wire_inv log (drop_sender ob).
Proof. done. Qed.

Lemma wire_inv_send log ob f q ob' :
  wire_inv log ob -> poll_send f ob = Some (q, ob') ->
  (q = true /\ wire_inv (log ++ [f]) ob') \/ (q = false /\ ob' = ob).
Proof.
  unfold poll_send, receiver_gone. intros (Hb & Hl & Hw) E.
  destruct (ob_writer ob) as [|g since|] eqn:Ew; [..|by simplify_eq; right];
    destruct (Nat.lt_ge_cases (length (queued (ob_chan ob))) (bound (ob_chan ob))) as [Hlt|Hge];
    try (rewrite try_send_full in E; done);
    destruct (try_send_room f _ Hlt) as (c' & E' & Hq & Hb'); rewrite E' in E; simplify_eq;
    left; (split; [done|]); unfold wire_inv; cbn; rewrite Ew, Hq, Hb', length_app; cbn;
    destruct Hw as (fs & Hs & ->);
    (split_and!; [done | lia |]); exists fs; (split; [done|]).
  - by rewrite app_assoc.
  - by rewrite <- app_assoc.
Qed.

(** The writer stops, cancelled, with part of the frame in hand written. *)
Lemma wire_inv_abandon log ob f since k c :
  wire_inv log ob -> ob_writer ob = WWriting f since -> c = true ->
  wire_inv log (set_writer WDone (set_sink
    (write_frame_dropped (ftype f) (payload f) k (ob_sink ob))
    (Outbound (ob_chan ob) (ob_senders ob) (ob_writer ob) (ob_sink ob) c))).
Proof.
  intros (Hb & Hl & Hw) Ew ->. rewrite Ew in Hw. destruct Hw as (fs & Hs & ->).
  unfold wire_inv; cbn. split_and!; [done..| | done].
  destruct (write_frame_dropped_written (ftype f) (payload f) k (ob_sink ob)) as (k' & E).
  rewrite E, Hs, encode_frames_app, encode_frames_cons.
  apply prefix_app, prefix_app_r. destruct f. apply prefix_take.
Qed.

Lemma wire_inv_poll_writer log wt now env ob ob' :
  wire_inv log ob -> poll_writer wt now env ob = Some ob' -> wire_inv log ob'.
Proof.
  intros Hinv. pose proof Hinv as (Hb & Hl & Hw). unfold poll_writer.
  destruct (ob_writer ob) as [|f since|] eqn:Ew; [| |done].
  - destruct Hw as (fs & Hs & ->). destruct (ob_cancel ob) eqn:Ec.
    { intros [= <-]. unfold wire_inv; cbn. split_and!; [done..| |by rewrite Ec].
      rewrite Hs, encode_frames_app. apply prefix_app_split. }
    destruct (queued (ob_chan ob)) as [|f l] eqn:Eq.
    + rewrite (try_recv_none _ Eq). case_match; [|done]. intros [= <-].
      unfold wire_inv; cbn. rewrite app_nil_r, Hs, Eq. split_and!; [done..|lia|done|done].
    + destruct (try_recv_some _ _ _ Eq) as (c' & -> & Hq & Hb'). intros [= <-].
      unfold wire_inv; cbn. rewrite Hq, Hb'. cbn in Hl. split_and!; [done|lia|].
      by exists fs.
  - destruct (ob_cancel ob) eqn:Ec.
    { intros [= <-]. pose proof (wire_inv_abandon log ob f since (io_taken env) true) as Ha.
      destruct ob; cbn in *; subst. by apply Ha. }
    destruct (io_ready env).
    + destruct (write_frame _ _ _) as [[[]|e] w'] eqn:E; apply write_frame_written in E;
        destruct Hw as (fs & Hs & ->); intros [= <-]; unfold wire_inv; cbn;
        (split_and!; [done|done|..]).
      * exists (fs ++ [f]). destruct E as [_ ->]. rewrite Hs, encode_frames_app.
        destruct f. split; [|by rewrite <- app_assoc]. f_equal. symmetry. apply app_nil_r.
      * destruct E as (k & ->). rewrite Hs, encode_frames_app, encode_frames_cons.
        apply prefix_app, prefix_app_r. destruct f. apply prefix_take.
      * done.
    + case_match; [|done]. intros [= <-].
      pose proof (wire_inv_abandon log ob f since (io_taken env) true) as Ha.
      destruct ob; cbn in *; subst. by apply Ha.
Qed.
End invariant.

(** ** Runs of the output path *)

Section runs.
Context {C W : Type} `{!Mpsc C, !AsyncWrite W}.

(** The interleavings the output path sees: producers sending, the writer
    task being polled, senders cloned and dropped, the session cancelled. *)
Inductive ob_event :=
| EvSend (f : Frame)
| EvWriter (now : Z) (env : poll_env)
| EvClone
| EvDrop
| EvFire.

(** A step that is not enabled (a full queue, a parked writer) changes
    nothing; the second component collects the frames accepted. *)
Definition ob_step (wt : Z) (s : outbound C W * list Frame) (e : ob_event) :
    outbound C W * list Frame :=
  let '(ob, log) := s in
  match e with
  | EvSend f =>
      match poll_send f ob with
      | Some (true, ob') => (ob', log ++ [f])
      | Some (false, ob') => (ob', log)
      | None => (ob, log)
      end
  | EvWriter now env =>
      match poll_writer wt now env ob with Some ob' => (ob', log) | None => (ob, log) end
  | EvClone => (clone_sender ob, log)
  | EvDrop => (drop_sender ob, log)
  | EvFire => (fire ob, log)
  end.

Definition ob_run (wt : Z) (w : W) (es : list ob_event) : outbound C W * list Frame :=
  fold_left (ob_step wt) es (new_outbound w, []).
End runs.

Section properties.
Context {C W : Type} `{MpscSpec C, AsyncWriteSpec W}.

Lemma ob_step_inv wt (s : outbound C W * list Frame) e :
  wire_inv s.2 s.1 -> wire_inv (ob_step wt s e).2 (ob_step wt s e).1.
Proof.
  destruct s as [ob log]. cbn. intros Hi. destruct e as [f|now env| | |]; cbn.
  - destruct (poll_send f ob) as [[q ob']|] eqn:E; [|done].
    destruct (wire_inv_send _ _ _ _ _ Hi E) as [[-> ?]|[-> ->]]; done.
  - destruct (poll_writer wt now env ob) as [ob'|] eqn:E; [|done].
    by eapply wire_inv_poll_writer.
  - by apply wire_inv_clone.
  - by apply wire_inv_drop.
  - by apply wire_inv_fire.
Qed.

Lemma ob_steps_inv wt es (s : outbound C W * list Frame) :
  wire_inv s.2 s.1 ->
  wire_inv (fold_left (ob_step wt) es s).2 (fold_left (ob_step wt) es s).1.
Proof.
  revert s. induction es as [|e es IH]; intros s Hi; [done|]. cbn. by apply IH, ob_step_inv.
Qed.

Lemma ob_run_inv wt (w : W) es :
  written w = [] -> wire_inv (ob_run (C := C) wt w es).2 (ob_run (C := C) wt w es).1.
Proof.
  intros Hw. apply (ob_steps_inv wt es (new_outbound w, [])). by apply wire_inv_new.
Qed.

(** C19 However producers, the writer task, cancellation and write failures
    interleave, the bytes on the wire are at every moment a prefix of the
    encoding of the frames the channel accepted, in the order it accepted
    them; the queue never holds more than 64 frames; and a writer that ends
    without a cancellation has written every accepted frame completely. *)
Theorem writer_preserves_order wt (w : W) es :
  written w = [] ->
  let '(ob, log) := ob_run (C := C) wt w es in
  written (ob_sink ob) `prefix_of` encode_frames log /\
  (length (queued (ob_chan ob)) <= CHANNEL_BOUND)%nat /\
  (ob_writer ob = WDone -> ob_cancel ob = false ->
   written (ob_sink ob) = encode_frames log).
Proof.
  intros Hw. pose proof (ob_run_inv wt w es Hw) as Hi.
  destruct (ob_run wt w es) as [ob log]. cbn in Hi. destruct Hi as (_ & Hl & Hi).
  destruct (ob_writer ob); [..|by destruct Hi as [? Hc]];
    destruct Hi as (fs & -> & ->); (split_and!; [|done|done]);
    rewrite encode_frames_app; apply prefix_app_split.
Qed.

(** C26 The writer task cannot be parked for ever, and ends as it should. Idle:
    when the flag is set the next poll ends it with nothing received and nothing
    written; otherwise it takes the oldest queued frame in hand, or ends, without
    cancelling, if the queue is empty and no sender is left, and only an empty
    queue with live senders parks it. Writing: when the flag is set the next poll
    ends it with at most a part of the frame written; otherwise a write that
    completes makes it idle again with the whole frame on the wire, a write that
    fails or has lasted [write_timeout] ends it and cancels the session, and only
    a write that is neither ready nor late parks it. *)
Theorem writer_never_stuck wt now env (ob : outbound C W) :
  match ob_writer ob with
  | WDone => poll_writer wt now env ob = None
  | WRecv =>
      (ob_cancel ob = true -> poll_writer wt now env ob = Some (set_writer WDone ob)) /\
      (ob_cancel ob = false ->
       match queued (ob_chan ob) with
       | f :: l => exists c', queued c' = l /\
           poll_writer wt now env ob = Some (set_writer (WWriting f now) (set_chan c' ob))
       | [] => poll_writer wt now env ob =
           if (ob_senders ob =? 0)%nat then Some (set_writer WDone ob) else None
       end)
  | WWriting f since =>
      (ob_cancel ob = false -> io_ready env = false -> now < since + wt -> poll_writer wt now env ob = None) /\
      (ob_cancel ob = true \/ (io_ready env = false /\ since + wt <= now) ->
       exists w' k, poll_writer wt now env ob = Some (fire (set_writer WDone (set_sink w' ob))) /\
         written w' = written (ob_sink ob) ++ take k (encode_frame f)) /\
      (ob_cancel ob = false -> io_ready env = true ->
       exists res w', write_frame (ftype f) (payload f) (ob_sink ob) = (res, w') /\
         match res with
         | Ok _ => poll_writer wt now env ob = Some (set_writer WRecv (set_sink w' ob)) /\
             written w' = written (ob_sink ob) ++ encode_frame f
         | Err _ => poll_writer wt now env ob = Some (fire (set_writer WDone (set_sink w' ob)))
         end)
  end.
Proof.
  unfold poll_writer. destruct (ob_writer ob) as [|f since|]; [| |done].
  - split; intros ->; [done|]. destruct (queued (ob_chan ob)) as [|f l] eqn:Eq.
    + by rewrite (try_recv_none _ Eq).
    + destruct (try_recv_some _ _ _ Eq) as (c' & -> & Hq & _). by exists c'.
  - destruct (write_frame_dropped_written (ftype f) (payload f) (io_taken env) (ob_sink ob)) as (k & Hk).
    assert (mkFrame (ftype f) (payload f) = f) as Hf by (by destruct f). rewrite Hf in Hk. split_and!.
    + intros -> -> Hn. by rewrite (proj2 (Z.leb_gt _ _) Hn).
    + intros Hc. eexists _, k. split; [|exact Hk]. destruct (ob_cancel ob) eqn:Ec.
      * unfold fire; cbn. unfold set_writer, set_sink; cbn. by rewrite Ec.
      * destruct Hc as [?|[-> Hn]]; [done|]. by rewrite (proj2 (Z.leb_le _ _) Hn).
    + intros -> ->. destruct (write_frame _ _ _) as [[u|e] w'] eqn:E; eexists _, w'; (split; [done|]); [|done].
      split; [done|]. apply write_frame_written in E as [_ ->]. by rewrite Hf.
Qed.
End properties.

(** ** Concrete runs *)

(** Two frames through a sink with room for one and a half: the second write
    fails, which fires the flag. *)
Definition demo_ob_events : list ob_event :=
  [EvSend (mkFrame FRAME_STDOUT [x61; x62]); EvClone; EvWriter 0 parked_env;
   EvSend (mkFrame FRAME_STDERR [x63]); EvWriter 1 (PollEnv true 0); EvDrop; EvWriter 2 parked_env;
   EvWriter 3 (PollEnv true 0); EvSend (mkFrame FRAME_EXIT [])].
Definition demo_ob_run (room : nat) : outbound list_chan mem_writer * list Frame :=
  ob_run 60 (MemWriter [] room) demo_ob_events.

Lemma writer_preserves_order_witness :
  ob_cancel (demo_ob_run 9).1 = true /\ length (written (ob_sink (demo_ob_run 9).1)) = 9%nat /\
  let '(ob, log) := demo_ob_run 9 in
  written (ob_sink ob) `prefix_of` encode_frames log /\
  (length (queued (ob_chan ob)) <= CHANNEL_BOUND)%nat /\
  (ob_writer ob = WDone -> ob_cancel ob = false -> written (ob_sink ob) = encode_frames log).
Proof.
  split; [vm_compute; reflexivity|]. split; [vm_compute; reflexivity|].
  exact (writer_preserves_order 60 (MemWriter [] 9) demo_ob_events eq_refl).
Defined.

Lemma writer_never_stuck_witness :
  let ob := Outbound (ListChan [] 64) 1 (WWriting (mkFrame FRAME_STDOUT [x61]) 10) (MemWriter [] 9) false in
  exists w' k, poll_writer 60 70 (PollEnv false 3) ob = Some (fire (set_writer WDone (set_sink w' ob))) /\
    written w' = [] ++ take k (encode_frame (mkFrame FRAME_STDOUT [x61])).
Proof.
  intros ob. destruct (writer_never_stuck 60 70 (PollEnv false 3) ob) as (_ & Hw & _).
  apply Hw. right. split; [reflexivity | lia].
Defined.
