(* ===== verification/Pump.v ===== *)
(** * Pump: streaming a child's output into frames

    [pump] of [src/session.rs], the body of the two tasks that carry a
    command's stdout and stderr, one poll at a time, and the abort of such a
    task.  The source is any [AsyncRead]: what the child will ever write. *)

From S2P Require Import Prelude AsyncIO Frame Outbound.

Definition READ_CHUNK : nat := N.to_nat 32768.

Inductive pump_state :=
| PumpReading                        (* in src.read(&mut buf) *)
| PumpSending (chunk : list byte)    (* in send(tx, ftype, chunk) *)
| PumpExited                         (* the loop was left: the task is over *)
| PumpAborted.                       (* JoinHandle::abort *)

Record pump (S : Type) := Pump { pm_src : S; pm_state : pump_state }.
Arguments Pump {S} _ _.
Arguments pm_src {S} _.
Arguments pm_state {S} _.

Definition pump_over {S} (p : pump S) : bool :=
  match pm_state p with PumpExited | PumpAborted => true | _ => false end.

Section ops.
Context {C W S : Type} `{!Mpsc C, !AsyncWrite W, !AsyncRead S}.
Implicit Type ob : outbound C W.

(** One poll; [None] when the task stays parked.  Leaving the loop drops the
    task's clone of [tx]. *)
Definition poll_pump (ft : byte) (env : poll_env) (p : pump S) ob :
    option (pump S * outbound C W) :=
  match pm_state p with
  | PumpReading =>
      if io_ready env then
        match read READ_CHUNK (pm_src p) with
        | (Ok [], s') => Some (Pump s' PumpExited, drop_sender ob)
        | (Ok buf, s') => Some (Pump s' (PumpSending buf), ob)
        | (Err _, s') => Some (Pump s' PumpExited, drop_sender ob)
        end
      else None
  | PumpSending buf =>
      match poll_send (mkFrame ft buf) ob with
      | Some (_, ob') => Some (Pump (pm_src p) PumpReading, ob')
      | None => None
      end
  | PumpExited | PumpAborted => None
  end.

(** [abort]: the task is dropped where it stands, with its clone of [tx]. *)
Definition abort_pump (p : pump S) ob : pump S * outbound C W :=
  if pump_over p then (p, ob) else (Pump (pm_src p) PumpAborted, drop_sender ob).
End ops.

(** ** The data of one stream in a sequence of frames *)

Definition stream_data (ft : byte) (fs : list Frame) : list byte :=
  concat (map payload (filter (fun f => ftype f = ft) fs)).

Lemma stream_data_app ft fs gs : stream_data ft (fs ++ gs) = stream_data ft fs ++ stream_data ft gs.
Proof. unfold stream_data. by rewrite filter_app, map_app, concat_app. Qed.

Lemma stream_data_cons ft f fs :
  stream_data ft (f :: fs) = (if decide (ftype f = ft) then payload f else []) ++ stream_data ft fs.
Proof. unfold stream_data. rewrite filter_cons. by case_decide. Qed.

Lemma stream_data_one ft f : stream_data ft [f] = if decide (ftype f = ft) then payload f else [].
Proof. rewrite stream_data_cons. apply app_nil_r. Qed.

Lemma stream_data_snoc_ne ft f fs : ftype f <> ft -> stream_data ft (fs ++ [f]) = stream_data ft fs.
Proof. intros Hf. rewrite stream_data_app, stream_data_one, decide_False by done. apply app_nil_r. Qed.

Lemma stream_data_snoc_eq ft f fs :
  ftype f = ft -> stream_data ft (fs ++ [f]) = stream_data ft fs ++ payload f.
Proof. intros Hf. by rewrite stream_data_app, stream_data_one, decide_True. Qed.

(** ** The pump's contract *)

Section proofs.
Context {C W S : Type} `{!Mpsc C, !AsyncWrite W, AsyncReadSpec S}.
Implicit Type ob : outbound C W.
Implicit Type p : pump S.

Definition pending (p : pump S) : list byte :=
  match pm_state p with PumpSending buf => buf | _ => [] end.

Definition chunk_ok (f : Frame) : Prop :=
  payload f <> [] /\ (length (payload f) <= READ_CHUNK)%nat.

(** [total] is what the child will have written; [log] what the channel has
    accepted.  [gone] is true once the receiver was dropped. *)
Definition pump_inv (ft : byte) (total : list byte) (gone : bool) (log : list Frame)
    (p : pump S) : Prop :=
  stream_data ft log `prefix_of` total /\
  Forall (fun f => ftype f = ft -> chunk_ok f) log /\
  (forall buf, pm_state p = PumpSending buf -> chunk_ok (mkFrame ft buf)) /\
  (gone = false ->
   stream_data ft log ++ pending p ++ incoming (pm_src p) = total
   \/ (pm_state p = PumpAborted)) /\
  (gone = false -> pm_state p = PumpExited -> stream_data ft log = total).

Lemma pump_inv_start ft (s : S) : pump_inv ft (incoming s) false [] (Pump s PumpReading).
Proof.
  unfold pump_inv, pending; cbn. split_and!; [apply prefix_nil | constructor | done | | done].
  by left.
Qed.

(** Other producers' frames, and the writer going away. *)
Lemma pump_inv_other ft total gone log p f :
  ftype f <> ft -> pump_inv ft total gone log p -> pump_inv ft total gone (log ++ [f]) p.
Proof.
  intros Hf (H1 & H2 & H3 & H4 & H5). unfold pump_inv.
  rewrite stream_data_snoc_ne by done. split_and!; [done | | done..].
  apply Forall_app; split; [done | by constructor].
Qed.

Lemma pump_inv_gone ft total gone log p :
  pump_inv ft total gone log p -> pump_inv ft total true log p.
Proof. intros (H1 & H2 & H3 & _). by split_and!. Qed.

Lemma pump_inv_abort ft total gone log p ob :
  pump_inv ft total gone log p -> pump_inv ft total gone log (abort_pump p ob).1.
Proof.
  unfold abort_pump. case_match; [done|]. intros (H1 & H2 & H3 & _).
  unfold pump_inv; cbn. split_and!; [done | done | done | by right | done].
Qed.

(** What one poll does to the log, and that it keeps the contract.  While a
    frame is refused because the receiver is gone, [gone] is already true. *)
Lemma pump_inv_poll ft total log p ob env p' ob' :
  pump_inv ft total (receiver_gone ob) log p -> poll_pump ft env p ob = Some (p', ob') ->
  (exists f, ftype f = ft /\ chunk_ok f /\ poll_send f ob = Some (true, ob') /\
     pump_inv ft total false (log ++ [f]) p') \/
  ((ob' = ob \/ ob' = drop_sender ob) /\ pump_inv ft total (receiver_gone ob) log p').
Proof.
  intros (H1 & H2 & H3 & H4 & H5). unfold poll_pump.
  destruct p as [src st]; cbn in *. destruct st as [|buf| |] eqn:Est; try done.
  - destruct (io_ready env); [|done]. intros E. right.
    assert (HR : (0 < READ_CHUNK)%nat) by (unfold READ_CHUNK; lia).
    destruct (incoming src) as [|b bs] eqn:Ein.
    + assert (p' = Pump (pm_src p') PumpExited /\ incoming (pm_src p') = [] /\
              ob' = drop_sender ob) as (-> & Hi & ->).
      { destruct (ending src) as [e|] eqn:Eend.
        - destruct (read_err _ src e HR Ein Eend) as (s' & E' & Hi). rewrite E' in E. by simplify_eq.
        - destruct (read_eof _ src HR Ein Eend) as (s' & E' & Hi & _). rewrite E' in E. by simplify_eq. }
      split; [by right|]. unfold pump_inv, pending in *; cbn in *. rewrite Hi.
      split_and!; [done|done|done| |]; intros Hg.
      * destruct (H4 Hg) as [H4'|]; [left|done]. exact H4'.
      * intros _. destruct (H4 Hg) as [H4'|]; [|done]. by rewrite app_nil_r in H4'.
    + destruct (read_data READ_CHUNK src HR) as (c & s' & E' & Hc & Hl & Hi & _);
        [by rewrite Ein|].
      rewrite E' in E. destruct c as [|c0 c]; [done|]. simplify_eq/=.
      split; [by left|]. unfold pump_inv, pending in *; cbn in *.
      split_and!; [done|done| | |done].
      * intros buf [= <-]. by split.
      * intros Hg. destruct (H4 Hg) as [H4'|]; [left|done]. rewrite <- H4'. f_equal. congruence.
  - specialize (H3 _ eq_refl). destruct (poll_send (mkFrame ft buf) ob) as [[q ob1]|] eqn:E; [|done].
    intros [= <- <-]. destruct q.
    + left. exists (mkFrame ft buf). split_and!; [done|apply H3..|done|].
      assert (Hg : receiver_gone ob = false).
      { unfold poll_send in E. by destruct (receiver_gone ob). }
      unfold pump_inv, pending in *; cbn in *. rewrite stream_data_snoc_eq by done. cbn.
      destruct (H4 Hg) as [H4'|]; [|done]. split_and!; [| |done| |done].
      * exists (incoming src). by rewrite <- app_assoc.
      * apply Forall_app; split; [done|]. by constructor.
      * intros _. left. by rewrite <- app_assoc.
    + right. assert (receiver_gone ob = true /\ ob1 = ob) as [Hg ->].
      { unfold poll_send in E. destruct (receiver_gone ob); [by simplify_eq|].
        by destruct (try_send _ _). }
      split; [by left|]. rewrite Hg. by split_and!.
Qed.
End proofs.
