(* ===== verification/Stdin.v ===== *)
(** * Stdin: forwarding the host's STDIN frames to a command

    The [stdin_task] of [exec] in [src/session.rs], one poll at a time: it reads
    frames, each read bounded by the idle timeout, writes STDIN payloads into
    the child's pipe, closes the pipe on STDIN_EOF, and fires the session's
    [Cancel] when the peer is gone or stalled. *)

From S2P Require Import Prelude AsyncIO Frame Outbound.

Inductive stdin_state :=
| StdinReading (since : Z)                       (* timeout(idle, read_frame(reader)) *)
| StdinWriting (p : list byte) (since : Z)       (* timeout(idle, si.write_all(p)) *)
| StdinOver.                                     (* the loop was left *)

Record stdin_task (I : Type) := StdinTask {
  si_pipe : I;
  si_open : bool;               (* cstdin is Some *)
  si_state : stdin_state;
}.
Arguments StdinTask {I} _ _ _.
Arguments si_pipe {I} _.
Arguments si_open {I} _.
Arguments si_state {I} _.

Section ops.
Context {R I : Type} `{!AsyncRead R, !AsyncWrite I}.

(** What a completed [read_frame] makes the loop do; [true] fires [cancel]. *)
Definition stdin_frame (now : Z) (t : stdin_task I) (res : io_result (option Frame)) :
    stdin_task I * bool :=
  match res with
  | Ok (Some f) =>
      if bool_decide (ftype f = FRAME_STDIN) then
        if si_open t
        then (StdinTask (si_pipe t) true (StdinWriting (payload f) now), false)
        else (StdinTask (si_pipe t) false (StdinReading now), false)
      else if bool_decide (ftype f = FRAME_STDIN_EOF)
      then (StdinTask (si_pipe t) false (StdinReading now), false)
      else (StdinTask (si_pipe t) (si_open t) (StdinReading now), false)
  | Ok None => (StdinTask (si_pipe t) false StdinOver, true)
  | Err _ => (StdinTask (si_pipe t) false StdinOver, true)
  end.

(** One poll at time [now]; [cancelled] is the flag as the poll sees it.
    The result is the task, the reader, and whether [cancel.fire()] ran. *)
Definition poll_stdin (idle_timeout : Z) (c : inbound_cell) (now : Z) (env : poll_env)
    (cancelled : bool) (t : stdin_task I) (r : R) : option (stdin_task I * R * bool) :=
  match si_state t with
  | StdinReading since =>
      if io_ready env then
        let '(res, r') := read_frame c r in
        let '(t', fired) := stdin_frame now t res in
        Some (t', r', fired)
      else if since + idle_timeout <=? now
      then Some (StdinTask (si_pipe t) false StdinOver, r, true)
      else None
  | StdinWriting p since =>
      let abandoned := StdinTask (write_dropped p (io_taken env) (si_pipe t)) false StdinOver in
      if cancelled then Some (abandoned, r, false)
      else if io_ready env then
        match write_all p (si_pipe t) with
        | (Ok _, i') => Some (StdinTask i' (si_open t) (StdinReading now), r, false)
        | (Err _, i') => Some (StdinTask i' false StdinOver, r, false)
        end
      else if since + idle_timeout <=? now then Some (abandoned, r, true)
      else None
  | StdinOver => None
  end.

(** A run of the task alone: each poll with its time, environment and flag. *)
Fixpoint run_stdin (idle_timeout : Z) (c : inbound_cell)
    (polls : list (Z * poll_env * bool)) (t : stdin_task I) (r : R) : stdin_task I * R :=
  match polls with
  | [] => (t, r)
  | (now, env, cancelled) :: ps =>
      match poll_stdin idle_timeout c now env cancelled t r with
      | Some (t', r', _) => run_stdin idle_timeout c ps t' r'
      | None => run_stdin idle_timeout c ps t r
      end
  end.
End ops.

(** ** What the command should receive *)

(** The payloads of the STDIN frames sent before the first STDIN_EOF. *)
Fixpoint stdin_bytes (fs : list Frame) : list byte :=
  match fs with
  | [] => []
  | f :: fs' =>
      if decide (ftype f = FRAME_STDIN_EOF) then []
      else if decide (ftype f = FRAME_STDIN) then payload f ++ stdin_bytes fs'
      else stdin_bytes fs'
  end.

Definition sent_eof (fs : list Frame) : bool :=
  existsb (fun f => bool_decide (ftype f = FRAME_STDIN_EOF)) fs.

Lemma sent_eof_snoc fs f :
  sent_eof (fs ++ [f]) = sent_eof fs || bool_decide (ftype f = FRAME_STDIN_EOF).
Proof. unfold sent_eof. rewrite existsb_app. cbn. by rewrite orb_false_r. Qed.

Lemma stdin_bytes_app fs gs :
  stdin_bytes (fs ++ gs) = stdin_bytes fs ++ (if sent_eof fs then [] else stdin_bytes gs).
Proof.
  induction fs as [|f fs IH]; [done|]. cbn. destruct (decide (ftype f = FRAME_STDIN_EOF)).
  - by rewrite bool_decide_eq_true_2.
  - rewrite bool_decide_eq_false_2, IH by done. cbn. case_decide; [by rewrite app_assoc | done].
Qed.

Section proofs.
Context {R I : Type} `{AsyncReadSpec R, AsyncWriteSpec I}.

(** The client sent [fs]; [seen] is what the task has read. *)
Definition stdin_inv (c : inbound_cell) (fs : list Frame) (t : stdin_task I) (r : R) : Prop :=
  exists seen rest, fs = seen ++ rest /\ Forall (frame_fits MAX_FRAME_LEN) rest /\
    Forall (frame_fits c) rest /\
    match si_state t with
    | StdinReading _ => incoming r = encode_frames rest /\
        si_open t = negb (sent_eof seen) /\ written (si_pipe t) = stdin_bytes seen
    | StdinWriting p _ => incoming r = encode_frames rest /\ sent_eof seen = false /\
        si_open t = true /\ written (si_pipe t) ++ p = stdin_bytes seen
    | StdinOver => written (si_pipe t) `prefix_of` stdin_bytes seen
    end.

Lemma stdin_bytes_snoc fs f :
  stdin_bytes (fs ++ [f]) = stdin_bytes fs ++
    (if sent_eof fs then [] else if decide (ftype f = FRAME_STDIN) then payload f else []).
Proof.
  rewrite stdin_bytes_app. f_equal. destruct (sent_eof fs); [done|]. cbn.
  destruct (decide (ftype f = FRAME_STDIN_EOF)) as [E1|];
    destruct (decide (ftype f = FRAME_STDIN)) as [E2|]; rewrite ?app_nil_r; try done.
  by rewrite E1 in E2.
Qed.

(** One more frame has been read. *)
Lemma stdin_inv_frame c seen f rest now t r t' fired :
  si_open t = negb (sent_eof seen) -> written (si_pipe t) = stdin_bytes seen ->
  Forall (frame_fits MAX_FRAME_LEN) rest -> Forall (frame_fits c) rest -> incoming r = encode_frames rest ->
  stdin_frame now t (Ok (Some f)) = (t', fired) -> stdin_inv c (seen ++ f :: rest) t' r.
Proof.
  intros Ho Hw HM Hc Hi E. exists (seen ++ [f]), rest.
  split; [by rewrite <- app_assoc|]. split; [done|]. split; [done|]. cbn [stdin_frame] in E. revert E.
  repeat case_bool_decide; [destruct (si_open t) eqn:Eo|..];
    intros; simplify_eq/=; rewrite ?sent_eof_snoc, stdin_bytes_snoc, ?Hw.
  - assert (sent_eof seen = false) as -> by (by destruct (sent_eof seen)).
    rewrite decide_True, bool_decide_eq_false_2; [done| |done].
    by match goal with E : ftype f = FRAME_STDIN |- _ => rewrite E end.
  - assert (sent_eof seen = true) as -> by (by destruct (sent_eof seen)). by rewrite app_nil_r.
  - rewrite decide_False, bool_decide_eq_true_2 by done.
    rewrite orb_true_r. by destruct (sent_eof seen); rewrite app_nil_r.
  - rewrite decide_False, bool_decide_eq_false_2, orb_false_r by done.
    by destruct (sent_eof seen); rewrite app_nil_r.
Qed.

Lemma stdin_inv_poll idle c fs now env cancelled t r t' r' fired :
  stdin_inv c fs t r -> poll_stdin idle c now env cancelled t r = Some (t', r', fired) ->
  stdin_inv c fs t' r'.
Proof.
  intros (seen & rest & -> & HM & Hc & Hst). unfold poll_stdin.
  destruct (si_state t) as [since|p since|] eqn:Est; [| |done].
  - destruct Hst as (Hin & Ho & Hw). destruct (io_ready env).
    2:{ case_match; [|done]. intros [= <- <- <-]. exists seen, rest. cbn. by rewrite Hw. }
    destruct rest as [|f rest].
    + (* the client's bytes are exhausted: EOF or a transport error *)
      destruct (read_frame_short c r) as (r1 & ->); [rewrite Hin; cbn; lia|].
      intros Hp. exists seen, []. split; [done|]. split; [done|]. split; [done|].
      destruct (ending r) as [e|]; [destruct (is_unexpected_eof e)|]; cbn in Hp; simplify_eq/=; by rewrite Hw.
    + apply Forall_cons in HM as [HMf HM]. apply Forall_cons in Hc as [Hcf Hc].
      rewrite encode_frames_cons in Hin.
      destruct (read_frame_encoded c r f _ HMf Hcf Hin) as (r1 & -> & Hi & _).
      destruct (stdin_frame now t _) as [t1 fired1] eqn:Ef. intros [= <- <- <-]. by eapply stdin_inv_frame.
  - destruct Hst as (Hin & Hs & Ho & Hw).
    assert (Hab : forall k, written (write_dropped p k (si_pipe t)) `prefix_of` stdin_bytes seen).
    { intros k. rewrite write_dropped_written, <- Hw. apply prefix_app, prefix_take. }
    destruct cancelled; [intros [= <- <- <-]; exists seen, rest; by cbn|].
    destruct (io_ready env).
    + destruct (write_all p (si_pipe t)) as [[[]|e] i'] eqn:E; intros [= <- <- <-];
        exists seen, rest; cbn; (split; [done|]); (split; [done|]); (split; [done|]).
      * rewrite (write_all_ok _ _ _ E), Hs. by split_and!.
      * destruct (write_all_err _ _ _ _ E) as (k & ->). rewrite <- Hw. apply prefix_app, prefix_take.
    + case_match; [|done]. intros [= <- <- <-]. exists seen, rest; by cbn.
Qed.

Lemma stdin_inv_run idle c fs polls t r :
  stdin_inv c fs t r ->
  stdin_inv c fs (run_stdin idle c polls t r).1 (run_stdin idle c polls t r).2.
Proof.
  revert t r. induction polls as [|[[now env] b] ps IH]; intros t r Hi; [done|].
  cbn. destruct (poll_stdin _ _ _ _ _ _ _) as [[[t' r'] fired]|] eqn:E; [|by apply IH].
  apply IH. by eapply stdin_inv_poll.
Qed.

Definition start_stdin (now : Z) (i : I) : stdin_task I := StdinTask i true (StdinReading now).

(** What the invariant promises about the bytes. *)
Lemma stdin_inv_promise c fs t r :
  stdin_inv c fs t r ->
  written (si_pipe t) `prefix_of` stdin_bytes fs /\
  (forall since, si_state t = StdinReading since -> incoming r = [] ->
     written (si_pipe t) = stdin_bytes fs).
Proof.
  intros (seen & rest & -> & _ & _ & Hst).
  rewrite stdin_bytes_app. destruct (si_state t) as [since|p since|] eqn:E.
  - destruct Hst as (Hin' & _ & ->). split; [apply prefix_app_split|].
    intros _ _ Hnil. rewrite Hin' in Hnil. destruct rest; [|done].
    by destruct (sent_eof seen); rewrite app_nil_r.
  - destruct Hst as (_ & _ & _ & <-). split; [|done]. rewrite <- app_assoc. apply prefix_app_split.
  - split; [|done]. by apply prefix_app_r.
Qed.

(** A command receives its host's standard input and nothing else: for
    every client that sends well-formed frames, and however reads, writes,
    timeouts and cancellation interleave, the bytes given to the child are a
    prefix of the payloads of the STDIN frames sent before the first
    STDIN_EOF, in order; and whenever the task is back at a read with the
    client's bytes used up, they are all of them. *)
Theorem stdin_forwards_in_order idle c fs now (i : I) (r : R) polls :
  written i = [] -> incoming r = encode_frames fs ->
  Forall (frame_fits MAX_FRAME_LEN) fs -> Forall (frame_fits c) fs ->
  let '(t, r') := run_stdin idle c polls (start_stdin now i) r in
  written (si_pipe t) `prefix_of` stdin_bytes fs /\
  (forall since, si_state t = StdinReading since -> incoming r' = [] ->
     written (si_pipe t) = stdin_bytes fs).
Proof.
  intros Hi Hin HM Hc. pose proof (stdin_inv_run idle c fs polls (start_stdin now i) r) as Hr.
  destruct (run_stdin _ _ _ _ _) as [t r']. cbn in Hr.
  apply (stdin_inv_promise c), Hr. exists [], fs. by cbn.
Qed.

End proofs.

(** ** Concrete runs *)

Definition demo_stdin_frames : list Frame :=
  [mkFrame FRAME_STDIN [x61; x62]; mkFrame FRAME_PING []; mkFrame FRAME_STDIN [x63];
   mkFrame FRAME_STDIN_EOF []; mkFrame FRAME_STDIN [x64]].
Definition demo_stdin_polls : list (Z * poll_env * bool) :=
  map (fun n => (Z.of_nat n, PollEnv true 0, false)) (seq 0 7).
Definition demo_stdin_run : stdin_task mem_writer * mem_reader :=
  run_stdin 30 MAX_INBOUND_FRAME_LEN demo_stdin_polls (start_stdin 0 (MemWriter [] 100))
    (MemReader (encode_frames demo_stdin_frames) None).

Lemma stdin_forwards_in_order_witness :
  stdin_bytes demo_stdin_frames = [x61; x62; x63] /\
  written (si_pipe demo_stdin_run.1) = [x61; x62; x63].
Proof.
  split; [reflexivity|].
  pose proof (stdin_forwards_in_order 30 MAX_INBOUND_FRAME_LEN demo_stdin_frames 0 (MemWriter [] 100)
    (MemReader (encode_frames demo_stdin_frames) None) demo_stdin_polls eq_refl eq_refl) as Hf.
  fold demo_stdin_run in Hf. destruct demo_stdin_run as [t r'] eqn:E.
  destruct Hf as [_ Hf]; [repeat constructor; vm_compute; congruence..|].
  vm_compute in E. injection E as <- <-. apply (Hf 6); reflexivity.
Defined.

