(* ===== verification/Exec.v ===== *)
(** * Exec: running one command

    [exec] of [src/session.rs]: spawning the command, the biased select loop
    that waits for the child, the deadline, the session's [Cancel] and the
    STDIN forwarding, the bounded reap after a kill, the bounded drain of the
    output pumps, and the EXIT frame.  The operating system is a parameter:
    [spawn], run on the kernel that the sessions share, answers with the child's
    pid and pipes or with an error. *)

From S2P Require Import Prelude AsyncIO Frame Duration Status Request Shell Outbound Pump.
From S2P Require Import Stdin.

(** ** Configuration of a session: the arguments of [run_session] *)

Record config := Config {
  cf_shell : string;
  cf_idle_timeout : Z;
  cf_write_timeout : Z;
  cf_default_deadline : option Z;
  cf_inbound_cap : inbound_cell;
}.

(** ** The spawned child *)

Record spawned (S I : Type) := Spawned {
  sp_pid : option Z;
  sp_stdin : I;
  sp_stdout : S;
  sp_stderr : S;
}.
Arguments Spawned {S I} _ _ _ _.
Arguments sp_pid {S I} _.
Arguments sp_stdin {S I} _.
Arguments sp_stdout {S I} _.
Arguments sp_stderr {S I} _.

(** [Command::spawn] for a command with piped stdio: what it answers, and what it
    leaves, depends on the kernel that every session of the agent shares. *)
Class Spawn (S I K : Type) := spawn : command -> io K (spawned S I).

(** ** State *)

Inductive exec_phase :=
| ExRunning                                                        (* the select loop *)
| ExReaping (reason : string) (since : Z)                          (* after kill_group *)
| ExDrainOut (raw : io_result Z) (reason : string) (since : Z)
| ExDrainErr (raw : io_result Z) (reason : string) (since : Z)
| ExSendExit (f : Frame)
| ExReturned (res : result unit string).

Record exec_state (S I : Type) := ExecState {
  ex_phase : exec_phase;
  ex_timer : option Z;           (* when the deadline's sleep is over *)
  ex_pid : option Z;
  ex_child : child_state;
  ex_kills : list kill_call;
  ex_stdin : stdin_task I;
  ex_out : pump S;
  ex_err : pump S;
}.
Arguments ExecState {S I} _ _ _ _ _ _ _ _.
Arguments ex_phase {S I} _.
Arguments ex_timer {S I} _.
Arguments ex_pid {S I} _.
Arguments ex_child {S I} _.
Arguments ex_kills {S I} _.
Arguments ex_stdin {S I} _.
Arguments ex_out {S I} _.
Arguments ex_err {S I} _.

(** The grace each pump gets to flush once the child is gone. *)
Definition DRAIN_GRACE : Z := from_millis 250.

Inductive exec_start (S I : Type) :=
| ExecRefused (msg : string)                 (* send_error, then Ok(()) *)
| ExecFailed (e : io_error)                  (* the [?] on spawn *)
| ExecStarted (x : exec_state S I).
Arguments ExecRefused {S I} _.
Arguments ExecFailed {S I} _.
Arguments ExecStarted {S I} _.

Section ops.
Context {C W R S I K : Type}.
Context `{!Mpsc C, !AsyncWrite W, !AsyncRead R, !AsyncRead S, !AsyncWrite I}.
Context `{!Json, !Fmt, !Shlex, !Spawn S I K}.
Implicit Types (x : exec_state S I) (ob : outbound C W).

Definition set_phase (p : exec_phase) x : exec_state S I :=
  ExecState p (ex_timer x) (ex_pid x) (ex_child x) (ex_kills x) (ex_stdin x) (ex_out x) (ex_err x).
Definition set_child (ch : child_state) x : exec_state S I :=
  ExecState (ex_phase x) (ex_timer x) (ex_pid x) ch (ex_kills x) (ex_stdin x) (ex_out x) (ex_err x).
Definition add_kills (ks : list kill_call) x : exec_state S I :=
  ExecState (ex_phase x) (ex_timer x) (ex_pid x) (ex_child x) (ex_kills x ++ ks)
    (ex_stdin x) (ex_out x) (ex_err x).
Definition set_stdin (t : stdin_task I) x : exec_state S I :=
  ExecState (ex_phase x) (ex_timer x) (ex_pid x) (ex_child x) (ex_kills x) t (ex_out x) (ex_err x).
Definition set_out (p : pump S) x : exec_state S I :=
  ExecState (ex_phase x) (ex_timer x) (ex_pid x) (ex_child x) (ex_kills x) (ex_stdin x) p (ex_err x).
Definition set_err (p : pump S) x : exec_state S I :=
  ExecState (ex_phase x) (ex_timer x) (ex_pid x) (ex_child x) (ex_kills x) (ex_stdin x) (ex_out x) p.

(** Everything up to the select loop: the deadline is resolved before the
    command is built, the pumps take a clone of [tx] each. *)
Definition exec_begin (cf : config) (now : Z) (req : Request) ob (k : K) :
    exec_start S I * outbound C W * K :=
  match effective_deadline (cf_default_deadline cf) (deadline req) with
  | Err s => (ExecRefused (invalid_deadline_msg s), ob, k)
  | Ok dl =>
      match spawn (exec_command (cf_shell cf) (default "" (cmd req))) k with
      | (Err e, k) => (ExecFailed e, ob, k)
      | (Ok ch, k) =>
          (ExecStarted (ExecState ExRunning (option_map (Z.add now) dl) (sp_pid ch) ChildRunning []
             (StdinTask (sp_stdin ch) true (StdinReading now))
             (Pump (sp_stdout ch) PumpReading) (Pump (sp_stderr ch) PumpReading)),
           clone_sender (clone_sender ob), k)
      end
  end.

Definition deadline_elapsed (now : Z) x : bool :=
  match ex_timer x with Some t => t <=? now | None => false end.

(** [exit_fields] and the EXIT payload; [to_vec(..)?] may fail. *)
Definition exit_step (raw : io_result Z) (reason : string) : exec_phase :=
  let '(code, reason) := exit_fields raw reason in
  match to_vec_exit code reason with
  | Ok p => ExSendExit (mkFrame FRAME_EXIT p)
  | Err e => ExReturned (Err e)
  end.

(** One poll of the session task while it runs [exec]; [None] when it stays
    parked.  The select is biased: cancel, deadline, child, STDIN. *)
Definition poll_exec (cf : config) (now : Z) (env : poll_env) x (r : R) ob :
    option (exec_state S I * R * outbound C W) :=
  match ex_phase x with
  | ExRunning =>
      if ob_cancel ob then
        Some (set_phase (ExReaping "disconnected" now) (add_kills (kill_group (ex_pid x)) x), r, ob)
      else if deadline_elapsed now x then
        Some (set_phase (ExReaping "timeout" now) (add_kills (kill_group (ex_pid x)) x), r, ob)
      else
        match ex_child x with
        | ChildZombie s => Some (set_phase (ExDrainOut (Ok s) "" now) (set_child ChildReaped x), r, ob)
        | _ =>
            match poll_stdin (cf_idle_timeout cf) (cf_inbound_cap cf) now env
                    (ob_cancel ob) (ex_stdin x) r with
            | Some (t', r', fired) => Some (set_stdin t' x, r', if fired then fire ob else ob)
            | None => None
            end
        end
  | ExReaping reason since =>
      match reap_bounded now since (ex_child x) with
      | Some (raw, ch) => Some (set_phase (ExDrainOut raw reason now) (set_child ch x), r, ob)
      | None => None
      end
  | ExDrainOut raw reason since =>
      if pump_over (ex_out x) then Some (set_phase (ExDrainErr raw reason now) x, r, ob)
      else if since + DRAIN_GRACE <=? now then
        let '(p', ob') := abort_pump (ex_out x) ob in
        Some (set_phase (ExDrainErr raw reason now) (set_out p' x), r, ob')
      else None
  | ExDrainErr raw reason since =>
      if pump_over (ex_err x) then Some (set_phase (exit_step raw reason) x, r, ob)
      else if since + DRAIN_GRACE <=? now then
        let '(p', ob') := abort_pump (ex_err x) ob in
        Some (set_phase (exit_step raw reason) (set_err p' x), r, ob')
      else None
  | ExSendExit f =>
      match poll_send f ob with
      | Some (_, ob') => Some (set_phase (ExReturned (Ok tt)) x, r, ob')
      | None => None
      end
  | ExReturned _ => None
  end.
End ops.

(** ** Local properties *)

Section properties.
Context {C W R S I K : Type}.
Context `{!Mpsc C, !AsyncWrite W, !AsyncRead R, !AsyncRead S, !AsyncWrite I}.
Context `{!Json, !Fmt, !Shlex, !Spawn S I K}.
Implicit Types (x : exec_state S I) (ob : outbound C W) (r : R) (k : K).

(** A request whose deadline is refused never reaches [spawn]: the answer
    is the error message alone, whatever the operating system would do; and
    a started command waits with exactly the resolved deadline. *)
Theorem exec_begin_deadline cf now req ob k :
  match effective_deadline (cf_default_deadline cf) (deadline req) with
  | Err s => exec_begin cf now req ob k = (ExecRefused (invalid_deadline_msg s), ob, k)
  | Ok dl =>
      match exec_begin (S := S) (I := I) cf now req ob k with
      | (ExecStarted x, ob', k') =>
          ex_phase x = ExRunning /\ ex_child x = ChildRunning /\ ex_kills x = [] /\
          ex_timer x = option_map (Z.add now) dl /\
          ob_senders ob' = Datatypes.S (Datatypes.S (ob_senders ob))
      | (ExecFailed e, ob', k') => ob' = ob /\
          spawn (S := S) (I := I) (exec_command (cf_shell cf) (default "" (cmd req))) k = (Err e, k')
      | (ExecRefused _, _, _) => False
      end
  end.
Proof.
  unfold exec_begin. destruct (effective_deadline _ _) as [dl|s]; [|done].
  destruct (spawn _ k) as [[ch|e] k']; [|done]. cbn. by split_and!.
Qed.
End properties.

(** ** How a command ends *)

Section ending.
Context {C W R S I : Type}.
Context `{!Mpsc C, !AsyncWrite W, !AsyncRead R, !AsyncRead S, !AsyncWrite I, !Json}.
Implicit Type cause : string -> Prop.

(** How the command ended, for the EXIT frame's [raw] and [reason]; [cause] says
    for what reasons it may have been killed. *)
Definition command_ended cause (raw : io_result Z) (reason : string) (x : exec_state S I) : Prop :=
  (reason = "" /\ ex_kills x = [] /\ ex_child x = ChildReaped /\ is_ok raw = true) \/
  (cause reason /\ ex_kills x = kill_group (ex_pid x) /\
   (ex_child x = ChildReaped /\ is_ok raw = true \/
    ex_child x <> ChildReaped /\ raw = Err (Custom TimedOut))).

Definition exec_signals_inv cause (x : exec_state S I) : Prop :=
  match ex_phase x with
  | ExRunning => ex_kills x = [] /\ ex_child x <> ChildReaped
  | ExReaping reason _ => cause reason /\
      ex_kills x = kill_group (ex_pid x) /\ ex_child x <> ChildReaped
  | ExDrainOut raw reason _ | ExDrainErr raw reason _ => command_ended cause raw reason x
  | ExSendExit f => exists raw reason v, command_ended cause raw reason x /\ f = mkFrame FRAME_EXIT v /\
      to_vec_exit (exit_fields raw reason).1 (exit_fields raw reason).2 = Ok v
  | ExReturned _ => exists raw reason, command_ended cause raw reason x
  end.

Lemma exit_step_signals cause raw reason x :
  command_ended cause raw reason x -> exec_signals_inv cause (set_phase (exit_step raw reason) x).
Proof.
  intros Hc. unfold exit_step. destruct (exit_fields raw reason) as [code rsn] eqn:Ef.
  destruct (to_vec_exit code rsn) as [v|e] eqn:Ev; unfold exec_signals_inv; cbn.
  - exists raw, reason, v. by rewrite Ef.
  - by exists raw, reason.
Qed.

(** At most one signal, to the child's own group, and for cause. *)
Lemma exec_signals_kills cause x :
  exec_signals_inv cause x ->
  ex_kills x = [] \/ (ex_kills x = kill_group (ex_pid x) /\ exists reason, cause reason).
Proof. unfold exec_signals_inv, command_ended. destruct (ex_phase x); naive_solver. Qed.

Lemma exec_signals_mono cause cause' x :
  (forall reason, cause reason -> cause' reason) -> exec_signals_inv cause x -> exec_signals_inv cause' x.
Proof.
  intros Hc. unfold exec_signals_inv, command_ended. destruct (ex_phase x); naive_solver.
Qed.

(** The output tasks and STDIN have no part in it. *)
Lemma exec_signals_same cause x x' :
  ex_phase x' = ex_phase x -> ex_pid x' = ex_pid x -> ex_child x' = ex_child x -> ex_kills x' = ex_kills x ->
  exec_signals_inv cause x -> exec_signals_inv cause x'.
Proof. unfold exec_signals_inv, command_ended. by intros -> -> -> ->. Qed.

Lemma exec_signals_poll cause cf now env x (r r' : R) (ob ob' : outbound C W) x' :
  (ob_cancel ob = true -> cause "disconnected") -> (deadline_elapsed now x = true -> cause "timeout") ->
  exec_signals_inv cause x -> poll_exec cf now env x r ob = Some (x', r', ob') -> exec_signals_inv cause x'.
Proof.
  intros Hdc Hto Hi. unfold poll_exec. unfold exec_signals_inv in Hi.
  destruct (ex_phase x) as [|reason since|raw reason since|raw reason since|f|res] eqn:Ep.
  - destruct Hi as [Hk Hr].
    destruct (ob_cancel ob); [intros [= <- <- <-]; cbn; rewrite Hk; by auto|].
    destruct (deadline_elapsed now x); [intros [= <- <- <-]; cbn; rewrite Hk; by auto|].
    destruct (ex_child x) as [|s|] eqn:Ec; [|intros [= <- <- <-]; by left|done].
    destruct (poll_stdin _ _ _ _ _ _ _) as [[[t' r1] fired]|]; [|done].
    intros [= <- <- <-]. unfold exec_signals_inv; cbn. by rewrite Ep, Ec.
  - destruct Hi as (Hreason & Hk & Hr). unfold reap_bounded, poll_reap.
    destruct (ex_child x) as [|s|] eqn:Ec; [destruct (_ <=? now); [|done]| |done];
      intros [= <- <- <-]; right; cbn; split_and!; [done|done|by right|done|done|by left].
  - destruct (pump_over (ex_out x)); [by intros [= <- <- <-]|].
    destruct (_ <=? now); [|done].
    destruct (abort_pump (ex_out x) ob) as [p' ob1]. by intros [= <- <- <-].
  - destruct (pump_over (ex_err x)).
    { intros [= <- <- <-]. by apply exit_step_signals. }
    destruct (_ <=? now); [|done].
    destruct (abort_pump (ex_err x) ob) as [p' ob1]. intros [= <- <- <-].
    by apply exit_step_signals.
  - destruct Hi as (raw & reason & v & Hc & _).
    destruct (poll_send f ob) as [[q ob1]|]; [|done]. intros [= <- <- <-].
    by exists raw, reason.
  - done.
Qed.

Lemma exec_signals_child cause s x :
  exec_signals_inv cause x -> exec_signals_inv cause (set_child (child_exits s (ex_child x)) x).
Proof.
  assert (Hc : child_exits s (ex_child x) = ChildReaped <-> ex_child x = ChildReaped)
    by (by destruct (ex_child x)).
  unfold exec_signals_inv, command_ended. destruct x as [ph tm pid ch ks si out err]; cbn in *.
  destruct ph; by repeat setoid_rewrite Hc.
Qed.
End ending.
