(* ===== verification/FdOps.v ===== *)
(** * FdOps: file descriptors

    The descriptor helpers of [src/session.rs]: [set_cloexec],
    [set_nonblocking], [set_winsize] and [write_all_fd].  The kernel is a
    parameter: an interface of system calls on a descriptor table, with the
    documented effect of each on the set of open descriptors. *)

From S2P Require Import Prelude AsyncIO Shell.

(** ** The kernel *)

(** Why [spawn_blocking(openpty)] failed: the call, or the blocking task. *)
Inductive openpty_failure :=
| OpenptyErrno (e : io_error)
| OpenptyTask (e : string).

Class Kernel (K : Type) := {
  O_NONBLOCK : Z;
  sys_openpty : K -> result (Z * Z) openpty_failure * K;   (* (master, slave) *)
  sys_dup : Z -> io K Z;
  sys_close : Z -> K -> K;
  sys_getfd : Z -> io K Z;                                (* F_GETFD *)
  sys_setfd : Z -> Z -> io K unit;                        (* F_SETFD *)
  sys_getfl : Z -> io K Z;                                (* F_GETFL *)
  sys_setfl : Z -> Z -> io K unit;                        (* F_SETFL *)
  sys_winsize : Z -> Z -> Z -> K -> K;                    (* TIOCSWINSZ rows cols *)
  sys_spawn : command -> list Z -> io K (option Z);       (* fork and exec; the pid *)
  sys_async_fd : Z -> io K unit;                          (* AsyncFd::new *)
}.

Class KernelView (K : Type) := {
  open_fds : K -> gset Z;
  stray_closes : K -> nat;       (* close calls on a descriptor that was not open *)
  fd_flags : K -> Z -> Z;        (* descriptor flags *)
  fl_flags : K -> Z -> Z;        (* status flags *)
  winsizes : K -> list (Z * (Z * Z));   (* the TIOCSWINSZ requests so far: fd, rows, cols *)
}.

(** The calls that leave the table of open descriptors alone. *)
Definition same_table {K} `{!KernelView K} (k k' : K) : Prop :=
  open_fds k' = open_fds k /\ stray_closes k' = stray_closes k.

Class KernelSpec (K : Type) `{!Kernel K, !KernelView K} : Prop := {
  openpty_ok m s (k k' : K) :
    sys_openpty k = (Ok (m, s), k') ->
    m <> s /\ (m ∉ open_fds k) /\ (s ∉ open_fds k) /\
    open_fds k' = {[m]} ∪ ({[s]} ∪ open_fds k) /\ stray_closes k' = stray_closes k;
  openpty_err e (k k' : K) : sys_openpty k = (Err e, k') -> same_table k k';
  dup_ok fd d (k k' : K) :
    sys_dup fd k = (Ok d, k') ->
    (d ∉ open_fds k) /\ open_fds k' = {[d]} ∪ open_fds k /\ stray_closes k' = stray_closes k;
  dup_err fd e (k k' : K) : sys_dup fd k = (Err e, k') -> same_table k k';
  close_open fd (k : K) :
    fd ∈ open_fds k ->
    open_fds (sys_close fd k) = open_fds k ∖ {[fd]} /\
    stray_closes (sys_close fd k) = stray_closes k;
  getfd_spec fd r (k k' : K) :
    sys_getfd fd k = (r, k') -> k' = k /\ (forall v, r = Ok v -> v = fd_flags k fd);
  setfd_spec fd v r (k k' : K) :
    sys_setfd fd v k = (r, k') -> same_table k k' /\
    forall g, fd_flags k' g = if decide (g = fd /\ r = Ok tt) then v else fd_flags k g;
  getfl_spec fd r (k k' : K) :
    sys_getfl fd k = (r, k') -> k' = k /\ (forall v, r = Ok v -> v = fl_flags k fd);
  setfl_spec fd v r (k k' : K) :
    sys_setfl fd v k = (r, k') -> same_table k k' /\
    forall g, fl_flags k' g = if decide (g = fd /\ r = Ok tt) then v else fl_flags k g;
  winsize_spec fd rows cols (k : K) : same_table k (sys_winsize fd rows cols k);
  spawn_spec c fds r (k k' : K) : sys_spawn c fds k = (r, k') -> same_table k k';
  async_fd_spec fd r (k k' : K) : sys_async_fd fd k = (r, k') -> same_table k k';
}.

(** Window sizes are requested by [TIOCSWINSZ] and by nothing else. *)
Class WinsizeSpec (K : Type) `{!Kernel K, !KernelView K} : Prop := {
  winsize_logged fd rows cols (k : K) :
    winsizes (sys_winsize fd rows cols k) = winsizes k ++ [(fd, (rows, cols))];
  openpty_winsizes r (k k' : K) : sys_openpty k = (r, k') -> winsizes k' = winsizes k;
  dup_winsizes fd r (k k' : K) : sys_dup fd k = (r, k') -> winsizes k' = winsizes k;
  close_winsizes fd (k : K) : winsizes (sys_close fd k) = winsizes k;
  getfd_winsizes fd r (k k' : K) : sys_getfd fd k = (r, k') -> winsizes k' = winsizes k;
  setfd_winsizes fd v r (k k' : K) : sys_setfd fd v k = (r, k') -> winsizes k' = winsizes k;
  getfl_winsizes fd r (k k' : K) : sys_getfl fd k = (r, k') -> winsizes k' = winsizes k;
  setfl_winsizes fd v r (k k' : K) : sys_setfl fd v k = (r, k') -> winsizes k' = winsizes k;
  spawn_winsizes c fds r (k k' : K) : sys_spawn c fds k = (r, k') -> winsizes k' = winsizes k;
  async_fd_winsizes fd r (k k' : K) : sys_async_fd fd k = (r, k') -> winsizes k' = winsizes k;
}.

(** ** The helpers *)

Definition FD_CLOEXEC : Z := 1.

Section ops.
Context {K : Type} `{!Kernel K}.

Definition set_cloexec (fd : Z) : io K unit :=
  (let? flags := sys_getfd fd in sys_setfd fd (Z.lor flags FD_CLOEXEC))%io.

Definition set_nonblocking (fd : Z) : io K unit :=
  (let? flags := sys_getfl fd in sys_setfl fd (Z.lor flags O_NONBLOCK))%io.

(** Best effort: the ioctl's result is ignored. *)
Definition set_winsize (fd rows cols : Z) (k : K) : K := sys_winsize fd rows cols k.

(** The descriptors an owner closes when it is dropped, in order. *)
Definition close_all (fds : list Z) (k : K) : K := fold_left (fun k fd => sys_close fd k) fds k.
End ops.

Section table.
Context {K : Type} `{KernelSpec K}.
Implicit Type k : K.

#[export] Instance same_table_preorder : PreOrder (@same_table K _).
Proof.
  split; [by split|]. intros k1 k2 k3 [E1 E2] [E3 E4]. unfold same_table. by rewrite E3, E4, E1, E2.
Qed.


Lemma set_cloexec_table fd r k k' : set_cloexec fd k = (r, k') -> same_table k k'.
Proof.
  unfold set_cloexec, io_bind.
  destruct (sys_getfd fd k) as [[v|e] k1] eqn:E; apply getfd_spec in E as [-> _].
  - by intros [? _]%setfd_spec.
  - by intros [= _ <-].
Qed.

Lemma set_nonblocking_table fd r k k' : set_nonblocking fd k = (r, k') -> same_table k k'.
Proof.
  unfold set_nonblocking, io_bind.
  destruct (sys_getfl fd k) as [[v|e] k1] eqn:E; apply getfl_spec in E as [-> _].
  - by intros [? _]%setfl_spec.
  - by intros [= _ <-].
Qed.

(** Closing distinct open descriptors. *)
Lemma close_all_spec fds k :
  NoDup fds -> list_to_set fds ⊆ open_fds k ->
  open_fds (close_all fds k) = open_fds k ∖ list_to_set fds /\
  stray_closes (close_all fds k) = stray_closes k.
Proof.
  revert k. induction fds as [|fd fds IH]; intros k Hnd Hsub; cbn.
  - split; [set_solver|done].
  - apply NoDup_cons in Hnd as [Hfd Hnd]. cbn in Hsub.
    destruct (close_open fd k) as [Ho Hs]; [set_solver|].
    destruct (IH (sys_close fd k) Hnd) as [Ho' Hs'].
    { rewrite Ho. set_solver. }
    unfold close_all in *. rewrite Ho', Hs', Ho, Hs. split; [set_solver|done].
Qed.
End table.

Section winsizes.
Context {K : Type} `{WinsizeSpec K}.
Implicit Type k : K.

Lemma set_cloexec_winsizes fd r k k' : set_cloexec fd k = (r, k') -> winsizes k' = winsizes k.
Proof.
  unfold set_cloexec, io_bind. destruct (sys_getfd fd k) as [[v|e] k1] eqn:E; apply getfd_winsizes in E as <-.
  - apply setfd_winsizes.
  - by intros [= _ <-].
Qed.

Lemma set_nonblocking_winsizes fd r k k' : set_nonblocking fd k = (r, k') -> winsizes k' = winsizes k.
Proof.
  unfold set_nonblocking, io_bind. destruct (sys_getfl fd k) as [[v|e] k1] eqn:E; apply getfl_winsizes in E as <-.
  - apply setfl_winsizes.
  - by intros [= _ <-].
Qed.

Lemma close_all_winsizes fds k : winsizes (close_all fds k) = winsizes k.
Proof.
  revert k. unfold close_all. induction fds as [|fd fds IH]; intros k; [done|]. cbn. by rewrite IH, close_winsizes.
Qed.
End winsizes.

(** ** [write_all_fd] *)

(** One [libc::write] on a writable non-blocking descriptor: [Ok n] bytes of
    the buffer were taken. *)
Class FdWrite (I : Type) := fd_write : list byte -> io I nat.

Class FdWriteSpec (I : Type) `{!FdWrite I, !WriteView I} : Prop := {
  fd_write_ok bs n (i i' : I) :
    fd_write bs i = (Ok n, i') -> (n <= length bs)%nat /\ written i' = written i ++ take n bs;
  fd_write_err bs e (i i' : I) : fd_write bs i = (Err e, i') -> written i' = written i;
}.

Section write_all_fd.
Context {I : Type} `{!FdWrite I}.

(** What the loop does at offset [off]. *)
Inductive fd_progress :=
| FdFinished (res : io_result unit)
| FdAt (off : nat).

(** One iteration once the descriptor is writable; [try_io]'s would-block
    outcome leaves the state as it is and is the environment's choice. *)
Definition write_fd_attempt (data : list byte) (off : nat) (i : I) : fd_progress * I :=
  match fd_write (drop off data) i with
  | (Ok 0%nat, i') => (FdFinished (Err (Custom WriteZero)), i')
  | (Ok n, i') => (if (off + n <? length data)%nat then FdAt (off + n) else FdFinished (Ok tt), i')
  | (Err e, i') => (FdFinished (Err e), i')
  end.

(** The whole loop; each element of [polls] is one wake-up, [false] for a
    wake-up that turns out to block.  [None]: still waiting at the end. *)
Fixpoint write_fd_loop (polls : list bool) (data : list byte) (off : nat) (i : I) :
    option (io_result unit) * I :=
  match polls with
  | [] => (None, i)
  | false :: ps => write_fd_loop ps data off i
  | true :: ps =>
      match write_fd_attempt data off i with
      | (FdFinished r, i') => (Some r, i')
      | (FdAt off', i') => write_fd_loop ps data off' i'
      end
  end.

Definition write_all_fd (polls : list bool) (data : list byte) (i : I) :
    option (io_result unit) * I :=
  if (0 <? length data)%nat then write_fd_loop polls data 0 i else (Some (Ok tt), i).
End write_all_fd.

Section write_all_fd_proofs.
Context {I : Type} `{FdWriteSpec I}.
Implicit Type i : I.

Lemma write_fd_attempt_spec data off i p i' :
  (off < length data)%nat -> write_fd_attempt data off i = (p, i') ->
  match p with
  | FdAt off' => (off < off' < length data)%nat /\
      written i' = written i ++ take (off' - off) (drop off data)
  | FdFinished (Ok _) => written i' = written i ++ drop off data
  | FdFinished (Err _) => written i' = written i
  end.
Proof.
  intros Hoff. unfold write_fd_attempt.
  destruct (fd_write (drop off data) i) as [[[|n]|e] i1] eqn:E.
  - intros [= <- <-]. destruct (fd_write_ok _ _ _ _ E) as [_ ->]. by rewrite take_0, app_nil_r.
  - destruct (fd_write_ok _ _ _ _ E) as [Hn Hw]. rewrite length_drop in Hn.
    destruct (Nat.ltb_spec (off + S n) (length data)); intros [= <- <-].
    + split; [lia|]. rewrite Hw. do 2 f_equal. lia.
    + rewrite Hw. f_equal. apply take_ge. rewrite length_drop. lia.
  - intros [= <- <-]. by eapply fd_write_err.
Qed.

Lemma write_fd_loop_spec polls data off i r i' :
  (off < length data)%nat -> write_fd_loop polls data off i = (r, i') ->
  (exists k, (off <= k <= length data)%nat /\
    written i' = written i ++ take (k - off) (drop off data) /\ (r = Some (Ok tt) -> k = length data)) /\
  (r = None -> (length (filter (fun b => b = true) polls) < length data - off)%nat).
Proof.
  revert off i. induction polls as [|[] ps IH]; intros off i Hoff; cbn [write_fd_loop].
  - intros [= <- <-]. cbn. split; [|lia]. exists off.
    rewrite Nat.sub_diag, take_0, app_nil_r. split_and!; [lia..|done|done].
  - destruct (write_fd_attempt data off i) as [[res|off'] i1] eqn:E;
      apply write_fd_attempt_spec in E; [|done| |done].
    + intros [= <- <-]. split; [|done]. destruct res as [[]|e].
      * exists (length data). rewrite E, take_ge by (rewrite length_drop; lia). split_and!; [lia..|done|done].
      * exists off. rewrite Nat.sub_diag, take_0, app_nil_r. split_and!; [lia..|done|done].
    + destruct E as [Ho Hw]. intros Er. destruct (IH off' i1) as [(k & Hk & Hw' & Hok) Hn]; [lia|done|].
      split.
      * exists k. split; [lia|]. split; [|done]. rewrite Hw', Hw, <- app_assoc. f_equal.
        replace (drop off' data) with (drop (off' - off) (drop off data))
          by (rewrite drop_drop; f_equal; lia).
        rewrite take_take_drop. f_equal. lia.
      * intros Hr. specialize (Hn Hr). rewrite filter_cons_True by done. cbn. lia.
  - intros Er. destruct (IH off i Hoff Er) as [Hk Hn]. split; [done|].
    intros Hr. rewrite filter_cons_False by done. auto.
Qed.

(** C27 [write_all_fd] writes every byte once and in order: whatever the
    sizes of the partial writes and however often it is woken in vain, what
    has been written is a prefix of the data, all of it when it returns
    [Ok]; a zero-byte write is an error instead of a busy loop; and as many
    useful wake-ups as there are bytes are enough for it to return. *)
Theorem write_all_fd_total polls data i r i' :
  write_all_fd polls data i = (r, i') ->
  (exists k, (k <= length data)%nat /\ written i' = written i ++ take k data /\
     (r = Some (Ok tt) -> k = length data)) /\
  ((length data <= length (filter (fun b => b = true) polls))%nat -> r <> None) /\
  (forall i1 ps, data <> [] -> fd_write data i = (Ok 0%nat, i1) -> polls = true :: ps ->
     r = Some (Err (Custom WriteZero))).
Proof.
  unfold write_all_fd. destruct (Nat.ltb_spec 0 (length data)) as [Hl|Hl].
  - intros Er. pose proof (write_fd_loop_spec _ _ _ _ _ _ Hl Er) as [(k & Hk & Hw & Hok) Hn].
    rewrite Nat.sub_0_r, drop_0 in *. split_and!.
    + exists k. split_and!; [lia|done|done].
    + intros Hf ->. specialize (Hn eq_refl). lia.
    + intros i1 ps _ Hz ->. cbn in Er. unfold write_fd_attempt in Er.
      rewrite drop_0, Hz in Er. by simplify_eq.
  - intros [= <- <-]. assert (data = []) as -> by (destruct data; [done|cbn in Hl; lia]).
    split_and!; [|done|done]. exists 0%nat. cbn. rewrite app_nil_r. split_and!; [lia|done|done].
Qed.
End write_all_fd_proofs.

(** ** Owning descriptors *)

(** Relative to the table [k0] a component started from, it holds exactly the
    descriptors [fds], and has closed nothing it did not own. *)
Definition holds {K} `{!KernelView K} (k0 : K) (fds : list Z) (k : K) : Prop :=
  NoDup fds /\ (forall fd, fd ∈ fds -> fd ∉ open_fds k0) /\
  open_fds k = list_to_set fds ∪ open_fds k0 /\ stray_closes k = stray_closes k0.

Section holds.
Context {K : Type} `{KernelSpec K}.
Implicit Types k : K.

Lemma holds_nil k0 k : holds k0 [] k <-> same_table k0 k.
Proof.
  unfold holds, same_table. cbn. split.
  - intros (_ & _ & -> & ->). split; [set_solver|done].
  - intros [-> ->]. split_and!; [constructor | set_solver | set_solver | done].
Qed.

Lemma holds_perm k0 fds fds' k : fds ≡ₚ fds' -> holds k0 fds k -> holds k0 fds' k.
Proof.
  intros Hp (Hn & Hf & Ho & Hs). split_and!; [by rewrite <- Hp | | | done].
  - intros fd. rewrite <- Hp. apply Hf.
  - rewrite Ho. by rewrite (list_to_set_perm_L _ _ Hp).
Qed.

Lemma holds_same k0 fds k k' : same_table k k' -> holds k0 fds k -> holds k0 fds k'.
Proof. intros [E1 E2] (? & ? & ? & ?). unfold holds. rewrite E1, E2. by split_and!. Qed.

Lemma holds_open k0 fds fd k k' :
  fd ∉ open_fds k -> open_fds k' = {[fd]} ∪ open_fds k -> stray_closes k' = stray_closes k ->
  holds k0 fds k -> holds k0 (fd :: fds) k'.
Proof.
  intros Hfd Ho' Hs' (Hn & Hf & Ho & Hs). rewrite Ho in *. unfold holds. rewrite Ho', Hs'.
  split_and!; [ | | by cbn; rewrite union_assoc_L | done].
  - constructor; [|done]. set_solver.
  - set_solver.
Qed.

Lemma holds_close_all k0 fds ds rest k :
  fds ≡ₚ ds ++ rest -> holds k0 fds k -> holds k0 rest (close_all ds k).
Proof.
  intros Hp Hh. apply (holds_perm _ _ _ _ Hp) in Hh as (Hn & Hf & Ho & Hs).
  apply NoDup_app in Hn as (Hn1 & Hd & Hn2).
  destruct (close_all_spec ds k Hn1) as [Ho' Hs'].
  { rewrite Ho, list_to_set_app_L. set_solver. }
  unfold holds. rewrite Ho', Hs', Ho, Hs, list_to_set_app_L.
  split_and!; [done | set_solver | | done].
  apply set_eq. intros x. specialize (Hd x). specialize (Hf x). set_solver.
Qed.

Lemma holds_close k0 fds fd rest k :
  fds ≡ₚ fd :: rest -> holds k0 fds k -> holds k0 rest (sys_close fd k).
Proof. intros Hp. by apply (holds_close_all k0 fds [fd]). Qed.

Lemma holds_dup k0 fds fd r k k' :
  sys_dup fd k = (r, k') -> holds k0 fds k ->
  holds k0 (match r with Ok d => d :: fds | Err _ => fds end) k'.
Proof.
  intros E Hh. destruct r as [d|e].
  - destruct (dup_ok _ _ _ _ E) as (? & ? & ?). by eapply holds_open.
  - apply dup_err in E. by eapply holds_same.
Qed.
End holds.
