(* ===== verification/Pty.v ===== *)
(** * Pty: the interactive shell

    [open_pty] and [hangup] of [src/session.rs]: allocating the pty and spawning
    the shell with every failure path, the two tasks that carry the terminal's
    bytes, the (unbiased) select that waits for the first of the input task, the
    shell and the session's [Cancel], the escalating hangup, the bounded drain
    and the EXIT frame. *)

From S2P Require Import Prelude AsyncIO Frame Duration Status Request Shell Outbound Pump Exec.
From S2P Require Import FdOps.

(** The two directions of a pty master, by its descriptor. *)
Class PtyStreams (S I : Type) := {
  pty_reader : Z -> S;
  pty_writer : Z -> I;
}.

(** ** State *)

Inductive input_state :=
| InReading (since : Z)                                 (* timeout(idle, read_frame(reader)) *)
| InWriting (data : list byte) (off : nat) (since : Z)  (* timeout(idle, write_all_fd(..)) *)
| InOver.

Inductive live_phase :=
| LvRunning                                             (* the select *)
| LvHangup (since : Z)                                  (* SIGHUP sent, 2 s to exit *)
| LvKilled (since : Z)                                  (* SIGKILL sent, reap_bounded *)
| LvDrain (raw : io_result Z) (reason : string) (since : Z)
| LvSendExit (f : Frame).

Record live (S I : Type) := Live {
  lv_phase : live_phase;
  lv_master : Z;
  lv_pid : option Z;
  lv_child : child_state;
  lv_kills : list kill_call;
  lv_input : input_state;
  lv_write : I;
  lv_out : pump S;
}.
Arguments Live {S I} _ _ _ _ _ _ _ _.
Arguments lv_phase {S I} _.
Arguments lv_master {S I} _.
Arguments lv_pid {S I} _.
Arguments lv_child {S I} _.
Arguments lv_kills {S I} _.
Arguments lv_input {S I} _.
Arguments lv_write {S I} _.
Arguments lv_out {S I} _.

Inductive pty_state (S I : Type) :=
| PtyOpening (req : Request)                      (* spawn_blocking(openpty) *)
| PtyFailing (msg : string) (owned : list Z)      (* send_error; then what [cmd] owns is dropped *)
| PtyReaping (msg : string) (master : option Z) (child : child_state)
    (kills : list kill_call) (since : Z)          (* reap_bounded after a late failure *)
| PtyLive (l : live S I)
| PtyReturned (kills : list kill_call) (res : result unit string).
Arguments PtyOpening {S I} _.
Arguments PtyFailing {S I} _ _.
Arguments PtyReaping {S I} _ _ _ _ _.
Arguments PtyLive {S I} _.
Arguments PtyReturned {S I} _ _.

Definition HANGUP_GRACE : Z := from_secs 2.
Definition PTY_DRAIN_GRACE : Z := from_millis 200.

(** The last failing call's error, as [last_os_error] reports it. *)
Definition last_error (rs : list (io_result Z)) : io_error :=
  fold_left (fun e r => match r with Err e' => e' | Ok _ => e end) rs (Os 0).

(** The descriptors among the results, in order: those that are not -1. *)
Definition good_fds (rs : list (io_result Z)) : list Z :=
  omap (fun r => match r with Ok d => Some d | Err _ => None end) rs.

Section ops.
Context {C W R S I K : Type}.
Context `{!Mpsc C, !AsyncWrite W, !AsyncRead R, !AsyncRead S, !FdWrite I, !Kernel K}.
Context `{!Json, !Fmt, !Shlex, !PtyStreams S I}.
Implicit Types (l : live S I) (ob : outbound C W) (k : K).

Definition lv_set_phase (p : live_phase) l : live S I :=
  Live p (lv_master l) (lv_pid l) (lv_child l) (lv_kills l) (lv_input l) (lv_write l) (lv_out l).
Definition lv_set_child (ch : child_state) l : live S I :=
  Live (lv_phase l) (lv_master l) (lv_pid l) ch (lv_kills l) (lv_input l) (lv_write l) (lv_out l).
Definition lv_add_kills (ks : list kill_call) l : live S I :=
  Live (lv_phase l) (lv_master l) (lv_pid l) (lv_child l) (lv_kills l ++ ks)
    (lv_input l) (lv_write l) (lv_out l).
Definition lv_set_input (st : input_state) (i : I) l : live S I :=
  Live (lv_phase l) (lv_master l) (lv_pid l) (lv_child l) (lv_kills l) st i (lv_out l).
Definition lv_set_out (p : pump S) l : live S I :=
  Live (lv_phase l) (lv_master l) (lv_pid l) (lv_child l) (lv_kills l)
    (lv_input l) (lv_write l) p.

(** [libc::dup], three times in a row. *)
Definition dup3 (fd : Z) (k : K) : list (io_result Z) * K :=
  let '(r0, k0) := sys_dup fd k in
  let '(r1, k1) := sys_dup fd k0 in
  let '(r2, k2) := sys_dup fd k1 in
  ([r0; r1; r2], k2).

(** From the spawned shell to the select: [cmd] and the slave are dropped,
    the master is made non-blocking and registered.  A failure here kills the
    shell's group and reaps it before the error is sent. *)
Definition pty_started (now master slave : Z) (dups : list Z) (pid : option Z) ob k :
    pty_state S I * outbound C W * K :=
  let k := sys_close slave (close_all dups k) in
  match set_nonblocking master k with
  | (Err e, k) =>
      (PtyReaping ("failed to set pty master non-blocking: " +:+ fmt_io_error e)
         (Some master) ChildRunning (kill_group pid) now, ob, k)
  | (Ok _, k) =>
      match sys_async_fd master k with
      | (Err e, k) =>
          (PtyReaping ("failed to register pty master with the runtime: " +:+ fmt_io_error e)
             None ChildRunning (kill_group pid) now, ob, sys_close master k)
      | (Ok _, k) =>
          (PtyLive (Live LvRunning master pid ChildRunning [] (InReading now)
             (pty_writer master) (Pump (pty_reader master) PumpReading)), clone_sender ob, k)
      end
  end.

(** The pty is open: window size, close-on-exec, the slave's dups, the shell. *)
Definition pty_setup (cf : config) (now : Z) (req : Request) (master slave : Z) ob k :
    pty_state S I * outbound C W * K :=
  let k := set_winsize master (default 24 (rows req)) (default 80 (cols req)) k in
  match set_cloexec master k with
  | (Err e, k) =>
      (PtyFailing ("failed to set pty master close-on-exec: " +:+ fmt_io_error e) [], ob,
       sys_close slave (sys_close master k))
  | (Ok _, k) =>
      let '(rs, k) := dup3 slave k in
      if negb (forallb is_ok rs) then
        (PtyFailing ("failed to dup pty slave: " +:+ fmt_io_error (last_error rs)) [], ob,
         sys_close slave (sys_close master (close_all (good_fds rs) k)))
      else
        match sys_spawn (pty_command (cf_shell cf)) (good_fds rs) k with
        | (Err e, k) =>
            (PtyFailing ("failed to spawn pty shell: " +:+ fmt_io_error e) (good_fds rs), ob,
             sys_close slave (sys_close master k))
        | (Ok pid, k) => pty_started now master slave (good_fds rs) pid ob k
        end
  end.

(** One poll of the task that reads the master: a frame that the channel
    refuses ends it, unlike [pump]. *)
Definition poll_pty_out (env : poll_env) (p : pump S) ob : option (pump S * outbound C W) :=
  match pm_state p with
  | PumpReading =>
      if io_ready env then
        match read READ_CHUNK (pm_src p) with
        | (Ok [], s') => Some (Pump s' PumpExited, drop_sender ob)
        | (Ok buf, s') => Some (Pump s' (PumpSending buf), ob)
        | (Err _, s') => Some (Pump s' PumpExited, drop_sender ob)
        end
      else None
  | PumpSending buf =>
      match poll_send (mkFrame FRAME_STDOUT buf) ob with
      | Some (true, ob') => Some (Pump (pm_src p) PumpReading, ob')
      | Some (false, ob') => Some (Pump (pm_src p) PumpExited, drop_sender ob')
      | None => None
      end
  | PumpExited | PumpAborted => None
  end.

(** What a completed [read_frame] makes the input task do: its new state and
    the kernel after a resize. *)
Definition input_frame (now master : Z) (res : io_result (option Frame)) k : input_state * K :=
  match res with
  | Ok (Some f) =>
      if bool_decide (ftype f = FRAME_STDIN) then (InWriting (payload f) 0 now, k)
      else if bool_decide (ftype f = FRAME_RESIZE) then
        match from_slice_resize (payload f) with
        | Ok rs => (InReading now, set_winsize master (rs_rows rs) (rs_cols rs) k)
        | Err _ => (InReading now, k)
        end
      else (InReading now, k)
  | Ok None => (InOver, k)
  | Err _ => (InOver, k)
  end.

(** One poll of the input task; the flag tells whether [cancel.fire()] ran. *)
Definition poll_input (cf : config) (now : Z) (env : poll_env) (cancelled : bool) l (r : R) k :
    option (input_state * I * R * K * bool) :=
  match lv_input l with
  | InReading since =>
      if io_ready env then
        let '(res, r') := read_frame (cf_inbound_cap cf) r in
        let '(st, k') := input_frame now (lv_master l) res k in
        Some (st, lv_write l, r', k', false)
      else if since + cf_idle_timeout cf <=? now then Some (InOver, lv_write l, r, k, true)
      else None
  | InWriting data off since =>
      if cancelled then Some (InOver, lv_write l, r, k, false)
      else if (length data <=? off)%nat then Some (InReading now, lv_write l, r, k, false)
      else if io_ready env then
        match write_fd_attempt data off (lv_write l) with
        | (FdFinished (Ok _), i') => Some (InReading now, i', r, k, false)
        | (FdFinished (Err _), i') => Some (InOver, i', r, k, false)
        | (FdAt off', i') => Some (InWriting data off' since, i', r, k, false)
        end
      else if since + cf_idle_timeout cf <=? now then Some (InOver, lv_write l, r, k, true)
      else None
  | InOver => None
  end.

(** [hangup]: SIGHUP to the shell's group. *)
Definition start_hangup (now : Z) l : live S I :=
  lv_set_phase (LvHangup now) (lv_add_kills (signal_group (lv_pid l) SIGHUP) l).

(** The three arms of the select; [None] when the arm is pending. *)
Definition arm_input (cf : config) (now : Z) (env : poll_env) l (r : R) ob k :
    option (live S I * R * outbound C W * K) :=
  match poll_input cf now env (ob_cancel ob) l r k with
  | Some (st, i', r', k', fired) =>
      let l' := lv_set_input st i' l in
      let ob' := if fired then fire ob else ob in
      Some (match st with InOver => start_hangup now l' | _ => l' end, r', ob', k')
  | None => None
  end.

Definition arm_child (now : Z) l : option (live S I) :=
  match lv_child l with
  | ChildZombie s => Some (lv_set_phase (LvDrain (Ok s) "" now) (lv_set_child ChildReaped l))
  | _ => None
  end.

Definition arm_cancel (now : Z) l ob : option (live S I) :=
  if ob_cancel ob then Some (start_hangup now l) else None.

(** The select is not biased: it polls its arms in turn from a random one. *)
Definition poll_select (cf : config) (now : Z) (env : poll_env) (first : nat) l (r : R) ob k :
    option (live S I * R * outbound C W * K) :=
  let a0 := arm_input cf now env l r ob k in
  let a1 := option_map (fun l' => (l', r, ob, k)) (arm_child now l) in
  let a2 := option_map (fun l' => (l', r, ob, k)) (arm_cancel now l ob) in
  let or_else a b := match a with Some _ => a | None => b end in
  match first with
  | O => or_else a0 (or_else a1 a2)
  | 1%nat => or_else a1 (or_else a2 a0)
  | _ => or_else a2 (or_else a0 a1)
  end.

Definition pty_exit_step (raw : io_result Z) (reason : string) : live_phase + string :=
  let '(code, reason) := exit_fields raw reason in
  match to_vec_exit code reason with
  | Ok p => inl (LvSendExit (mkFrame FRAME_EXIT p))
  | Err e => inr e
  end.

(** The end of the drain: returning drops the last owners of the master. *)
Definition pty_finish (raw : io_result Z) (reason : string) l ob k :
    pty_state S I * outbound C W * K :=
  match pty_exit_step raw reason with
  | inl ph => (PtyLive (lv_set_phase ph l), ob, k)
  | inr e => (PtyReturned (lv_kills l) (Err e), ob, sys_close (lv_master l) k)
  end.

Definition poll_live (cf : config) (now : Z) (env : poll_env) (first : nat) l (r : R) ob k :
    option (pty_state S I * R * outbound C W * K) :=
  match lv_phase l with
  | LvRunning =>
      match poll_select cf now env first l r ob k with
      | Some (l', r', ob', k') => Some (PtyLive l', r', ob', k')
      | None => None
      end
  | LvHangup since =>
      match lv_child l with
      | ChildZombie s =>
          Some (PtyLive (lv_set_phase (LvDrain (Ok s) "disconnected" now) (lv_set_child ChildReaped l)),
                r, ob, k)
      | _ =>
          if since + HANGUP_GRACE <=? now then
            Some (PtyLive (lv_set_phase (LvKilled now)
                    (lv_add_kills (signal_group (lv_pid l) SIGKILL) l)), r, ob, k)
          else None
      end
  | LvKilled since =>
      match reap_bounded now since (lv_child l) with
      | Some (raw, ch) =>
          Some (PtyLive (lv_set_phase (LvDrain raw "disconnected" now) (lv_set_child ch l)), r, ob, k)
      | None => None
      end
  | LvDrain raw reason since =>
      if pump_over (lv_out l) then
        let '(p, ob', k') := pty_finish raw reason l ob k in Some (p, r, ob', k')
      else if since + PTY_DRAIN_GRACE <=? now then
        let '(out', ob1) := abort_pump (lv_out l) ob in
        let '(p, ob', k') := pty_finish raw reason (lv_set_out out' l) ob1 k in Some (p, r, ob', k')
      else None
  | LvSendExit f =>
      match poll_send f ob with
      | Some (_, ob') => Some (PtyReturned (lv_kills l) (Ok tt), r, ob', sys_close (lv_master l) k)
      | None => None
      end
  end.

(** One poll of the session task while it runs [open_pty]. *)
Definition poll_pty (cf : config) (now : Z) (env : poll_env) (first : nat)
    (p : pty_state S I) (r : R) ob k : option (pty_state S I * R * outbound C W * K) :=
  match p with
  | PtyOpening req =>
      if io_ready env then
        match sys_openpty k with
        | (Ok (master, slave), k1) =>
            let '(p', ob', k') := pty_setup cf now req master slave ob k1 in Some (p', r, ob', k')
        | (Err (OpenptyErrno e), k1) =>
            Some (PtyFailing ("openpty failed: " +:+ fmt_io_error e) [], r, ob, k1)
        | (Err (OpenptyTask e), k1) =>
            Some (PtyFailing ("openpty task failed: " +:+ e) [], r, ob, k1)
        end
      else None
  | PtyFailing msg owned =>
      match poll_send (error_frame msg) ob with
      | Some (_, ob') => Some (PtyReturned [] (Ok tt), r, ob', close_all owned k)
      | None => None
      end
  | PtyReaping msg master child kills since =>
      match reap_bounded now since child with
      | Some (_, ch) =>
          Some (PtyFailing msg [], r, ob,
                match master with Some m => sys_close m k | None => k end)
      | None => None
      end
  | PtyLive l => poll_live cf now env first l r ob k
  | PtyReturned _ _ => None
  end.
End ops.

(** ** The select *)

Section select.
Context {C W R S I K : Type}.
Context `{!Mpsc C, !AsyncWrite W, !AsyncRead R, !AsyncRead S, !FdWrite I, !Kernel K}.
Context `{!Json, !Fmt, !Shlex, !PtyStreams S I}.
Implicit Types (l : live S I) (ob : outbound C W) (k : K) (r : R).

(** Whatever arm it starts at, one of the three has run. *)
Lemma poll_select_arms cf now env first l l' r r' ob ob' k k' :
  poll_select cf now env first l r ob k = Some (l', r', ob', k') ->
  arm_input cf now env l r ob k = Some (l', r', ob', k') \/
  (arm_child now l = Some l' \/ arm_cancel now l ob = Some l') /\ r' = r /\ ob' = ob /\ k' = k.
Proof.
  unfold poll_select. intros E.
  destruct (arm_input cf now env l r ob k) as [x|], (arm_child now l), (arm_cancel now l ob);
    destruct first as [|[|]]; cbn in E; simplify_eq; auto 10.
Qed.

(** The input task of a shell moves by its own polls only. *)
Lemma live_input_step cf now env first l l' r r' ob ob' k k' :
  poll_live cf now env first l r ob k = Some (PtyLive l', r', ob', k') ->
  lv_input l' = lv_input l \/
  exists i fired, poll_input cf now env (ob_cancel ob) l r k = Some (lv_input l', i, r', k', fired).
Proof.
  unfold poll_live, pty_finish. intros E. destruct (lv_phase l) as [|since|since|raw reason since|f].
  - destruct (poll_select _ _ _ _ _ _ _ _) as [[[[l1 r1] ob1] k1]|] eqn:Es; [|done]. simplify_eq.
    destruct (poll_select_arms _ _ _ _ _ _ _ _ _ _ _ _ Es) as [Ea|([Ea|Ea] & _)].
    + unfold arm_input in Ea. destruct (poll_input _ _ _ _ _ _ _) as [[[[[st i] r2] k2] fired]|]; [|done].
      right. exists i, fired. by destruct st; simplify_eq.
    + left. unfold arm_child in Ea. by destruct (lv_child l); simplify_eq.
    + left. unfold arm_cancel in Ea. by destruct (ob_cancel ob); simplify_eq.
  - left. destruct (lv_child l); try case_hyp E; by simplify_eq.
  - left. destruct (reap_bounded _ _ _) as [[raw ch]|]; by simplify_eq.
  - left. destruct (abort_pump _ _) as [out ob0].
    destruct (pty_exit_step raw reason), (pump_over _); [by simplify_eq|..]; try case_hyp E; by simplify_eq.
  - destruct (poll_send _ _) as [[q ob1]|]; by simplify_eq.
Qed.
End select.

(** ** Descriptors *)

(** What the session owns of the descriptor table in each state. *)
Definition pty_fds {S I} (p : pty_state S I) : list Z :=
  match p with
  | PtyOpening _ => []
  | PtyFailing _ owned => owned
  | PtyReaping _ master _ _ _ => option_list master
  | PtyLive l => [lv_master l]
  | PtyReturned _ _ => []
  end.

Section fds.
Context {C W R S I K : Type}.
Context `{!Mpsc C, !AsyncWrite W, !AsyncRead R, !AsyncRead S, !FdWrite I, KernelSpec K}.
Context `{!Json, !Fmt, !Shlex, !PtyStreams S I}.
Implicit Types (l : live S I) (ob : outbound C W) (k : K) (p : pty_state S I).

Lemma dup3_holds k0 fds fd rs k k' :
  dup3 fd k = (rs, k') -> holds k0 fds k -> holds k0 (good_fds rs ++ fds) k'.
Proof.
  unfold dup3.
  destruct (sys_dup fd k) as [r0 k1] eqn:E0. destruct (sys_dup fd k1) as [r1 k2] eqn:E1.
  destruct (sys_dup fd k2) as [r2 k3] eqn:E2. intros [= <- <-] Hh.
  apply (holds_dup _ _ _ _ _ _ E0) in Hh. apply (holds_dup _ _ _ _ _ _ E1) in Hh.
  apply (holds_dup _ _ _ _ _ _ E2) in Hh. revert Hh. apply holds_perm.
  destruct r0, r1, r2; cbn; solve_Permutation || done.
Qed.

Lemma pty_started_holds k0 now m s dups pid ob k p' ob' k' :
  holds k0 (dups ++ [m; s]) k -> pty_started now m s dups pid ob k = (p', ob', k') ->
  holds k0 (pty_fds p') k'.
Proof.
  intros Hh. unfold pty_started.
  assert (Hm : holds k0 [m] (sys_close s (close_all dups k))).
  { apply (holds_close _ [m; s] s); [constructor|]. by apply (holds_close_all _ _ dups _ _ (Permutation_refl _)). }
  destruct (set_nonblocking _ _) as [[u|e] k1] eqn:E1;
    apply set_nonblocking_table in E1; apply (holds_same _ _ _ _ E1) in Hm.
  - destruct (sys_async_fd m k1) as [[u2|e] k2] eqn:E2;
      apply async_fd_spec in E2; apply (holds_same _ _ _ _ E2) in Hm; intros [= <- _ <-]; cbn.
    + done.
    + by apply (holds_close _ [m] m).
  - by intros [= <- _ <-].
Qed.

Lemma pty_setup_holds k0 cf now req m s ob k p' ob' k' :
  holds k0 [m; s] k -> pty_setup cf now req m s ob k = (p', ob', k') ->
  holds k0 (pty_fds p') k'.
Proof.
  intros Hh. unfold pty_setup, set_winsize.
  apply (holds_same _ _ _ _ (winsize_spec m (default 24 (rows req)) (default 80 (cols req)) k)) in Hh.
  destruct (set_cloexec _ _) as [[u|e] k1] eqn:E1;
    apply set_cloexec_table in E1; apply (holds_same _ _ _ _ E1) in Hh.
  2:{ intros [= <- _ <-]. cbn. apply (holds_close _ [s] s); [done|].
      by apply (holds_close _ [m; s] m). }
  destruct (dup3 s k1) as [rs k2] eqn:E2. apply (dup3_holds _ _ _ _ _ _ E2) in Hh.
  destruct (forallb is_ok rs); cbn [negb].
  2:{ intros [= <- _ <-]. cbn. apply (holds_close _ [s] s); [done|].
      apply (holds_close _ [m; s] m); [done|].
      by apply (holds_close_all _ _ (good_fds rs) _ _ (Permutation_refl _)). }
  destruct (sys_spawn _ _ k2) as [[pid|e] k3] eqn:E3;
    apply spawn_spec in E3; apply (holds_same _ _ _ _ E3) in Hh.
  - by apply pty_started_holds.
  - intros [= <- _ <-]. cbn. eapply (holds_close _ (s :: good_fds rs) s); [done|].
    apply (holds_close _ (good_fds rs ++ [m; s]) m); [|done].
    rewrite Permutation_app_comm. done.
Qed.
End fds.

(** ** Every execution of [open_pty] *)

Section reach.
Context {C W R S I K : Type}.
Context `{!Mpsc C, !AsyncWrite W, !AsyncRead R, !AsyncRead S, !FdWrite I, !Kernel K}.
Context `{!Json, !Fmt, !Shlex, !PtyStreams S I}.

Definition pty_child_exits (s : Z) (p : pty_state S I) : pty_state S I :=
  match p with
  | PtyReaping msg m ch ks since => PtyReaping msg m (child_exits s ch) ks since
  | PtyLive l => PtyLive (lv_set_child (child_exits s (lv_child l)) l)
  | _ => p
  end.

(** From [open_pty]'s first await in the table [k0]: the session task is
    polled, the output task moves on, the child exits.  The connection and
    the outbound path may be in any state at each poll: other tasks run in
    between. *)
Inductive pty_reach (cf : config) (req : Request) (k0 : K) : pty_state S I -> K -> Prop :=
| reach_start : pty_reach cf req k0 (PtyOpening req) k0
| reach_poll p k now env first (r r' : R) (ob ob' : outbound C W) p' k' :
    pty_reach cf req k0 p k ->
    poll_pty cf now env first p r ob k = Some (p', r', ob', k') ->
    pty_reach cf req k0 p' k'
| reach_out l k out' :
    pty_reach cf req k0 (PtyLive l) k -> pty_reach cf req k0 (PtyLive (lv_set_out out' l)) k
| reach_child p k s :
    pty_reach cf req k0 p k -> pty_reach cf req k0 (pty_child_exits s p) k.
End reach.

Section poll_proofs.
Context {C W R S I K : Type}.
Context `{!Mpsc C, !AsyncWrite W, !AsyncRead R, !AsyncRead S, !FdWrite I, KernelSpec K}.
Context `{!Json, !Fmt, !Shlex, !PtyStreams S I}.
Implicit Types (l : live S I) (ob : outbound C W) (k : K) (p : pty_state S I) (r : R).

Lemma input_frame_table now m res k st k' :
  input_frame now m res k = (st, k') -> same_table k k'.
Proof.
  unfold input_frame, set_winsize. intros E.
  repeat case_hyp E; simplify_eq; first [done | apply winsize_spec].
Qed.

Lemma poll_input_table cf now env c l r k st i r' k' fired :
  poll_input cf now env c l r k = Some (st, i, r', k', fired) -> same_table k k'.
Proof.
  unfold poll_input. destruct (lv_input l) as [since|data off since|]; [| |done].
  - destruct (io_ready env).
    + destruct (read_frame _ r) as [res r1]. destruct (input_frame _ _ _ _) as [st1 k1] eqn:E.
      apply input_frame_table in E. by intros [= <- <- <- <- <-].
    + case_match; [|done]. by intros [= <- <- <- <- <-].
  - destruct c; [by intros [= <- <- <- <- <-]|].
    destruct (length data <=? off)%nat; [by intros [= <- <- <- <- <-]|].
    destruct (io_ready env).
    + destruct (write_fd_attempt _ _ _) as [[[]|] i1]; by intros [= <- <- <- <- <-].
    + case_match; [|done]. by intros [= <- <- <- <- <-].
Qed.

(** What one poll of the select does: an arm completed, or the input task
    moved on. *)
Lemma poll_select_cases cf now env first l r ob k l' r' ob' k' :
  lv_phase l = LvRunning ->
  poll_select cf now env first l r ob k = Some (l', r', ob', k') ->
  same_table k k' /\ lv_master l' = lv_master l /\ lv_pid l' = lv_pid l /\ lv_out l' = lv_out l /\
  (ob' = ob \/ ob' = fire ob) /\
  ((lv_phase l' = LvRunning /\ lv_kills l' = lv_kills l /\ lv_child l' = lv_child l) \/
   (lv_phase l' = LvHangup now /\ lv_child l' = lv_child l /\
    lv_kills l' = lv_kills l ++ signal_group (lv_pid l) SIGHUP) \/
   (exists s, lv_child l = ChildZombie s /\ lv_phase l' = LvDrain (Ok s) "" now /\
    lv_child l' = ChildReaped /\ lv_kills l' = lv_kills l)).
Proof.
  intros Hp E.
  destruct (poll_select_arms _ _ _ _ _ _ _ _ _ _ _ _ E) as [Ea | (Ea & _ & -> & ->)].
  - unfold arm_input in Ea.
    destruct (poll_input cf now env (ob_cancel ob) l r k) as [[[[[st i] r1] k1] fired]|] eqn:Ei; [|done].
    apply poll_input_table in Ei. simplify_eq.
    split; [done|]. destruct st; cbn; rewrite ?Hp; (split_and!; [done..| |]);
      try (destruct fired; by auto); auto 10.
  - split; [by split|]. destruct Ea as [Ea|Ea].
    + unfold arm_child in Ea. destruct (lv_child l) as [|s|] eqn:Ec; try done. simplify_eq; cbn.
      split_and!; [done..|by left|]. right; right. by exists s.
    + unfold arm_cancel in Ea. case_match; [|done]. simplify_eq; cbn.
      split_and!; [done..|by left|]. auto.
Qed.

Lemma pty_finish_holds k0 raw reason l ob k p ob' k' :
  holds k0 [lv_master l] k -> pty_finish raw reason l ob k = (p, ob', k') ->
  holds k0 (pty_fds p) k'.
Proof.
  intros Hh. unfold pty_finish. destruct (pty_exit_step raw reason); intros [= <- _ <-]; cbn; [done|].
  by apply (holds_close _ [lv_master l] (lv_master l)).
Qed.

Lemma poll_live_holds k0 cf now env first l r ob k p r' ob' k' :
  holds k0 [lv_master l] k -> poll_live cf now env first l r ob k = Some (p, r', ob', k') ->
  holds k0 (pty_fds p) k'.
Proof.
  intros Hh. unfold poll_live. destruct (lv_phase l) as [|since|since|raw reason since|f] eqn:Ep.
  - destruct (poll_select _ _ _ _ _ _ _ _) as [[[[l1 r1] ob1] k1]|] eqn:E; [|done].
    intros [= <- <- <- <-]. apply poll_select_cases in E as (Ht & Hm & _); [|done].
    cbn. rewrite Hm. by eapply holds_same.
  - intros E. repeat case_hyp E; by simplify_eq.
  - intros E. repeat case_hyp E; by simplify_eq.
  - destruct (pump_over _).
    { destruct (pty_finish _ _ _ _ _) as [[p1 ob1] k1] eqn:E. intros [= <- <- <- <-].
      by eapply pty_finish_holds. }
    case_match; [|done]. destruct (abort_pump _ _) as [out ob0].
    destruct (pty_finish _ _ _ _ _) as [[p1 ob1] k1] eqn:E. intros [= <- <- <- <-].
    eapply pty_finish_holds; [|exact E]. done.
  - destruct (poll_send _ _) as [[q ob1]|]; [|done]. intros [= <- <- <- <-]. cbn.
    by apply (holds_close _ [lv_master l] (lv_master l)).
Qed.

Lemma poll_pty_holds k0 cf now env first p r ob k p' r' ob' k' :
  holds k0 (pty_fds p) k -> poll_pty cf now env first p r ob k = Some (p', r', ob', k') ->
  holds k0 (pty_fds p') k'.
Proof.
  intros Hh. destruct p as [req|msg owned|msg m ch ks since|l|ks res]; cbn in *; [| | | |done].
  - destruct (io_ready env); [|done].
    destruct (sys_openpty k) as [[[m s]|[e|e]] k1] eqn:E.
    2-3: apply openpty_err in E; intros [= <- <- <- <-]; by eapply holds_same.
    destruct (openpty_ok _ _ _ _ E) as (Hms & Hm & Hs & Ho & Hst).
    destruct (pty_setup _ _ _ _ _ _ _) as [[p1 ob1] k2] eqn:E2. intros [= <- <- <- <-].
    eapply pty_setup_holds; [|exact E2].
    destruct Hh as (_ & _ & Ho0 & Hst0). cbn in Ho0.
    rewrite Ho0 in *. unfold holds. rewrite Ho, Hst. split_and!; [ | | |done].
    + constructor; [set_solver|]. apply NoDup_singleton.
    + intros fd. rewrite !elem_of_cons, elem_of_nil. set_solver.
    + cbn. set_solver.
  - destruct (poll_send _ _) as [[q ob1]|]; [|done]. intros [= <- <- <- <-].
    apply (holds_close_all _ owned owned []); [by rewrite app_nil_r|done].
  - destruct (reap_bounded _ _ _) as [[raw ch']|]; [|done]. intros [= <- <- <- <-].
    destruct m as [m|]; cbn in *; [|done]. by apply (holds_close _ [m] m).
  - by eapply poll_live_holds.
Qed.

(** C8 A pty session never leaks or double-closes a descriptor: along every
    execution -- whichever of openpty, the flag calls, the dups, spawn and the
    registration fails, and however the shell ends -- it owns exactly the
    descriptors of [pty_fds] beyond those it started with, has only ever
    closed descriptors it owned, and once it has returned the table is the
    one it started from. *)
Theorem pty_descriptors_balanced cf req k0 p k :
  pty_reach (C := C) (W := W) (R := R) cf req k0 p k ->
  holds k0 (pty_fds p) k /\
  (forall ks res, p = PtyReturned ks res -> open_fds k = open_fds k0) /\
  stray_closes k = stray_closes k0.
Proof.
  intros Hr. assert (Hh : holds k0 (pty_fds p) k).
  { induction Hr as [|p k now env first r r' ob ob' p' k' _ IH E|l k out' _ IH|p k s _ IH].
    - apply holds_nil. by split.
    - by eapply poll_pty_holds.
    - done.
    - by destruct p. }
  split; [done|]. split; [|apply Hh].
  intros ks res ->. apply holds_nil in Hh. apply Hh.
Qed.
End poll_proofs.

(** ** Signals and reaping *)

Section signals.
Context {C W R S I K : Type}.
Context `{!Mpsc C, !AsyncWrite W, !AsyncRead R, !AsyncRead S, !FdWrite I, KernelSpec K}.
Context `{!Json, !Fmt, !Shlex, !PtyStreams S I}.
Implicit Types (l : live S I) (ob : outbound C W) (k : K) (p : pty_state S I) (r : R).











End signals.
