(* ===== verification/Session.v ===== *)
(** * Session: one connection, from the first frame to the freed slot

    [run_session] and [drive] of [src/session.rs], composed with the writer
    task, the output tasks, the child and the clock into one transition
    system.  An event polls one task, lets the child exit, or lets time pass;
    time passes only while every task is parked and never beyond an armed
    timer, which is tokio's contract for [sleep] and [timeout] on an idle
    runtime.  A disabled event changes nothing, so every list of events is an
    execution. *)

From S2P Require Import Prelude AsyncIO Frame Duration Status Request Shell Outbound Pump.
From S2P Require Import Stdin Exec FdOps Pty.

(** ** State *)

Inductive main_state (S I : Type) :=
| MFirst (since : Z)                       (* drive: timeout(idle, read_frame) *)
| MSendError (msg : string)                (* drive: send_error, then Ok(()) *)
| MExec (x : exec_state S I)
| MPty (p : pty_state S I)
| MReport (e : string)                     (* run_session: the error of drive *)
| MJoin (res : result unit string)         (* tx dropped, writer_task.await *)
| MFinished (res : result unit string).
Arguments MFirst {S I} _.
Arguments MSendError {S I} _.
Arguments MExec {S I} _.
Arguments MPty {S I} _.
Arguments MReport {S I} _.
Arguments MJoin {S I} _.
Arguments MFinished {S I} _.

Record session (C W R S I K : Type) := Session {
  s_now : Z;
  s_main : main_state S I;
  s_reader : R;
  s_ob : outbound C W;
  s_kernel : K;
  s_warned : bool;                         (* LONG_COMMAND_WARNED *)
  s_console : list string;                 (* lines for the guest console *)
}.
Arguments Session {C W R S I K} _ _ _ _ _ _ _.
Arguments s_now {C W R S I K} _.
Arguments s_main {C W R S I K} _.
Arguments s_reader {C W R S I K} _.
Arguments s_ob {C W R S I K} _.
Arguments s_kernel {C W R S I K} _.
Arguments s_warned {C W R S I K} _.
Arguments s_console {C W R S I K} _.

(** What can happen next.  [first] is the arm an unbiased select starts at. *)
Inductive event :=
| EvMain (env : poll_env) (first : nat)    (* the session task is polled *)
| EvWriterTask (env : poll_env)
| EvOut (env : poll_env)                   (* the task pumping stdout / the pty *)
| EvErr (env : poll_env)                   (* the task pumping stderr *)
| EvChild (status : Z)                     (* the child exits *)
| EvTick (d : Z).                          (* time passes *)

Section ops.
Context {C W R S I K : Type}.
Context `{!Mpsc C, !AsyncWrite W, !AsyncRead R, !AsyncRead S, !AsyncWrite I, !FdWrite I, !Kernel K}.
Context `{!Json, !Fmt, !Shlex, !Spawn S I K, !PtyStreams S I}.
Implicit Type s : session C W R S I K.

Definition new_session (r : R) (w : W) (k : K) (warned : bool) : session C W R S I K :=
  Session 0 (MFirst 0) r (new_outbound w) k warned [].

Definition with_main (m : main_state S I) (ob : outbound C W) s : session C W R S I K :=
  Session (s_now s) m (s_reader s) ob (s_kernel s) (s_warned s) (s_console s).
Definition with_io (m : main_state S I) (r : R) (ob : outbound C W) (k : K) s :
    session C W R S I K :=
  Session (s_now s) m r ob k (s_warned s) (s_console s).

(** [drive] has returned: an error is reported to the client first. *)
Definition drive_returned (res : result unit string) s : session C W R S I K :=
  match res with
  | Ok _ => with_main (MJoin (Ok tt)) (drop_sender (s_ob s)) s
  | Err e => with_main (MReport e) (s_ob s) s
  end.

(** [exec] up to its first await: the warning, then [exec_begin]. *)
Definition start_exec (cf : config) (req : Request) s : session C W R S I K :=
  let '(warned, line) := warn_long_command (s_warned s) (default "" (cmd req)) in
  let s := Session (s_now s) (s_main s) (s_reader s) (s_ob s) (s_kernel s) warned
             (s_console s ++ option_list line) in
  match exec_begin cf (s_now s) req (s_ob s) (s_kernel s) with
  | (ExecRefused msg, ob, k) => with_io (MSendError msg) (s_reader s) ob k s
  | (ExecFailed e, ob, k) => drive_returned (Err (fmt_io_error e)) (with_io (s_main s) (s_reader s) ob k s)
  | (ExecStarted x, ob, k) => with_io (MExec x) (s_reader s) ob k s
  end.

(** [drive] once the first read has completed. *)
Definition first_frame (cf : config) (first : io_result (option Frame)) s :
    session C W R S I K :=
  match dispatch first with
  | RunExec req => start_exec cf req s
  | RunPty req => with_main (MPty (PtyOpening req)) (s_ob s) s
  | Refuse msg => with_main (MSendError msg) (s_ob s) s
  | PeerClosed => drive_returned (Ok tt) s
  | ReadFailed e => drive_returned (Err (fmt_io_error e)) s
  end.

(** One poll of the session task. *)
Definition poll_main (cf : config) (env : poll_env) (first : nat) s :
    option (session C W R S I K) :=
  match s_main s with
  | MFirst since =>
      if io_ready env then
        let '(res, r') := read_frame (cf_inbound_cap cf) (s_reader s) in
        Some (first_frame cf res (with_io (s_main s) r' (s_ob s) (s_kernel s) s))
      else if since + cf_idle_timeout cf <=? s_now s then Some (drive_returned (Ok tt) s)
      else None
  | MSendError msg =>
      match poll_send (error_frame msg) (s_ob s) with
      | Some (_, ob') => Some (drive_returned (Ok tt) (with_main (s_main s) ob' s))
      | None => None
      end
  | MExec x =>
      match ex_phase x with
      | ExReturned res => Some (drive_returned res s)
      | _ =>
          match poll_exec cf (s_now s) env x (s_reader s) (s_ob s) with
          | Some (x', r', ob') => Some (with_io (MExec x') r' ob' (s_kernel s) s)
          | None => None
          end
      end
  | MPty p =>
      match p with
      | PtyReturned _ res => Some (drive_returned res s)
      | _ =>
          match poll_pty cf (s_now s) env first p (s_reader s) (s_ob s) (s_kernel s) with
          | Some (p', r', ob', k') => Some (with_io (MPty p') r' ob' k' s)
          | None => None
          end
      end
  | MReport e =>
      match poll_send (error_frame (session_error_msg e)) (s_ob s) with
      | Some (_, ob') => Some (with_main (MJoin (Err e)) (drop_sender ob') s)
      | None => None
      end
  | MJoin res =>
      if receiver_gone (s_ob s) then Some (with_main (MFinished res) (s_ob s) s) else None
  | MFinished _ => None
  end.

Definition poll_writer_task (cf : config) (env : poll_env) s : option (session C W R S I K) :=
  match poll_writer (cf_write_timeout cf) (s_now s) env (s_ob s) with
  | Some ob' => Some (with_main (s_main s) ob' s)
  | None => None
  end.

Definition poll_out_task (env : poll_env) s : option (session C W R S I K) :=
  match s_main s with
  | MExec x =>
      match poll_pump FRAME_STDOUT env (ex_out x) (s_ob s) with
      | Some (p', ob') => Some (with_main (MExec (set_out p' x)) ob' s)
      | None => None
      end
  | MPty (PtyLive l) =>
      match poll_pty_out env (lv_out l) (s_ob s) with
      | Some (p', ob') => Some (with_main (MPty (PtyLive (lv_set_out p' l))) ob' s)
      | None => None
      end
  | _ => None
  end.

Definition poll_err_task (env : poll_env) s : option (session C W R S I K) :=
  match s_main s with
  | MExec x =>
      match poll_pump FRAME_STDERR env (ex_err x) (s_ob s) with
      | Some (p', ob') => Some (with_main (MExec (set_err p' x)) ob' s)
      | None => None
      end
  | _ => None
  end.

Definition child_exit (st : Z) s : session C W R S I K :=
  with_main (match s_main s with
             | MExec x => MExec (set_child (child_exits st (ex_child x)) x)
             | MPty p => MPty (pty_child_exits st p)
             | m => m
             end) (s_ob s) s.

(** The instants the armed timers expire. *)
Definition stdin_timers (cf : config) (t : stdin_task I) : list Z :=
  match si_state t with
  | StdinReading since | StdinWriting _ since => [since + cf_idle_timeout cf]
  | StdinOver => []
  end.

Definition exec_timers (cf : config) (x : exec_state S I) : list Z :=
  match ex_phase x with
  | ExRunning => option_list (ex_timer x) ++ stdin_timers cf (ex_stdin x)
  | ExReaping _ since => [since + REAP_GRACE]
  | ExDrainOut _ _ since | ExDrainErr _ _ since => [since + DRAIN_GRACE]
  | ExSendExit _ | ExReturned _ => []
  end.

Definition live_timers (cf : config) (l : live S I) : list Z :=
  match lv_phase l with
  | LvRunning =>
      match lv_input l with
      | InReading since | InWriting _ _ since => [since + cf_idle_timeout cf]
      | InOver => []
      end
  | LvHangup since => [since + HANGUP_GRACE]
  | LvKilled since => [since + REAP_GRACE]
  | LvDrain _ _ since => [since + PTY_DRAIN_GRACE]
  | LvSendExit _ => []
  end.

Definition main_timers (cf : config) (m : main_state S I) : list Z :=
  match m with
  | MFirst since => [since + cf_idle_timeout cf]
  | MExec x => exec_timers cf x
  | MPty (PtyReaping _ _ _ _ since) => [since + REAP_GRACE]
  | MPty (PtyLive l) => live_timers cf l
  | _ => []
  end.

Definition writer_timers (cf : config) (ob : outbound C W) : list Z :=
  match ob_writer ob with
  | WWriting _ since => [since + cf_write_timeout cf]
  | _ => []
  end.

Definition timers (cf : config) s : list Z :=
  main_timers cf (s_main s) ++ writer_timers cf (s_ob s).

Definition is_none {A} (o : option A) : bool := match o with None => true | Some _ => false end.

(** No task can move without new I/O. *)
Definition all_parked (cf : config) s : bool :=
  is_none (poll_main cf parked_env 0 s) && is_none (poll_writer_task cf parked_env s) &&
  is_none (poll_out_task parked_env s) && is_none (poll_err_task parked_env s).

Definition tick (cf : config) (d : Z) s : option (session C W R S I K) :=
  if (0 <? d) && all_parked cf s && forallb (fun t => s_now s + d <=? t) (timers cf s)
  then Some (Session (s_now s + d) (s_main s) (s_reader s) (s_ob s) (s_kernel s)
               (s_warned s) (s_console s))
  else None.

Definition try_event (cf : config) (e : event) s : option (session C W R S I K) :=
  match e with
  | EvMain env first => poll_main cf env first s
  | EvWriterTask env => poll_writer_task cf env s
  | EvOut env => poll_out_task env s
  | EvErr env => poll_err_task env s
  | EvChild st => Some (child_exit st s)
  | EvTick d => tick cf d s
  end.

Definition step (cf : config) s (e : event) : session C W R S I K :=
  match try_event cf e s with Some s' => s' | None => s end.

Definition run (cf : config) s (es : list event) : session C W R S I K :=
  fold_left (step cf) es s.

Definition finished s : bool := match s_main s with MFinished _ => true | _ => false end.
End ops.

(** ** The verbs' part of a poll *)

Section polls.
Context {C W R S I K : Type}.
Context `{!Mpsc C, !AsyncWrite W, !AsyncRead R, !AsyncRead S, !AsyncWrite I, !FdWrite I, !Kernel K}.
Context `{!Json, !Fmt, !Shlex, !Spawn S I K, !PtyStreams S I}.
Implicit Type s : session C W R S I K.

(** The session task runs [exec], or takes up what it returned. *)
Lemma poll_main_exec cf env first s s' x :
  s_main s = MExec x -> poll_main cf env first s = Some s' ->
  (exists res, ex_phase x = ExReturned res /\ s' = drive_returned res s) \/
  exists x' r' ob', poll_exec cf (s_now s) env x (s_reader s) (s_ob s) = Some (x', r', ob') /\
    s' = with_io (MExec x') r' ob' (s_kernel s) s.
Proof.
  unfold poll_main. intros -> E.
  destruct (poll_exec _ _ _ _ _ _) as [[[x' r'] ob']|]; destruct (ex_phase x); simplify_eq; eauto 10.
Qed.

(** The same for [open_pty]. *)
Lemma poll_main_pty cf env first s s' p :
  s_main s = MPty p -> poll_main cf env first s = Some s' ->
  (exists ks res, p = PtyReturned ks res /\ s' = drive_returned res s) \/
  exists p' r' ob' k', poll_pty cf (s_now s) env first p (s_reader s) (s_ob s) (s_kernel s) = Some (p', r', ob', k') /\
    s' = with_io (MPty p') r' ob' k' s.
Proof.
  unfold poll_main. intros -> E.
  destruct p; [..|simplify_eq; left; by repeat eexists];
    (destruct (poll_pty _ _ _ _ _ _ _ _) as [[[[p' r'] ob'] k']|]; [|done]); simplify_eq; right; by repeat eexists.
Qed.
End polls.
