(* ===== verification/SessionTime.v ===== *)
(** * SessionTime: the session's clocks

    The timing theorems of the composed session: no timer is ever overdue, and
    once the session is cancelled it is over within [TEARDOWN], whatever the
    peer, the child and the scheduler do, and it does get there without any
    further I/O. *)

From S2P Require Import Prelude AsyncIO Frame Duration Status Request Shell Outbound Pump.
From S2P Require Import Stdin Exec FdOps Pty Session.

(** The bounds the program was started with are not negative. *)
Definition config_ok (cf : config) : Prop :=
  0 <= cf_idle_timeout cf /\ 0 <= cf_write_timeout cf /\
  (forall d, cf_default_deadline cf = Some d -> 0 <= d).

(** SIGHUP, SIGKILL, and the drain of the terminal: the longest teardown. *)
Definition TEARDOWN : Z := HANGUP_GRACE + REAP_GRACE + PTY_DRAIN_GRACE.

Lemma grace_values :
  REAP_GRACE = 5000000000 /\ DRAIN_GRACE = 250000000 /\ HANGUP_GRACE = 2000000000 /\
  PTY_DRAIN_GRACE = 200000000 /\ TEARDOWN = 7200000000.
Proof. by vm_compute. Qed.

Ltac graces :=
  let H1 := fresh in let H2 := fresh in let H3 := fresh in let H4 := fresh in let H5 := fresh in
  destruct grace_values as (H1 & H2 & H3 & H4 & H5);
  rewrite ?H1, ?H2, ?H3, ?H4, ?H5 in *; clear H1 H2 H3 H4 H5.

Section defs.
Context {C W R S I K : Type}.
Implicit Type m : main_state S I.

(** When the current phase began, for the phases that are bounded. *)
Definition phase_start m : option Z :=
  match m with
  | MExec x =>
      match ex_phase x with
      | ExReaping _ since | ExDrainOut _ _ since | ExDrainErr _ _ since => Some since
      | _ => None
      end
  | MPty (PtyReaping _ _ _ _ since) => Some since
  | MPty (PtyLive l) =>
      match lv_phase l with
      | LvHangup since | LvKilled since | LvDrain _ _ since => Some since
      | _ => None
      end
  | _ => None
  end.

(** What may still elapse after the phase's start, once cancelled. *)
Definition phase_budget m : Z :=
  match m with
  | MExec x =>
      match ex_phase x with
      | ExRunning | ExReaping _ _ => REAP_GRACE + DRAIN_GRACE + DRAIN_GRACE
      | ExDrainOut _ _ _ => DRAIN_GRACE + DRAIN_GRACE
      | ExDrainErr _ _ _ => DRAIN_GRACE
      | ExSendExit _ | ExReturned _ => 0
      end
  | MPty (PtyReaping _ _ _ _ _) => REAP_GRACE
  | MPty (PtyLive l) =>
      match lv_phase l with
      | LvRunning | LvHangup _ => HANGUP_GRACE + REAP_GRACE + PTY_DRAIN_GRACE
      | LvKilled _ => REAP_GRACE + PTY_DRAIN_GRACE
      | LvDrain _ _ _ => PTY_DRAIN_GRACE
      | LvSendExit _ => 0
      end
  | _ => 0
  end.

(** The latest instant a cancelled session in this state can still be running. *)
Definition horizon (now : Z) m : Z :=
  match phase_start m with Some since => since | None => now end + phase_budget m.

(** A state in which the session has sent nothing yet. *)
Definition silent m : bool :=
  match m with MFirst _ | MPty (PtyOpening _) => true | _ => false end.

(** How the session task moved: timers and phases are the old ones or start now. *)
Definition moves (cf : config) (now : Z) m m' : Prop :=
  (forall t, t ∈ main_timers cf m' -> t ∈ main_timers cf m \/ now <= t) /\
  (forall since, phase_start m' = Some since -> phase_start m = Some since \/ since = now).
End defs.

Section moves.
Context {C W R S I K : Type}.
Context `{!Mpsc C, !AsyncWrite W, !AsyncRead R, !AsyncRead S, !AsyncWrite I, !FdWrite I, !Kernel K}.
Context `{!Json, !Fmt, !Shlex, !Spawn S I K, !PtyStreams S I}.
Implicit Types (s : session C W R S I K) (m : main_state S I) (ob : outbound C W).

Lemma moves_refl cf now m : moves cf now m m.
Proof. split; auto. Qed.

(** A state with no timer and no bounded phase. *)
Lemma moves_quiet cf now m m' : main_timers cf m' = [] -> phase_start m' = None -> moves cf now m m'.
Proof. intros E1 E2. split; [rewrite E1; set_solver | by rewrite E2]. Qed.

(** A state whose only timer and phase start now. *)
Lemma moves_fresh cf now m m' t since :
  main_timers cf m' = [t] -> now <= t -> phase_start m' = Some since -> since = now ->
  moves cf now m m'.
Proof.
  intros E1 Ht E2 ->. split; [|rewrite E2; intros ? [= <-]; auto].
  rewrite E1. intros t'. rewrite list_elem_of_singleton. intros ->. auto.
Qed.

Lemma poll_stdin_timers cf c now env b (t t' : stdin_task I) (r r' : R) fired :
  config_ok cf -> poll_stdin (cf_idle_timeout cf) c now env b t r = Some (t', r', fired) ->
  forall tm, tm ∈ stdin_timers cf t' -> now <= tm.
Proof.
  intros (Hi & _). unfold poll_stdin. intros E.
  assert (Ht : match si_state t' with
    StdinReading since | StdinWriting _ since => since = now | StdinOver => True end).
  { destruct (si_state t) as [since|p since|]; [| |done].
    - destruct (io_ready env); [|case_match; by simplify_eq].
      destruct (read_frame c r) as [res r1].
      destruct (stdin_frame now t res) as [t1 f1] eqn:Ef. simplify_eq.
      unfold stdin_frame in Ef. repeat case_hyp Ef; by simplify_eq/=.
    - repeat case_hyp E; by simplify_eq. }
  unfold stdin_timers. intros tm. destruct (si_state t') as [since|p since|];
    [rewrite list_elem_of_singleton; lia..|set_solver].
Qed.

Lemma poll_exec_moves cf now env (x x' : exec_state S I) (r r' : R) ob ob' :
  config_ok cf -> poll_exec cf now env x r ob = Some (x', r', ob') ->
  moves cf now (MExec x) (MExec x').
Proof.
  intros Hcf E. unfold poll_exec in E.
  destruct (ex_phase x) as [|reason since|raw reason since|raw reason since|f|res] eqn:Ep.
  - destruct (ob_cancel ob); [simplify_eq; eapply moves_fresh; try reflexivity; graces; lia|].
    destruct (deadline_elapsed now x);
      [simplify_eq; eapply moves_fresh; try reflexivity; graces; lia|].
    destruct (poll_stdin _ _ _ _ _ _ _) as [[[t' r1] fired]|] eqn:Es.
    + pose proof (poll_stdin_timers _ _ _ _ _ _ _ _ _ _ Hcf Es) as Ht.
      assert (Hrun : x' = set_stdin t' x -> moves cf now (MExec x) (MExec x')).
      { intros ->. split; cbn; unfold exec_timers; cbn; rewrite Ep; [|done].
        intros t [|]%elem_of_app; [left; apply elem_of_app; auto | right; auto]. }
      destruct (ex_child x); simplify_eq; auto.
      eapply moves_fresh; try reflexivity; graces; lia.
    + destruct (ex_child x); simplify_eq. eapply moves_fresh; try reflexivity; graces; lia.
  - destruct (reap_bounded _ _ _) as [[raw ch]|]; [|done]. simplify_eq.
    eapply moves_fresh; try reflexivity; graces; lia.
  - repeat case_hyp E; simplify_eq; eapply moves_fresh; try reflexivity; graces; lia.
  - repeat case_hyp E; simplify_eq;
      apply moves_quiet; cbn; unfold exec_timers, exit_step; cbn; by repeat case_match.
  - repeat case_hyp E; simplify_eq. by apply moves_quiet.
  - done.
Qed.

Lemma poll_input_timers cf now env c (l : live S I) (r r' : R) (k k' : K) st i fired t :
  config_ok cf -> poll_input cf now env c l r k = Some (st, i, r', k', fired) ->
  match st with InReading since | InWriting _ _ since => t = since + cf_idle_timeout cf | InOver => False end ->
  now <= t \/ match lv_input l with
              | InReading since | InWriting _ _ since => t = since + cf_idle_timeout cf
              | InOver => False end.
Proof.
  intros (Hi & _). unfold poll_input.
  destruct (lv_input l) as [since|data off since|]; [| |done].
  - destruct (io_ready env); [|case_match; by intros [= <- <- <- <- <-]].
    destruct (read_frame _ r) as [res r1]. destruct (input_frame _ _ _ _) as [st1 k1] eqn:Ef.
    intros [= <- <- <- <- <-] Ht. left.
    unfold input_frame in Ef. repeat case_hyp Ef; simplify_eq; lia || done.
  - intros E Ht. repeat case_hyp E; simplify_eq; try done; try (left; lia). by right.
Qed.

Lemma poll_select_moves cf now env first (l l' : live S I) (r r' : R) ob ob' (k k' : K) :
  config_ok cf -> lv_phase l = LvRunning ->
  poll_select cf now env first l r ob k = Some (l', r', ob', k') ->
  moves cf now (MPty (PtyLive l)) (MPty (PtyLive l')).
Proof.
  intros Hcf Hp E.
  destruct (poll_select_arms _ _ _ _ _ _ _ _ _ _ _ _ E) as [Ea|([Ea|Ea] & _)].
  - unfold arm_input in Ea.
    destruct (poll_input cf now env (ob_cancel ob) l r k) as [[[[[st i] r1] k1] fired]|] eqn:Ei; [|done].
    pose proof (fun t => poll_input_timers _ _ _ _ _ _ _ _ _ _ _ _ t Hcf Ei) as Ht. simplify_eq.
    destruct st as [since|data off since|].
    1-2: split; cbn; unfold live_timers; cbn; rewrite Hp; [|done];
      intros t; rewrite list_elem_of_singleton; intros ->;
      destruct (Ht _ eq_refl) as [Hn|Ho]; [by right|left];
      destruct (lv_input l); [by apply list_elem_of_singleton..|done].
    eapply moves_fresh; try reflexivity; graces; lia.
  - unfold arm_child in Ea. destruct (lv_child l); simplify_eq.
    eapply moves_fresh; try reflexivity; graces; lia.
  - unfold arm_cancel in Ea. case_match; simplify_eq.
    eapply moves_fresh; try reflexivity; graces; lia.
Qed.

Lemma pty_finish_moves cf now raw reason (l : live S I) ob ob' (k k' : K) p m :
  pty_finish raw reason l ob k = (p, ob', k') -> moves cf now m (MPty p).
Proof.
  unfold pty_finish, pty_exit_step. destruct (exit_fields raw reason).
  destruct (to_vec_exit _ _); intros [= <- <- <-]; by apply moves_quiet.
Qed.

Lemma poll_live_moves cf now env first (l : live S I) (r r' : R) ob ob' (k k' : K) p :
  config_ok cf -> poll_live cf now env first l r ob k = Some (p, r', ob', k') ->
  moves cf now (MPty (PtyLive l)) (MPty p).
Proof.
  intros Hcf. unfold poll_live. destruct (lv_phase l) as [|since|since|raw reason since|f] eqn:Ep.
  - destruct (poll_select _ _ _ _ _ _ _ _) as [[[[l1 r1] ob1] k1]|] eqn:E; [|done].
    intros [= <- <- <- <-]. by eapply poll_select_moves.
  - intros E. repeat case_hyp E; simplify_eq; eapply moves_fresh; try reflexivity; graces; lia.
  - intros E. repeat case_hyp E; simplify_eq; eapply moves_fresh; try reflexivity; graces; lia.
  - destruct (pump_over _).
    { destruct (pty_finish _ _ _ _ _) as [[p1 ob1] k1] eqn:E. intros [= <- <- <- <-].
      by eapply pty_finish_moves. }
    destruct (_ <=? now); [|done]. destruct (abort_pump _ _) as [out ob0].
    destruct (pty_finish _ _ _ _ _) as [[p1 ob1] k1] eqn:E. intros [= <- <- <- <-].
    by eapply pty_finish_moves.
  - destruct (poll_send _ _) as [[q ob1]|]; [|done]. intros [= <- <- <- <-]. by apply moves_quiet.
Qed.

Lemma pty_setup_moves cf now req ms sl ob ob' (k k' : K) (p : pty_state S I) m :
  config_ok cf -> pty_setup cf now req ms sl ob k = (p, ob', k') -> moves cf now m (MPty p).
Proof.
  intros (Hi & _). unfold pty_setup, pty_started.
  destruct (set_cloexec _ _) as [[u|e] k1]; [|intros [= <- _ _]; by apply moves_quiet].
  destruct (dup3 sl k1) as [rs k2]. case_match; [intros [= <- _ _]; by apply moves_quiet|].
  destruct (sys_spawn _ _ k2) as [[pid|e] k3]; [|intros [= <- _ _]; by apply moves_quiet].
  destruct (set_nonblocking _ _) as [[u1|e] k4];
    [destruct (sys_async_fd _ _) as [[u2|e] k5]|]; intros [= <- _ _].
  - split; [|done]. intros t. cbn. rewrite list_elem_of_singleton. intros ->. right. lia.
  - eapply moves_fresh; try reflexivity; graces; lia.
  - eapply moves_fresh; try reflexivity; graces; lia.
Qed.

Lemma poll_pty_moves cf now env first (p p' : pty_state S I) (r r' : R) ob ob' (k k' : K) :
  config_ok cf -> poll_pty cf now env first p r ob k = Some (p', r', ob', k') ->
  moves cf now (MPty p) (MPty p').
Proof.
  intros Hcf. destruct p as [req|msg owned|msg m ch ks since|l|ks res]; cbn; [| | | |done].
  - destruct (io_ready env); [|done].
    destruct (sys_openpty k) as [[[m s]|[e|e]] k1];
      [|intros [= <- _ _ _]; by apply moves_quiet..].
    destruct (pty_setup _ _ _ _ _ _ _) as [[p1 ob1] k2] eqn:E. intros [= <- <- <- <-].
    by eapply pty_setup_moves.
  - destruct (poll_send _ _) as [[q ob1]|]; [|done]. intros [= <- _ _ _]. by apply moves_quiet.
  - destruct (reap_bounded _ _ _) as [[raw ch']|]; [|done]. intros [= <- _ _ _]. by apply moves_quiet.
  - by apply poll_live_moves.
Qed.
End moves.

(** ** The outbound path under the session's own tasks *)

(** Producers and [fire] leave the writer where it is; the flag only goes up. *)
Definition ob_grows {C W} (ob ob' : outbound C W) : Prop :=
  ob_writer ob' = ob_writer ob /\ (ob_cancel ob = true -> ob_cancel ob' = true).

Section grows.
Context {C W R S I K : Type}.
Context `{!Mpsc C, !AsyncWrite W, !AsyncRead R, !AsyncRead S, !AsyncWrite I, !FdWrite I, !Kernel K}.
Context `{!Json, !Fmt, !Shlex, !Spawn S I K, !PtyStreams S I}.
Implicit Types (s : session C W R S I K) (ob : outbound C W).

Lemma ob_grows_refl ob : ob_grows ob ob.
Proof. by split. Qed.
Lemma ob_grows_drop ob ob' : ob_grows ob ob' -> ob_grows ob (drop_sender ob').
Proof. done. Qed.
Lemma ob_grows_fire ob : ob_grows ob (fire ob).
Proof. by split. Qed.

Lemma ob_grows_send ob f q ob' : poll_send f ob = Some (q, ob') -> ob_grows ob ob'.
Proof.
  unfold poll_send. intros E. repeat case_hyp E; simplify_eq; by split.
Qed.

Lemma ob_grows_abort (p : pump S) ob : ob_grows ob (abort_pump p ob).2.
Proof. unfold abort_pump. by case_match. Qed.

Lemma poll_exec_grows cf now env (x x' : exec_state S I) (r r' : R) ob ob' :
  poll_exec cf now env x r ob = Some (x', r', ob') -> ob_grows ob ob'.
Proof.
  unfold poll_exec. intros E. destruct (ex_phase x) as [|reason since|raw reason since|raw reason since|f|res].
  - destruct (ob_cancel ob) eqn:Ec; [by simplify_eq|].
    destruct (deadline_elapsed now x); [by simplify_eq|].
    destruct (poll_stdin _ _ _ _ _ _ _) as [[[t' r1] fired]|];
      destruct (ex_child x); simplify_eq; try done; destruct fired; by split.
  - destruct (reap_bounded _ _ _) as [[raw ch]|]; by simplify_eq.
  - destruct (pump_over _); [by simplify_eq|]. destruct (_ <=? now); [|done].
    pose proof (ob_grows_abort (ex_out x) ob). destruct (abort_pump _ _); by simplify_eq.
  - destruct (pump_over _); [by simplify_eq|]. destruct (_ <=? now); [|done].
    pose proof (ob_grows_abort (ex_err x) ob). destruct (abort_pump _ _); by simplify_eq.
  - destruct (poll_send f ob) as [[q ob1]|] eqn:Es; [|done].
    apply ob_grows_send in Es. by simplify_eq.
  - done.
Qed.

Lemma poll_live_grows cf now env first (l : live S I) (r r' : R) ob ob' (k k' : K) p :
  poll_live cf now env first l r ob k = Some (p, r', ob', k') -> ob_grows ob ob'.
Proof.
  unfold poll_live, pty_finish. intros E.
  destruct (lv_phase l) as [|since|since|raw reason since|f].
  - destruct (poll_select _ _ _ _ _ _ _ _) as [[[[l1 r1] ob1] k1]|] eqn:Es; [|done]. simplify_eq.
    unfold poll_select, arm_input in Es.
    destruct (poll_input _ _ _ _ _ _ _) as [[[[[st i] r2] k2] fired]|], (arm_child now l),
      (arm_cancel now l ob), first as [|[|]]; try destruct fired; cbn in Es; simplify_eq; by split.
  - destruct (lv_child l); try case_hyp E; by simplify_eq.
  - destruct (reap_bounded _ _ _) as [[raw ch]|]; by simplify_eq.
  - destruct (pump_over _).
    { destruct (pty_exit_step raw reason); by simplify_eq. }
    destruct (_ <=? now); [|done]. pose proof (ob_grows_abort (lv_out l) ob).
    destruct (abort_pump _ _). destruct (pty_exit_step raw reason); by simplify_eq.
  - destruct (poll_send f ob) as [[q ob1]|] eqn:Es; [|done].
    apply ob_grows_send in Es. by simplify_eq.
Qed.

Lemma pty_setup_grows cf now req m sl ob ob' (k k' : K) (p : pty_state S I) :
  pty_setup cf now req m sl ob k = (p, ob', k') -> ob_grows ob ob' /\ (forall rq, p <> PtyOpening rq).
Proof.
  unfold pty_setup, pty_started.
  destruct (set_cloexec _ _) as [[u|e] k1]; [|by intros [= <- <- _]].
  destruct (dup3 sl k1) as [rs k2]. case_match; [by intros [= <- <- _]|].
  destruct (sys_spawn _ _ k2) as [[pid|e] k3]; [|by intros [= <- <- _]].
  destruct (set_nonblocking _ _) as [[u1|e] k4]; [|by intros [= <- <- _]].
  destruct (sys_async_fd _ _) as [[u2|e] k5]; by intros [= <- <- _].
Qed.

Lemma poll_pty_grows cf now env first (p p' : pty_state S I) (r r' : R) ob ob' (k k' : K) :
  poll_pty cf now env first p r ob k = Some (p', r', ob', k') -> ob_grows ob ob'.
Proof.
  destruct p as [req|msg owned|msg m ch ks since|l|ks res]; cbn; [| | | |done].
  - destruct (io_ready env); [|done].
    destruct (sys_openpty k) as [[[m s]|[e|e]] k1]; [|by intros [= _ _ <- _]..].
    destruct (pty_setup _ _ _ _ _ _ _) as [[p1 ob1] k2] eqn:E. intros [= _ _ <- _].
    by eapply pty_setup_grows.
  - destruct (poll_send _ ob) as [[q ob1]|] eqn:Es; [|done].
    apply ob_grows_send in Es. by intros [= _ _ <- _].
  - destruct (reap_bounded _ _ _) as [[raw ch']|]; by intros [= _ _ <- _].
  - apply poll_live_grows.
Qed.

(** No poll leads back to the opening state. *)
Lemma poll_pty_opening cf now env first (p : pty_state S I) req (r r' : R) ob ob' (k k' : K) :
  poll_pty cf now env first p r ob k <> Some (PtyOpening req, r', ob', k').
Proof.
  destruct p as [rq|msg owned|msg m ch ks since|l|ks res]; cbn; intros E; [| | | |done].
  - destruct (io_ready env); [|done].
    destruct (sys_openpty k) as [[[m s]|[e|e]] k1]; [|done..].
    destruct (pty_setup _ _ _ _ _ _ _) as [[p1 ob1] k2] eqn:E2.
    apply pty_setup_grows in E2 as [_ Hp]. simplify_eq. by eapply Hp.
  - repeat case_hyp E; simplify_eq.
  - repeat case_hyp E; simplify_eq.
  - unfold poll_live, pty_finish in E.
    destruct (lv_phase l); [repeat case_hyp E; simplify_eq..| |repeat case_hyp E; simplify_eq].
    destruct (pump_over _); [destruct (pty_exit_step _ _); simplify_eq|].
    destruct (_ <=? now); [|done]. destruct (abort_pump _ _).
    destruct (pty_exit_step _ _); simplify_eq.
Qed.

(** One poll of the session task, seen from outside. *)
Lemma poll_main_moves cf env first s s' :
  config_ok cf -> poll_main cf env first s = Some s' ->
  s_now s' = s_now s /\ moves cf (s_now s) (s_main s) (s_main s') /\
  ob_grows (s_ob s) (s_ob s') /\
  (silent (s_main s') = true -> silent (s_main s) = true /\ s_ob s' = s_ob s).
Proof.
  intros Hcf E. pose proof E as E'. revert E'. unfold poll_main at 1. destruct (s_main s) as [since|msg|x|p|e|res|res] eqn:Em; [| | | | | |done].
  - destruct (io_ready env).
    + destruct (read_frame _ _) as [res r']. intros [= <-]. unfold first_frame.
      destruct (dispatch res) as [req|req|msg| |e].
      2-5: cbn; split_and!; [done | by apply moves_quiet | done | done].
      unfold start_exec, exec_begin. destruct (warn_long_command _ _) as [b line]. cbn.
      destruct (effective_deadline _ _) as [dl|d] eqn:Ed; cbn;
        [|split_and!; [done | by apply moves_quiet | done | done]].
      destruct (spawn _ _) as [[ch|e] k1]; cbn; (split_and!; [done | | done | done]);
        [|by apply moves_quiet].
      split; [|done]. cbn. intros t Ht. right. apply elem_of_app in Ht as [Ht|Ht].
      * destruct dl as [d|]; cbn in Ht; [|set_solver]. apply list_elem_of_singleton in Ht as ->.
        pose proof (effective_deadline_nonneg _ _ _ (proj2 (proj2 Hcf)) Ed). lia.
      * apply list_elem_of_singleton in Ht as ->. destruct Hcf. lia.
    + case_match; [|done]. intros [= <-]. cbn. split_and!; [done | by apply moves_quiet | done | done].
  - destruct (poll_send _ _) as [[q ob']|] eqn:Es; [|done]. apply ob_grows_send in Es.
    intros [= <-]. cbn. split_and!; [done | by apply moves_quiet | done | done].
  - intros _. destruct (poll_main_exec _ _ _ _ _ _ Em E) as [(res & _ & ->)|(x' & r' & ob' & Ex & ->)].
    + destruct res; cbn; split_and!; first [done | by apply moves_quiet].
    + cbn. split_and!; [done | exact (poll_exec_moves _ _ _ _ _ _ _ _ _ Hcf Ex) | by eapply poll_exec_grows | done].
  - intros _. destruct (poll_main_pty _ _ _ _ _ _ Em E) as [(ks & res & _ & ->)|(p' & r' & ob' & k' & Ep & ->)].
    + destruct res; cbn; split_and!; first [done | by apply moves_quiet].
    + cbn. split_and!; [done | exact (poll_pty_moves _ _ _ _ _ _ _ _ _ _ _ _ Hcf Ep) | by eapply poll_pty_grows |].
      intros Hs. destruct p'; [|done..]. by eapply poll_pty_opening in Ep.
  - destruct (poll_send _ _) as [[q ob']|] eqn:Es; [|done]. apply ob_grows_send in Es.
    intros [= <-]. cbn. split_and!; [done | by apply moves_quiet | done | done].
  - case_match; [|done]. intros [= <-]. cbn. split_and!; [done | by apply moves_quiet | done | done].
Qed.
End grows.

(** ** No timer is overdue *)

Section clock.
Context {C W R S I K : Type}.
Context `{MpscSpec C, !AsyncWrite W, !AsyncRead R, !AsyncRead S, !AsyncWrite I, !FdWrite I, KernelSpec K}.
Context `{!Json, !Fmt, !Shlex, !Spawn S I K, !PtyStreams S I}.
Implicit Types (s : session C W R S I K) (ob : outbound C W) (m : main_state S I).

Definition time_inv (cf : config) s : Prop :=
  (forall t, t ∈ timers cf s -> s_now s <= t) /\
  (forall since, phase_start (s_main s) = Some since -> since <= s_now s) /\
  (silent (s_main s) = true ->
   ob_cancel (s_ob s) = false /\ ob_writer (s_ob s) = WRecv /\
   queued (ob_chan (s_ob s)) = [] /\ ob_senders (s_ob s) = 1%nat).

Lemma time_inv_new cf r (w : W) (k : K) b :
  config_ok cf -> time_inv cf (new_session (S := S) (I := I) (C := C) (R := R) r w k b).
Proof.
  intros (Hi & _). unfold time_inv, timers; cbn. split_and!; [| done |].
  - intros t. rewrite list_elem_of_singleton. lia.
  - intros _. split_and!; [done | done | apply mpsc_channel_new | done].
Qed.

(** The output tasks leave the timers and the phase alone. *)
Lemma output_task_moves env s s' :
  poll_out_task env s = Some s' \/ poll_err_task env s = Some s' ->
  s_now s' = s_now s /\ silent (s_main s') = false /\
  phase_start (s_main s') = phase_start (s_main s) /\
  phase_budget (s_main s') = phase_budget (s_main s) /\
  (forall cf, main_timers cf (s_main s') = main_timers cf (s_main s)) /\
  ob_writer (s_ob s') = ob_writer (s_ob s) /\ ob_cancel (s_ob s') = ob_cancel (s_ob s) /\
  finished s' = finished s.
Proof.
  assert (Hsend : forall f q (ob ob' : outbound C W), poll_send f ob = Some (q, ob') ->
    ob_writer ob' = ob_writer ob /\ ob_cancel ob' = ob_cancel ob).
  { unfold poll_send. intros f q ob ob' E. repeat case_hyp E; by simplify_eq. }
  assert (Hpump : forall ft (p p' : pump S) (ob ob' : outbound C W),
    poll_pump ft env p ob = Some (p', ob') ->
    ob_writer ob' = ob_writer ob /\ ob_cancel ob' = ob_cancel ob).
  { unfold poll_pump. intros ft p p' ob ob' E. destruct (pm_state p) as [|buf| |]; try done.
    - repeat case_hyp E; by simplify_eq.
    - destruct (poll_send _ ob) as [[q ob1]|] eqn:Es; [|done]. apply Hsend in Es. by simplify_eq. }
  assert (Hpty : forall (p p' : pump S) (ob ob' : outbound C W),
    poll_pty_out env p ob = Some (p', ob') ->
    ob_writer ob' = ob_writer ob /\ ob_cancel ob' = ob_cancel ob).
  { unfold poll_pty_out. intros p p' ob ob' E. destruct (pm_state p) as [|buf| |]; try done.
    - repeat case_hyp E; by simplify_eq.
    - destruct (poll_send _ ob) as [[[] ob1]|] eqn:Es; [| |done]; apply Hsend in Es; by simplify_eq. }
  unfold poll_out_task, poll_err_task, finished.
  destruct (s_main s) as [| |x|[| | |l|]| | |] eqn:Em; intros [E|E]; try done.
  - destruct (poll_pump _ _ _ _) as [[p' ob']|] eqn:Ep; [|done]. apply Hpump in Ep as [? ?].
    by simplify_eq.
  - destruct (poll_pump _ _ _ _) as [[p' ob']|] eqn:Ep; [|done]. apply Hpump in Ep as [? ?].
    by simplify_eq.
  - destruct (poll_pty_out _ _ _) as [[p' ob']|] eqn:Ep; [|done]. apply Hpty in Ep as [? ?].
    by simplify_eq.
Qed.

Lemma child_exit_moves st s :
  s_now (child_exit st s) = s_now s /\
  silent (s_main (child_exit st s)) = silent (s_main s) /\
  phase_start (s_main (child_exit st s)) = phase_start (s_main s) /\
  phase_budget (s_main (child_exit st s)) = phase_budget (s_main s) /\
  (forall cf, main_timers cf (s_main (child_exit st s)) = main_timers cf (s_main s)) /\
  s_ob (child_exit st s) = s_ob s /\ finished (child_exit st s) = finished s.
Proof.
  unfold child_exit, finished. by destruct (s_main s) as [| |x|[| | |l|]| | |].
Qed.

Lemma writer_task_moves cf env s s' :
  config_ok cf -> poll_writer_task cf env s = Some s' ->
  s_now s' = s_now s /\ s_main s' = s_main s /\
  (forall t, t ∈ writer_timers cf (s_ob s') -> s_now s <= t) /\
  (ob_cancel (s_ob s) = true -> ob_cancel (s_ob s') = true) /\
  ~ (ob_cancel (s_ob s) = false /\ ob_writer (s_ob s) = WRecv /\
     queued (ob_chan (s_ob s)) = [] /\ ob_senders (s_ob s) = 1%nat).
Proof.
  intros (_ & Hw & _). unfold poll_writer_task, poll_writer. intros E.
  destruct (ob_writer (s_ob s)) as [|f since|] eqn:Ew; [| |done].
  - destruct (ob_cancel (s_ob s)) eqn:Ec.
    { simplify_eq; cbn. split_and!; [done | done | set_solver | done | naive_solver]. }
    destruct (queued (ob_chan (s_ob s))) as [|f l] eqn:Eq.
    + rewrite (try_recv_none _ Eq) in E. destruct (Nat.eqb_spec (ob_senders (s_ob s)) 0); [|done].
      simplify_eq; cbn. split_and!; [done | done | set_solver | done |].
      intros (_ & _ & _ & Hs). congruence.
    + destruct (try_recv_some _ _ _ Eq) as (c' & E' & _). rewrite E' in E.
      simplify_eq; cbn. split_and!; [done | done | | done | naive_solver].
      intros t. rewrite list_elem_of_singleton. lia.
  - assert (Hq : forall ob', ob_writer ob' = WDone \/ ob_writer ob' = WRecv ->
      forall t, t ∈ writer_timers cf ob' -> s_now s <= t).
    { intros ob' [Ho|Ho] t; unfold writer_timers; rewrite Ho; set_solver. }
    repeat case_hyp E; simplify_eq;
      (split_and!; [done | done | apply Hq; cbn; auto | cbn; congruence | naive_solver]).
Qed.

Lemma time_inv_step cf s e : config_ok cf -> time_inv cf s -> time_inv cf (step cf s e).
Proof.
  intros Hcf (Ht & Hp & Hs). unfold step.
  destruct (try_event cf e s) as [s'|] eqn:E; [|done].
  destruct e as [env first|env|env|env|st|d]; cbn in E.
  - destruct (poll_main_moves _ _ _ _ _ Hcf E) as (En & [Hm1 Hm2] & [Hw Hc] & Hsil).
    unfold time_inv. rewrite En. split_and!.
    + intros t [Hin|Hin]%elem_of_app.
      * destruct (Hm1 t Hin) as [|]; [|done]. apply Ht, elem_of_app. auto.
      * apply Ht, elem_of_app. right. unfold writer_timers in *. by rewrite Hw in Hin.
    + intros since Hsn. destruct (Hm2 since Hsn) as [|]; [auto|lia].
    + intros Hsl. destruct (Hsil Hsl) as [Hsl' ->]. auto.
  - destruct (writer_task_moves _ _ _ _ Hcf E) as (En & Em & Hw & _ & Hn).
    unfold time_inv. rewrite En, Em. split_and!; [|done|].
    + intros t [Hin|Hin]%elem_of_app; [|auto]. rewrite Em in Hin. apply Ht, elem_of_app; auto.
    + intros Hsl. destruct Hn. auto.
  - destruct (output_task_moves env s s' (or_introl E)) as (En & Hsl & Hps & _ & Hmt & Hw & _).
    unfold time_inv, timers. rewrite En, Hps, Hmt, Hsl. split_and!; [|done|done].
    unfold writer_timers. rewrite Hw. exact Ht.
  - destruct (output_task_moves env s s' (or_intror E)) as (En & Hsl & Hps & _ & Hmt & Hw & _).
    unfold time_inv, timers. rewrite En, Hps, Hmt, Hsl. split_and!; [|done|done].
    unfold writer_timers. rewrite Hw. exact Ht.
  - injection E as <-. destruct (child_exit_moves st s) as (En & Hsl & Hps & _ & Hmt & Hob & _).
    unfold time_inv, timers. rewrite En, Hps, Hmt, Hsl, Hob. by split_and!.
  - unfold tick in E. case_match eqn:Eg; [|done]. injection E as <-.
    apply andb_true_iff in Eg as [Eg Hall]. apply andb_true_iff in Eg as [Hd Hpk]. bool_prop.
    rewrite forallb_forall in Hall. unfold time_inv, timers in *; cbn. split_and!; [| |done].
    + intros t Hin. apply list_elem_of_In, Hall in Hin. bool_prop. lia.
    + intros since Hsn. apply Hp in Hsn. lia.
Qed.

Lemma time_inv_run cf s es : config_ok cf -> time_inv cf s -> time_inv cf (run cf s es).
Proof.
  intros Hcf. revert s. induction es as [|e es IH]; intros s Hs; [done|].
  cbn. by apply IH, time_inv_step.
Qed.
End clock.

(** ** The teardown is bounded *)

Section teardown.
Context {C W R S I K : Type}.
Context `{MpscSpec C, !AsyncWrite W, !AsyncRead R, !AsyncRead S, !AsyncWrite I, !FdWrite I, KernelSpec K}.
Context `{!Json, !Fmt, !Shlex, !Spawn S I K, !PtyStreams S I}.
Implicit Types (s : session C W R S I K) (ob : outbound C W) (m : main_state S I).

Abbreviation session_horizon s := (horizon (s_now s) (s_main s)).

Lemma phase_budget_bounds m : 0 <= phase_budget m <= TEARDOWN.
Proof.
  unfold phase_budget.
  destruct m as [| |x|[| | |l|]| | |]; try (graces; lia);
    [destruct (ex_phase x) | destruct (lv_phase l)]; graces; lia.
Qed.

Lemma now_le_horizon cf s : time_inv cf s -> s_now s <= session_horizon s.
Proof.
  intros (Ht & _). unfold horizon.
  destruct (phase_start (s_main s)) as [since|] eqn:E.
  - assert (Htm : forall t, t ∈ main_timers cf (s_main s) -> s_now s <= t).
    { intros t Hin. apply Ht, elem_of_app. auto. }
    clear Ht. destruct (s_main s) as [| |x|[| | |l|]| | |]; try done; cbn in *.
    + unfold exec_timers in Htm. destruct (ex_phase x); simplify_eq;
        specialize (Htm _ (proj2 (list_elem_of_singleton _ _) eq_refl)); graces; lia.
    + simplify_eq. specialize (Htm _ (proj2 (list_elem_of_singleton _ _) eq_refl)). graces; lia.
    + unfold live_timers in Htm. destruct (lv_phase l); simplify_eq;
        specialize (Htm _ (proj2 (list_elem_of_singleton _ _) eq_refl)); graces; lia.
  - pose proof (phase_budget_bounds (s_main s)). lia.
Qed.

Lemma horizon_le_teardown cf s : time_inv cf s -> session_horizon s <= s_now s + TEARDOWN.
Proof.
  intros (_ & Hp & _). unfold horizon. pose proof (phase_budget_bounds (s_main s)).
  destruct (phase_start (s_main s)) as [since|]; [|lia]. specialize (Hp _ eq_refl). lia.
Qed.

(** A target with neither a bounded phase nor a budget is within the horizon. *)
Lemma horizon_quiet cf s m :
  time_inv cf s -> phase_start m = None -> phase_budget m = 0 ->
  horizon (s_now s) m <= session_horizon s.
Proof.
  intros Hi Hp Hb. unfold horizon at 1. rewrite Hp, Hb.
  pose proof (now_le_horizon cf s Hi). lia.
Qed.

(** The bounded phases follow one another within the budget. *)
Lemma horizon_poll_exec cf now env (x x' : exec_state S I) (r r' : R) ob ob' :
  (forall t, t ∈ exec_timers cf x -> now <= t) -> ob_cancel ob = true ->
  poll_exec cf now env x r ob = Some (x', r', ob') ->
  horizon now (MExec x') <= horizon now (MExec x).
Proof.
  intros Ht Hc E. unfold poll_exec, exec_timers, horizon in *. rewrite Hc in E. cbn.
  destruct (ex_phase x) as [|reason since|raw reason since|raw reason since|f|res] eqn:Ep;
    try specialize (Ht _ (proj2 (list_elem_of_singleton _ _) eq_refl)).
  - simplify_eq; cbn. lia.
  - destruct (reap_bounded _ _ _) as [[raw ch]|]; [|done]. simplify_eq; cbn. graces; lia.
  - repeat case_hyp E; simplify_eq; cbn; graces; lia.
  - unfold exit_step in E. repeat case_hyp E; simplify_eq; cbn; graces; lia.
  - repeat case_hyp E; simplify_eq; cbn; lia.
  - done.
Qed.

Lemma horizon_pty_finish now raw reason (l : live S I) ob ob' (k k' : K) p :
  pty_finish raw reason l ob k = (p, ob', k') -> horizon now (MPty p) = now.
Proof.
  unfold pty_finish, pty_exit_step. destruct (exit_fields raw reason).
  destruct (to_vec_exit _ _); intros [= <- _ _]; unfold horizon; cbn; lia.
Qed.

Lemma horizon_poll_live cf now env first (l : live S I) (r r' : R) ob ob' (k k' : K) p :
  (forall t, t ∈ live_timers cf l -> now <= t) ->
  poll_live cf now env first l r ob k = Some (p, r', ob', k') ->
  horizon now (MPty p) <= horizon now (MPty (PtyLive l)).
Proof.
  intros Ht E. unfold poll_live, live_timers in *.
  destruct (lv_phase l) as [|since|since|raw reason since|f] eqn:Ep.
  - destruct (poll_select _ _ _ _ _ _ _ _) as [[[[l1 r1] ob1] k1]|] eqn:Es; [|done].
    apply poll_select_cases in Es as (_ & _ & _ & _ & _ & Hcase); [|done]. simplify_eq.
    unfold horizon; cbn. rewrite Ep.
    destruct Hcase as [(-> & _)|[(-> & _)|(s & _ & -> & _)]]; graces; lia.
  - specialize (Ht _ (proj2 (list_elem_of_singleton _ _) eq_refl)).
    unfold horizon. repeat case_hyp E; simplify_eq; cbn; rewrite Ep; graces; lia.
  - specialize (Ht _ (proj2 (list_elem_of_singleton _ _) eq_refl)).
    destruct (reap_bounded _ _ _) as [[raw ch]|]; [|done].
    unfold horizon. simplify_eq; cbn; rewrite Ep; graces; lia.
  - specialize (Ht _ (proj2 (list_elem_of_singleton _ _) eq_refl)).
    assert (Hl : now <= horizon now (MPty (PtyLive l))) by (unfold horizon; cbn; rewrite Ep; lia).
    destruct (pump_over _).
    { destruct (pty_finish _ _ _ _ _) as [[p1 ob1] k1] eqn:Ef. simplify_eq.
      apply (horizon_pty_finish now) in Ef. lia. }
    destruct (_ <=? now); [|done]. destruct (abort_pump _ _) as [out ob0].
    destruct (pty_finish _ _ _ _ _) as [[p1 ob1] k1] eqn:Ef. simplify_eq.
    apply (horizon_pty_finish now) in Ef. lia.
  - destruct (poll_send _ _) as [[q ob1]|]; [|done]. simplify_eq.
    unfold horizon; cbn; rewrite Ep; lia.
Qed.

Lemma horizon_poll_main cf env first s s' :
  time_inv cf s -> ob_cancel (s_ob s) = true ->
  poll_main cf env first s = Some s' ->
  horizon (s_now s) (s_main s') <= session_horizon s.
Proof.
  intros Hi Hc E. pose proof Hi as (Ht & _ & Hs).
  assert (Hns : silent (s_main s) = false).
  { destruct (silent (s_main s)); [|done]. destruct (Hs eq_refl). congruence. }
  assert (Hmt : forall t, t ∈ main_timers cf (s_main s) -> s_now s <= t).
  { intros t Hin. apply Ht, elem_of_app. auto. }
  assert (Hret : forall res s1,
    horizon (s_now s) (s_main (drive_returned res s1)) <= session_horizon s).
  { intros res s1. apply (horizon_quiet cf); [done|by destruct res..]. }
  unfold poll_main in E. destruct (s_main s) as [since|msg|x|p|e|res|res] eqn:Em; [done| | | | | |done].
  - destruct (poll_send _ _) as [[q ob']|]; [|done]. simplify_eq. by apply Hret.
  - assert (Hx : forall x' r' ob', poll_exec cf (s_now s) env x (s_reader s) (s_ob s) = Some (x', r', ob') ->
      horizon (s_now s) (MExec x') <= horizon (s_now s) (MExec x)).
    { intros x' r' ob'. by apply horizon_poll_exec. }
    destruct (ex_phase x) eqn:Ep; try (simplify_eq; by apply Hret);
      (destruct (poll_exec _ _ _ _ _ _) as [[[x' r'] ob']|]; [|done]); simplify_eq; by eapply Hx.
  - destruct p as [req|msg owned|msg ms ch ks since|l|ks res]; [done| | | |by simplify_eq; apply Hret].
    + destruct (poll_pty _ _ _ _ _ _ _ _) as [[[[p' r'] ob'] k']|] eqn:Ep; [|done]. simplify_eq.
      cbn in Ep. destruct (poll_send _ _) as [[q ob1]|]; [|done]. simplify_eq.
      unfold horizon; cbn; lia.
    + destruct (poll_pty _ _ _ _ _ _ _ _) as [[[[p' r'] ob'] k']|] eqn:Ep; [|done]. simplify_eq.
      cbn in Ep. destruct (reap_bounded _ _ _) as [[raw ch']|]; [|done]. simplify_eq.
      specialize (Hmt _ (proj2 (list_elem_of_singleton _ _) eq_refl)).
      unfold horizon; cbn; lia.
    + destruct (poll_pty _ _ _ _ _ _ _ _) as [[[[p' r'] ob'] k']|] eqn:Ep; [|done]. simplify_eq.
      by apply horizon_poll_live in Ep.
  - destruct (poll_send _ _) as [[q ob']|]; [|done]. simplify_eq. unfold horizon; cbn; lia.
  - destruct (receiver_gone _); [|done]. simplify_eq. unfold horizon; cbn; lia.
Qed.

(** A cancelled session outside a bounded phase always has a task to run. *)
Lemma cancelled_not_parked cf s :
  time_inv cf s -> ob_cancel (s_ob s) = true -> finished s = false ->
  phase_start (s_main s) = None -> all_parked cf s = false.
Proof.
  intros (_ & _ & Hs) Hc Hf Hp. unfold all_parked.
  destruct (ob_writer (s_ob s)) as [|f since|] eqn:Ew.
  1-2: unfold poll_writer_task, poll_writer; rewrite Ew, Hc; cbn;
    by rewrite andb_false_r.
  assert (Hm : is_none (poll_main cf parked_env 0 s) = false); [|by rewrite Hm].
  assert (Hsend : forall f, poll_send f (s_ob s) = Some (false, s_ob s)).
  { intros f. unfold poll_send, receiver_gone. by rewrite Ew. }
  assert (Hns : silent (s_main s) = false).
  { destruct (silent (s_main s)); [|done]. destruct (Hs eq_refl). congruence. }
  unfold poll_main, finished, receiver_gone in *.
  destruct (s_main s) as [since|msg|x|p|e|res|res]; try done; cbn in *.
  - by rewrite Hsend.
  - unfold poll_exec. destruct (ex_phase x) eqn:Ep; try done; [by rewrite Hc | by rewrite Hsend].
  - destruct p as [req|msg owned|msg ms ch ks since|l|ks res]; try done; cbn.
    + by rewrite Hsend.
    + unfold poll_live. destruct (lv_phase l) eqn:Ep; try done; [|by rewrite Hsend].
      unfold poll_select, arm_cancel. rewrite Hc. cbn.
      by destruct (arm_input _ _ _ _ _ _ _) as [[[[] ] ]|], (arm_child (s_now s) l).
  - by rewrite Hsend.
  - by rewrite Ew.
Qed.

Definition winding_down (cf : config) (limit : Z) s : Prop :=
  time_inv cf s /\ ob_cancel (s_ob s) = true /\ (finished s = true \/ session_horizon s <= limit).

Lemma finished_poll cf env first s : finished s = true -> poll_main cf env first s = None.
Proof. unfold finished, poll_main. by destruct (s_main s). Qed.

Lemma winding_down_step cf limit s e :
  config_ok cf -> winding_down cf limit s -> winding_down cf limit (step cf s e).
Proof.
  intros Hcf (Hi & Hc & Hl).
  split; [by apply time_inv_step|]. unfold step.
  destruct (try_event cf e s) as [s'|] eqn:E; [|done].
  destruct e as [env first|env|env|env|st|d]; cbn in E.
  - destruct (poll_main_moves _ _ _ _ _ Hcf E) as (En & _ & [_ Hc'] & _). split; [auto|].
    destruct Hl as [Hf|Hl]; [by rewrite finished_poll in E|].
    right. rewrite En. pose proof (horizon_poll_main _ _ _ _ _ Hi Hc E). lia.
  - destruct (writer_task_moves _ _ _ _ Hcf E) as (En & Em & _ & Hc' & _). split; [auto|].
    unfold finished in *. by rewrite En, Em.
  - destruct (output_task_moves env s s' (or_introl E)) as (En & _ & Hps & Hb & _ & _ & Hc' & Hf).
    rewrite Hc', Hf. split; [done|]. unfold horizon in *. by rewrite En, Hps, Hb.
  - destruct (output_task_moves env s s' (or_intror E)) as (En & _ & Hps & Hb & _ & _ & Hc' & Hf).
    rewrite Hc', Hf. split; [done|]. unfold horizon in *. by rewrite En, Hps, Hb.
  - injection E as <-. destruct (child_exit_moves st s) as (En & _ & Hps & Hb & _ & Hob & Hf).
    rewrite Hob, Hf. split; [done|]. unfold horizon in *. by rewrite En, Hps, Hb.
  - unfold tick in E. case_match eqn:Eg; [|done]. injection E as <-. split; [done|].
    destruct Hl as [Hf|Hl]; [by left|].
    destruct (finished s) eqn:Hf; [by left|right].
    destruct (phase_start (s_main s)) as [since|] eqn:Hps.
    + unfold horizon in *; cbn. by rewrite Hps in *.
    + rewrite (cancelled_not_parked cf s) in Eg by done. by rewrite andb_false_r in Eg.
Qed.

(** C3 Cancellation bounds the session: from any reachable state whose
    [Cancel] has fired -- the peer is gone, silent past the idle timeout, or
    not reading past the write timeout -- and along every further execution,
    even with a child stuck in uninterruptible sleep, the session is over or
    less than 7.2 seconds have passed: the slot it holds cannot leak. *)
Theorem cancelled_session_bounded cf r (w : W) (k : K) b es es' :
  config_ok cf ->
  let s := run cf (new_session (S := S) (I := I) (C := C) (R := R) r w k b) es in
  ob_cancel (s_ob s) = true ->
  let s' := run cf s es' in
  finished s' = true \/ s_now s' <= s_now s + TEARDOWN.
Proof.
  intros Hcf s Hc s'.
  assert (Hi : time_inv cf s) by (by apply time_inv_run, time_inv_new).
  assert (Hw : winding_down cf (s_now s + TEARDOWN) s).
  { split; [done|]. split; [done|]. right. by eapply horizon_le_teardown. }
  assert (Hw' : winding_down cf (s_now s + TEARDOWN) s').
  { subst s'. clearbody s. revert Hw. generalize (s_now s + TEARDOWN). clear Hi Hc.
    revert s. induction es' as [|e es' IH]; intros s limit Hw; [done|].
    cbn. apply IH. by apply winding_down_step. }
  destruct Hw' as (Hi' & _ & [|Hl]); [by left|right].
  pose proof (now_le_horizon cf s' Hi'). lia.
Qed.
End teardown.

(** ** The teardown completes by itself *)

Section completes.
Context {C W R S I K : Type}.
Context `{MpscSpec C, !AsyncWrite W, !AsyncRead R, !AsyncRead S, !AsyncWrite I, !FdWrite I, KernelSpec K}.
Context `{!Json, !Fmt, !Shlex, !Spawn S I K, !PtyStreams S I}.
Implicit Types (s : session C W R S I K) (ob : outbound C W) (m : main_state S I).

(** An event that needs nothing from outside: no I/O completes, no child exits. *)
Definition quiet_event (e : event) : Prop :=
  match e with
  | EvMain env first => env = parked_env /\ first = 0%nat
  | EvWriterTask env | EvOut env | EvErr env => env = parked_env
  | EvChild _ => False
  | EvTick _ => True
  end.

Definition rank_main m : nat :=
  match m with
  | MFirst _ => 0
  | MSendError _ | MReport _ => 4
  | MExec x =>
      match ex_phase x with
      | ExRunning => 16 | ExReaping _ _ => 14 | ExDrainOut _ _ _ => 12 | ExDrainErr _ _ _ => 10
      | ExSendExit _ => 8 | ExReturned _ => 6
      end
  | MPty (PtyOpening _) => 0
  | MPty (PtyFailing _ _) => 8
  | MPty (PtyReaping _ _ _ _ _) => 10
  | MPty (PtyLive l) =>
      match lv_phase l with
      | LvRunning => 16 | LvHangup _ => 14 | LvKilled _ => 12 | LvDrain _ _ _ => 10
      | LvSendExit _ => 8
      end
  | MPty (PtyReturned _ _) => 6
  | MJoin _ => 2
  | MFinished _ => 0
  end%nat.

Definition rank_pump (p : pump S) : nat := match pm_state p with PumpSending _ => 1 | _ => 0 end.

Definition rank_pumps m : nat :=
  match m with
  | MExec x => rank_pump (ex_out x) + rank_pump (ex_err x)
  | MPty (PtyLive l) => rank_pump (lv_out l)
  | _ => 0
  end%nat.

(** Quiet events still to come before a cancelled session is over. *)
Definition rank (cf : config) s : nat :=
  (rank_main (s_main s) + rank_pumps (s_main s) + (if receiver_gone (s_ob s) then 0 else 1) +
   (if is_none (poll_main cf parked_env 0 s) then 1 else 0))%nat.

Lemma rank_bound cf s : (rank cf s <= 20)%nat.
Proof.
  unfold rank, rank_main, rank_pumps, rank_pump. repeat case_match; lia.
Qed.

Lemma rank_abort (p : pump S) ob : (rank_pump (abort_pump p ob).1 <= rank_pump p)%nat.
Proof. unfold abort_pump, rank_pump. destruct (pump_over p); cbn; lia. Qed.

Lemma rank_exec cf now (x x' : exec_state S I) (r r' : R) ob ob' :
  ob_cancel ob = true -> poll_exec cf now parked_env x r ob = Some (x', r', ob') ->
  (rank_main (MExec x') + rank_pumps (MExec x') + 2 <=
   rank_main (MExec x) + rank_pumps (MExec x))%nat.
Proof.
  intros Hc E. unfold poll_exec in E. cbn. rewrite Hc in E.
  destruct (ex_phase x) as [|reason since|raw reason since|raw reason since|f|res] eqn:Ep.
  - simplify_eq; cbn; lia.
  - destruct (reap_bounded _ _ _) as [[raw ch]|]; [|done]. simplify_eq; cbn; lia.
  - destruct (pump_over _); [simplify_eq; cbn; lia|]. destruct (_ <=? now); [|done].
    pose proof (rank_abort (ex_out x) ob). destruct (abort_pump _ _). simplify_eq; cbn in *; lia.
  - unfold exit_step in E. destruct (exit_fields raw reason), (pump_over _).
    { destruct (to_vec_exit _ _); simplify_eq; cbn; lia. }
    destruct (_ <=? now); [|done].
    pose proof (rank_abort (ex_err x) ob). destruct (abort_pump _ _).
    destruct (to_vec_exit _ _); simplify_eq; cbn in *; lia.
  - destruct (poll_send f ob) as [[q ob1]|]; [|done]. simplify_eq; cbn; lia.
  - done.
Qed.

Lemma rank_pty_finish raw reason (l : live S I) ob ob' (k k' : K) p :
  pty_finish raw reason l ob k = (p, ob', k') ->
  (rank_main (MPty p) <= 8 /\ rank_pumps (MPty p) <= rank_pump (lv_out l))%nat.
Proof.
  unfold pty_finish, pty_exit_step. destruct (exit_fields raw reason).
  destruct (to_vec_exit _ _); intros [= <- _ _]; cbn; lia.
Qed.

Lemma rank_live cf now (l : live S I) (r r' : R) ob ob' (k k' : K) p :
  ob_cancel ob = true -> poll_live cf now parked_env 0 l r ob k = Some (p, r', ob', k') ->
  (rank_main (MPty p) + rank_pumps (MPty p) + 2 <=
   rank_main (MPty (PtyLive l)) + rank_pumps (MPty (PtyLive l)))%nat.
Proof.
  intros Hc E. unfold poll_live in E. cbn.
  destruct (lv_phase l) as [|since|since|raw reason since|f] eqn:Ep.
  - destruct (poll_select _ _ _ _ _ _ _ _) as [[[[l1 r1] ob1] k1]|] eqn:Es; [|done]. simplify_eq.
    unfold poll_select, arm_input, poll_input, arm_child, arm_cancel in Es. rewrite Hc in Es.
    cbn in Es. cbn.
    destruct (lv_input l); [destruct (_ <=? now)| |]; destruct (lv_child l);
      cbn in Es; simplify_eq; cbn; lia.
  - destruct (lv_child l); try case_hyp E; simplify_eq; cbn; lia.
  - destruct (reap_bounded _ _ _) as [[raw ch]|]; [|done]. simplify_eq; cbn; lia.
  - destruct (pump_over _).
    { destruct (pty_finish _ _ _ _ _) as [[p1 ob1] k1] eqn:Ef. simplify_eq.
      apply rank_pty_finish in Ef. cbn in *; lia. }
    destruct (_ <=? now); [|done]. pose proof (rank_abort (lv_out l) ob).
    destruct (abort_pump _ _) as [out ob0].
    destruct (pty_finish _ _ _ _ _) as [[p1 ob1] k1] eqn:Ef. simplify_eq.
    apply rank_pty_finish in Ef. cbn in *. lia.
  - destruct (poll_send _ _) as [[q ob1]|]; [|done]. simplify_eq; cbn; lia.
Qed.

Lemma rank_main_poll cf s s' :
  time_inv cf s -> ob_cancel (s_ob s) = true -> finished s = false ->
  poll_main cf parked_env 0 s = Some s' ->
  (rank_main (s_main s') + rank_pumps (s_main s') + 2 <=
   rank_main (s_main s) + rank_pumps (s_main s))%nat.
Proof.
  intros (_ & _ & Hs) Hc Hf E.
  assert (Hns : silent (s_main s) = false).
  { destruct (silent (s_main s)); [|done]. destruct (Hs eq_refl). congruence. }
  unfold poll_main in E. destruct (s_main s) as [since|msg|x|p|e|res|res] eqn:Em; [done| | | | | |done].
  - destruct (poll_send _ _) as [[q ob']|]; [|done]. by simplify_eq.
  - destruct (ex_phase x) eqn:Ep;
      try (destruct (poll_exec _ _ _ _ _ _) as [[[x' r'] ob']|] eqn:Ex; [|done];
           apply rank_exec in Ex; [|done]; by simplify_eq).
    simplify_eq. destruct res as [[]|]; cbn; rewrite Ep; lia.
  - destruct p as [req|msg owned|msg ms ch ks since|l|ks res]; [done| | | |].
    + cbn in E. destruct (poll_send _ _) as [[q ob1]|]; [|done]. simplify_eq; cbn; lia.
    + cbn in E. destruct (reap_bounded _ _ _) as [[raw ch']|]; [|done]. simplify_eq; cbn; lia.
    + cbn [poll_pty] in E.
      destruct (poll_live _ _ _ _ _ _ _ _) as [[[[p' r'] ob'] k']|] eqn:El; [|done].
      apply rank_live in El; [|done]. by simplify_eq.
    + simplify_eq. destruct res as [[]|]; cbn; lia.
  - destruct (poll_send _ _) as [[q ob']|]; [|done]. simplify_eq; cbn; lia.
  - destruct (receiver_gone _); [|done]. simplify_eq; cbn; lia.
Qed.

(** While the writer is gone, an output task moves only to give up a chunk. *)
Lemma rank_output s s' :
  receiver_gone (s_ob s) = true ->
  poll_out_task parked_env s = Some s' \/ poll_err_task parked_env s = Some s' ->
  rank_main (s_main s') = rank_main (s_main s) /\
  (rank_pumps (s_main s') < rank_pumps (s_main s))%nat /\
  receiver_gone (s_ob s') = true.
Proof.
  intros Hg E.
  assert (Hsend : forall f, poll_send f (s_ob s) = Some (false, s_ob s)).
  { intros f. unfold poll_send. by rewrite Hg. }
  assert (Hpump : forall ft p p' ob', poll_pump ft parked_env p (s_ob s) = Some (p', ob') ->
    (rank_pump p' < rank_pump p)%nat /\ ob' = s_ob s).
  { unfold poll_pump, rank_pump. intros ft p p' ob' Ep.
    destruct (pm_state p); cbn in Ep; try done. rewrite Hsend in Ep. simplify_eq; cbn. split; [lia|done]. }
  unfold poll_out_task, poll_err_task in E.
  destruct (s_main s) as [| |x|[| | |l|]| | |] eqn:Em; destruct E as [E|E]; try done.
  - destruct (poll_pump _ _ _ _) as [[p' ob']|] eqn:Ep; [|done]. apply Hpump in Ep as [? ->].
    simplify_eq; cbn. split_and!; [done|lia|done].
  - destruct (poll_pump _ _ _ _) as [[p' ob']|] eqn:Ep; [|done]. apply Hpump in Ep as [? ->].
    simplify_eq; cbn. split_and!; [done|lia|done].
  - unfold poll_pty_out in E. destruct (pm_state (lv_out l)) eqn:Eo; cbn in E; try done.
    rewrite Hsend in E. simplify_eq; cbn. unfold rank_pump. rewrite Eo. cbn.
    split_and!; [done|lia|done].
Qed.

(** One poll of the session task in a known phase. *)
Ltac go := cbn; unfold poll_exec, poll_live, reap_bounded, poll_reap;
  repeat match goal with
  | E : ex_phase _ = _ |- _ => rewrite E
  | E : lv_phase _ = _ |- _ => rewrite E
  end; cbn.

(** When everything is parked, the one armed timer is the session task's, and
    letting it expire lets the session task run. *)
(** Parked while it winds down, the session task waits for its one timer, and
    moves once that is over. *)
Lemma parked_phase_timer cf s since :
  ob_cancel (s_ob s) = true -> phase_start (s_main s) = Some since ->
  is_none (poll_main cf parked_env 0 s) = true ->
  exists limit, main_timers cf (s_main s) = [since + limit] /\
    (since + limit <=? s_now s) = false /\
    forall now, since + limit <= now -> forall s', s_now s' = now -> s_main s' = s_main s ->
      is_none (poll_main cf parked_env 0 s') = false.
Proof.
  intros Hc Hps Hm.
  unfold poll_main, main_timers in *.
  destruct (s_main s) as [| |x|[| |msg m ch ks si|l|]| | |]; cbn in *; try done.
  - unfold poll_exec, exec_timers in *.
    destruct (ex_phase x) eqn:Eph; simplify_eq; eexists; (split; [reflexivity|]).
    + unfold reap_bounded, poll_reap in *. destruct (ex_child x) eqn:Ech; try done;
        (split; [by destruct (_ <=? s_now s)|]); intros now Hn s' <- ->; go; rewrite Ech;
        by rewrite (proj2 (Z.leb_le _ _) Hn).
    + destruct (pump_over (ex_out x)) eqn:Eo; [done|].
      split; [destruct (_ <=? s_now s); [by destruct (abort_pump (ex_out x) (s_ob s))|done]|].
      intros now Hn s' <- ->; go. rewrite Eo, (proj2 (Z.leb_le _ _) Hn).
      by destruct (abort_pump (ex_out x) (s_ob s')).
    + destruct (pump_over (ex_err x)) eqn:Eo; [done|].
      split; [destruct (_ <=? s_now s); [by destruct (abort_pump (ex_err x) (s_ob s))|done]|].
      intros now Hn s' <- ->; go. rewrite Eo, (proj2 (Z.leb_le _ _) Hn).
      by destruct (abort_pump (ex_err x) (s_ob s')).
  - simplify_eq. eexists. split; [reflexivity|]. unfold reap_bounded, poll_reap in *.
    destruct ch eqn:Ech; try done;
      (split; [by destruct (_ <=? s_now s)|]); intros now Hn s' <- ->; go;
      by rewrite (proj2 (Z.leb_le _ _) Hn).
  - unfold poll_live, live_timers in *.
    destruct (lv_phase l) eqn:Eph; simplify_eq; eexists; (split; [reflexivity|]).
    + destruct (lv_child l) eqn:Ech; try done;
        (split; [by destruct (_ <=? s_now s)|]); intros now Hn s' <- ->; go; rewrite Ech;
        by rewrite (proj2 (Z.leb_le _ _) Hn).
    + unfold reap_bounded, poll_reap in *. destruct (lv_child l) eqn:Ech; try done;
        (split; [by destruct (_ <=? s_now s)|]); intros now Hn s' <- ->; go; rewrite Ech;
        by rewrite (proj2 (Z.leb_le _ _) Hn).
    + destruct (pump_over (lv_out l)) eqn:Eo; [by destruct (pty_finish _ _ _ _ _) as [[]]|].
      split; [destruct (_ <=? s_now s); [|done];
              destruct (abort_pump (lv_out l) (s_ob s)); by destruct (pty_finish _ _ _ _ _) as [[]]|].
      intros now Hn s' <- ->; go. rewrite Eo, (proj2 (Z.leb_le _ _) Hn).
      destruct (abort_pump (lv_out l) (s_ob s')). by destruct (pty_finish _ _ _ _ _) as [[]].
Qed.

Lemma parked_tick cf s :
  time_inv cf s -> ob_cancel (s_ob s) = true -> finished s = false -> all_parked cf s = true ->
  exists d s', tick cf d s = Some s' /\ s_main s' = s_main s /\ s_ob s' = s_ob s /\
    is_none (poll_main cf parked_env 0 s') = false.
Proof.
  intros Hi Hc Hf Hpk.
  destruct (phase_start (s_main s)) as [since|] eqn:Hps;
    [|by rewrite (cancelled_not_parked cf s) in Hpk].
  pose proof Hpk as Hpk'. unfold all_parked in Hpk'. bool_prop.
  assert (Hwt : writer_timers cf (s_ob s) = []).
  { unfold writer_timers, poll_writer_task, poll_writer in *.
    destruct (ob_writer (s_ob s)); [done| |done]. rewrite Hc in *. done. }
  destruct (parked_phase_timer cf s since Hc Hps) as (limit & Ht & Hlt & Hgo); [done|]. bool_prop.
  exists (since + limit - s_now s). eexists. unfold tick. rewrite Hpk.
  rewrite (proj2 (Z.ltb_lt _ _)) by lia. unfold timers. rewrite Ht, Hwt. cbn.
  rewrite (proj2 (Z.leb_le _ _)) by lia. split; [reflexivity|]. cbn.
  split_and!; [done|done|]. eapply Hgo; [|reflexivity|done]. cbn. lia.
Qed.

(** One quiet event brings a cancelled session closer to its end. *)
Lemma quiet_progress cf s :
  config_ok cf -> time_inv cf s -> ob_cancel (s_ob s) = true -> finished s = false ->
  exists e, quiet_event e /\ (rank cf (step cf s e) < rank cf s)%nat /\
    ob_cancel (s_ob (step cf s e)) = true.
Proof.
  intros Hcf Hi Hc Hf.
  assert (Hle : forall s', ((if is_none (poll_main cf parked_env 0 s') then 1 else 0) <= 1)%nat)
    by (intros s'; case_match; lia).
  destruct (poll_main cf parked_env 0 s) as [s1|] eqn:Em.
  { exists (EvMain parked_env 0). unfold step, try_event. rewrite Em.
    destruct (poll_main_moves _ _ _ _ _ Hcf Em) as (_ & _ & [Hw Hc'] & _).
    pose proof (rank_main_poll _ _ _ Hi Hc Hf Em). split_and!; [done| |auto].
    unfold rank at 2. rewrite Em. unfold rank, receiver_gone. rewrite Hw. specialize (Hle s1). cbn; lia. }
  destruct (receiver_gone (s_ob s)) eqn:Eg.
  2:{ exists (EvWriterTask parked_env). unfold step, try_event, poll_writer_task.
      assert (exists ob', poll_writer (cf_write_timeout cf) (s_now s) parked_env (s_ob s) = Some ob' /\
        ob_writer ob' = WDone /\ ob_cancel ob' = true) as (ob' & -> & Hd & Hc').
      { unfold poll_writer, receiver_gone in *. destruct (ob_writer (s_ob s)); [..|done];
          rewrite Hc; eauto. }
      split_and!; [done| |done]. unfold rank at 2. rewrite Em, Eg.
      unfold rank, receiver_gone; cbn. rewrite Hd. specialize (Hle (with_main (s_main s) ob' s)).
      cbn in Hle |- *. lia. }
  destruct (poll_out_task parked_env s) as [s1|] eqn:Eo.
  { exists (EvOut parked_env). unfold step, try_event. rewrite Eo.
    destruct (rank_output s s1 Eg (or_introl Eo)) as (Hr1 & Hr2 & Hr3).
    destruct (output_task_moves _ _ _ (or_introl Eo)) as (_ & _ & _ & _ & _ & _ & Hc' & _).
    split_and!; [done| |congruence]. unfold rank at 2. rewrite Em. unfold rank.
    rewrite Hr1, Hr3, Eg. specialize (Hle s1). cbn; lia. }
  destruct (poll_err_task parked_env s) as [s1|] eqn:Ee.
  { exists (EvErr parked_env). unfold step, try_event. rewrite Ee.
    destruct (rank_output s s1 Eg (or_intror Ee)) as (Hr1 & Hr2 & Hr3).
    destruct (output_task_moves _ _ _ (or_intror Ee)) as (_ & _ & _ & _ & _ & _ & Hc' & _).
    split_and!; [done| |congruence]. unfold rank at 2. rewrite Em. unfold rank.
    rewrite Hr1, Hr3, Eg. specialize (Hle s1). cbn; lia. }
  assert (Hpk : all_parked cf s = true).
  { unfold all_parked, poll_writer_task, poll_writer. rewrite Em, Eo, Ee.
    unfold receiver_gone in Eg. by destruct (ob_writer (s_ob s)). }
  destruct (parked_tick cf s Hi Hc Hf Hpk) as (d & s1 & Et & Hm & Hob & Hn).
  exists (EvTick d). unfold step, try_event. rewrite Et. split_and!; [done| |by rewrite Hob].
  unfold rank. rewrite Hm, Hob, Hn, Em. cbn. lia.
Qed.

(** Repeating it ends the session, and not before the last event. *)
Lemma cancelled_completes cf s :
  config_ok cf -> time_inv cf s -> ob_cancel (s_ob s) = true ->
  exists es', (length es' <= 20)%nat /\ Forall quiet_event es' /\ finished (run cf s es') = true /\
    forall n, (n < length es')%nat -> finished (run cf s (take n es')) = false.
Proof.
  intros Hcf Hi Hc. pose proof (rank_bound cf s) as Hb. revert Hb. generalize 20%nat.
  intros n. revert s Hc Hi. induction n as [|n IH]; intros s Hc Hi Hb;
    (destruct (finished s) eqn:Hf; [exists []; split_and!; [cbn; lia|constructor|done|cbn; lia]|]);
    destruct (quiet_progress cf s Hcf Hi Hc Hf) as (e & He & Hr & Hc'); [lia|].
  destruct (IH (step cf s e) Hc') as (es' & Hl & Hq & Hfin & Hpre);
    [by apply time_inv_step | lia |].
  exists (e :: es'). split_and!; [cbn; lia | by constructor | done |].
  intros [|m] Hm; [done|]. cbn. apply Hpre. cbn in Hm. lia.
Qed.

(** C5 A cancelled session always gets to its end on its own: from any
    reachable state whose [Cancel] has fired, at most twenty task polls and
    timer expiries finish it, with no further byte from the peer, no output
    from the child, and a child that never exits. *)
Theorem cancelled_session_completes cf r (w : W) (k : K) b es :
  config_ok cf ->
  let s := run cf (new_session (S := S) (I := I) (C := C) (R := R) r w k b) es in
  ob_cancel (s_ob s) = true ->
  exists es', (length es' <= 20)%nat /\ Forall quiet_event es' /\ finished (run cf s es') = true.
Proof.
  intros Hcf s Hc.
  assert (Hi : time_inv cf s) by (by apply time_inv_run, time_inv_new).
  destruct (cancelled_completes cf s Hcf Hi Hc) as (es' & ? & ? & ? & _). by exists es'.
Qed.
End completes.
