(* ===== verification/SessionWire.v ===== *)
(** * SessionWire: what a session puts on the wire

    The output contract of the composed session: the frames of one connection
    are output frames of the command's own streams, in order, then at most one
    EXIT or ERROR frame, and nothing after it. *)

From S2P Require Import Prelude AsyncIO Frame Duration Status Request Shell Outbound Pump.
From S2P Require Import Stdin Exec FdOps Pty Session.

(** The stages of a session's life. *)
Inductive stage :=
| Waiting        (* for the first frame *)
| SettingUp      (* a terminal *)
| Serving        (* the command or the shell runs *)
| Stopping       (* it has been told to end *)
| Draining       (* it has ended, its output is drained *)
| Answering      (* an EXIT or ERROR frame is due *)
| Leaving        (* the verb has returned, the writer finishes *)
| Over.

#[export] Instance stage_eq_dec : EqDecision stage.
Proof. solve_decision. Defined.

(** The stages in which output may be sent. *)
Definition producing (st : stage) : bool :=
  match st with Serving | Stopping | Draining => true | _ => false end.

Section defs.
Context {C W S I K : Type}.
Context `{!MpscView C, !WriteView W, !ReadView S}.
Context `{!Shlex, !Spawn S I K, !PtyStreams S I}.
Implicit Type m : main_state S I.

Definition is_output (f : Frame) : Prop :=
  (ftype f = FRAME_STDOUT \/ ftype f = FRAME_STDERR) /\ chunk_ok f.
Definition is_terminal (f : Frame) : Prop := ftype f = FRAME_EXIT \/ ftype f = FRAME_ERROR.

(** The verb has answered: nothing more may be sent. *)
Definition answered m : bool :=
  match m with
  | MExec x => match ex_phase x with ExReturned (Ok _) => true | _ => false end
  | MPty (PtyReturned _ (Ok _)) => true
  | MJoin _ | MFinished _ => true
  | _ => false
  end.

Definition stage_of m : stage :=
  match m with
  | MFirst _ => Waiting
  | MSendError _ | MReport _ => Answering
  | MExec x =>
      match ex_phase x with
      | ExRunning => Serving
      | ExReaping _ _ => Stopping
      | ExDrainOut _ _ _ | ExDrainErr _ _ _ => Draining
      | ExSendExit _ | ExReturned (Err _) => Answering
      | ExReturned (Ok _) => Leaving
      end
  | MPty (PtyOpening _) => SettingUp
  | MPty (PtyReaping _ _ _ _ _) => Stopping
  | MPty (PtyLive l) =>
      match lv_phase l with
      | LvRunning => Serving
      | LvHangup _ | LvKilled _ => Stopping
      | LvDrain _ _ _ => Draining
      | LvSendExit _ => Answering
      end
  | MPty (PtyFailing _ _) | MPty (PtyReturned _ (Err _)) => Answering
  | MPty (PtyReturned _ (Ok _)) | MJoin _ => Leaving
  | MFinished _ => Over
  end.

(** What one step of a task adds to the frames accepted so far. *)
Definition log_step m m' (log log' : list Frame) : Prop :=
  log' = log \/ exists f, log' = log ++ [f] /\
    (is_output f /\ producing (stage_of m) = true /\ stage_of m' = stage_of m \/
     is_terminal f /\ stage_of m = Answering /\ stage_of m' = Leaving).

(** No output task has been started. *)
Definition early m : bool :=
  match m with
  | MFirst _ | MSendError _ => true
  | MPty (PtyOpening _) | MPty (PtyFailing _ _) | MPty (PtyReaping _ _ _ _ _) => true
  | _ => false
  end.

Definition held (p : pump S) : nat := if pump_over p then 0 else 1.

(** The clones of [tx] that are alive. *)
Definition senders_of m : nat :=
  match m with
  | MExec x => 1 + held (ex_out x) + held (ex_err x)
  | MPty (PtyLive l) => 1 + held (lv_out l)
  | MJoin _ | MFinished _ => 0
  | _ => 1
  end%nat.

(** The pumps are over by the time the terminal frame is due. *)
Definition drained m : Prop :=
  match m with
  | MExec x =>
      match ex_phase x with
      | ExRunning | ExReaping _ _ | ExDrainOut _ _ _ => True
      | ExDrainErr _ _ _ => pump_over (ex_out x) = true
      | ExSendExit f => pump_over (ex_out x) = true /\ pump_over (ex_err x) = true /\
          ftype f = FRAME_EXIT
      | ExReturned _ => pump_over (ex_out x) = true /\ pump_over (ex_err x) = true
      end
  | MPty (PtyLive l) =>
      match lv_phase l with
      | LvSendExit f => pump_over (lv_out l) = true /\ ftype f = FRAME_EXIT
      | _ => True
      end
  | _ => True
  end.

(** The frames accepted so far: output, then at most one terminal frame. *)
Definition shape_ok (done cancelled : bool) (log : list Frame) : Prop :=
  exists body tail, log = body ++ tail /\ Forall is_output body /\ Forall is_terminal tail /\
    (length tail <= 1)%nat /\ (done = false -> tail = []) /\
    (done = true -> cancelled = false -> log = [] \/ tail <> []).

(** The two streams a session can carry, given what its client [asked]: none
    yet, those of the command of its request, those of its terminal. *)
Definition exec_source (cf : config) (asked : first_action) (out err : list byte) : Prop :=
  exists req k ch k', asked = RunExec req /\
    spawn (exec_command (cf_shell cf) (default "" (cmd req))) k = (Ok ch, k') /\
    out = incoming (sp_stdout ch) /\ err = incoming (sp_stderr ch).
Definition pty_source (asked : first_action) (out err : list byte) : Prop :=
  exists req master, asked = RunPty req /\ out = incoming (pty_reader master) /\ err = [].

Definition sources (cf : config) (asked : first_action) m (out err : list byte) : Prop :=
  match m with
  | MExec _ => exec_source cf asked out err
  | MPty (PtyLive _) => pty_source asked out err
  | _ => (out = [] /\ err = []) \/ exec_source cf asked out err \/ pty_source asked out err
  end.

(** The verb that runs is the one the client asked for. *)
Definition verb_asked (asked : first_action) m : Prop :=
  match m with
  | MExec _ => exists req, asked = RunExec req
  | MPty _ => exists req, asked = RunPty req
  | _ => True
  end.

Definition pumps_ok (out err : list byte) (gone : bool) (log : list Frame) m : Prop :=
  stream_data FRAME_STDOUT log `prefix_of` out /\ stream_data FRAME_STDERR log `prefix_of` err /\
  match m with
  | MExec x => pump_inv FRAME_STDOUT out gone log (ex_out x) /\
               pump_inv FRAME_STDERR err gone log (ex_err x)
  | MPty (PtyLive l) => pump_inv FRAME_STDOUT out gone log (lv_out l)
  | _ => True
  end.

Record chan_inv `{!Mpsc C, !AsyncWrite W} (cf : config) (asked : first_action) (log : list Frame) m
    (ob : outbound C W) : Prop := {
  ci_wire : wire_inv log ob;
  ci_senders : ob_senders ob = senders_of m;
  ci_done : receiver_gone ob = true -> ob_cancel ob = true \/ senders_of m = 0%nat;
  ci_shape : shape_ok (answered m) (ob_cancel ob) log;
  ci_early : early m = true -> log = [];
  ci_drained : drained m;
  ci_asked : verb_asked asked m;
  ci_pumps : exists out err, sources cf asked m out err /\ pumps_ok out err (receiver_gone ob) log m;
}.
End defs.

Section shape.
Lemma shape_nil b c : shape_ok b c [].
Proof. exists [], []. split_and!; [done | constructor | constructor | cbn; lia | done | by left]. Qed.

Lemma shape_output c log f :
  shape_ok false c log -> is_output f -> shape_ok false c (log ++ [f]).
Proof.
  intros (body & tail & -> & Hb & _ & _ & Ht & _) Hf. rewrite (Ht eq_refl), app_nil_r.
  exists (body ++ [f]), []. rewrite app_nil_r. split_and!; try done; [|cbn; lia].
  apply Forall_app; split; [done|by constructor].
Qed.

Lemma shape_terminal c log f :
  shape_ok false c log -> is_terminal f -> shape_ok true c (log ++ [f]).
Proof.
  intros (body & tail & -> & Hb & _ & _ & Ht & _) Hf. rewrite (Ht eq_refl), app_nil_r.
  exists body, [f]. split_and!; [done | done | by constructor | cbn; lia | done | by right].
Qed.

Lemma shape_cancelled b c log :
  shape_ok b c log -> shape_ok b true log.
Proof. intros (body & tail & ?). exists body, tail. naive_solver. Qed.

(** A session that ends without having been able to answer was cancelled. *)
Lemma shape_silent c log : shape_ok false c log -> c = true -> shape_ok true c log.
Proof. intros (body & tail & ?) ->. exists body, tail. naive_solver. Qed.
End shape.

Section transitions.
Context {C W R S I K : Type}.
Context `{MpscSpec C, AsyncWriteSpec W, !AsyncRead R, AsyncReadSpec S}.
Context `{!AsyncWrite I, !FdWrite I, !Kernel K}.
Context `{!Json, !Fmt, !Shlex, !Spawn S I K, !PtyStreams S I}.
Implicit Types (m : main_state S I) (ob : outbound C W) (x : exec_state S I) (l : live S I).

(** The session task moves and the log does not. *)
Lemma chan_inv_move cf asked log m ob m' ob' :
  chan_inv cf asked log m ob ->
  ((ob' = ob \/ ob' = fire ob) /\ senders_of m' = senders_of m) \/
    (ob' = drop_sender ob /\ senders_of m = Datatypes.S (senders_of m')) ->
  (early m' = true -> early m = true) -> drained m' -> (verb_asked asked m -> verb_asked asked m') ->
  (answered m' = answered m \/ answered m = false /\ ob_cancel ob' = true) ->
  (forall out err gone, sources cf asked m out err -> pumps_ok out err gone log m -> pumps_ok out err gone log m') ->
  (forall out err, sources cf asked m out err -> sources cf asked m' out err) ->
  chan_inv cf asked log m' ob'.
Proof.
  intros [Hw Hs Hd Hsh He Hdr Has (out & err & Hso & Hp)] Hob Hea Hdr' Has' Ha Hp' Hso'.
  assert (Hc : ob_cancel ob' = ob_cancel ob \/ ob_cancel ob' = true)
    by (destruct Hob as [[[-> | ->] _] | [-> _]]; auto).
  assert (Hg : receiver_gone ob' = receiver_gone ob) by (destruct Hob as [[[-> | ->] _] | [-> _]]; done).
  split; try done.
  - destruct Hob as [[[-> | ->] _] | [-> _]]; [done | by apply wire_inv_fire | done].
  - destruct Hob as [[[-> | ->] ->] | [-> E]]; [done..|]. cbn. lia.
  - rewrite Hg. intros Hgone. destruct Hob as [[[-> | ->] ->] | [-> E]]; [auto | by left|].
    destruct (Hd Hgone) as [|Hz]; [by left|]. lia.
  - assert (Hsh' : shape_ok (answered m) (ob_cancel ob') log).
    { destruct Hc as [-> | ->]; [done | by eapply shape_cancelled]. }
    destruct Ha as [-> | [Hm Hc']]; [done|]. rewrite Hm in Hsh'.
    destruct (answered m'); [by apply shape_silent | done].
  - auto.
  - auto.
  - exists out, err. rewrite Hg. eauto.
Qed.

(** The invariant holds again, the log having grown as it may. *)
Definition grown cf asked log m m' ob' : Prop :=
  exists log', log_step m m' log log' /\ chan_inv cf asked log' m' ob'.

Lemma stay cf asked log m m' ob' : chan_inv cf asked log m' ob' -> grown cf asked log m m' ob'.
Proof. exists log. split; [by left|done]. Qed.

Lemma terminal_not_output f : is_terminal f -> ftype f <> FRAME_STDOUT /\ ftype f <> FRAME_STDERR.
Proof. by intros [-> | ->]. Qed.

Lemma pumps_ok_terminal out err gone log m f :
  is_terminal f -> pumps_ok out err gone log m -> pumps_ok out err gone (log ++ [f]) m.
Proof.
  intros [Hf1 Hf2]%terminal_not_output (Ho & He & Hm). unfold pumps_ok.
  rewrite !stream_data_snoc_ne by done. split_and!; [done..|].
  destruct m as [| |x|[| | |l|]| | |]; try done; [|by apply pump_inv_other].
  split; apply pump_inv_other; naive_solver.
Qed.

Lemma poll_send_refused f ob ob' :
  poll_send f ob = Some (false, ob') -> receiver_gone ob = true /\ ob' = ob.
Proof.
  unfold poll_send. intros E. destruct (receiver_gone ob); [by simplify_eq|].
  by destruct (try_send _ _).
Qed.

Lemma poll_send_accepted f ob ob' :
  poll_send f ob = Some (true, ob') ->
  receiver_gone ob = false /\ receiver_gone ob' = false /\ ob_senders ob' = ob_senders ob /\
  ob_cancel ob' = ob_cancel ob.
Proof.
  unfold poll_send. destruct (receiver_gone ob) eqn:Eg; [done|]. unfold receiver_gone in *.
  destruct (try_send _ _); [|done]. by intros [= <-].
Qed.

(** The terminal frame is offered: accepted, or refused because the writer is
    gone, which means that the session was cancelled.  Then the task may drop
    its sender. *)
Lemma chan_inv_terminal cf asked log m ob f q ob' m' ob'' :
  chan_inv cf asked log m ob -> poll_send f ob = Some (q, ob') -> is_terminal f ->
  stage_of m = Answering -> stage_of m' = Leaving -> answered m = false -> answered m' = true ->
  senders_of m = 1%nat ->
  (ob'' = ob' /\ senders_of m' = 1%nat) \/ (ob'' = drop_sender ob' /\ senders_of m' = 0%nat) ->
  early m' = false -> drained m' -> (verb_asked asked m -> verb_asked asked m') ->
  (forall out err gone log, pumps_ok out err gone log m -> pumps_ok out err gone log m') ->
  (forall out err, sources cf asked m out err -> sources cf asked m' out err) ->
  grown cf asked log m m' ob''.
Proof.
  intros [Hw Hs Hd Hsh He Hdr Has (out & err & Hso & Hp)] E Hf Hst Hst' Ha Ha' Hsn Hob He' Hdr' Has' Hp' Hso'.
  assert (Hx : exists log', log_step m m' log log' /\ wire_inv log' ob' /\ ob_senders ob' = 1%nat /\
    (receiver_gone ob' = true -> ob_cancel ob' = true) /\ shape_ok true (ob_cancel ob') log' /\
    pumps_ok out err (receiver_gone ob') log' m).
  { rewrite Ha in Hsh. destruct q.
    - destruct (poll_send_accepted _ _ _ E) as (Hg & Hg' & Hs' & Hc').
      destruct (wire_inv_send _ _ _ _ _ Hw E) as [[_ Hw']|[? _]]; [|done].
      exists (log ++ [f]). rewrite Hs', Hc', Hg'. rewrite Hg in Hp.
      split_and!; [|done | congruence | done | by apply shape_terminal | by apply pumps_ok_terminal].
      right. exists f. auto.
    - destruct (poll_send_refused _ _ _ E) as [Hg ->]. exists log.
      destruct (Hd Hg) as [Hc|Hc]; [|congruence].
      split_and!; [by left | done | congruence | done | by apply shape_silent | done]. }
  destruct Hx as (log' & Hlog & Hw' & Hs' & Hd' & Hsh' & Hpm). exists log'. split; [done|].
  assert (receiver_gone ob'' = receiver_gone ob' /\ ob_cancel ob'' = ob_cancel ob') as [Eg Ec]
    by (destruct Hob as [[-> _]|[-> _]]; done).
  split; rewrite ?Eg, ?Ec, ?Ha'; try done.
  - by destruct Hob as [[-> _]|[-> _]].
  - destruct Hob as [[-> ->]|[-> ->]]; cbn; lia.
  - auto.
  - congruence.
  - auto.
  - exists out, err. auto.
Qed.

Lemma sources_any cf asked m out err res : sources cf asked m out err -> sources cf asked (MJoin res) out err.
Proof. unfold sources. repeat case_match; auto. Qed.

(** The task leaves without an answer, and drops its sender. *)
Lemma chan_inv_leave cf asked log m ob res :
  chan_inv cf asked log m ob -> senders_of m = 1%nat -> (answered m = true \/ log = []) ->
  chan_inv cf asked log (MJoin res) (drop_sender ob).
Proof.
  intros [Hw Hs Hd Hsh He Hdr Has (out & err & Hso & Ho & Her & Hp)] Hsn Ha.
  split; cbn -[sources]; try done; [lia | by right | |].
  2:{ exists out, err. split; [by eapply sources_any | by split_and!]. }
  destruct Ha as [<- | ->]; [done | apply shape_nil].
Qed.

(** *** The verbs *)

Lemma exit_step_shape raw reason x :
  pump_over (ex_out x) = true -> pump_over (ex_err x) = true ->
  drained (MExec (set_phase (exit_step raw reason) x)) /\
  answered (MExec (set_phase (exit_step raw reason) x)) = false.
Proof.
  intros Ho He. unfold exit_step. destruct (exit_fields raw reason).
  by destruct (to_vec_exit _ _).
Qed.

Lemma poll_exec_wire cf asked log now env x (r r' : R) ob x' ob' :
  chan_inv cf asked log (MExec x) ob -> poll_exec cf now env x r ob = Some (x', r', ob') ->
  grown cf asked log (MExec x) (MExec x') ob'.
Proof.
  intros Hi E. pose proof (ci_drained _ _ _ _ _ Hi) as Hdr. cbn in Hdr. unfold poll_exec in E.
  destruct (ex_phase x) as [|reason since|raw reason since|raw reason since|f|res] eqn:Ep; [..|done].
  - apply stay. eapply (chan_inv_move _ _ _ _ _ _ _ Hi); [left; split|..];
      repeat case_hyp E; simplify_eq; cbn; rewrite ?Ep; by auto.
  - apply stay. destruct (reap_bounded _ _ _) as [[raw ch]|]; [|done]. simplify_eq.
    eapply (chan_inv_move _ _ _ _ _ _ _ Hi); cbn; rewrite ?Ep; by auto.
  - apply stay. destruct (pump_over (ex_out x)) eqn:Eo.
    + simplify_eq. eapply (chan_inv_move _ _ _ _ _ _ _ Hi); cbn; rewrite ?Ep, ?Eo; by auto.
    + destruct (_ <=? now); [|done]. unfold abort_pump in E. rewrite Eo in E. simplify_eq.
      eapply (chan_inv_move _ _ _ _ _ _ _ Hi); cbn; rewrite ?Ep; try by auto.
      * right. split; [done|]. unfold held; cbn. by rewrite Eo.
      * intros out err gone _ (Ho & He & Hpo & Hpe). split_and!; [done..| |done].
        pose proof (pump_inv_abort _ _ _ _ _ ob Hpo) as Hab. unfold abort_pump in Hab. by rewrite Eo in Hab.
  - apply stay. destruct (pump_over (ex_err x)) eqn:Eo.
    + simplify_eq. destruct (exit_step_shape raw reason x Hdr Eo) as [Hd Ha].
      eapply (chan_inv_move _ _ _ _ _ _ _ Hi); [by auto | done | done | done | | done | done].
      left. rewrite Ha. cbn. by rewrite Ep.
    + destruct (_ <=? now); [|done]. unfold abort_pump in E. rewrite Eo in E. simplify_eq.
      edestruct (exit_step_shape raw reason (set_err (Pump (pm_src (ex_err x)) PumpAborted) x))
        as [Hd Ha]; [done..|].
      eapply (chan_inv_move _ _ _ _ _ _ _ Hi); [ | done | done | done | | | done].
      * right. split; [done|]. cbn. unfold held; cbn. rewrite Eo. lia.
      * left. rewrite Ha. cbn. by rewrite Ep.
      * intros out err gone _ (Ho & He & Hpo & Hpe). split_and!; [done..|].
        pose proof (pump_inv_abort _ _ _ _ _ ob Hpe) as Hab. unfold abort_pump in Hab. by rewrite Eo in Hab.
  - destruct Hdr as (Ho & He & Hf).
    destruct (poll_send f ob) as [[q ob1]|] eqn:Es; [|done]. simplify_eq.
    eapply (chan_inv_terminal _ _ _ _ _ _ _ _ _ _ Hi Es); cbn; unfold held;
      rewrite ?Ep, ?Ho, ?He; try done; [by left | by left].
Qed.

(** *** The output tasks *)

Lemma poll_pump_held ft env (p p' : pump S) ob ob' :
  poll_pump ft env p ob = Some (p', ob') ->
  pump_over p = false /\ ob_cancel ob' = ob_cancel ob /\ receiver_gone ob' = receiver_gone ob /\
  (ob_senders ob' = ob_senders ob /\ pump_over p' = false \/
   ob' = drop_sender ob /\ pump_over p' = true).
Proof.
  unfold poll_pump, pump_over. intros E. destruct (pm_state p) as [|buf| |]; try done.
  - destruct (io_ready env); [|done]. split; [done|]. repeat case_hyp E; simplify_eq; cbn; auto 10.
  - split; [done|]. destruct (poll_send _ ob) as [[[] ob1]|] eqn:Es; [..|done]; simplify_eq.
    + destruct (poll_send_accepted _ _ _ Es) as (-> & -> & Hs & Hc). auto.
    + apply poll_send_refused in Es as [_ ->]. auto.
Qed.

(** The pty's output task is [pump], but for a refused frame. *)
Lemma poll_pty_out_pump env (p p' : pump S) ob ob' :
  poll_pty_out env p ob = Some (p', ob') ->
  poll_pump FRAME_STDOUT env p ob = Some (p', ob') \/
  (pump_over p = false /\ receiver_gone ob = true /\ p' = Pump (pm_src p) PumpExited /\
   ob' = drop_sender ob).
Proof.
  unfold poll_pty_out, poll_pump, pump_over. intros E.
  destruct (pm_state p) as [|buf| |]; try done; [by left|].
  destruct (poll_send _ ob) as [[[] ob1]|] eqn:Es; [by left| |done].
  apply poll_send_refused in Es as [Hg ->]. simplify_eq. by right.
Qed.

Lemma chan_inv_pump cf asked log m ob ft env p p' ob' m' :
  chan_inv cf asked log m ob -> poll_pump ft env p ob = Some (p', ob') ->
  ft = FRAME_STDOUT \/ ft = FRAME_STDERR ->
  producing (stage_of m) = true -> stage_of m' = stage_of m -> answered m = false -> answered m' = false -> early m' = false -> drained m' ->
  (verb_asked asked m -> verb_asked asked m') ->
  (senders_of m + held p' = senders_of m' + held p)%nat -> (0 < senders_of m')%nat ->
  (forall out err, sources cf asked m out err -> sources cf asked m' out err) ->
  (forall out err gone log, pumps_ok out err gone log m ->
     exists total, total = (if decide (ft = FRAME_STDOUT) then out else err) /\
       pump_inv ft total gone log p) ->
  (forall out err gone log log', pumps_ok out err gone log m ->
     pump_inv ft (if decide (ft = FRAME_STDOUT) then out else err) gone log' p' ->
     log' = log \/ (exists f, ftype f = ft /\ log' = log ++ [f]) -> pumps_ok out err gone log' m') ->
  grown cf asked log m m' ob'.
Proof.
  intros [Hw Hs Hd Hsh He Hdr Has (out & err & Hso & Hp)] E Hft Hst Hst' Ha Ha' He' Hdr' Has' Hsn Hpos Hso' Hget Hput.
  destruct (Hget _ _ _ _ Hp) as (total & -> & Hpi).
  destruct (poll_pump_held _ _ _ _ _ _ E) as (Hov & Hc & Hg & Hs').
  assert (Hsend : ob_senders ob' = senders_of m').
  { unfold held in Hsn. rewrite Hov in Hsn. destruct Hs' as [[-> Ho]|[-> Ho]]; rewrite Ho in Hsn; cbn; lia. }
  assert (Hd' : receiver_gone ob' = true -> ob_cancel ob' = true \/ senders_of m' = 0%nat).
  { rewrite Hg, Hc. intros Hgone. destruct (Hd Hgone) as [|Hz]; [by left|].
    unfold held in Hsn. rewrite Hov in Hsn. destruct Hs' as [[_ Ho]|[_ Ho]]; rewrite Ho in Hsn; lia. }
  rewrite Ha in Hsh.
  destruct (pump_inv_poll _ _ _ _ _ _ _ _ Hpi E) as [(f & Hf & Hck & Es & Hpi')|[Hob Hpi']].
  - exists (log ++ [f]). destruct (poll_send_accepted _ _ _ Es) as (Hg1 & Hg2 & _).
    destruct (wire_inv_send _ _ _ _ _ Hw Es) as [[_ Hw']|[? _]]; [|done].
    assert (Hout : is_output f) by (split; [by rewrite Hf|done]).
    split; [right; exists f; auto|]. split; try done.
    + rewrite Ha', Hc. by apply shape_output.
    + by rewrite He'.
    + auto.
    + exists out, err. split; [by apply Hso'|]. rewrite Hg2. rewrite Hg1 in Hp. eapply Hput; eauto.
  - apply stay. split; try done.
    + by destruct Hob as [-> | ->].
    + by rewrite Ha', Hc.
    + by rewrite He'.
    + auto.
    + exists out, err. split; [by apply Hso'|]. rewrite Hg. eauto.
Qed.

Lemma poll_out_exec_wire cf asked log env x p' ob ob' :
  chan_inv cf asked log (MExec x) ob -> poll_pump FRAME_STDOUT env (ex_out x) ob = Some (p', ob') ->
  grown cf asked log (MExec x) (MExec (set_out p' x)) ob'.
Proof.
  intros Hi E. destruct (poll_pump_held _ _ _ _ _ _ E) as (Hov & _).
  pose proof (ci_drained _ _ _ _ _ Hi) as Hdr. cbn in Hdr. rewrite Hov in Hdr.
  eapply (chan_inv_pump _ _ _ _ _ FRAME_STDOUT _ _ _ _ _ Hi E); try done; cbn -[Nat.add].
  - by left.
  - destruct (ex_phase x); naive_solver.
  - destruct (ex_phase x); naive_solver.
  - destruct (ex_phase x); naive_solver.
  - destruct (ex_phase x); naive_solver.
  - lia.
  - lia.
  - intros out err gone l (_ & _ & Hpo & _). by exists out.
  - intros out err gone l l' (Ho & He & Hpo & Hpe) Hp Hl. cbn in Hp.
    assert (stream_data FRAME_STDERR l' = stream_data FRAME_STDERR l /\
            pump_inv FRAME_STDERR err gone l' (ex_err x)) as [El Hpe'].
    { destruct Hl as [-> | (f & Hf & ->)]; [done|].
      rewrite stream_data_snoc_ne by (by rewrite Hf). split; [done|].
      apply pump_inv_other; [by rewrite Hf | done]. }
    split_and!; [apply Hp | by rewrite El | done | done].
Qed.

Lemma poll_err_exec_wire cf asked log env x p' ob ob' :
  chan_inv cf asked log (MExec x) ob -> poll_pump FRAME_STDERR env (ex_err x) ob = Some (p', ob') ->
  grown cf asked log (MExec x) (MExec (set_err p' x)) ob'.
Proof.
  intros Hi E. destruct (poll_pump_held _ _ _ _ _ _ E) as (Hov & _).
  pose proof (ci_drained _ _ _ _ _ Hi) as Hdr. cbn in Hdr. rewrite Hov in Hdr.
  eapply (chan_inv_pump _ _ _ _ _ FRAME_STDERR _ _ _ _ _ Hi E); try done; cbn -[Nat.add].
  - by right.
  - destruct (ex_phase x); naive_solver.
  - destruct (ex_phase x); naive_solver.
  - destruct (ex_phase x); naive_solver.
  - destruct (ex_phase x); naive_solver.
  - lia.
  - lia.
  - intros out err gone l (_ & _ & _ & Hpe). by exists err.
  - intros out err gone l l' (Ho & He & Hpo & Hpe) Hp Hl. cbn in Hp.
    assert (stream_data FRAME_STDOUT l' = stream_data FRAME_STDOUT l /\
            pump_inv FRAME_STDOUT out gone l' (ex_out x)) as [El Hpo'].
    { destruct Hl as [-> | (f & Hf & ->)]; [done|].
      rewrite stream_data_snoc_ne by (by rewrite Hf). split; [done|].
      apply pump_inv_other; [by rewrite Hf | done]. }
    split_and!; [by rewrite El | apply Hp | done | done].
Qed.

Lemma poll_out_pty_wire cf asked log env l p' ob ob' :
  chan_inv cf asked log (MPty (PtyLive l)) ob -> poll_pty_out env (lv_out l) ob = Some (p', ob') ->
  grown cf asked log (MPty (PtyLive l)) (MPty (PtyLive (lv_set_out p' l))) ob'.
Proof.
  intros Hi E. pose proof (ci_drained _ _ _ _ _ Hi) as Hdr. cbn in Hdr.
  apply poll_pty_out_pump in E as [E|(Hov & Hg & -> & ->)].
  - destruct (poll_pump_held _ _ _ _ _ _ E) as (Hov & _). rewrite Hov in Hdr.
    eapply (chan_inv_pump _ _ _ _ _ FRAME_STDOUT _ _ _ _ _ Hi E); try done; cbn -[Nat.add].
    + by left.
    + destruct (lv_phase l); naive_solver.
    + destruct (lv_phase l); naive_solver.
    + lia.
    + lia.
    + intros out err gone lg (_ & _ & Hpo). by exists out.
    + intros out err gone lg lg' (Ho & He & Hpo) Hp Hl. cbn in Hp.
      assert (stream_data FRAME_STDERR lg' = stream_data FRAME_STDERR lg) as El.
      { destruct Hl as [-> | (f & Hf & ->)]; [done|]. apply stream_data_snoc_ne. by rewrite Hf. }
      split_and!; [apply Hp | by rewrite El | done].
  - rewrite Hov in Hdr. destruct Hi as [Hw Hs Hd Hsh He _ Has (out & err & Hso & Ho & Her & Hp)].
    assert (Hh : held (lv_out l) = 1%nat) by (unfold held; by rewrite Hov).
    cbn in Hs, Hd. rewrite Hh in *. apply stay. split; cbn; try done.
    + lia.
    + intros _. destruct (Hd Hg) as [|]; [by left|lia].
    + destruct (lv_phase l); naive_solver.
    + exists out, err. split; [done|]. split_and!; [done..|]. change (receiver_gone (drop_sender ob)) with (receiver_gone ob). rewrite Hg in *. cbn.
      destruct Hp as (Hp1 & Hp2 & Hp3 & _). by split_and!.
Qed.

(** *** Starting the output tasks *)

Lemma pump_fresh ft (src : S) gone : pump_inv ft (incoming src) gone [] (Pump src PumpReading).
Proof. destruct gone; [eapply pump_inv_gone|]; apply pump_inv_start. Qed.

Lemma chan_inv_open cf asked log m ob m' ob' :
  chan_inv cf asked log m ob -> early m = true -> answered m' = false -> early m' = false -> drained m' -> verb_asked asked m' ->
  (ob' = clone_sender ob /\ senders_of m' = 2%nat \/
   ob' = clone_sender (clone_sender ob) /\ senders_of m' = 3%nat) ->
  (forall gone, exists out err, sources cf asked m' out err /\ pumps_ok out err gone [] m') ->
  chan_inv cf asked log m' ob'.
Proof.
  intros [Hw Hs Hd Hsh He Hdr Has _] Hea Ha He' Hdr' Has' Hob Hp. specialize (He Hea) as ->.
  assert (senders_of m = 1%nat) as Hsm.
  { by destruct m as [| |x|[| | |l|]| | |]. }
  assert (answered m = false) as Ham by (by destruct m as [| |x|[| | |l|]| | |]).
  split; try done.
  - by destruct Hob as [[-> _]|[-> _]].
  - destruct Hob as [[-> ->]|[-> ->]]; cbn; lia.
  - intros Hg. left. destruct Hob as [[-> _]|[-> _]]; cbn; (destruct (Hd Hg); [done|lia]).
  - rewrite Ha. apply shape_nil.
Qed.

Lemma pty_setup_wire cf asked log now req ma sl p' ob ob' (k k' : K) :
  chan_inv cf asked log (MPty (PtyOpening req)) ob -> pty_setup cf now req ma sl ob k = (p', ob', k') ->
  chan_inv cf asked log (MPty p') ob'.
Proof.
  intros Hi. assert (Hfail : forall msg owned, chan_inv cf asked log (MPty (PtyFailing msg owned)) ob).
  { intros msg owned. eapply (chan_inv_move _ _ _ _ _ _ _ Hi); by auto. }
  assert (Hreap : forall msg mo ch ks since, chan_inv cf asked log (MPty (PtyReaping msg mo ch ks since)) ob).
  { intros. eapply (chan_inv_move _ _ _ _ _ _ _ Hi); by auto. }
  unfold pty_setup, pty_started.
  destruct (set_cloexec _ _) as [[u|e] k1]; [|by intros [= <- <- _]].
  destruct (dup3 sl k1) as [rs k2]. case_match; [by intros [= <- <- _]|].
  destruct (sys_spawn _ _ k2) as [[pid|e] k3]; [|by intros [= <- <- _]].
  destruct (set_nonblocking _ _) as [[u1|e] k4]; [|by intros [= <- <- _]].
  destruct (sys_async_fd _ _) as [[u2|e] k5]; [|by intros [= <- <- _]]. intros [= <- <- _].
  destruct (ci_asked _ _ _ _ _ Hi) as (req' & Hreq).
  eapply (chan_inv_open _ _ _ _ _ _ _ Hi); try done; [by exists req'|by left|].
  intros gone. exists (incoming (pty_reader ma)), []. split; [by exists req', ma|].
  split_and!; [apply prefix_nil..|]. apply pump_fresh.
Qed.

Lemma pty_finish_wire cf asked log raw reason l ob p ob' (k k' : K) since :
  chan_inv cf asked log (MPty (PtyLive l)) ob -> lv_phase l = LvDrain raw reason since ->
  pump_over (lv_out l) = true -> pty_finish raw reason l ob k = (p, ob', k') ->
  chan_inv cf asked log (MPty p) ob'.
Proof.
  intros Hi Hp Ho. unfold pty_finish, pty_exit_step. destruct (exit_fields raw reason) as [code rsn].
  destruct (to_vec_exit code rsn) as [v|e]; intros [= <- <- _];
    eapply (chan_inv_move _ _ _ _ _ _ _ Hi); cbn; unfold held; rewrite ?Ho; try by auto.
  by intros out err gone _ (? & ? & ?).
Qed.

Lemma pty_abort_wire cf asked log l ob out' ob1 :
  chan_inv cf asked log (MPty (PtyLive l)) ob -> (forall f, lv_phase l <> LvSendExit f) ->
  abort_pump (lv_out l) ob = (out', ob1) ->
  chan_inv cf asked log (MPty (PtyLive (lv_set_out out' l))) ob1 /\ pump_over out' = true.
Proof.
  intros Hi Hp E. assert (Hab : forall total gone lg, pump_inv FRAME_STDOUT total gone lg (lv_out l) ->
    pump_inv FRAME_STDOUT total gone lg out').
  { intros total gone lg Hl. pose proof (pump_inv_abort _ _ _ _ _ ob Hl) as Hl'. by rewrite E in Hl'. }
  unfold abort_pump in E. destruct (pump_over (lv_out l)) eqn:Eo; simplify_eq; (split; [|done]).
  - by destruct l.
  - eapply (chan_inv_move _ _ _ _ _ _ _ Hi); cbn; unfold held; rewrite ?Eo; try by auto.
    + by destruct (lv_phase l); try destruct (Hp _ eq_refl).
    + intros out err gone _ (Ho & He & Hpo). split_and!; [done..|]. by apply Hab.
Qed.

Lemma poll_live_wire cf asked log now env first l (r r' : R) ob p ob' (k k' : K) :
  chan_inv cf asked log (MPty (PtyLive l)) ob ->
  poll_live cf now env first l r ob k = Some (p, r', ob', k') ->
  grown cf asked log (MPty (PtyLive l)) (MPty p) ob'.
Proof.
  intros Hi E. pose proof (ci_drained _ _ _ _ _ Hi) as Hdr. cbn in Hdr. unfold poll_live in E.
  destruct (lv_phase l) as [|since|since|raw reason since|f] eqn:Ep.
  - apply stay. destruct (poll_select _ _ _ _ _ _ _ _) as [[[[l1 r1] ob1] k1]|] eqn:Es; [|done].
    simplify_eq. unfold poll_select, arm_input, arm_child, arm_cancel in Es.
    assert (Hx : lv_out l1 = lv_out l /\ (forall f, lv_phase l1 <> LvSendExit f) /\ (ob' = ob \/ ob' = fire ob)).
    { destruct (poll_input _ _ _ _ _ _ _) as [[[[[st i] r2] k2] fired]|], (lv_child l),
        (ob_cancel ob), first as [|[|]]; try destruct fired; try destruct st; cbn in Es;
        simplify_eq; cbn; rewrite ?Ep; by auto. }
    destruct Hx as (Hlo & Hlp & Hob).
    eapply (chan_inv_move _ _ _ _ _ _ _ Hi); cbn; rewrite ?Hlo; try by auto.
    + by destruct (lv_phase l1); try destruct (Hlp _ eq_refl).
    + intros out err gone _ (Ho & He & Hpo). split_and!; [done..|]. by rewrite Hlo.
  - apply stay. repeat case_hyp E; simplify_eq;
      eapply (chan_inv_move _ _ _ _ _ _ _ Hi); cbn; rewrite ?Ep; by auto.
  - apply stay. destruct (reap_bounded _ _ _) as [[raw ch]|]; [|done]. simplify_eq.
    eapply (chan_inv_move _ _ _ _ _ _ _ Hi); cbn; rewrite ?Ep; by auto.
  - apply stay. destruct (pump_over (lv_out l)) eqn:Eo.
    + destruct (pty_finish _ _ _ _ _) as [[p1 ob1] k1] eqn:Ef. simplify_eq. by eapply pty_finish_wire.
    + destruct (_ <=? now); [|done]. destruct (abort_pump (lv_out l) ob) as [out ob0] eqn:Ea.
      destruct (pty_finish _ _ _ _ _) as [[p1 ob1] k1] eqn:Ef. simplify_eq.
      destruct (pty_abort_wire _ _ _ _ _ _ _ Hi (fun f => ltac:(by rewrite Ep)) Ea) as [Hi' Ho].
      by eapply pty_finish_wire.
  - destruct Hdr as (Ho & Hf). destruct (poll_send f ob) as [[q ob1]|] eqn:Es; [|done]. simplify_eq.
    eapply (chan_inv_terminal _ _ _ _ _ _ _ _ _ _ Hi Es); cbn; unfold held;
      rewrite ?Ep, ?Ho; try done; [by left | by left | | by auto].
    by intros out err gone lg (? & ? & ?).
Qed.

Lemma poll_pty_wire cf asked log now env first (p p' : pty_state S I) (r r' : R) ob ob' (k k' : K) :
  chan_inv cf asked log (MPty p) ob ->
  poll_pty cf now env first p r ob k = Some (p', r', ob', k') ->
  grown cf asked log (MPty p) (MPty p') ob'.
Proof.
  intros Hi. destruct p as [req|msg owned|msg m ch ks since|l|ks res]; cbn; [| | | |done].
  - destruct (io_ready env); [|done].
    destruct (sys_openpty k) as [[[m s]|[e|e]] k1];
      [|intros [= <- _ <- _]; apply stay; eapply (chan_inv_move _ _ _ _ _ _ _ Hi); by auto..].
    destruct (pty_setup _ _ _ _ _ _ _) as [[p1 ob1] k2] eqn:E. intros [= <- <- <- <-].
    apply stay. by eapply pty_setup_wire.
  - destruct (poll_send _ ob) as [[q ob1]|] eqn:Es; [|done]. intros [= <- _ <- _].
    eapply (chan_inv_terminal _ _ _ _ _ _ _ _ _ _ Hi Es); try done; [by right | by left].
  - destruct (reap_bounded _ _ _) as [[raw ch']|]; [|done]. intros [= <- _ <- _].
    apply stay. eapply (chan_inv_move _ _ _ _ _ _ _ Hi); by auto.
  - by eapply poll_live_wire.
Qed.

(** *** The session task *)

Implicit Type s : session C W R S I K.

(** What the client [asked] is what its first frame will say, or has said. *)
Definition first_asked (cf : config) (asked : first_action) s : Prop :=
  match s_main s with
  | MFirst _ => dispatch (read_frame (cf_inbound_cap cf) (s_reader s)).1 = asked
  | _ => True
  end.

Definition serves (cf : config) (asked : first_action) s : Prop :=
  first_asked cf asked s /\ exists log, chan_inv cf asked log (s_main s) (s_ob s).
Definition session_inv (cf : config) s : Prop := exists asked, serves cf asked s.

Lemma serves_new cf r (w : W) (k : K) b :
  written w = [] ->
  serves cf (dispatch (read_frame (cf_inbound_cap cf) r).1)
    (new_session (S := S) (I := I) (C := C) (R := R) r w k b).
Proof.
  intros Hw. split; [done|]. exists []. split; try done.
  - by apply wire_inv_new.
  - apply shape_nil.
  - exists [], []. split; [by left|]. split_and!; [apply prefix_nil..|done].
Qed.

Lemma session_inv_new cf r (w : W) (k : K) b :
  written w = [] -> session_inv cf (new_session (S := S) (I := I) (C := C) (R := R) r w k b).
Proof. intros Hw. eexists. by apply serves_new. Qed.

(** [drive] returns: with an answer given, or with nothing ever sent, or with
    an error still to be reported. *)
Lemma drive_returned_wire cf asked log s res :
  chan_inv cf asked log (s_main s) (s_ob s) -> senders_of (s_main s) = 1%nat ->
  match res with
  | Ok _ => answered (s_main s) = true \/ log = []
  | Err _ => answered (s_main s) = false
  end ->
  chan_inv cf asked log (s_main (drive_returned res s)) (s_ob (drive_returned res s)).
Proof.
  intros Hi Hs Ha. destruct res as [u|e]; cbn.
  - by eapply chan_inv_leave.
  - eapply (chan_inv_move _ _ _ _ _ _ _ Hi); [by auto | done | done | done | by auto | |].
    + by intros out err gone _ (? & ? & _).
    + exact (fun out err => sources_any cf asked _ out err (Ok tt)).
Qed.

Lemma start_exec_wire cf asked log req s since :
  chan_inv cf asked log (s_main s) (s_ob s) -> s_main s = MFirst since -> asked = RunExec req ->
  chan_inv cf asked log (s_main (start_exec cf req s)) (s_ob (start_exec cf req s)).
Proof.
  intros Hi Hm Hreq. pose proof (ci_early _ _ _ _ _ Hi) as He. rewrite Hm in He. specialize (He eq_refl) as ->.
  unfold start_exec, exec_begin. destruct (warn_long_command _ _) as [b line]. cbn.
  destruct (effective_deadline _ _) as [dl|d].
  - destruct (spawn _ _) as [[ch|e] k1] eqn:Es.
    + cbn. eapply (chan_inv_open _ _ _ _ _ _ _ Hi); try done; [by rewrite Hm|by exists req|by right|].
      intros gone. exists (incoming (sp_stdout ch)), (incoming (sp_stderr ch)).
      split; [by exists req, (s_kernel s), ch, k1|].
      split_and!; [apply prefix_nil..| |]; apply pump_fresh.
    + cbn. eapply (chan_inv_move _ _ _ _ _ _ _ Hi); rewrite ?Hm; by auto.
  - cbn. eapply (chan_inv_move _ _ _ _ _ _ _ Hi); rewrite ?Hm; by auto.
Qed.

Lemma poll_main_wire cf asked log env first s s' :
  first_asked cf asked s -> chan_inv cf asked log (s_main s) (s_ob s) -> poll_main cf env first s = Some s' ->
  grown cf asked log (s_main s) (s_main s') (s_ob s').
Proof.
  unfold first_asked, poll_main. intros Hfa Hi.
  destruct (s_main s) as [since|msg|x|p|e|res|res] eqn:Em; [| | | | | |done].
  - pose proof (ci_early _ _ _ _ _ Hi eq_refl) as ->.
    assert (Hleave : forall s1 res, s_main s1 = MFirst since -> s_ob s1 = s_ob s ->
      grown cf asked [] (MFirst since) (s_main (drive_returned res s1)) (s_ob (drive_returned res s1))).
    { intros s1 res E1 E2. apply stay. eapply (drive_returned_wire _ _ []); rewrite E1, ?E2; [done..|].
      destruct res; [by right|done]. }
    destruct (io_ready env).
    + destruct (read_frame _ _) as [res r']. cbn in Hfa. intros [= <-]. unfold first_frame.
      destruct (dispatch res) as [req|req|msg| |e]; subst asked; [| | |by apply Hleave..].
      * apply stay. eapply (start_exec_wire _ _ []); done.
      * apply stay. cbn. eapply (chan_inv_move _ _ _ _ _ _ _ Hi); try by auto. intros _. by exists req.
      * apply stay. cbn. eapply (chan_inv_move _ _ _ _ _ _ _ Hi); by auto.
    + case_match; [|done]. intros [= <-]. by apply (Hleave s (Ok tt)).
  - destruct (poll_send _ _) as [[q ob']|] eqn:Es; [|done]. intros [= <-].
    eapply (chan_inv_terminal _ _ _ _ _ _ _ _ (MJoin (Ok tt)) (drop_sender ob') Hi Es); try done; by right.
  - assert (Hret : forall res, ex_phase x = ExReturned res ->
      grown cf asked log (MExec x) (s_main (drive_returned res s)) (s_ob (drive_returned res s))).
    { intros res Hx. apply stay. pose proof (ci_drained _ _ _ _ _ Hi) as Hd. cbn in Hd. rewrite Hx in Hd.
      destruct Hd as [Ho He]. eapply (drive_returned_wire _ _ log); rewrite Em; cbn; unfold held;
        rewrite ?Ho, ?He, ?Hx; [done..|]. destruct res; by auto. }
    destruct (ex_phase x) eqn:Ep; [..|intros [= <-]; by apply Hret]; clear Hret;
      (destruct (poll_exec _ _ _ _ _ _) as [[[x' r'] ob']|] eqn:E; [|done]);
      intros [= <-]; by eapply poll_exec_wire.
  - destruct p as [req|msg owned|msg m ch ks since|l|ks res];
      [..|intros [= <-]; apply stay; eapply (drive_returned_wire _ _ log); rewrite Em; cbn;
          [done|done|destruct res; by auto]];
      (destruct (poll_pty _ _ _ _ _ _ _ _) as [[[[p' r'] ob'] k']|] eqn:E; [|done]);
      intros [= <-]; by eapply poll_pty_wire.
  - destruct (poll_send _ _) as [[q ob']|] eqn:Es; [|done]. intros [= <-].
    eapply (chan_inv_terminal _ _ _ _ _ _ _ _ (MJoin (Err e)) (drop_sender ob') Hi Es); try done; by right.
  - case_match; [|done]. intros [= <-]. apply stay.
    eapply (chan_inv_move _ _ _ _ _ _ _ Hi); by auto.
Qed.

Lemma poll_writer_wire cf asked log env s s' :
  chan_inv cf asked log (s_main s) (s_ob s) -> poll_writer_task cf env s = Some s' ->
  chan_inv cf asked log (s_main s') (s_ob s').
Proof.
  intros [Hw Hs Hd Hsh He Hdr Has (out & err & Hso & Hp)]. unfold poll_writer_task.
  destruct (poll_writer _ _ _ _) as [ob'|] eqn:E; [|done]. intros [= <-]. cbn.
  pose proof (wire_inv_poll_writer _ _ _ _ _ _ Hw E) as Hw'.
  assert (Hx : ob_senders ob' = ob_senders (s_ob s) /\
    (ob_cancel ob' = ob_cancel (s_ob s) \/ ob_cancel ob' = true) /\ receiver_gone (s_ob s) = false /\
    (receiver_gone ob' = true -> ob_cancel ob' = true \/ ob_senders (s_ob s) = 0%nat)).
  { clear Hw Hw'. unfold poll_writer, receiver_gone in *.
    destruct (ob_writer (s_ob s)) eqn:Ew; [..|done]; repeat case_hyp E; simplify_eq; cbn;
      split_and!; try done; auto; try (left; congruence). 
    right. by apply Nat.eqb_eq. }
  destruct Hx as (Hs' & Hc & Hg & Hd'). split; try done.
  - by rewrite Hs'.
  - intros Hgone. rewrite <- Hs. by apply Hd'.
  - destruct Hc as [-> | ->]; [done|]. by eapply shape_cancelled.
  - exists out, err. split; [done|]. rewrite Hg in Hp. destruct (receiver_gone ob'); [|done].
    destruct Hp as (Ho & Hr & Hm). split_and!; [done..|].
    destruct (s_main s) as [| |x|[| | |l|]| | |]; try done; [|by eapply pump_inv_gone].
    split; eapply pump_inv_gone; apply Hm.
Qed.

(** One event, and what it adds to the log. *)
Lemma session_grown cf asked log s e :
  first_asked cf asked s -> chan_inv cf asked log (s_main s) (s_ob s) ->
  grown cf asked log (s_main s) (s_main (step cf s e)) (s_ob (step cf s e)).
Proof.
  intros Hfa Hi. unfold step. destruct (try_event cf e s) as [s'|] eqn:E; [|by apply stay].
  destruct e as [env first|env|env|env|st|d]; cbn in E.
  - by eapply poll_main_wire.
  - apply stay. by eapply poll_writer_wire.
  - unfold poll_out_task in E.
    destruct (s_main s) as [| |x|[| | |l|]| | |]; try done.
    + destruct (poll_pump _ _ _ _) as [[p' ob']|] eqn:Ep; [|done]. simplify_eq.
      by eapply poll_out_exec_wire.
    + destruct (poll_pty_out _ _ _) as [[p' ob']|] eqn:Ep; [|done]. simplify_eq.
      by eapply poll_out_pty_wire.
  - unfold poll_err_task in E.
    destruct (s_main s) as [| |x|[| | |l|]| | |]; try done.
    destruct (poll_pump _ _ _ _) as [[p' ob']|] eqn:Ep; [|done]. simplify_eq.
    by eapply poll_err_exec_wire.
  - simplify_eq. apply stay. unfold child_exit; cbn.
    pose proof (ci_drained _ _ _ _ _ Hi) as Hdr.
    eapply (chan_inv_move _ _ _ _ _ _ _ Hi); [left; split; [by left|]|..]; revert Hdr; clear;
      destruct (s_main s) as [| |x|[| | |l|]| | |]; first [done | by left | by auto].
  - unfold tick in E. case_match; [|done]. simplify_eq. by apply stay.
Qed.

(** Only the session task reads, and it reads its first frame once. *)
Lemma first_asked_step cf asked s e : first_asked cf asked s -> first_asked cf asked (step cf s e).
Proof.
  intros Hfa. unfold step. destruct (try_event cf e s) as [s'|] eqn:E; [|done].
  assert (Hx : match s_main s' with MFirst _ => s_main s = s_main s' /\ s_reader s' = s_reader s | _ => True end).
  { destruct e as [env first|env|env|env|st|d]; cbn in E.
    - unfold poll_main, first_frame, start_exec, exec_begin, drive_returned in E.
      destruct (s_main s); [..|done]; repeat case_hyp E; by simplify_eq.
    - unfold poll_writer_task in E. case_hyp E; simplify_eq; cbn. by destruct (s_main s).
    - unfold poll_out_task in E. repeat case_hyp E; by simplify_eq.
    - unfold poll_err_task in E. repeat case_hyp E; by simplify_eq.
    - simplify_eq; cbn. by destruct (s_main s).
    - unfold tick in E. case_hyp E; simplify_eq; cbn. by destruct (s_main s). }
  unfold first_asked in *. destruct (s_main s'); try done. destruct Hx as [Em ->]. by rewrite Em in Hfa.
Qed.

Lemma serves_step cf asked s e : serves cf asked s -> serves cf asked (step cf s e).
Proof.
  intros (Hfa & log & Hi). split; [by apply first_asked_step|].
  destruct (session_grown cf asked log s e Hfa Hi) as (log' & _ & Hi'). by exists log'.
Qed.

Lemma serves_run cf asked s es : serves cf asked s -> serves cf asked (run cf s es).
Proof.
  unfold run. revert s. induction es as [|e es IH]; intros s Hi; [done|]. cbn.
  by apply IH, serves_step.
Qed.

Lemma session_inv_step cf s e : session_inv cf s -> session_inv cf (step cf s e).
Proof. intros (asked & Hi). exists asked. by apply serves_step. Qed.

Lemma session_inv_run cf s es : session_inv cf s -> session_inv cf (run cf s es).
Proof. intros (asked & Hi). exists asked. by apply serves_run. Qed.
End transitions.

(** ** Properties *)

Section properties.
Context {C W R S I K : Type}.
Context `{MpscSpec C, AsyncWriteSpec W, !AsyncRead R, AsyncReadSpec S}.
Context `{!AsyncWrite I, !FdWrite I, !Kernel K}.
Context `{!Json, !Fmt, !Shlex, !Spawn S I K, !PtyStreams S I}.

(** The bytes on their way to the peer: on the wire, in the writer's hands,
    in the channel. *)
Definition outgoing (ob : outbound C W) : list byte :=
  match ob_writer ob with
  | WRecv => written (ob_sink ob) ++ encode_frames (queued (ob_chan ob))
  | WWriting f _ => written (ob_sink ob) ++ encode_frames (f :: queued (ob_chan ob))
  | WDone => written (ob_sink ob)
  end.

Lemma wire_inv_outgoing log (ob : outbound C W) :
  wire_inv log ob -> receiver_gone ob = false -> outgoing ob = encode_frames log.
Proof.
  unfold outgoing, receiver_gone. intros (_ & _ & Hw) Hg.
  destruct (ob_writer ob); [..|done]; destruct Hw as (fs & -> & ->); by rewrite encode_frames_app.
Qed.

(** What the invariant means for the bytes on the wire. *)
Definition reply_ok (cf : config) (asked : first_action) (s : session C W R S I K) : Prop :=
  exists body tail out err,
    written (ob_sink (s_ob s)) `prefix_of` encode_frames (body ++ tail) /\
    Forall is_output body /\ Forall is_terminal tail /\ (length tail <= 1)%nat /\
    ((out = [] /\ err = []) \/ exec_source cf asked out err \/ pty_source asked out err) /\
    stream_data FRAME_STDOUT body `prefix_of` out /\ stream_data FRAME_STDERR body `prefix_of` err /\
    (answered (s_main s) = true -> receiver_gone (s_ob s) = true -> ob_cancel (s_ob s) = false ->
     written (ob_sink (s_ob s)) = encode_frames (body ++ tail) /\ (body = [] \/ tail <> [])).

Lemma serves_reply cf asked (s : session C W R S I K) : serves cf asked s -> reply_ok cf asked s.
Proof.
  intros (_ & log & [Hwire Hs Hd Hsh He Hdr _ (out & err & Hso & Ho & Her & _)]).
  destruct Hsh as (body & tail & -> & Hb & Ht & Hl & _ & Hdone).
  assert (Hst : forall ft, ft = FRAME_STDOUT \/ ft = FRAME_STDERR ->
    stream_data ft (body ++ tail) = stream_data ft body).
  { intros ft Hft. destruct tail as [|t [|? ?]]; [by rewrite app_nil_r| |cbn in Hl; lia].
    apply Forall_cons in Ht as [[E|E] _]; apply stream_data_snoc_ne; rewrite E;
      by destruct Hft as [-> | ->]. }
  rewrite !Hst in * by auto. destruct Hwire as (_ & _ & Hwire).
  exists body, tail, out, err. split_and!; try done.
  - destruct (ob_writer (s_ob s)); [destruct Hwire as (fs & -> & ->)..|by destruct Hwire];
      rewrite encode_frames_app; apply prefix_app_split.
  - exact (sources_any _ _ _ _ _ (Ok tt) Hso).
  - intros Ha Hg Hc. unfold receiver_gone in Hg.
    destruct (ob_writer (s_ob s)); [done..|]. destruct Hwire as [_ Hwire]. split; [by apply Hwire|].
    destruct (Hdone Ha Hc) as [[-> _]%app_eq_nil|]; auto.
Qed.

(** A session is over only once its writer is. *)
Lemma finished_gone_step cf (s : session C W R S I K) e :
  (finished s = true -> receiver_gone (s_ob s) = true) ->
  finished (step cf s e) = true -> receiver_gone (s_ob (step cf s e)) = true.
Proof.
  intros Hs. unfold step. destruct (try_event cf e s) as [s'|] eqn:E; [|done].
  unfold finished in *. destruct e as [env first|env|env|env|st|d]; cbn in E.
  - unfold poll_main in E. destruct (s_main s) as [since|msg|x|p|e|res|res] eqn:Em; [| | | | | |done].
    + unfold first_frame, start_exec, exec_begin, drive_returned in E.
      repeat case_hyp E; by simplify_eq.
    + repeat case_hyp E; by simplify_eq.
    + destruct (ex_phase x) as [| | | | |[]]; repeat case_hyp E; by simplify_eq.
    + destruct p as [| | | |ks []]; repeat case_hyp E; by simplify_eq.
    + repeat case_hyp E; by simplify_eq.
    + destruct (receiver_gone (s_ob s)) eqn:Eg; by simplify_eq.
  - unfold poll_writer_task in E. destruct (poll_writer _ _ _ _) as [ob'|] eqn:Ew; [|done].
    simplify_eq; cbn. intros Hf. specialize (Hs Hf). unfold poll_writer, receiver_gone in *.
    by destruct (ob_writer (s_ob s)).
  - unfold poll_out_task in E. destruct (s_main s) as [| |x|[| | |l|]| | |]; repeat case_hyp E; by simplify_eq.
  - unfold poll_err_task in E. destruct (s_main s) as [| |x|[| | |l|]| | |]; repeat case_hyp E; by simplify_eq.
  - simplify_eq; cbn. by destruct (s_main s).
  - unfold tick in E. case_match; [|done]. by simplify_eq.
Qed.

Lemma finished_gone cf r (w : W) (k : K) b es :
  let s := run cf (new_session (S := S) (I := I) (C := C) (R := R) r w k b) es in
  finished s = true -> receiver_gone (s_ob s) = true.
Proof.
  intros s. subst s. assert (H0' : finished (new_session (S := S) (I := I) (C := C) (R := R) r w k b) = true ->
    receiver_gone (s_ob (new_session (S := S) (I := I) (C := C) (R := R) r w k b)) = true) by done.
  revert H0'. generalize (new_session (S := S) (I := I) (C := C) (R := R) r w k b). unfold run.
  induction es as [|e es IH]; intros s Hs; [done|]. cbn. by apply IH, finished_gone_step.
Qed.

(** C1 The reply of a session, along every execution: what is on the wire is
    always a prefix of the encoding of a sequence of frames that starts with
    non-empty STDOUT and STDERR frames of at most 32 KiB, whose payloads are
    prefixes of what the command of the client's own request (or its terminal)
    wrote to each stream, and that ends with at most one EXIT or ERROR frame, after which
    nothing is ever sent; and a session that has finished without being
    cancelled has written the whole of it, with its EXIT or ERROR frame unless
    it had nothing at all to answer. *)
Theorem session_reply_contract cf r (w : W) (k : K) b es :
  written w = [] ->
  let s := run cf (new_session (S := S) (I := I) (C := C) (R := R) r w k b) es in
  let asked := dispatch (read_frame (cf_inbound_cap cf) r).1 in
  exists body tail out err,
    written (ob_sink (s_ob s)) `prefix_of` encode_frames (body ++ tail) /\
    Forall is_output body /\ Forall is_terminal tail /\ (length tail <= 1)%nat /\
    ((out = [] /\ err = []) \/ exec_source cf asked out err \/ pty_source asked out err) /\
    stream_data FRAME_STDOUT body `prefix_of` out /\ stream_data FRAME_STDERR body `prefix_of` err /\
    (finished s = true -> ob_cancel (s_ob s) = false ->
     written (ob_sink (s_ob s)) = encode_frames (body ++ tail) /\ (body = [] \/ tail <> [])).
Proof.
  intros Hw s asked. assert (Hi : serves cf asked s) by (by apply serves_run, serves_new).
  pose proof (finished_gone cf r w k b es : finished s = true -> receiver_gone (s_ob s) = true) as Hfin.
  apply serves_reply in Hi as (body & tail & out & err & ? & ? & ? & ? & ? & ? & ? & Hdone).
  exists body, tail, out, err. split_and!; try done. intros Hf. apply Hdone; [|by apply Hfin].
  unfold finished in Hf. by destruct (s_main s).
Qed.

(** C13 No output is lost: when a command's EXIT frame is due, uncancelled and
    with both pumps drained (neither was cut short by the drain's grace),
    everything the requested command wrote to its stdout and stderr has been accepted
    for the peer, in order, and is on the wire or on its way; and sending the
    EXIT frame puts it behind all of it. *)
Theorem exec_output_complete cf r (w : W) (k : K) b es x f :
  written w = [] ->
  let s := run cf (new_session (S := S) (I := I) (C := C) (R := R) r w k b) es in
  s_main s = MExec x -> ex_phase x = ExSendExit f ->
  pm_state (ex_out x) = PumpExited -> pm_state (ex_err x) = PumpExited ->
  ob_cancel (s_ob s) = false ->
  exists req k0 ch k1 fs,
    dispatch (read_frame (cf_inbound_cap cf) r).1 = RunExec req /\
    spawn (exec_command (cf_shell cf) (default "" (cmd req))) k0 = (Ok ch, k1) /\
    outgoing (s_ob s) = encode_frames fs /\ Forall is_output fs /\
    stream_data FRAME_STDOUT fs = incoming (sp_stdout ch) /\
    stream_data FRAME_STDERR fs = incoming (sp_stderr ch) /\
    (forall ob' : outbound C W, poll_send f (s_ob s) = Some (true, ob') -> outgoing ob' = encode_frames (fs ++ [f])).
Proof.
  intros Hw s Hm Hp Eo Ee Hc.
  assert (Hi : serves cf (dispatch (read_frame (cf_inbound_cap cf) r).1) s) by (by apply serves_run, serves_new).
  clearbody s. destruct Hi as (_ & log & [Hwire Hs Hd Hsh He Hdr _ (out & err & Hso & Hpumps)]).
  rewrite Hm in *. destruct Hso as (req & k0 & ch & k1 & Hreq & Esp & -> & ->). destruct Hpumps as (_ & _ & Hpo & Hpe).
  destruct (receiver_gone (s_ob s)) eqn:Hg; [destruct (Hd eq_refl) as [?|?]; [congruence|done]|].
  destruct Hpo as (_ & _ & _ & _ & Hpo), Hpe as (_ & _ & _ & _ & Hpe).
  assert (Ha : answered (MExec x) = false) by (cbn; by rewrite Hp). rewrite Ha in Hsh.
  destruct Hsh as (body & tail & -> & Hb & _ & _ & Ht & _). specialize (Ht eq_refl) as ->.
  rewrite app_nil_r in *. exists req, k0, ch, k1, body.
  split_and!; [done | done | by apply wire_inv_outgoing | done | auto | auto |].
  intros ob' E. destruct (wire_inv_send _ _ _ _ _ Hwire E) as [[_ Hw']|[? _]]; [|done].
  apply wire_inv_outgoing; [done|]. by destruct (poll_send_accepted _ _ _ E) as (_ & ? & _).
Qed.
End properties.
