(* ===== verification/SessionSpec.v ===== *)
(** * SessionSpec: what a session promises its client

    An abstract automaton of one session -- a stage, the frames sent, whether the
    peer has been lost -- that knows nothing of tasks, timers, pipes or terminals,
    and the simulation that shows [Session] refines it. *)

From S2P Require Import Prelude AsyncIO Frame Duration Status Request Shell Outbound Pump.
From S2P Require Import Stdin Exec FdOps Pty Session SessionTime SessionWire.

(** ** The specification *)

Record promise := Promise {
  pr_stage : stage;
  pr_log : list Frame;       (* what has been sent *)
  pr_lost : bool;            (* the session was cancelled *)
}.

(** How a session's life goes on when it sends nothing. *)
Definition next (st st' : stage) : bool :=
  match st, st' with
  | Waiting, (SettingUp | Serving | Answering | Leaving)
  | SettingUp, (Serving | Stopping | Answering)
  | Serving, (Stopping | Draining)
  | Stopping, (Draining | Answering)
  | Draining, Answering
  | Leaving, Over => true
  | _, _ => false
  end.

Inductive promise_step : promise -> promise -> Prop :=
| pr_advance st st' log c : next st st' = true -> promise_step (Promise st log c) (Promise st' log c)
| pr_output st log c f : producing st = true -> is_output f ->
    promise_step (Promise st log c) (Promise st (log ++ [f]) c)
| pr_answer log c f : is_terminal f -> promise_step (Promise Answering log c) (Promise Leaving (log ++ [f]) c)
| pr_abandon log : promise_step (Promise Answering log true) (Promise Leaving log true)
| pr_lose st log : promise_step (Promise st log false) (Promise st log true).

Definition promise_init : promise := Promise Waiting [] false.

(** ** What the specification guarantees *)

(** How far a life has got. *)
Definition stage_index (st : stage) : nat :=
  match st with
  | Waiting => 0 | SettingUp => 1 | Serving => 2 | Stopping => 3 | Draining => 4
  | Answering => 5 | Leaving => 6 | Over => 7
  end.

Lemma promise_step_forward a a' :
  promise_step a a' -> (stage_index (pr_stage a) <= stage_index (pr_stage a'))%nat /\
    pr_log a `prefix_of` pr_log a' /\ (pr_lost a = true -> pr_lost a' = true).
Proof.
  destruct 1 as [st st' log c Hn|st log c f Hp Hf|log c f Hf|log|st log]; cbn.
  - split_and!; [|done|done]. by destruct st, st'; cbn in *; try lia.
  - split_and!; [lia|apply prefix_app_split|done].
  - split_and!; [lia|apply prefix_app_split|done].
  - split_and!; [lia|done|done].
  - split_and!; [lia|done|done].
Qed.

(** Before anything is served nothing has been sent, and then output comes
    first and one terminal frame last. *)
Definition promise_ok (a : promise) : Prop :=
  match pr_stage a with
  | Waiting | SettingUp => pr_log a = []
  | Serving | Stopping | Draining | Answering => Forall is_output (pr_log a)
  | Leaving | Over =>
      exists body tail, pr_log a = body ++ tail /\ Forall is_output body /\ Forall is_terminal tail /\
        (length tail <= 1)%nat /\ (pr_lost a = false -> pr_log a = [] \/ tail <> [])
  end.

Lemma promise_step_ok a a' : promise_ok a -> promise_step a a' -> promise_ok a'.
Proof.
  intros Ha Hs. unfold promise_ok in *.
  destruct Hs as [st st' log c Hn|st log c f Hp Hf|log c f Hf|log|st log]; cbn in *.
  - destruct st, st'; cbn in *; subst; try done; try (by constructor);
      try (exists [], []; split_and!; [done|constructor|constructor|cbn; lia|by left]).
  - destruct st; try done; apply Forall_app; split; try done; by constructor.
  - exists log, [f]. split_and!; [done|done|by constructor|cbn; lia|by right].
  - exists log, []. rewrite app_nil_r. split_and!; [done|done|constructor|cbn; lia|done].
  - destruct st; try done; destruct Ha as (body & tail & ? & ? & ? & ? & _); exists body, tail; by split_and!.
Qed.

Lemma promise_reach_ok a : rtc promise_step promise_init a -> promise_ok a.
Proof.
  intros Hr. assert (Hi : promise_ok promise_init) by done. revert Hi.
  induction Hr as [|a a1 a2 Hs _ IH]; [done|]. intros Ha. apply IH. by eapply promise_step_ok.
Qed.

(** ** The refinement *)

Section refinement.
Context {C W R S I K : Type}.
Context `{MpscSpec C, AsyncWriteSpec W, !AsyncRead R, AsyncReadSpec S}.
Context `{!AsyncWrite I, !FdWrite I, KernelSpec K}.
Context `{!Json, !Fmt, !Shlex, !Spawn S I K, !PtyStreams S I}.
Implicit Types (s : session C W R S I K) (ob : outbound C W) (m : main_state S I) (a : promise).

Definition implements (cf : config) (asked : first_action) s a : Prop :=
  first_asked cf asked s /\ chan_inv cf asked (pr_log a) (s_main s) (s_ob s) /\ pr_stage a = stage_of (s_main s) /\
  pr_lost a = ob_cancel (s_ob s).

(** The edges of the session task. *)
Definition edge (st st' : stage) : Prop :=
  st' = st \/ next st st' = true \/ (st = Answering /\ st' = Leaving).

Lemma edge_exec cf now env (x x' : exec_state S I) (r r' : R) ob ob' :
  poll_exec cf now env x r ob = Some (x', r', ob') -> edge (stage_of (MExec x)) (stage_of (MExec x')).
Proof.
  unfold poll_exec, edge, exit_step. intros E. cbn.
  destruct (ex_phase x) eqn:Ep; repeat case_hyp E; simplify_eq; cbn; rewrite ?Ep; auto.
Qed.

Lemma edge_finish raw reason (l : live S I) ob ob' (k k' : K) p :
  pty_finish raw reason l ob k = (p, ob', k') -> stage_of (MPty p) = Answering.
Proof. unfold pty_finish, pty_exit_step. destruct (exit_fields raw reason). by destruct (to_vec_exit _ _); intros [= <- _ _]. Qed.

Lemma edge_live cf now env first (l : live S I) (r r' : R) ob ob' (k k' : K) p :
  poll_live cf now env first l r ob k = Some (p, r', ob', k') ->
  edge (stage_of (MPty (PtyLive l))) (stage_of (MPty p)).
Proof.
  unfold poll_live, edge. intros E. destruct (lv_phase l) as [|since|since|raw reason since|f] eqn:Ep.
  - destruct (poll_select _ _ _ _ _ _ _ _) as [[[[l1 r1] ob1] k1]|] eqn:Es; [|done]. simplify_eq.
    unfold poll_select, arm_input, arm_child, arm_cancel in Es.
    destruct (poll_input _ _ _ _ _ _ _) as [[[[[st i] r2] k2] fired]|], (lv_child l),
      (ob_cancel ob), first as [|[|]]; try destruct st; cbn in Es; simplify_eq; cbn; rewrite ?Ep; auto.
  - repeat case_hyp E; simplify_eq; cbn; rewrite Ep; auto.
  - repeat case_hyp E; simplify_eq; cbn; rewrite Ep; auto.
  - destruct (pump_over _); [|destruct (_ <=? now); [|done]; destruct (abort_pump _ _)];
      (destruct (pty_finish _ _ _ _ _) as [[p1 ob1] k1] eqn:Ef); simplify_eq; apply edge_finish in Ef; rewrite Ef; cbn; rewrite Ep; auto.
  - repeat case_hyp E; simplify_eq; cbn; rewrite Ep; auto.
Qed.

Lemma edge_setup cf now req ma sl ob ob' (k k' : K) (p : pty_state S I) :
  pty_setup cf now req ma sl ob k = (p, ob', k') -> next SettingUp (stage_of (MPty p)) = true.
Proof. unfold pty_setup, pty_started. intros E. repeat case_hyp E; simplify_eq; done. Qed.

Lemma edge_pty cf now env first (p p' : pty_state S I) (r r' : R) ob ob' (k k' : K) :
  poll_pty cf now env first p r ob k = Some (p', r', ob', k') ->
  edge (stage_of (MPty p)) (stage_of (MPty p')).
Proof.
  destruct p as [req|msg owned|msg mo ch ks since|l|ks res]; cbn [poll_pty]; intros E; [| | | |done].
  - destruct (io_ready env); [|done]. destruct (sys_openpty k) as [[[ma sl]|[e|e]] k1]; [|by simplify_eq; right; left..].
    destruct (pty_setup _ _ _ _ _ _ _) as [[p1 ob1] k2] eqn:Es. simplify_eq. right; left. by eapply edge_setup.
  - repeat case_hyp E; simplify_eq. right; right; done.
  - repeat case_hyp E; simplify_eq; right; left; done.
  - by eapply edge_live.
Qed.

Lemma edge_main cf env first s s' :
  poll_main cf env first s = Some s' -> edge (stage_of (s_main s)) (stage_of (s_main s')).
Proof.
  unfold poll_main. intros E. destruct (s_main s) as [since|msg|x|p|e|res|res] eqn:Em; [| | | | | |done].
  - unfold first_frame, start_exec, exec_begin, drive_returned, edge in *. repeat case_hyp E; simplify_eq; cbn; auto.
  - repeat case_hyp E; simplify_eq. right; right; done.
  - assert (Hx : (exists res, ex_phase x = ExReturned res /\ s' = drive_returned res s) \/
      exists x' r' ob', poll_exec cf (s_now s) env x (s_reader s) (s_ob s) = Some (x', r', ob') /\
        s' = with_io (MExec x') r' ob' (s_kernel s) s).
    { destruct (poll_exec _ _ _ _ _ _) as [[[x' r'] ob']|]; destruct (ex_phase x); simplify_eq; eauto 10. }
    destruct Hx as [([|] & Ep & ->)|(x' & r' & ob' & Ex & ->)]; [left; cbn; by rewrite Ep..|by eapply edge_exec].
  - destruct p as [| | | |ks [|]]; [..|simplify_eq; by left|simplify_eq; by left];
      (destruct (poll_pty _ _ _ _ _ _ _ _) as [[[[p' r'] ob'] k']|] eqn:Ep; [|done]); simplify_eq; by eapply edge_pty.
  - repeat case_hyp E; simplify_eq. right; right; done.
  - repeat case_hyp E; simplify_eq. right; left; done.
Qed.
(** Only the session task moves along the edges; the flag only goes up. *)
Lemma edge_step cf s e :
  config_ok cf ->
  edge (stage_of (s_main s)) (stage_of (s_main (step cf s e))) /\
  (ob_cancel (s_ob s) = true -> ob_cancel (s_ob (step cf s e)) = true).
Proof.
  intros Hcf. unfold step. destruct (try_event cf e s) as [s'|] eqn:E; [|split; [by left|done]].
  destruct e as [env first|env|env|env|st|d]; cbn in E.
  - split; [by eapply edge_main|]. by destruct (poll_main_moves _ _ _ _ _ Hcf E) as (_ & _ & [_ ?] & _).
  - destruct (writer_task_moves _ _ _ _ Hcf E) as (_ & -> & _ & ? & _). split; [by left|done].
  - destruct (output_task_moves _ _ _ (or_introl E)) as (_ & _ & _ & _ & _ & _ & -> & _). split; [left|done].
    unfold poll_out_task in E. destruct (s_main s) as [| |x|[| | |l|]| | |]; repeat case_hyp E; by simplify_eq.
  - destruct (output_task_moves _ _ _ (or_intror E)) as (_ & _ & _ & _ & _ & _ & -> & _). split; [left|done].
    unfold poll_err_task in E. destruct (s_main s) as [| |x|[| | |l|]| | |]; repeat case_hyp E; by simplify_eq.
  - injection E as <-. split; [left|done]. cbn. by destruct (s_main s) as [| |x|[| | |l|]| | |].
  - unfold tick in E. case_match; [|done]. simplify_eq. split; [by left|done].
Qed.

(** A session that has to answer and leaves has sent its answer, or was cancelled. *)
Definition gave (s s' : session C W R S I K) : Prop :=
  ob_cancel (s_ob s') = true \/
  exists f, receiver_gone (s_ob s) = false /\ receiver_gone (s_ob s') = false /\
    outgoing (s_ob s') = outgoing (s_ob s) ++ encode_frame f.

Lemma send_gave cf asked log s s' f q ob' :
  chan_inv cf asked log (s_main s) (s_ob s) -> senders_of (s_main s) <> 0%nat ->
  poll_send f (s_ob s) = Some (q, ob') -> (s_ob s' = ob' \/ s_ob s' = drop_sender ob') -> gave s s'.
Proof.
  intros Hi Hn E Hob. unfold gave. destruct q.
  - right. exists f. destruct (poll_send_accepted _ _ _ E) as (Hg & Hg' & _).
    destruct (wire_inv_send _ _ _ _ _ (ci_wire _ _ _ _ _ Hi) E) as [[_ Hw']|[? _]]; [|done].
    pose proof (wire_inv_outgoing _ _ Hw' Hg') as Ho. rewrite encode_frames_app in Ho.
    rewrite <- (wire_inv_outgoing _ _ (ci_wire _ _ _ _ _ Hi) Hg) in Ho. unfold encode_frames in Ho. cbn in Ho.
    rewrite app_nil_r in Ho. by destruct Hob as [-> | ->].
  - left. apply poll_send_refused in E as [Hg ->].
    destruct (ci_done _ _ _ _ _ Hi Hg) as [Hc|]; [|done]. by destruct Hob as [-> | ->].
Qed.

Lemma answering_gave cf asked log env first s s' :
  chan_inv cf asked log (s_main s) (s_ob s) -> poll_main cf env first s = Some s' ->
  stage_of (s_main s) = Answering -> stage_of (s_main s') = Leaving -> gave s s'.
Proof.
  intros Hi E Ha Hl. pose proof Hi as Hi'. unfold poll_main in E.
  destruct (s_main s) as [since|msg|x|p|e|res|res] eqn:Em; try done; rewrite <- Em in Hi'.
  - destruct (poll_send _ _) as [[q ob']|] eqn:Es; [|done]. simplify_eq.
    eapply send_gave; [exact Hi'|by rewrite Em|exact Es|by right].
  - cbn in Ha. destruct (ex_phase x) as [| | | |f|[|]] eqn:Ep; try done; [|by simplify_eq].
    unfold poll_exec in E. rewrite Ep in E.
    destruct (poll_send f _) as [[q ob']|] eqn:Es; [|done]. simplify_eq.
    eapply send_gave; [exact Hi'|by rewrite Em|exact Es|by left].
  - destruct p as [req|msg owned|msg mo ch ks since|l|ks [|]]; try done; [| |by simplify_eq].
    + cbn in E. destruct (poll_send _ _) as [[q ob']|] eqn:Es; [|done]. simplify_eq.
      eapply send_gave; [exact Hi'|by rewrite Em|exact Es|by left].
    + cbn in Ha, E. unfold poll_live in E. destruct (lv_phase l) as [| | | |f] eqn:Ep; try done.
      destruct (poll_send f _) as [[q ob']|] eqn:Es; [|done]. simplify_eq.
      eapply send_gave; [exact Hi'|by rewrite Em|exact Es|by left].
  - destruct (poll_send _ _) as [[q ob']|] eqn:Es; [|done]. simplify_eq.
    eapply send_gave; [exact Hi'|by rewrite Em|exact Es|by right].
Qed.

Lemma gave_log cf asked log log' s s' :
  chan_inv cf asked log (s_main s) (s_ob s) -> chan_inv cf asked log' (s_main s') (s_ob s') ->
  gave s s' -> ob_cancel (s_ob s') = true \/ log' <> log.
Proof.
  intros Hi Hi' [Hc|(f & Hg & Hg' & Ho)]; [by left|right]. intros ->.
  rewrite (wire_inv_outgoing _ _ (ci_wire _ _ _ _ _ Hi') Hg') in Ho.
  rewrite (wire_inv_outgoing _ _ (ci_wire _ _ _ _ _ Hi) Hg) in Ho.
  apply (f_equal length) in Ho. rewrite length_app, encode_frame_length in Ho. lia.
Qed.

(** The log does not stay as it is over an answer, unless the peer was lost. *)
Lemma answer_logged cf asked log log' s e :
  chan_inv cf asked log (s_main s) (s_ob s) ->
  chan_inv cf asked log' (s_main (step cf s e)) (s_ob (step cf s e)) ->
  stage_of (s_main s) = Answering -> stage_of (s_main (step cf s e)) = Leaving ->
  ob_cancel (s_ob (step cf s e)) = true \/ log' <> log.
Proof.
  unfold step. intros Hi Hi' Ha Hl. destruct (try_event cf e s) as [s'|] eqn:E; [|congruence].
  destruct e as [env first|env|env|env|st|d]; cbn in E.
  - eapply gave_log; [exact Hi|exact Hi'|by eapply answering_gave].
  - unfold poll_writer_task in E. case_hyp E; simplify_eq. cbn in Hl. congruence.
  - unfold poll_out_task in E. destruct (s_main s) as [| |x|[| | |l|]| | |]; repeat case_hyp E; simplify_eq; cbn in *; congruence.
  - unfold poll_err_task in E. destruct (s_main s) as [| |x|[| | |l|]| | |]; repeat case_hyp E; simplify_eq; cbn in *; congruence.
  - simplify_eq. cbn in Hl. destruct (s_main s) as [| |x|[| | |l|]| | |]; cbn in *; congruence.
  - unfold tick in E. case_match; [|done]. simplify_eq. cbn in Hl. congruence.
Qed.
(** ** The simulation *)

Lemma implements_step cf asked s a e :
  config_ok cf -> implements cf asked s a ->
  exists a', rtc promise_step a a' /\ implements cf asked (step cf s e) a'.
Proof.
  intros Hcf (Hfa & Hi & Hst & Hl). destruct a as [st log c]. cbn in *. subst st c.
  destruct (session_grown cf asked log s e Hfa Hi) as (log' & Hlog & Hi').
  destruct (edge_step cf s e Hcf) as [He Hc]. set (s' := step cf s e) in *.
  exists (Promise (stage_of (s_main s')) log' (ob_cancel (s_ob s'))). split; [|split; [by apply first_asked_step|by split_and!]].
  assert (Hlose : rtc promise_step (Promise (stage_of (s_main s)) log (ob_cancel (s_ob s)))
    (Promise (stage_of (s_main s)) log (ob_cancel (s_ob s')))).
  { destruct (ob_cancel (s_ob s)); [by rewrite Hc|]. destruct (ob_cancel (s_ob s')); [|done].
    apply rtc_once, pr_lose. }
  etrans; [exact Hlose|]. destruct Hlog as [->|(f & -> & [(Hf & Hp & ->)|(Hf & Ha & ->)])].
  - destruct He as [->|[Hn|[Ha Hl]]]; [done|by apply rtc_once, pr_advance|].
    destruct (answer_logged _ _ _ _ _ _ Hi Hi' Ha Hl) as [Hlost|]; [|done].
    rewrite Ha, Hl. subst s'. rewrite Hlost. apply rtc_once, pr_abandon.
  - by apply rtc_once, pr_output.
  - rewrite Ha. by apply rtc_once, pr_answer.
Qed.

Lemma implements_new cf r (w : W) (k : K) b :
  written w = [] ->
  implements cf (dispatch (read_frame (cf_inbound_cap cf) r).1)
    (new_session (S := S) (I := I) (C := C) (R := R) r w k b) promise_init.
Proof.
  intros Hw. destruct (serves_new cf r w k b Hw) as (Hfa & log & Hi).
  pose proof (ci_early _ _ _ _ _ Hi eq_refl) as ->. by split_and!.
Qed.

Lemma implements_run cf asked s a es :
  config_ok cf -> implements cf asked s a ->
  exists a', rtc promise_step a a' /\ implements cf asked (run cf s es) a'.
Proof.
  intros Hcf. revert s a. induction es as [|e es IH]; intros s a Hs; [by exists a|]. cbn.
  destruct (implements_step cf asked s a e Hcf Hs) as (a1 & Hr & Hs1).
  destruct (IH _ _ Hs1) as (a2 & Hr2 & Hs2). exists a2. split; [by etrans|done].
Qed.

(** What of the promise can be seen: the bytes on the wire. *)
Lemma implements_wire cf asked s a :
  implements cf asked s a ->
  written (ob_sink (s_ob s)) `prefix_of` encode_frames (pr_log a) /\
  (receiver_gone (s_ob s) = true -> pr_lost a = false ->
   written (ob_sink (s_ob s)) = encode_frames (pr_log a)).
Proof.
  intros (_ & Hi & _ & ->). destruct (ci_wire _ _ _ _ _ Hi) as (_ & _ & Hw). unfold receiver_gone.
  destruct (ob_writer (s_ob s)); [..|by destruct Hw];
    destruct Hw as (fs & -> & ->); rewrite encode_frames_app; (split; [apply prefix_app_split|done]).
Qed.

(** C2 A session implements its specification: along every execution, cut
    anywhere, there is a run of the abstract automaton -- listen, perhaps set up
    a terminal, serve, stop, drain, answer once, leave -- in step with it: the
    two agree on the stage and on whether the peer was lost, what the automaton
    has sent -- output, then at most one EXIT or ERROR frame -- is what the peer
    will have received once the writer is done, and as the execution goes on the
    automaton goes on from where it was. *)
Theorem session_refines_promise cf r (w : W) (k : K) b es es' :
  config_ok cf -> written w = [] ->
  let s := run cf (new_session (S := S) (I := I) (C := C) (R := R) r w k b) es in
  let s' := run cf s es' in
  exists a a', rtc promise_step promise_init a /\ rtc promise_step a a' /\ promise_ok a' /\
    (pr_stage a = stage_of (s_main s) /\ pr_stage a' = stage_of (s_main s')) /\
    (pr_lost a = ob_cancel (s_ob s) /\ pr_lost a' = ob_cancel (s_ob s')) /\
    written (ob_sink (s_ob s)) `prefix_of` encode_frames (pr_log a) /\
    written (ob_sink (s_ob s')) `prefix_of` encode_frames (pr_log a') /\
    (finished s' = true -> pr_lost a' = false -> written (ob_sink (s_ob s')) = encode_frames (pr_log a')).
Proof.
  intros Hcf Hw s s'.
  destruct (implements_run cf _ _ _ es Hcf (implements_new cf r w k b Hw)) as (a & Hr & Hs).
  fold s in Hs. destruct (implements_run cf _ s a es' Hcf Hs) as (a' & Hr' & Hs'). fold s' in Hs'.
  assert (Hfin : finished s' = true -> receiver_gone (s_ob s') = true).
  { subst s s'. unfold run. rewrite <- fold_left_app. apply (finished_gone cf r w k b (es ++ es')). }
  destruct (implements_wire _ _ _ _ Hs) as [Hp _], (implements_wire _ _ _ _ Hs') as [Hp' Hall].
  exists a, a'. split_and!; try done; [apply promise_reach_ok; by etrans|apply Hs|apply Hs'|apply Hs|apply Hs'|].
  intros Hf. by apply Hall, Hfin.
Qed.
End refinement.
