(* ===== verification/SessionEnds.v ===== *)
(** * SessionEnds: no session waits for ever

    Every session, cancelled or not, gets to its end by the passing of time
    alone -- no byte from the peer, no output from the child, no exit -- unless it
    is in one of two states: waiting for the blocking [openpty], or running a
    command that has no deadline after its STDIN task is over. *)

From S2P Require Import Prelude AsyncIO Frame Duration Status Request Shell Outbound Pump.
From S2P Require Import Stdin Exec FdOps Pty Session SessionTime SessionWire.

Section defs.
Context {C W R S I K : Type}.
Implicit Types (s : session C W R S I K) (m : main_state S I).

(** The states in which only the outside can make the session go on. *)
Definition waiting s : bool :=
  match s_main s with
  | MPty (PtyOpening _) => true
  | MExec x =>
      match ex_phase x, ex_timer x, si_state (ex_stdin x), ex_child x with
      | ExRunning, None, StdinOver, ChildZombie _ => false
      | ExRunning, None, StdinOver, _ => negb (ob_cancel (s_ob s))
      | _, _, _, _ => false
      end
  | _ => false
  end.

(** The input task of a running shell has not ended. *)
Definition input_ok m : Prop :=
  match m with
  | MPty (PtyLive l) => lv_phase l = LvRunning -> lv_input l <> InOver
  | _ => True
  end.

Definition weight m : nat :=
  match m with
  | MFirst _ => 4
  | MPty (PtyLive l) =>
      match lv_phase l, lv_input l with LvRunning, InWriting _ _ _ => 17 | _, _ => rank_main m end
  | _ => rank_main m
  end%nat.

Definition writer_weight (ob : outbound C W) : nat :=
  match ob_writer ob with WRecv => 2 | WWriting _ _ => 1 | WDone => 0 end.
End defs.

Section proofs.
Context {C W R S I K : Type}.
Context `{MpscSpec C, AsyncWriteSpec W, !AsyncRead R, AsyncReadSpec S}.
Context `{!AsyncWrite I, !FdWrite I, KernelSpec K}.
Context `{!Json, !Fmt, !Shlex, !Spawn S I K, !PtyStreams S I}.
Implicit Types (s : session C W R S I K) (ob : outbound C W) (m : main_state S I).

(** ** An expired timer makes its owner run *)

Lemma exec_timer_due cf now (x : exec_state S I) (r : R) ob t :
  t ∈ exec_timers cf x -> t <= now -> is_none (poll_exec cf now parked_env x r ob) = false.
Proof.
  unfold exec_timers, poll_exec. intros Ht Hn.
  destruct (ex_phase x) as [|reason since|raw reason since|raw reason since|f|res].
  - destruct (ob_cancel ob); [done|]. destruct (deadline_elapsed now x) eqn:Ed; [done|].
    destruct (ex_child x); [|done|];
      (apply elem_of_app in Ht as [Ht|Ht];
        [ unfold deadline_elapsed in Ed; destruct (ex_timer x) as [t'|]; cbn in Ht; [|set_solver];
          apply list_elem_of_singleton in Ht as ->; bool_prop; lia
        | unfold stdin_timers in Ht; unfold poll_stdin;
          destruct (si_state (ex_stdin x)) as [since|p since|]; [..|set_solver];
          apply list_elem_of_singleton in Ht as ->; cbn; by rewrite (proj2 (Z.leb_le _ _) Hn) ]).
  - apply list_elem_of_singleton in Ht as ->. unfold reap_bounded, poll_reap.
    destruct (ex_child x); cbn; by rewrite ?(proj2 (Z.leb_le _ _) Hn).
  - apply list_elem_of_singleton in Ht as ->. destruct (pump_over _); [done|].
    rewrite (proj2 (Z.leb_le _ _) Hn). by destruct (abort_pump (ex_out x) ob).
  - apply list_elem_of_singleton in Ht as ->. destruct (pump_over _); [done|].
    rewrite (proj2 (Z.leb_le _ _) Hn). by destruct (abort_pump (ex_err x) ob).
  - set_solver.
  - set_solver.
Qed.

Lemma live_timer_due cf now (l : live S I) (r : R) ob (k : K) t :
  t ∈ live_timers cf l -> t <= now -> is_none (poll_live cf now parked_env 0 l r ob k) = false.
Proof.
  unfold live_timers, poll_live. intros Ht Hn.
  destruct (lv_phase l) as [|since|since|raw reason since|f].
  - assert (Hin : exists y, arm_input cf now parked_env l r ob k = Some y).
    { unfold arm_input, poll_input.
      destruct (lv_input l) as [since|data off since|]; [| |set_solver];
        apply list_elem_of_singleton in Ht as ->; cbn; rewrite (proj2 (Z.leb_le _ _) Hn); [by eauto|].
      destruct (ob_cancel ob), (length data <=? off)%nat; by eauto. }
    destruct Hin as (y & Ey). unfold poll_select. rewrite Ey. by destruct y as [[[? ?] ?] ?].
  - apply list_elem_of_singleton in Ht as ->. destruct (lv_child l); by rewrite ?(proj2 (Z.leb_le _ _) Hn).
  - apply list_elem_of_singleton in Ht as ->. unfold reap_bounded, poll_reap.
    destruct (lv_child l); cbn; by rewrite ?(proj2 (Z.leb_le _ _) Hn).
  - apply list_elem_of_singleton in Ht as ->. destruct (pump_over _).
    { by destruct (pty_finish _ _ _ _ _) as [[]]. }
    rewrite (proj2 (Z.leb_le _ _) Hn). destruct (abort_pump (lv_out l) ob).
    by destruct (pty_finish _ _ _ _ _) as [[]].
  - set_solver.
Qed.

Lemma timer_due cf s t : t ∈ timers cf s -> t <= s_now s -> all_parked cf s = false.
Proof.
  intros Ht Hn. unfold all_parked. apply elem_of_app in Ht as [Ht|Ht].
  - assert (Hm : is_none (poll_main cf parked_env 0 s) = false); [|by rewrite Hm].
    unfold poll_main, main_timers in *. destruct (s_main s) as [since|msg|x|p|e|res|res]; try set_solver.
    + apply list_elem_of_singleton in Ht as ->. cbn. by rewrite (proj2 (Z.leb_le _ _) Hn).
    + pose proof (exec_timer_due _ _ _ (s_reader s) (s_ob s) _ Ht Hn) as He.
      destruct (poll_exec _ _ _ _ _ _) as [[[? ?] ?]|]; [|done]. by destruct (ex_phase x).
    + destruct p as [req|msg owned|msg mo ch ks since|l|ks res]; try set_solver; cbn [poll_pty].
      * apply list_elem_of_singleton in Ht as ->. unfold reap_bounded, poll_reap.
        destruct ch; cbn; by rewrite ?(proj2 (Z.leb_le _ _) Hn).
      * pose proof (live_timer_due _ _ _ (s_reader s) (s_ob s) (s_kernel s) _ Ht Hn) as He.
        by destruct (poll_live _ _ _ _ _ _ _ _) as [[[[? ?] ?] ?]|].
  - assert (Hw : is_none (poll_writer_task cf parked_env s) = false); [|by rewrite Hw, andb_false_r].
    unfold writer_timers, poll_writer_task, poll_writer in *.
    destruct (ob_writer (s_ob s)) as [|f since|]; [set_solver| |set_solver].
    apply list_elem_of_singleton in Ht as ->. cbn. rewrite (proj2 (Z.leb_le _ _) Hn).
    by destruct (ob_cancel _).
Qed.

(** ** A parked session has a timer *)

(** A sender parked on a full queue: the writer has a frame in its hands. *)
Lemma send_parked log wt now f ob :
  wire_inv log ob -> poll_send f ob = None -> poll_writer wt now parked_env ob = None ->
  exists g since, ob_writer ob = WWriting g since.
Proof.
  unfold poll_send, poll_writer, receiver_gone. intros (Hb & Hl & _) Es Ew.
  destruct (ob_writer ob) as [|g since|]; [|by eauto|done].
  destruct (Nat.lt_ge_cases (length (queued (ob_chan ob))) (bound (ob_chan ob))) as [Hlt|Hge].
  { destruct (try_send_room f _ Hlt) as (c' & E & _). by rewrite E in Es. }
  destruct (queued (ob_chan ob)) as [|h q] eqn:Eq.
  { rewrite Hb in Hge. cbn in Hge. unfold CHANNEL_BOUND in Hge. lia. }
  destruct (try_recv_some _ _ _ Eq) as (c' & E & _). rewrite E in Ew. by destruct (ob_cancel ob).
Qed.

Lemma parked_timers cf asked log s :
  chan_inv cf asked log (s_main s) (s_ob s) -> input_ok (s_main s) -> ob_cancel (s_ob s) = false ->
  finished s = false -> waiting s = false -> all_parked cf s = true -> timers cf s <> [].
Proof.
  intros [Hw Hs _ _ _ _ _ _] Hin Hc Hf Hwt Hpk. unfold all_parked in Hpk. bool_prop.
  assert (Hpw : poll_writer (cf_write_timeout cf) (s_now s) parked_env (s_ob s) = None).
  { unfold poll_writer_task in *. by destruct (poll_writer _ _ _ _). }
  assert (Hsend : forall f, poll_send f (s_ob s) = None -> timers cf s <> []).
  { intros f Es. destruct (send_parked _ _ _ _ _ Hw Es Hpw) as (g & since & E).
    unfold timers, writer_timers. rewrite E. by destruct (main_timers _ _). }
  assert (Hmt : main_timers cf (s_main s) <> [] -> timers cf s <> []).
  { unfold timers. by destruct (main_timers _ _). }
  assert (Hm : poll_main cf parked_env 0 s = None) by (by destruct (poll_main _ _ _ _)).
  unfold finished in Hf. unfold waiting in Hwt. unfold poll_main in Hm.
  destruct (s_main s) as [since|msg|x|p|e|res|res] eqn:Em; [| | | | | |done].
  - by apply Hmt.
  - destruct (poll_send _ _) as [[q ob']|] eqn:Es; [done|]. by eapply Hsend.
  - destruct (ex_phase x) as [|reason since|raw reason since|raw reason since|f|res] eqn:Ep;
      [|by apply Hmt; cbn; unfold exec_timers; rewrite Ep..| |done].
    + apply Hmt. cbn. unfold exec_timers. rewrite Ep. unfold poll_exec in Hm. rewrite Ep, Hc in *.
      destruct (deadline_elapsed _ _); [done|].
      destruct (ex_timer x); [done|]. unfold stdin_timers.
      destruct (si_state (ex_stdin x)); [done|done|]. by destruct (ex_child x).
    + unfold poll_exec in Hm. rewrite Ep in Hm.
      destruct (poll_send f _) as [[q ob']|] eqn:Es; [done|]. by eapply Hsend.
  - destruct p as [req|msg owned|msg mo ch ks since|l|ks res]; [done| |by apply Hmt| |done].
    + cbn in Hm. destruct (poll_send _ _) as [[q ob']|] eqn:Es; [done|]. by eapply Hsend.
    + cbn [poll_pty] in Hm. unfold poll_live in Hm. cbn in Hin.
      destruct (lv_phase l) as [|since|since|raw reason since|f] eqn:Ep;
        [|by apply Hmt; cbn; unfold live_timers; rewrite Ep..|].
      * apply Hmt. cbn. unfold live_timers. rewrite Ep. by destruct (lv_input l); [..|destruct Hin].
      * destruct (poll_send f _) as [[q ob']|] eqn:Es; [done|]. by eapply Hsend.
  - destruct (poll_send _ _) as [[q ob']|] eqn:Es; [done|]. by eapply Hsend.
  - unfold receiver_gone in Hm. unfold poll_writer in Hpw. unfold timers, writer_timers. rewrite Em. cbn.
    destruct (ob_writer (s_ob s)) as [|g since|]; [|done|done].
    rewrite Hc, Hs in Hpw. cbn in Hpw. by destruct (try_recv _) as [[? ?]|].
Qed.

(** ** What a poll of the session task brings *)

Lemma exec_quiet cf now (x x' : exec_state S I) (r r' : R) ob ob' :
  ob_cancel ob = false -> poll_exec cf now parked_env x r ob = Some (x', r', ob') ->
  ob_cancel ob' = true \/
  (ex_phase x' <> ExRunning /\
   rank_main (MExec x') + rank_pumps (MExec x') < rank_main (MExec x) + rank_pumps (MExec x))%nat.
Proof.
  intros Hc E. unfold poll_exec in E. cbn. rewrite Hc in E.
  destruct (ex_phase x) as [|reason since|raw reason since|raw reason since|f|res] eqn:Ep.
  - destruct (deadline_elapsed now x); [simplify_eq; right; cbn; split; [done|lia]|].
    assert (Hs : forall t r1 fired, poll_stdin (cf_idle_timeout cf) (cf_inbound_cap cf) now parked_env false
      (ex_stdin x) r = Some (t, r1, fired) -> fired = true).
    { unfold poll_stdin. intros t r1 fired Es. by destruct (si_state (ex_stdin x)); cbn in Es; try case_hyp Es; simplify_eq. }
    destruct (poll_stdin _ _ _ _ _ _ _) as [[[t r1] fired]|]; [rewrite (Hs _ _ _ eq_refl) in E|];
      destruct (ex_child x); simplify_eq; first [by left | right; cbn; split; [done|lia]].
  - right. destruct (reap_bounded _ _ _) as [[raw ch]|]; [|done]. simplify_eq; cbn. split; [done|lia].
  - right. destruct (pump_over _); [simplify_eq; cbn; split; [done|lia]|]. destruct (_ <=? now); [|done].
    pose proof (rank_abort (ex_out x) ob). destruct (abort_pump _ _). simplify_eq; cbn in *. split; [done|lia].
  - right. unfold exit_step in E. destruct (exit_fields raw reason), (pump_over _).
    { destruct (to_vec_exit _ _); simplify_eq; cbn; (split; [done|lia]). }
    destruct (_ <=? now); [|done].
    pose proof (rank_abort (ex_err x) ob). destruct (abort_pump _ _).
    destruct (to_vec_exit _ _); simplify_eq; cbn in *; (split; [done|lia]).
  - right. destruct (poll_send f ob) as [[q ob1]|]; [|done]. simplify_eq; cbn. split; [done|lia].
  - done.
Qed.

Lemma weight_pty (p : pty_state S I) :
  (forall l, p = PtyLive l -> lv_phase l <> LvRunning) -> weight (MPty p) = rank_main (MPty p).
Proof.
  intros Hp. destruct p as [| | |l|]; try done. cbn. specialize (Hp l eq_refl). by destruct (lv_phase l).
Qed.

Lemma finish_not_running raw reason (l : live S I) ob ob' (k k' : K) p :
  pty_finish raw reason l ob k = (p, ob', k') -> forall l', p = PtyLive l' -> lv_phase l' <> LvRunning.
Proof.
  unfold pty_finish, pty_exit_step. destruct (exit_fields raw reason).
  destruct (to_vec_exit _ _); intros [= <- _ _]; [by intros l' [= <-]|done].
Qed.

Lemma live_quiet cf now (l : live S I) (r r' : R) ob ob' (k k' : K) p :
  ob_cancel ob = false -> poll_live cf now parked_env 0 l r ob k = Some (p, r', ob', k') ->
  ob_cancel ob' = true \/
  (weight (MPty p) + rank_pumps (MPty p) < weight (MPty (PtyLive l)) + rank_pumps (MPty (PtyLive l)))%nat.
Proof.
  intros Hc E. unfold poll_live in E.
  destruct (lv_phase l) as [|since|since|raw reason since|f] eqn:Ep.
  - destruct (poll_select _ _ _ _ _ _ _ _) as [[[[l1 r1] ob1] k1]|] eqn:Es; [|done]. simplify_eq.
    unfold poll_select, arm_input, poll_input, arm_child, arm_cancel in Es. rewrite Hc in Es.
    cbn in Es. cbn. rewrite ?Ep.
    destruct (lv_input l) as [since|data off since|];
      [destruct (_ <=? now)|destruct (length data <=? off)%nat; [|destruct (_ <=? now)]|];
      destruct (lv_child l); cbn in Es; simplify_eq; cbn; rewrite ?Ep;
      first [by left | right; lia].
  - right. destruct (lv_child l); try case_hyp E; simplify_eq; cbn; rewrite ?Ep; lia.
  - right. destruct (reap_bounded _ _ _) as [[raw ch]|]; [|done]. simplify_eq; cbn. rewrite ?Ep. lia.
  - right. destruct (pump_over _).
    { destruct (pty_finish _ _ _ _ _) as [[p1 ob1] k1] eqn:Ef. simplify_eq.
      rewrite (weight_pty p) by (by eapply finish_not_running).
      apply rank_pty_finish in Ef. cbn in *. rewrite ?Ep. lia. }
    destruct (_ <=? now); [|done]. pose proof (rank_abort (lv_out l) ob).
    destruct (abort_pump _ _) as [out ob0].
    destruct (pty_finish _ _ _ _ _) as [[p1 ob1] k1] eqn:Ef. simplify_eq.
    rewrite (weight_pty p) by (by eapply finish_not_running).
    apply rank_pty_finish in Ef. cbn in *. rewrite ?Ep. lia.
  - right. destruct (poll_send _ _) as [[q ob1]|]; [|done]. simplify_eq; cbn. rewrite ?Ep. lia.
Qed.

Lemma main_quiet cf s s' :
  config_ok cf -> ob_cancel (s_ob s) = false -> waiting s = false ->
  poll_main cf parked_env 0 s = Some s' ->
  ob_cancel (s_ob s') = true \/
  (waiting s' = false /\ ob_writer (s_ob s') = ob_writer (s_ob s) /\
   weight (s_main s') + rank_pumps (s_main s') < weight (s_main s) + rank_pumps (s_main s))%nat.
Proof.
  intros Hcf Hc Hwt E. destruct (poll_main_moves _ _ _ _ _ Hcf E) as (_ & _ & [Hw _] & _).
  rewrite Hw. clear Hw. unfold poll_main in E. unfold waiting in Hwt.
  destruct (s_main s) as [since|msg|x|p|e|res|res] eqn:Em; [| | | | | |done].
  - cbn in E. case_hyp E; simplify_eq. right. cbn. split_and!; [done|done|lia].
  - destruct (poll_send _ _) as [[q ob']|]; [|done]. simplify_eq. right. cbn. split_and!; [done|done|lia].
  - assert (Hx : (exists res, ex_phase x = ExReturned res /\ s' = drive_returned res s) \/
      exists x' r' ob', poll_exec cf (s_now s) parked_env x (s_reader s) (s_ob s) = Some (x', r', ob') /\
        s' = with_io (MExec x') r' ob' (s_kernel s) s).
    { destruct (poll_exec _ _ _ _ _ _) as [[[x' r'] ob']|]; destruct (ex_phase x); simplify_eq; eauto 10. }
    destruct Hx as [(res & Ep & ->)|(x' & r' & ob' & Ex & ->)].
    + right. destruct res; cbn; rewrite ?Ep; (split_and!; [done|done|lia]).
    + destruct (exec_quiet _ _ _ _ _ _ _ _ Hc Ex) as [|[Hp Hr]]; [by left|right].
      unfold waiting. cbn. split_and!; [by destruct (ex_phase x')|done|exact Hr].
  - destruct p as [req|msg owned|msg ms ch ks since|l|ks res]; [done| | | |].
    + cbn in E. destruct (poll_send _ _) as [[q ob1]|]; [|done]. simplify_eq. right. cbn. split_and!; [done|done|lia].
    + cbn in E. destruct (reap_bounded _ _ _) as [[raw ch']|]; [|done]. simplify_eq. right; cbn. split_and!; [done|done|lia].
    + destruct (poll_pty _ _ _ _ _ _ _ _) as [[[[p' r'] ob'] k']|] eqn:El; [|done]. simplify_eq.
      assert (Hno : forall req, p' <> PtyOpening req) by (intros req ->; by eapply poll_pty_opening in El).
      cbn [poll_pty] in El. apply live_quiet in El as [|Hr]; [by left|right|done].
      unfold waiting. cbn [s_main s_ob with_io]. split_and!; [|done|exact Hr].
      destruct p' as [rq| | | |]; [by destruct (Hno rq)|done..].
    + simplify_eq. right. destruct res; cbn; (split_and!; [done|done|lia]).
  - destruct (poll_send _ _) as [[q ob']|]; [|done]. simplify_eq. right. cbn. split_and!; [done|done|lia].
  - destruct (receiver_gone _); [|done]. simplify_eq. right. cbn. split_and!; [done|done|lia].
Qed.

(** ** The input task of a running shell is alive *)

Lemma input_ok_live cf now env first (l : live S I) (r r' : R) ob ob' (k k' : K) p :
  input_ok (MPty (PtyLive l)) -> poll_live cf now env first l r ob k = Some (p, r', ob', k') -> input_ok (MPty p).
Proof.
  intros Hi E. cbn in Hi. unfold poll_live in E. destruct (lv_phase l) as [|since|since|raw reason since|f] eqn:Ep.
  - destruct (poll_select _ _ _ _ _ _ _ _) as [[[[l1 r1] ob1] k1]|] eqn:Es; [|done]. simplify_eq. cbn.
    destruct (poll_select_arms _ _ _ _ _ _ _ _ _ _ _ _ Es) as [Ha|([Ha|Ha] & _)].
    + unfold arm_input in Ha. destruct (poll_input _ _ _ _ _ _ _) as [[[[[st i] r2] k2] fired]|]; [|done].
      by destruct st; simplify_eq.
    + unfold arm_child in Ha. by destruct (lv_child l); simplify_eq.
    + unfold arm_cancel in Ha. by destruct (ob_cancel ob); simplify_eq.
  - destruct (lv_child l); try case_hyp E; by simplify_eq.
  - destruct (reap_bounded _ _ _) as [[raw ch]|]; by simplify_eq.
  - assert (Hf : forall (l' : live S I) ob0 p1 ob1 k1, pty_finish raw reason l' ob0 k = (p1, ob1, k1) -> input_ok (MPty p1)).
    { intros l' ob0 p1 ob1 k1 Ef. destruct p1 as [| | |l1|]; try done. intros Hp.
      by destruct (finish_not_running _ _ _ _ _ _ _ _ Ef l1 eq_refl). }
    destruct (pump_over _).
    { destruct (pty_finish _ _ _ _ _) as [[p1 ob1] k1] eqn:Ef. simplify_eq. by eapply Hf. }
    destruct (_ <=? now); [|done]. destruct (abort_pump (lv_out l) ob) as [out ob0].
    destruct (pty_finish _ _ _ _ _) as [[p1 ob1] k1] eqn:Ef. simplify_eq. by eapply Hf.
  - destruct (poll_send _ _) as [[q ob1]|]; by simplify_eq.
Qed.

Lemma input_ok_pty cf now env first (p p' : pty_state S I) (r r' : R) ob ob' (k k' : K) :
  input_ok (MPty p) -> poll_pty cf now env first p r ob k = Some (p', r', ob', k') -> input_ok (MPty p').
Proof.
  destruct p as [req|msg owned|msg mo ch ks since|l|ks res]; intros Hi E; cbn [poll_pty] in E; [| | | |done].
  - destruct (io_ready env); [|done].
    destruct (sys_openpty k) as [[[ma sl]|[e|e]] k1]; [|by simplify_eq..].
    destruct (pty_setup _ _ _ _ _ _ _) as [[p1 ob1] k2] eqn:Es. simplify_eq.
    unfold pty_setup, pty_started in Es. repeat case_hyp Es; by simplify_eq.
  - repeat case_hyp E; by simplify_eq.
  - repeat case_hyp E; by simplify_eq.
  - by eapply input_ok_live.
Qed.

Lemma input_ok_step cf s e : input_ok (s_main s) -> input_ok (s_main (step cf s e)).
Proof.
  intros Hi. unfold step. destruct (try_event cf e s) as [s'|] eqn:E; [|done].
  destruct e as [env first|env|env|env|st|d]; cbn in E.
  - unfold poll_main in E. destruct (s_main s) as [since|msg|x|p|e|res|res] eqn:Em; [| | | | | |done].
    + unfold first_frame, start_exec, exec_begin, drive_returned in E. repeat case_hyp E; by simplify_eq.
    + repeat case_hyp E; by simplify_eq.
    + destruct (ex_phase x) as [| | | | |[]]; repeat case_hyp E; by simplify_eq.
    + destruct p as [req|msg owned|msg mo ch ks since|l|ks [|]];
        [..|by simplify_eq|by simplify_eq];
        (destruct (poll_pty _ _ _ _ _ _ _ _) as [[[[p' r'] ob'] k']|] eqn:El; [|done]);
        simplify_eq; by eapply input_ok_pty.
    + repeat case_hyp E; by simplify_eq.
    + repeat case_hyp E; by simplify_eq.
  - unfold poll_writer_task in E. case_hyp E; by simplify_eq.
  - unfold poll_out_task in E. destruct (s_main s) as [| |x|[| | |l|]| | |]; repeat case_hyp E; by simplify_eq.
  - unfold poll_err_task in E. destruct (s_main s) as [| |x|[| | |l|]| | |]; repeat case_hyp E; by simplify_eq.
  - simplify_eq; cbn. by destruct (s_main s) as [| |x|[| | |l|]| | |].
  - unfold tick in E. case_match; [|done]. by simplify_eq.
Qed.
(** ** Progress *)

Lemma writer_quiet wt now ob ob' :
  poll_writer wt now parked_env ob = Some ob' ->
  ob_cancel ob' = true \/ (ob_cancel ob' = ob_cancel ob /\ writer_weight ob' < writer_weight ob)%nat.
Proof.
  unfold poll_writer, writer_weight. intros E.
  destruct (ob_writer ob) as [|f since|] eqn:Ew; [| |done].
  - destruct (ob_cancel ob) eqn:Ec; [simplify_eq; by left|right].
    repeat case_hyp E; simplify_eq; cbn; (split; [done|lia]).
  - cbn in E. repeat case_hyp E; simplify_eq; cbn; by left.
Qed.

Lemma pump_quiet ft (p p' : pump S) ob ob' :
  poll_pump ft parked_env p ob = Some (p', ob') -> (rank_pump p' < rank_pump p)%nat.
Proof.
  unfold poll_pump, rank_pump. destruct (pm_state p); cbn; try done.
  intros E. repeat case_hyp E; simplify_eq; cbn; lia.
Qed.

Lemma pty_out_quiet (p p' : pump S) ob ob' :
  poll_pty_out parked_env p ob = Some (p', ob') -> (rank_pump p' < rank_pump p)%nat.
Proof.
  unfold poll_pty_out, rank_pump. destruct (pm_state p); cbn; try done.
  intros E. repeat case_hyp E; simplify_eq; cbn; lia.
Qed.

Lemma output_quiet s s' :
  poll_out_task parked_env s = Some s' \/ poll_err_task parked_env s = Some s' ->
  (weight (s_main s') = weight (s_main s) /\ rank_pumps (s_main s') < rank_pumps (s_main s))%nat /\
  waiting s' = waiting s.
Proof.
  intros E. destruct (output_task_moves _ _ _ E) as (_ & _ & _ & _ & _ & _ & Hc & _).
  unfold waiting. rewrite Hc. clear Hc. unfold poll_out_task, poll_err_task in E.
  destruct (s_main s) as [| |x|[| | |l|]| | |] eqn:Em; destruct E as [E|E]; try done.
  - destruct (poll_pump _ _ _ _) as [[p' ob']|] eqn:Ep; [|done]. apply pump_quiet in Ep.
    simplify_eq; cbn. split_and!; [done|lia|done].
  - destruct (poll_pump _ _ _ _) as [[p' ob']|] eqn:Ep; [|done]. apply pump_quiet in Ep.
    simplify_eq; cbn. split_and!; [done|lia|done].
  - destruct (poll_pty_out _ _ _) as [[p' ob']|] eqn:Ep; [|done]. apply pty_out_quiet in Ep.
    simplify_eq; cbn. split_and!; [done|lia|done].
Qed.

(** The next armed timer. *)
Lemma least_timer (l : list Z) : l <> [] -> exists t, t ∈ l /\ forall t', t' ∈ l -> t <= t'.
Proof.
  induction l as [|a l IH]; [done|]. intros _. destruct l as [|b l].
  - exists a. split; [left|]. intros t'. rewrite list_elem_of_singleton. lia.
  - destruct IH as (t & Ht & Hmin); [done|]. destruct (Z.le_ge_cases a t).
    + exists a. split; [left|]. intros t' [->|Ht']%elem_of_cons; [lia|]. specialize (Hmin _ Ht'). lia.
    + exists t. split; [by right|]. intros t' [->|Ht']%elem_of_cons; [lia|]. by apply Hmin.
Qed.

(** When everything is parked, time passes up to the next timer, which then runs its owner. *)
Lemma wake_up cf s :
  timers cf s <> [] -> all_parked cf s = true ->
  exists d s', tick cf d s = Some s' /\ s_main s' = s_main s /\ s_ob s' = s_ob s /\
    all_parked cf s' = false.
Proof.
  intros Hne Hpk. destruct (least_timer _ Hne) as (t & Ht & Hmin).
  assert (Hlt : s_now s < t).
  { destruct (Z.lt_ge_cases (s_now s) t) as [|Hge]; [done|].
    by rewrite (timer_due cf s t Ht Hge) in Hpk. }
  exists (t - s_now s). eexists. unfold tick. rewrite Hpk, (proj2 (Z.ltb_lt _ _)) by lia.
  rewrite (proj2 (forallb_forall _ _)); [split_and!; [done..|]|].
  - apply (timer_due _ _ t); [done|]. cbn. lia.
  - intros t' Hin%list_elem_of_In. specialize (Hmin _ Hin). apply Z.leb_le. lia.
Qed.

(** Quiet events still to come before the session is over or cancelled. *)
Definition remaining (cf : config) s : nat :=
  (2 * (weight (s_main s) + rank_pumps (s_main s) + writer_weight (s_ob s)) +
   (if all_parked cf s then 1 else 0))%nat.

Lemma remaining_bound cf s : (remaining cf s <= 43)%nat.
Proof.
  unfold remaining, weight, writer_weight, rank_main, rank_pumps, rank_pump. repeat case_match; lia.
Qed.

Lemma remaining_less cf s s' :
  (weight (s_main s') + rank_pumps (s_main s') + writer_weight (s_ob s') <
   weight (s_main s) + rank_pumps (s_main s) + writer_weight (s_ob s))%nat ->
  (remaining cf s' < remaining cf s)%nat.
Proof. unfold remaining. destruct (all_parked cf s), (all_parked cf s'); lia. Qed.

Lemma session_progress cf s :
  config_ok cf -> session_inv cf s -> input_ok (s_main s) -> ob_cancel (s_ob s) = false ->
  finished s = false -> waiting s = false ->
  exists e, quiet_event e /\
    (ob_cancel (s_ob (step cf s e)) = true \/
     (waiting (step cf s e) = false /\ (remaining cf (step cf s e) < remaining cf s)%nat)).
Proof.
  intros Hcf (asked & _ & log & Hi) Hin Hc Hf Hwt.
  destruct (poll_main cf parked_env 0 s) as [s1|] eqn:Em.
  { exists (EvMain parked_env 0). split; [done|]. unfold step, try_event. rewrite Em.
    destruct (main_quiet _ _ _ Hcf Hc Hwt Em) as [|(Hw & Hob & Hr)]; [by left|right].
    split; [done|]. apply remaining_less. unfold writer_weight. rewrite Hob. lia. }
  destruct (poll_writer_task cf parked_env s) as [s1|] eqn:Ew.
  { exists (EvWriterTask parked_env). split; [done|]. unfold step, try_event. rewrite Ew.
    unfold poll_writer_task in Ew. destruct (poll_writer _ _ _ _) as [ob'|] eqn:Ep; [|done]. simplify_eq.
    destruct (writer_quiet _ _ _ _ Ep) as [|[Hc' Hr]]; [by left|right].
    split; [unfold waiting in *; cbn; by rewrite Hc'|]. apply remaining_less. cbn. lia. }
  assert (Hout : forall s1, poll_out_task parked_env s = Some s1 \/ poll_err_task parked_env s = Some s1 ->
    waiting s1 = false /\ (remaining cf s1 < remaining cf s)%nat).
  { intros s1 E. destruct (output_quiet _ _ E) as ([Hr1 Hr2] & Hw).
    destruct (output_task_moves _ _ _ E) as (_ & _ & _ & _ & _ & Hob & _).
    split; [congruence|]. apply remaining_less. unfold writer_weight. rewrite Hob. lia. }
  destruct (poll_out_task parked_env s) as [s1|] eqn:Eo.
  { exists (EvOut parked_env). split; [done|]. unfold step, try_event. rewrite Eo. right. apply Hout. by left. }
  destruct (poll_err_task parked_env s) as [s1|] eqn:Ee.
  { exists (EvErr parked_env). split; [done|]. unfold step, try_event. rewrite Ee. right. apply Hout. by right. }
  assert (Hpk : all_parked cf s = true) by (unfold all_parked; by rewrite Em, Ew, Eo, Ee).
  destruct (wake_up cf s) as (d & s' & Et & Hm & Hob & Hpk'); [by eapply parked_timers|done|].
  exists (EvTick d). split; [done|]. unfold step, try_event. rewrite Et. right.
  unfold remaining, waiting in *. rewrite Hm, Hob, Hpk, Hpk'. split; [done|lia].
Qed.

Lemma input_ok_run cf s es : input_ok (s_main s) -> input_ok (s_main (run cf s es)).
Proof.
  revert s. induction es as [|e es IH]; intros s Hi; [done|]. cbn. by apply IH, input_ok_step.
Qed.

(** Repeating it ends the session or cancels it; either way it gets to its end. *)
Lemma ends_or_cancels cf n s :
  (remaining cf s < n)%nat ->
  config_ok cf -> session_inv cf s -> time_inv cf s -> input_ok (s_main s) -> waiting s = false ->
  exists es, (length es <= n + 20)%nat /\ Forall quiet_event es /\ finished (run cf s es) = true /\
    forall j, (j < length es)%nat -> finished (run cf s (take j es)) = false.
Proof.
  revert s. induction n as [|n IH]; intros s Hn Hcf Hi Ht Hin Hwt; [lia|].
  destruct (finished s) eqn:Hf; [exists []; split_and!; [cbn; lia|constructor|done|cbn; lia]|].
  destruct (ob_cancel (s_ob s)) eqn:Hc.
  { destruct (cancelled_completes cf s Hcf Ht Hc) as (es & Hl & ? & ? & ?).
    exists es. split_and!; [lia|done..]. }
  destruct (session_progress cf s Hcf Hi Hin Hc Hf Hwt) as (e & He & Hor).
  assert (Ht' : time_inv cf (step cf s e)) by by apply time_inv_step.
  assert (Hnext : exists es, (length es <= n + 20)%nat /\ Forall quiet_event es /\
    finished (run cf (step cf s e) es) = true /\
    forall j, (j < length es)%nat -> finished (run cf (step cf s e) (take j es)) = false).
  { destruct Hor as [Hc'|[Hw' Hr]].
    - destruct (cancelled_completes cf _ Hcf Ht' Hc') as (es & Hl & ? & ? & ?).
      exists es. split_and!; [lia|done..].
    - apply IH; try done; [lia|by apply session_inv_step|by apply input_ok_step]. }
  destruct Hnext as (es & Hl & Hq & Hfin & Hpre). exists (e :: es).
  split_and!; [cbn; lia|by constructor|done|]. intros [|j] Hj; [done|]. cbn. apply Hpre. cbn in Hj. lia.
Qed.

Lemma remaining_ends cf s :
  config_ok cf -> session_inv cf s -> time_inv cf s -> input_ok (s_main s) -> waiting s = false ->
  exists es, (length es <= 64)%nat /\ Forall quiet_event es /\ finished (run cf s es) = true /\
    forall j, (j < length es)%nat -> finished (run cf s (take j es)) = false.
Proof.
  pose proof (remaining_bound cf s). apply (ends_or_cancels cf 44 s). lia.
Qed.

(** C4 No session waits for ever: from every reachable state of every session
    -- cancelled or not, whatever its peer, its command and its shell are
    doing -- at most sixty-four task polls and timer expiries end it, with no
    byte from the peer, no output and no exit of the child, unless the session
    is waiting for the blocking [openpty], or runs a command without a deadline
    whose STDIN task is over. *)
Theorem every_session_ends cf r (w : W) (k : K) b es :
  config_ok cf -> written w = [] ->
  let s := run cf (new_session (S := S) (I := I) (C := C) (R := R) r w k b) es in
  waiting s = false ->
  exists es', (length es' <= 64)%nat /\ Forall quiet_event es' /\ finished (run cf s es') = true.
Proof.
  intros Hcf Hw s Hwt. destruct (remaining_ends cf s) as (es' & ? & ? & ? & _); [| | | | |by exists es'].
  - done.
  - by apply session_inv_run, session_inv_new.
  - by apply time_inv_run, time_inv_new.
  - by apply input_ok_run.
  - done.
Qed.
End proofs.
