(* ===== verification/SessionDeadline.v ===== *)
(** * SessionDeadline: what a command's deadline bounds

    A running command with a deadline is over, its session with it, at a known
    time after the deadline: the kill and the reap, the drain of the two pipes,
    and the time the writer may take to empty a full queue towards a slow peer. *)

From S2P Require Import Prelude AsyncIO Frame Duration Status Request Shell Outbound Pump.
From S2P Require Import Stdin Exec FdOps Pty Session SessionTime SessionWire.

(** The longest the writer may take with a full queue, the frame in its hands
    and the terminal frame. *)
Definition FLUSH (cf : config) : Z := (Z.of_nat CHANNEL_BOUND + 2) * cf_write_timeout cf.

Section defs.
Context {C W R S I K : Type} `{!MpscView C}.
Implicit Types (s : session C W R S I K) (ob : outbound C W).

(** When the writer will have got rid of the queue and of [extra] more frames. *)
Definition backlog (cf : config) (now : Z) ob (extra : nat) : Z :=
  let n := Z.of_nat (length (queued (ob_chan ob)) + extra) in
  match ob_writer ob with
  | WRecv => now + n * cf_write_timeout cf
  | WWriting _ since => since + (1 + n) * cf_write_timeout cf
  | WDone => now
  end.

(** The latest instant at which a session past the start of its command can
    still be running. *)
Definition end_by (cf : config) s : option Z :=
  match s_main s with
  | MExec x =>
      match ex_phase x with
      | ExRunning => option_map (fun t => t + (REAP_GRACE + DRAIN_GRACE + DRAIN_GRACE + FLUSH cf)) (ex_timer x)
      | ExReaping _ since => Some (since + (REAP_GRACE + DRAIN_GRACE + DRAIN_GRACE + FLUSH cf))
      | ExDrainOut _ _ since => Some (since + (DRAIN_GRACE + DRAIN_GRACE + FLUSH cf))
      | ExDrainErr _ _ since => Some (since + (DRAIN_GRACE + FLUSH cf))
      | ExSendExit _ | ExReturned (Err _) => Some (backlog cf (s_now s) (s_ob s) 1)
      | ExReturned (Ok _) => Some (backlog cf (s_now s) (s_ob s) 0)
      end
  | MReport _ => Some (backlog cf (s_now s) (s_ob s) 1)
  | MJoin _ => Some (backlog cf (s_now s) (s_ob s) 0)
  | _ => None
  end.

(** The write in progress has begun. *)
Definition write_begun s : Prop :=
  match ob_writer (s_ob s) with WWriting _ since => since <= s_now s | _ => True end.
End defs.

Section proofs.
Context {C W R S I K : Type}.
Context `{MpscSpec C, AsyncWriteSpec W, !AsyncRead R, AsyncReadSpec S}.
Context `{!AsyncWrite I, !FdWrite I, KernelSpec K}.
Context `{!Json, !Fmt, !Shlex, !Spawn S I K, !PtyStreams S I}.
Implicit Types (s : session C W R S I K) (ob : outbound C W).

Lemma write_begun_step cf s e : config_ok cf -> write_begun s -> write_begun (step cf s e).
Proof.
  intros Hcf Hb. unfold step. destruct (try_event cf e s) as [s'|] eqn:E; [|done].
  unfold write_begun in *. destruct e as [env first|env|env|env|st|d]; cbn in E.
  - destruct (poll_main_moves _ _ _ _ _ Hcf E) as (-> & _ & [-> _] & _). done.
  - unfold poll_writer_task in E. destruct (poll_writer _ _ _ _) as [ob'|] eqn:Ep; [|done]. simplify_eq. cbn.
    unfold poll_writer in Ep. destruct (ob_writer (s_ob s)); [..|done]; repeat case_hyp Ep; simplify_eq; cbn; lia || done.
  - destruct (output_task_moves _ _ _ (or_introl E)) as (-> & _ & _ & _ & _ & -> & _). done.
  - destruct (output_task_moves _ _ _ (or_intror E)) as (-> & _ & _ & _ & _ & -> & _). done.
  - injection E as <-. destruct (child_exit_moves st s) as (-> & _ & _ & _ & _ & -> & _). done.
  - unfold tick in E. case_match eqn:Eg; [|done]. injection E as <-. cbn. bool_prop.
    destruct (ob_writer (s_ob s)); lia || done.
Qed.

(** ** The backlog *)

Lemma backlog_send cf log now f ob q ob' n :
  config_ok cf -> wire_inv log ob ->
  poll_send f ob = Some (q, ob') -> backlog cf now ob' n <= backlog cf now ob (1 + n).
Proof.
  unfold poll_send, receiver_gone, backlog. intros (_ & Hw & _) (Hb & Hl & _) E.
  destruct (ob_writer ob) eqn:Ew; [..|by simplify_eq; rewrite Ew];
    (destruct (Nat.lt_ge_cases (length (queued (ob_chan ob))) (bound (ob_chan ob))) as [Hlt|Hge];
      [|by rewrite try_send_full in E]);
    destruct (try_send_room f _ Hlt) as (c' & Es & Hq & _); rewrite Es in E; simplify_eq; cbn;
    rewrite Ew, Hq, length_app; cbn; nia.
Qed.

Lemma backlog_writer cf now env ob ob' n :
  0 <= cf_write_timeout cf ->
  match ob_writer ob with WWriting _ since => since <= now <= since + cf_write_timeout cf | _ => True end ->
  poll_writer (cf_write_timeout cf) now env ob = Some ob' -> backlog cf now ob' n <= backlog cf now ob n.
Proof.
  unfold poll_writer, backlog. intros Hw Hs E. destruct (ob_writer ob) as [|g since|]; [| |done].
  - destruct (ob_cancel ob); [simplify_eq; cbn; nia|].
    destruct (queued (ob_chan ob)) as [|h l] eqn:Eq.
    + rewrite (try_recv_none _ Eq) in E. case_hyp E; simplify_eq; cbn; nia.
    + destruct (try_recv_some _ _ _ Eq) as (c' & Er & Hq & _). rewrite Er in E. simplify_eq; cbn.
      nia.
  - repeat case_hyp E; simplify_eq; cbn; nia.
Qed.

(** The clock and the queue bound the backlog from both sides. *)
Lemma backlog_bounds cf log s n :
  config_ok cf -> time_inv cf s -> write_begun s -> wire_inv log (s_ob s) -> (n <= 1)%nat ->
  s_now s <= backlog cf (s_now s) (s_ob s) n <= s_now s + FLUSH cf.
Proof.
  intros (_ & Hw & _) (Ht & _) Hb (_ & Hl & _) Hn. unfold backlog, FLUSH, write_begun in *.
  destruct (ob_writer (s_ob s)) as [|g since|] eqn:Ew; [nia| |nia].
  assert (s_now s <= since + cf_write_timeout cf); [|nia].
  apply Ht, elem_of_app. right. unfold writer_timers. rewrite Ew. by apply list_elem_of_singleton.
Qed.
(** ** One step *)

Definition due (cf : config) (limit : Z) s : Prop :=
  finished s = true \/ exists h, end_by cf s = Some h /\ h <= limit.

Definition clocks_ok (cf : config) s : Prop := session_inv cf s /\ time_inv cf s /\ write_begun s.

Lemma clocks_ok_step cf s e : config_ok cf -> clocks_ok cf s -> clocks_ok cf (step cf s e).
Proof.
  intros Hcf (Hi & Ht & Hb).
  split_and!; [by apply session_inv_step|by apply time_inv_step|by apply write_begun_step].
Qed.

Lemma end_by_exec cf env s x x' (r' : R) ob' h :
  config_ok cf -> clocks_ok cf s -> s_main s = MExec x -> end_by cf s = Some h ->
  poll_exec cf (s_now s) env x (s_reader s) (s_ob s) = Some (x', r', ob') ->
  exists h', end_by cf (with_io (MExec x') r' ob' (s_kernel s) s) = Some h' /\ h' <= h.
Proof.
  intros Hcf ((asked & _ & log & Hi) & Ht & Hb) Em Eh E. pose proof (ci_wire _ _ _ _ _ Hi) as Hw.
  assert (Hlog : s_now s <= backlog cf (s_now s) (s_ob s) 1 <= s_now s + FLUSH cf) by by eapply backlog_bounds.
  assert (Htm : forall t, t ∈ exec_timers cf x -> s_now s <= t).
  { intros t Hin. apply Ht, elem_of_app. left. by rewrite Em. }
  unfold end_by in *. rewrite Em in Eh. cbn. unfold poll_exec, exec_timers in *.
  destruct (ex_phase x) as [|reason since|raw reason since|raw reason since|f|res] eqn:Ep;
    try specialize (Htm _ (proj2 (list_elem_of_singleton _ _) eq_refl)).
  - destruct (ex_timer x) as [t|] eqn:Etm; [|done]. cbn in Eh. simplify_eq.
    assert (s_now s <= t) by (apply Htm; left).
    repeat case_hyp E; simplify_eq; cbn; rewrite ?Ep, ?Etm; cbn; eexists; (split; [done|graces; lia]).
  - destruct (reap_bounded _ _ _) as [[raw ch]|]; [|done]. simplify_eq; cbn. eexists; split; [done|graces; lia].
  - repeat case_hyp E; simplify_eq; cbn; eexists; (split; [done|graces; lia]).
  - assert (He : forall (x1 : exec_state S I) ob1, backlog cf (s_now s) ob1 1 = backlog cf (s_now s) (s_ob s) 1 ->
      exists h', end_by cf (with_io (MExec (set_phase (exit_step raw reason) x1)) r' ob1 (s_kernel s) s) = Some h' /\ h' <= h).
    { intros x1 ob1 Hob. unfold end_by, exit_step. destruct (exit_fields raw reason).
      simplify_eq. destruct (to_vec_exit _ _); cbn; rewrite Hob; eexists; (split; [done|lia]). }
    destruct (pump_over _); [simplify_eq; by apply He|]. destruct (_ <=? s_now s); [|done].
    unfold abort_pump in E. case_hyp E; simplify_eq; by apply He.
  - destruct (poll_send f (s_ob s)) as [[q ob1]|] eqn:Es; [|done]. simplify_eq. cbn.
    eexists; split; [done|]. by eapply backlog_send.
  - done.
Qed.

Lemma end_by_main cf env first s s' limit :
  config_ok cf -> clocks_ok cf s -> due cf limit s -> poll_main cf env first s = Some s' -> due cf limit s'.
Proof.
  intros Hcf Hok [Hf|(h & Eh & Hh)] E; [by rewrite finished_poll in E|].
  assert (Hle : forall s1, (exists h', end_by cf s1 = Some h' /\ h' <= h) -> due cf limit s1).
  { intros s1 (h' & ? & ?). right. exists h'. split; [done|lia]. }
  pose proof Hok as ((asked & _ & log & Hi) & Ht & Hb). pose proof (ci_wire _ _ _ _ _ Hi) as Hw.
  unfold poll_main in E. destruct (s_main s) as [since|msg|x|p|e|res|res] eqn:Em;
    try (unfold end_by in Eh; rewrite Em in Eh; discriminate).
  - assert (Hx : (exists res, ex_phase x = ExReturned res /\ s' = drive_returned res s) \/
      exists x' r' ob', poll_exec cf (s_now s) env x (s_reader s) (s_ob s) = Some (x', r', ob') /\
        s' = with_io (MExec x') r' ob' (s_kernel s) s).
    { destruct (poll_exec _ _ _ _ _ _) as [[[x' r'] ob']|]; destruct (ex_phase x); simplify_eq; eauto 10. }
    apply Hle. destruct Hx as [(res & Ep & ->)|(x' & r' & ob' & Ex & ->)].
    + unfold end_by in *. rewrite Em, Ep in Eh. destruct res; simplify_eq; cbn; eexists; (split; [done|]); done.
    + by eapply end_by_exec.
  - destruct (poll_send _ _) as [[q ob']|] eqn:Es; [|done]. simplify_eq. apply Hle.
    unfold end_by in *. rewrite Em in Eh. simplify_eq. cbn. eexists; split; [done|].
    change (backlog cf (s_now s) ob' 0 <= backlog cf (s_now s) (s_ob s) 1).
    by eapply backlog_send.
  - destruct (receiver_gone _); [|done]. simplify_eq. by left.
Qed.

Lemma end_by_writer cf env s s' limit :
  config_ok cf -> clocks_ok cf s -> due cf limit s -> poll_writer_task cf env s = Some s' -> due cf limit s'.
Proof.
  intros Hcf (_ & (Ht & _) & Hb) Hd E. unfold poll_writer_task in E.
  destruct (poll_writer _ _ _ _) as [ob'|] eqn:Ep; [|done]. simplify_eq.
  destruct Hd as [Hf|(h & Eh & Hh)]; [by left|right].
  assert (Hlog : forall n, backlog cf (s_now s) ob' n <= backlog cf (s_now s) (s_ob s) n).
  { intros n. apply (backlog_writer cf (s_now s) env); [exact (proj1 (proj2 Hcf))| |done]. unfold write_begun in Hb.
    destruct (ob_writer (s_ob s)) as [|g since|] eqn:Ew; [done| |done]. split; [done|].
    apply Ht, elem_of_app. right. unfold writer_timers. rewrite Ew. by apply list_elem_of_singleton. }
  pose proof (Hlog 0%nat). pose proof (Hlog 1%nat). unfold end_by in *; cbn in *.
  destruct (s_main s) as [since|msg|x|p|e|res|res]; try done; [destruct (ex_phase x) as [| | | | |[]]|..];
    simplify_eq; eexists; (split; [done|lia]).
Qed.

(** The output tasks are over once the terminal frame is due. *)
Lemma end_by_output cf env s s' limit :
  clocks_ok cf s -> due cf limit s ->
  poll_out_task env s = Some s' \/ poll_err_task env s = Some s' -> due cf limit s'.
Proof.
  intros ((asked & _ & log & Hi) & _) Hd E. destruct (output_task_moves _ _ _ E) as (_ & _ & _ & _ & _ & _ & _ & Hfin).
  destruct Hd as [Hf|(h & Eh & Hh)]; [left; congruence|right].
  pose proof (ci_drained _ _ _ _ _ Hi) as Hdr. unfold end_by, poll_out_task, poll_err_task in *.
  assert (Hover : forall ft (p : pump S), pump_over p = true -> poll_pump ft env p (s_ob s) = None).
  { unfold poll_pump, pump_over. intros ft p. by destruct (pm_state p). }
  destruct (s_main s) as [| |x|[]| | |]; try done; [|by destruct E..]. cbn in Hdr.
  destruct (ex_phase x) as [| | | | |res] eqn:Ep;
    [..|destruct Hdr as (Ho & He & _); rewrite !Hover in E by done; by destruct E
       |destruct Hdr as (Ho & He); rewrite !Hover in E by done; by destruct E];
    destruct E as [E|E]; (destruct (poll_pump _ _ _ _) as [[p' ob']|]; [|done]);
    simplify_eq; cbn; rewrite Ep; by eauto.
Qed.

(** Past the last bounded phase, time passes only while a write is in progress. *)
Lemma late_not_parked cf s :
  session_inv cf s ->
  match s_main s with
  | MExec x => match ex_phase x with ExSendExit _ | ExReturned _ => True | _ => False end
  | MReport _ | MJoin _ => True
  | _ => False
  end ->
  all_parked cf s = true -> exists g since, ob_writer (s_ob s) = WWriting g since.
Proof.
  intros (asked & _ & log & Hi) Hl Hpk. unfold all_parked in Hpk. bool_prop.
  pose proof (ci_wire _ _ _ _ _ Hi) as (Hb & _ & _). pose proof (ci_senders _ _ _ _ _ Hi) as Hs.
  assert (Hw : poll_writer (cf_write_timeout cf) (s_now s) parked_env (s_ob s) = None).
  { unfold poll_writer_task in *. by destruct (poll_writer _ _ _ _). }
  assert (Hm : poll_main cf parked_env 0 s = None) by (by destruct (poll_main _ _ _ _)).
  destruct (ob_writer (s_ob s)) as [|g since|] eqn:Ew; [exfalso|by eauto|exfalso].
  - unfold poll_writer in Hw. rewrite Ew in Hw. destruct (ob_cancel _); [done|].
    destruct (queued (ob_chan (s_ob s))) as [|h l] eqn:Eq.
    2:{ destruct (try_recv_some _ _ _ Eq) as (c' & E & _). by rewrite E in Hw. }
    assert (Hsend : forall f, exists c', try_send f (ob_chan (s_ob s)) = Some c').
    { intros f. destruct (try_send_room f (ob_chan (s_ob s))) as (c' & E & _); [|by eauto].
      rewrite Eq, Hb. cbn. unfold CHANNEL_BOUND. lia. }
    rewrite (try_recv_none _ Eq), Hs in Hw.
    unfold poll_main, poll_exec, poll_send, receiver_gone in Hm. rewrite Ew in Hm.
    destruct (s_main s) as [| |x| |e|res|]; try done.
    + destruct (ex_phase x) as [| | | |f|]; try done. by destruct (Hsend f) as (c' & Es); rewrite Es in Hm.
    + destruct (Hsend (error_frame (session_error_msg e))) as (c' & Es). by rewrite Es in Hm.
  - unfold poll_main, poll_exec, poll_send, receiver_gone in Hm. rewrite Ew in Hm.
    destruct (s_main s) as [| |x| |e|res|]; try done. by destruct (ex_phase x).
Qed.

Lemma end_by_tick cf d s s' limit :
  clocks_ok cf s -> due cf limit s -> tick cf d s = Some s' -> due cf limit s'.
Proof.
  intros (Hi & _) [Hf|(h & Eh & Hh)] E; unfold tick in E; (case_match eqn:Eg; [|done]); injection E as <-; [by left|].
  right. bool_prop. pose proof (late_not_parked cf s Hi) as Hlate. unfold end_by in *. cbn.
  destruct (s_main s) as [since|msg|x|p|e|res|res]; try done;
    [destruct (ex_phase x) as [| | | | |[]]; [by eauto..|idtac|idtac|idtac]|..];
    (destruct Hlate as (g & since & Ew); [done|done|]); unfold backlog in *; rewrite Ew in *; by eauto.
Qed.

Lemma due_step cf limit s e :
  config_ok cf -> clocks_ok cf s -> due cf limit s -> due cf limit (step cf s e).
Proof.
  intros Hcf Hok Hd. unfold step. destruct (try_event cf e s) as [s'|] eqn:E; [|done].
  destruct e as [env first|env|env|env|st|d]; cbn in E.
  - by eapply end_by_main.
  - by eapply end_by_writer.
  - eapply end_by_output; eauto.
  - eapply end_by_output; eauto.
  - injection E as <-. unfold due in *.
    destruct (child_exit_moves st s) as (_ & _ & _ & _ & _ & _ & Hf). rewrite Hf.
    destruct Hd as [|(h & Eh & Hh)]; [by left|right; exists h; split; [|done]].
    rewrite <- Eh. unfold end_by, child_exit. by destruct (s_main s) as [| |x|[]| | |].
  - by eapply end_by_tick.
Qed.

Lemma due_run cf limit s es :
  config_ok cf -> clocks_ok cf s -> due cf limit s -> due cf limit (run cf s es) /\ clocks_ok cf (run cf s es).
Proof.
  intros Hcf. revert s. induction es as [|e es IH]; intros s Hok Hd; [done|]. cbn.
  apply IH; [by apply clocks_ok_step|by apply due_step].
Qed.

Lemma clocks_ok_new cf r (w : W) (k : K) b es :
  config_ok cf -> written w = [] ->
  clocks_ok cf (run cf (new_session (S := S) (I := I) (C := C) (R := R) r w k b) es).
Proof.
  intros Hcf Hw. assert (Hn : clocks_ok cf (new_session (S := S) (I := I) (C := C) (R := R) r w k b)).
  { split_and!; [by apply session_inv_new|by apply time_inv_new|done]. }
  revert Hn. generalize (new_session (S := S) (I := I) (C := C) (R := R) r w k b).
  induction es as [|e es IH]; intros s Hs; [done|]. cbn. by apply IH, clocks_ok_step.
Qed.

(** The clock has not passed [end_by]. *)
Lemma now_le_end_by cf s h :
  config_ok cf -> clocks_ok cf s -> end_by cf s = Some h -> s_now s <= h.
Proof.
  intros Hcf ((asked & _ & log & Hi) & Ht & Hb) Eh. pose proof (ci_wire _ _ _ _ _ Hi) as Hw.
  assert (Hlog : forall n, (n <= 1)%nat -> s_now s <= backlog cf (s_now s) (s_ob s) n)
    by (intros n Hn; by apply (backlog_bounds cf log s n)).
  assert (Hfl : 0 <= FLUSH cf) by (unfold FLUSH; destruct Hcf as (_ & ? & _); lia).
  destruct Ht as (Htm & _). unfold end_by, timers in *.
  destruct (s_main s) as [since|msg|x|p|e|res|res]; try done; [|simplify_eq; apply Hlog; lia..].
  cbn in Htm. unfold exec_timers in Htm.
  assert (Hone : forall t, t ∈ [t] ++ writer_timers cf (s_ob s)) by (intros t; left).
  destruct (ex_phase x) as [| | | | |[]];
    [destruct (ex_timer x) as [t|]; [|done]; cbn in *; simplify_eq; assert (s_now s <= t) by (apply Htm; left); graces; lia
    |simplify_eq; specialize (Htm _ (Hone _)); graces; lia..
    |simplify_eq; apply Hlog; lia
    |simplify_eq; apply Hlog; lia
    |simplify_eq; apply Hlog; lia].
Qed.

(** C7 A deadline bounds the session: whenever a command with deadline instant
    [t] is still running, then along every further execution -- a child that
    survives its kill, grandchildren that keep the pipes open, a peer that
    reads one frame per write timeout -- the session is over by [t] plus the
    5.5 seconds of the kill, the reap and the two drains, plus one write
    timeout for each frame a full queue can hold, the one being written and the
    terminal one. *)
Theorem exec_deadline_bounded cf r (w : W) (k : K) b es es' x t :
  config_ok cf -> written w = [] ->
  let s := run cf (new_session (S := S) (I := I) (C := C) (R := R) r w k b) es in
  s_main s = MExec x -> ex_phase x = ExRunning -> ex_timer x = Some t ->
  let s' := run cf s es' in
  finished s' = true \/ s_now s' <= t + (REAP_GRACE + DRAIN_GRACE + DRAIN_GRACE + FLUSH cf).
Proof.
  intros Hcf Hw s Em Ep Et s'. pose proof (clocks_ok_new cf r w k b es Hcf Hw) as Hok.
  destruct (due_run cf (t + (REAP_GRACE + DRAIN_GRACE + DRAIN_GRACE + FLUSH cf)) s es' Hcf Hok) as [[|(h & Eh & Hh)] Hok'].
  - right. unfold end_by. rewrite Em, Ep, Et. cbn. eexists; split; [done|lia].
  - by left.
  - right. pose proof (now_le_end_by cf s' h Hcf Hok' Eh). lia.
Qed.
End proofs.
