(* ===== verification/SessionInput.v ===== *)
(** * SessionInput: what the host sends reaches the child

    The input direction of the composed session: the bytes written to the
    command's stdin or to the terminal are the payloads of the client's STDIN
    frames, in order and nothing else, and the terminal's window follows its
    RESIZE frames. *)

From S2P Require Import Prelude AsyncIO Frame Duration Status Request Shell Outbound Pump.
From S2P Require Import Stdin Exec FdOps Pty Session.

(** What a shell should receive: every STDIN payload; a terminal has no STDIN_EOF. *)
Fixpoint tty_bytes (fs : list Frame) : list byte :=
  match fs with
  | [] => []
  | f :: fs' => if decide (ftype f = FRAME_STDIN) then payload f ++ tty_bytes fs' else tty_bytes fs'
  end.

Lemma tty_bytes_app fs gs : tty_bytes (fs ++ gs) = tty_bytes fs ++ tty_bytes gs.
Proof.
  induction fs as [|f fs IH]; [done|]. cbn. rewrite IH. case_decide; [by rewrite app_assoc|done].
Qed.

(** The window changes the frames ask for. *)
Definition resize_of `{!Json} (master : Z) (f : Frame) : option (Z * (Z * Z)) :=
  if decide (ftype f = FRAME_RESIZE) then
    match from_slice_resize (payload f) with
    | Ok rs => Some (master, (rs_rows rs, rs_cols rs))
    | Err _ => None
    end
  else None.
Definition resizes `{!Json} (master : Z) (fs : list Frame) : list (Z * (Z * Z)) := omap (resize_of master) fs.
Definition initial_size (req : Request) : Z * Z := (default 24 (rows req), default 80 (cols req)).

Lemma resizes_app `{!Json} master fs gs : resizes master (fs ++ gs) = resizes master fs ++ resizes master gs.
Proof. apply omap_app. Qed.

Section defs.
Context {C W R S I K : Type} `{!ReadView R, !WriteView I, !Kernel K, !KernelView K, !Json, !Fmt}.
Implicit Types (s : session C W R S I K) (l : live S I) (r : R) (k : K).

(** [seen] is what the input task has read of the client's frames [fs]; [base]
    are the window sizes requested before. *)
Definition tty_inv (c : inbound_cell) (fs : list Frame) (base : list (Z * (Z * Z))) l r k : Prop :=
  exists seen rest, fs = seen ++ rest /\ Forall (frame_fits MAX_FRAME_LEN) rest /\
    Forall (frame_fits c) rest /\ winsizes k = base ++ resizes (lv_master l) seen /\
    match lv_input l with
    | InReading _ => incoming r = encode_frames rest /\ written (lv_write l) = tty_bytes seen
    | InWriting data off _ => incoming r = encode_frames rest /\
        written (lv_write l) ++ drop off data = tty_bytes seen
    | InOver => written (lv_write l) `prefix_of` tty_bytes seen
    end.

(** The window sizes a session may have requested, from [ws0] on: none, or the
    request's and then those of some of the frames, in order. *)
Definition window_history (f0 : Frame) (fs : list Frame) (ws0 ws : list (Z * (Z * Z))) : Prop :=
  ws = ws0 \/ exists req master seen, dispatch (Ok (Some f0)) = RunPty req /\ seen `prefix_of` fs /\
    ws = ws0 ++ (master, initial_size req) :: resizes master seen.

(** The client sent [f0 :: fs]. *)
Definition session_input_inv (cf : config) (f0 : Frame) (fs : list Frame) (ws0 : list (Z * (Z * Z))) s : Prop :=
  match s_main s with
  | MFirst _ => incoming (s_reader s) = encode_frames (f0 :: fs) /\ winsizes (s_kernel s) = ws0
  | MExec x => stdin_inv (cf_inbound_cap cf) fs (ex_stdin x) (s_reader s) /\ winsizes (s_kernel s) = ws0
  | MPty (PtyOpening req) => incoming (s_reader s) = encode_frames fs /\ winsizes (s_kernel s) = ws0 /\
      dispatch (Ok (Some f0)) = RunPty req
  | MPty (PtyLive l) => exists req, dispatch (Ok (Some f0)) = RunPty req /\
      tty_inv (cf_inbound_cap cf) fs (ws0 ++ [(lv_master l, initial_size req)]) l (s_reader s) (s_kernel s)
  | _ => window_history f0 fs ws0 (winsizes (s_kernel s))
  end.
End defs.

(** Nothing has been written to a child's input before the session does, and
    spawning a command resizes no terminal. *)
Class FreshInputs (S I K : Type) `{!WriteView I, !KernelView K, !Spawn S I K, !PtyStreams S I} : Prop := {
  spawn_fresh cmd k ch k' : spawn cmd k = (Ok ch, k') -> written (sp_stdin ch) = [];
  command_winsizes cmd k r k' : spawn cmd k = (r, k') -> winsizes k' = winsizes k;
  pty_writer_fresh master : written (pty_writer master) = [];
}.

Section proofs.
Context {C W R S I K : Type}.
Context `{!Mpsc C, !AsyncWrite W, AsyncReadSpec R, !AsyncRead S}.
Context `{AsyncWriteSpec I, !FdWrite I, !FdWriteSpec I, WinsizeSpec K}.
Context `{!Json, !Fmt, !Shlex, !Spawn S I K, !PtyStreams S I, !FreshInputs S I K}.
Implicit Types (s : session C W R S I K) (l : live S I) (ob : outbound C W).

(** ** The terminal's input task *)

(** The input task owns these fields, the reader and the window. *)
Lemma tty_inv_same c fs base l l' (r : R) (k k' : K) :
  lv_input l' = lv_input l -> lv_write l' = lv_write l -> lv_master l' = lv_master l ->
  winsizes k' = winsizes k -> tty_inv c fs base l r k -> tty_inv c fs base l' r k'.
Proof. unfold tty_inv. by intros -> -> -> ->. Qed.

Lemma tty_frame now master seen f (k k' : K) st (i : I) :
  written i = tty_bytes seen -> input_frame now master (Ok (Some f)) k = (st, k') ->
  winsizes k' = winsizes k ++ resizes master [f] /\
  match st with
  | InReading _ => written i = tty_bytes (seen ++ [f])
  | InWriting data off _ => written i ++ drop off data = tty_bytes (seen ++ [f])
  | InOver => False
  end.
Proof.
  intros Hw. rewrite tty_bytes_app. unfold resizes. cbn. unfold resize_of.
  destruct (decide (ftype f = FRAME_STDIN)) as [E|E].
  - rewrite bool_decide_eq_true_2 by done. intros [= <- <-]. rewrite decide_False by (by rewrite E).
    split; [by rewrite app_nil_r|]. by rewrite app_nil_r, Hw.
  - rewrite bool_decide_eq_false_2 by done. rewrite app_nil_r.
    destruct (decide (ftype f = FRAME_RESIZE)) as [E'|E'].
    + rewrite bool_decide_eq_true_2 by done. destruct (from_slice_resize _) as [rs|e]; intros [= <- <-].
      * split; [|done]. apply winsize_logged.
      * split; [by rewrite app_nil_r|done].
    + rewrite bool_decide_eq_false_2 by done. intros [= <- <-]. split; [by rewrite app_nil_r|done].
Qed.

Lemma tty_inv_input cf fs base now env b l (r r' : R) (k k' : K) st i fired :
  tty_inv (cf_inbound_cap cf) fs base l r k -> poll_input cf now env b l r k = Some (st, i, r', k', fired) ->
  tty_inv (cf_inbound_cap cf) fs base (lv_set_input st i l) r' k'.
Proof.
  intros (seen & rest & -> & HM & Hc & Hws & Hst). unfold poll_input. intros E.
  destruct (lv_input l) as [since|data off since|]; [| |done].
  - destruct Hst as [Hin Hw]. destruct (io_ready env).
    2:{ case_hyp E; simplify_eq. exists seen, rest. cbn. by rewrite Hw. }
    destruct rest as [|f rest].
    + destruct (read_frame_short (cf_inbound_cap cf) r) as (r1 & Er); [rewrite Hin; cbn; lia|].
      rewrite Er in E. exists seen, []. split; [done|]. split; [done|]. split; [done|].
      destruct (ending r) as [e|]; [destruct (is_unexpected_eof e)|]; cbn in E; simplify_eq; cbn;
        by rewrite Hw.
    + apply Forall_cons in HM as [HMf HM]. apply Forall_cons in Hc as [Hcf Hc].
      rewrite encode_frames_cons in Hin.
      destruct (read_frame_encoded _ r f _ HMf Hcf Hin) as (r1 & Er & Hi & _). rewrite Er in E.
      destruct (input_frame _ _ _ _) as [st1 k1] eqn:Ef. simplify_eq.
      exists (seen ++ [f]), rest. split; [by rewrite <- app_assoc|]. split; [done|]. split; [done|].
      destruct (tty_frame _ _ _ _ _ _ _ _ Hw Ef) as [Hk Hf].
      split; [by rewrite Hk, Hws, resizes_app, app_assoc|]. by destruct st.
  - destruct Hst as [Hin Hw].
    assert (Hpre : written (lv_write l) `prefix_of` tty_bytes seen) by (rewrite <- Hw; apply prefix_app_split).
    destruct b; [simplify_eq; by exists seen, rest|].
    destruct (Nat.leb_spec (length data) off) as [Hle|Hlt].
    { simplify_eq. exists seen, rest. cbn. rewrite drop_ge, app_nil_r in Hw by done. by split_and!. }
    destruct (io_ready env); [|case_hyp E; simplify_eq; by exists seen, rest].
    destruct (write_fd_attempt data off (lv_write l)) as [[[[]|e]|off'] i1] eqn:Ew; simplify_eq;
      apply write_fd_attempt_spec in Ew; try done; exists seen, rest; cbn; (split_and!; [done..|]).
    + by rewrite Ew.
    + by rewrite Ew.
    + destruct Ew as [Ho ->]. rewrite <- Hw, <- app_assoc. f_equal.
      rewrite <- (take_drop (off' - off) (drop off data)) at 2. f_equal. rewrite drop_drop. f_equal. lia.
Qed.

(** What is left of the invariant in each state of [open_pty]. *)
Definition pty_input_inv (cf : config) (fs : list Frame) (base : list (Z * (Z * Z))) (master : Z)
    (p : pty_state S I) (r : R) (k : K) : Prop :=
  match p with
  | PtyLive l => lv_master l = master /\ tty_inv (cf_inbound_cap cf) fs base l r k
  | PtyOpening _ => False
  | _ => exists seen, seen `prefix_of` fs /\ winsizes k = base ++ resizes master seen
  end.

Lemma tty_inv_over cf fs base l (r : R) (k k' : K) :
  tty_inv (cf_inbound_cap cf) fs base l r k -> winsizes k' = winsizes k ->
  exists seen, seen `prefix_of` fs /\ winsizes k' = base ++ resizes (lv_master l) seen.
Proof. intros (seen & rest & -> & _ & _ & Hws & _) ->. exists seen. split; [apply prefix_app_split|done]. Qed.

Lemma tty_inv_live cf fs base now env first l (r r' : R) ob ob' (k k' : K) (p : pty_state S I) :
  tty_inv (cf_inbound_cap cf) fs base l r k -> poll_live cf now env first l r ob k = Some (p, r', ob', k') ->
  pty_input_inv cf fs base (lv_master l) p r' k'.
Proof.
  intros Hi E. unfold poll_live in E.
  destruct (lv_phase l) as [|since|since|raw reason since|f] eqn:Ep.
  - destruct (poll_select _ _ _ _ _ _ _ _) as [[[[l1 r1] ob1] k1]|] eqn:Es; [|done]. simplify_eq.
    destruct (poll_select_arms _ _ _ _ _ _ _ _ _ _ _ _ Es) as [Ha|([Ha|Ha] & -> & -> & ->)].
    + unfold arm_input in Ha. destruct (poll_input _ _ _ _ _ _ _) as [[[[[st i] r2] k2] fired]|] eqn:Ei; [|done].
      apply (tty_inv_input _ _ _ _ _ _ _ _ _ _ _ _ _ _ Hi) in Ei. simplify_eq.
      split; [by destruct st|].
      eapply (tty_inv_same _ _ _ (lv_set_input st i l)); [..|exact Ei]; by destruct st.
    + unfold arm_child in Ha. destruct (lv_child l); simplify_eq. split; [done|]. by eapply tty_inv_same.
    + unfold arm_cancel in Ha. case_hyp Ha; simplify_eq. split; [done|]. by eapply tty_inv_same.
  - destruct (lv_child l); try case_hyp E; simplify_eq; (split; [done|]); by eapply tty_inv_same.
  - destruct (reap_bounded _ _ _) as [[raw ch]|]; simplify_eq. split; [done|]. by eapply tty_inv_same.
  - assert (Hf : forall l' ob0 p1 ob1 k1, lv_input l' = lv_input l -> lv_write l' = lv_write l ->
      lv_master l' = lv_master l -> pty_finish raw reason l' ob0 k = (p1, ob1, k1) ->
      pty_input_inv cf fs base (lv_master l) p1 r k1).
    { unfold pty_finish, pty_exit_step. intros l' ob0 p1 ob1 k1 E1 E2 E3. destruct (exit_fields raw reason).
      destruct (to_vec_exit _ _); intros [= <- _ <-].
      - split; [done|]. by eapply tty_inv_same.
      - eapply tty_inv_over; [exact Hi|]. apply close_winsizes. }
    destruct (pump_over _).
    { destruct (pty_finish _ _ _ _ _) as [[p1 ob1] k1] eqn:Ef. simplify_eq. by eapply Hf. }
    destruct (_ <=? now); [|done]. destruct (abort_pump (lv_out l) ob) as [out ob0].
    destruct (pty_finish _ _ _ _ _) as [[p1 ob1] k1] eqn:Ef. simplify_eq. by eapply (Hf (lv_set_out out l)).
  - destruct (poll_send _ _) as [[q ob1]|]; simplify_eq. eapply tty_inv_over; [exact Hi|]. apply close_winsizes.
Qed.

(** ** The session *)


(** ** The session *)

Lemma setup_winsizes cf now req master slave ob ob' (k k' : K) (p : pty_state S I) :
  pty_setup cf now req master slave ob k = (p, ob', k') ->
  winsizes k' = winsizes k ++ [(master, initial_size req)].
Proof.
  unfold pty_setup, pty_started, set_winsize. unfold initial_size.
  rewrite <- (winsize_logged master (default 24 (rows req)) (default 80 (cols req)) k).
  destruct (set_cloexec _ _) as [[u|e] k1] eqn:E1; apply set_cloexec_winsizes in E1 as <-.
  2: { intros [= _ _ <-]. by rewrite !close_winsizes. }
  assert (Hd : forall rs k2, dup3 slave k1 = (rs, k2) -> winsizes k2 = winsizes k1).
  { unfold dup3. intros rs k2. destruct (sys_dup slave k1) as [a ka] eqn:Ea.
    destruct (sys_dup slave ka) as [b kb] eqn:Eb, (sys_dup slave kb) as [c kc] eqn:Ec. intros [= _ <-].
    apply dup_winsizes in Ea as <-, Eb as <-, Ec as <-. done. }
  destruct (dup3 slave k1) as [rs k2]. rewrite <- (Hd _ _ eq_refl).
  case_match; [intros [= _ _ <-]; by rewrite !close_winsizes, close_all_winsizes|].
  destruct (sys_spawn _ _ k2) as [[pid|e] k3] eqn:E3; apply spawn_winsizes in E3 as <-.
  2: { intros [= _ _ <-]. by rewrite !close_winsizes. }
  destruct (set_nonblocking _ _) as [[u1|e] k4] eqn:E4; apply set_nonblocking_winsizes in E4;
    rewrite close_winsizes, close_all_winsizes in E4; rewrite <- E4.
  2: by intros [= _ _ <-].
  destruct (sys_async_fd _ _) as [[u2|e] k5] eqn:E5; apply async_fd_winsizes in E5 as <-; intros [= _ _ <-].
  - done.
  - apply close_winsizes.
Qed.

Lemma opened_input cf now req master slave ob ob' (k k' : K) (p : pty_state S I) fs (r : R) :
  Forall (frame_fits MAX_FRAME_LEN) fs -> Forall (frame_fits (cf_inbound_cap cf)) fs ->
  incoming r = encode_frames fs -> pty_setup cf now req master slave ob k = (p, ob', k') ->
  pty_input_inv cf fs (winsizes k ++ [(master, initial_size req)]) master p r k'.
Proof.
  intros HM Hc Hin Hs. pose proof (setup_winsizes _ _ _ _ _ _ _ _ _ _ Hs) as Hws.
  assert (Hend : exists seen, seen `prefix_of` fs /\
    winsizes k' = (winsizes k ++ [(master, initial_size req)]) ++ resizes master seen).
  { exists []. split; [apply prefix_nil|]. by rewrite app_nil_r. }
  revert Hs. unfold pty_setup, pty_started.
  destruct (set_cloexec _ _) as [[u|e] k1]; [|by intros [= <- _ _]].
  destruct (dup3 slave k1) as [rs k2]. case_match; [by intros [= <- _ _]|].
  destruct (sys_spawn _ _ k2) as [[pid|e] k3]; [|by intros [= <- _ _]].
  destruct (set_nonblocking _ _) as [[u1|e] k4]; [|by intros [= <- _ _]].
  destruct (sys_async_fd _ _) as [[u2|e] k5]; intros [= <- _ <-]; [|done].
  split; [done|]. exists [], fs. cbn. rewrite pty_writer_fresh, app_nil_r. by split_and!.
Qed.

(** The invariant of a shell, with its request known. *)
Lemma pty_input_session cf f0 fs req master (p : pty_state S I) (r : R) (k : K) s ws0 :
  dispatch (Ok (Some f0)) = RunPty req ->
  pty_input_inv cf fs (ws0 ++ [(master, initial_size req)]) master p r k ->
  session_input_inv cf f0 fs ws0 (with_io (MPty p) r (s_ob s) k s).
Proof.
  intros Hd Hi. destruct p as [| | |l|]; cbn in *; [done| | |by destruct Hi as [<- Hi]; eauto|];
    (destruct Hi as (seen & Hpre & ->); right; exists req, master, seen; split; [done|]; split; [done|];
     by rewrite <- app_assoc).
Qed.

Lemma poll_pty_input cf f0 fs now env first (p p' : pty_state S I) (r' : R) ob' (k' : K) ws0 s :
  Forall (frame_fits MAX_FRAME_LEN) fs -> Forall (frame_fits (cf_inbound_cap cf)) fs ->
  s_main s = MPty p -> session_input_inv cf f0 fs ws0 s ->
  poll_pty cf now env first p (s_reader s) (s_ob s) (s_kernel s) = Some (p', r', ob', k') ->
  session_input_inv cf f0 fs ws0 (with_io (MPty p') r' ob' k' s).
Proof.
  intros HM Hc Em Hi E. unfold session_input_inv in Hi. rewrite Em in Hi.
  destruct p as [req|msg owned|msg mo ch ks since|l|ks res]; cbn [poll_pty] in E; [| | | |done].
  - destruct Hi as (Hin & Hws & Hd). destruct (io_ready env); [|done].
    destruct (sys_openpty (s_kernel s)) as [o k1] eqn:Eo. apply openpty_winsizes in Eo.
    destruct o as [[ma sl]|[e|e]]; [|simplify_eq; left; cbn; congruence..].
    destruct (pty_setup _ _ _ _ _ _ _) as [[p1 ob1] k2] eqn:Es. simplify_eq.
    apply (pty_input_session cf f0 fs req ma _ _ _ s _ Hd). rewrite <- Eo. by eapply opened_input.
  - destruct (poll_send _ _) as [[q ob1]|]; simplify_eq. cbn. by rewrite close_all_winsizes.
  - repeat case_hyp E; simplify_eq; cbn; rewrite ?close_winsizes; done.
  - destruct Hi as (req & Hd & Hi). eapply (pty_input_session _ _ _ _ _ _ _ _ s _ Hd). by eapply tty_inv_live.
Qed.

Lemma exec_input cf fs now env (x x' : exec_state S I) (r r' : R) ob ob' :
  stdin_inv (cf_inbound_cap cf) fs (ex_stdin x) r -> poll_exec cf now env x r ob = Some (x', r', ob') ->
  stdin_inv (cf_inbound_cap cf) fs (ex_stdin x') r'.
Proof.
  intros Hi E. unfold poll_exec in E. destruct (ex_phase x) as [|reason since|raw reason since|raw reason since|f|res].
  - destruct (ob_cancel ob); [by simplify_eq|]. destruct (deadline_elapsed now x); [by simplify_eq|].
    destruct (poll_stdin _ _ _ _ _ _ _) as [[[t r1] fired]|] eqn:Es;
      destruct (ex_child x); simplify_eq; try done; by eapply stdin_inv_poll.
  - destruct (reap_bounded _ _ _) as [[raw ch]|]; by simplify_eq.
  - repeat case_hyp E; by simplify_eq.
  - repeat case_hyp E; by simplify_eq.
  - repeat case_hyp E; by simplify_eq.
  - done.
Qed.

(** Before the terminal is live and after it is over, only the window is left. *)
Lemma session_input_history cf f0 fs ws0 s :
  session_input_inv cf f0 fs ws0 s -> window_history f0 fs ws0 (winsizes (s_kernel s)).
Proof.
  unfold session_input_inv, window_history.
  destruct (s_main s) as [since|msg|x|[req| | |l|]|e|res|res]; try done; [by intros [_ ?]; left..|by intros (_ & ? & _); left|].
  intros (req & Hd & seen & rest & -> & _ & _ & -> & _). right. exists req, (lv_master l), seen.
  split; [done|]. split; [apply prefix_app_split|]. by rewrite <- app_assoc.
Qed.

Lemma drive_returned_input cf f0 fs ws0 res s :
  window_history f0 fs ws0 (winsizes (s_kernel s)) -> session_input_inv cf f0 fs ws0 (drive_returned res s).
Proof. by destruct res. Qed.

Lemma started_input cf f0 fs ws0 req s :
  Forall (frame_fits MAX_FRAME_LEN) fs -> Forall (frame_fits (cf_inbound_cap cf)) fs ->
  incoming (s_reader s) = encode_frames fs -> winsizes (s_kernel s) = ws0 ->
  session_input_inv cf f0 fs ws0 (start_exec cf req s).
Proof.
  intros HM Hc Hin <-. unfold start_exec, exec_begin. destruct (warn_long_command _ _) as [b line]. cbn.
  destruct (effective_deadline _ _) as [dl|d]; [|by left].
  destruct (spawn _ _) as [[ch|e] k1] eqn:Esp; [|left; cbn; by eapply command_winsizes].
  cbn. split; [|by eapply command_winsizes].
  exists [], fs. cbn. split_and!; [done..|]. by eapply spawn_fresh.
Qed.

Lemma session_input_main cf f0 fs ws0 env first s s' :
  Forall (frame_fits MAX_FRAME_LEN) (f0 :: fs) -> Forall (frame_fits (cf_inbound_cap cf)) (f0 :: fs) ->
  session_input_inv cf f0 fs ws0 s -> poll_main cf env first s = Some s' -> session_input_inv cf f0 fs ws0 s'.
Proof.
  intros [HM0 HM]%Forall_cons [Hc0 Hc]%Forall_cons Hi E. pose proof (session_input_history _ _ _ _ _ Hi) as Hh.
  pose proof E as Ep. unfold poll_main in E. pose proof Hi as Hs. unfold session_input_inv in Hi.
  destruct (s_main s) as [since|msg|x|p|e|res|res] eqn:Em; [| | | | | |done].
  - destruct (io_ready env); [|case_hyp E; simplify_eq; by apply drive_returned_input].
    destruct Hi as [Hin Hws]. rewrite encode_frames_cons in Hin.
    destruct (read_frame_encoded _ _ f0 _ HM0 Hc0 Hin) as (r1 & Er & Hr & _). rewrite Er in E. simplify_eq.
    unfold first_frame. destruct (dispatch _) eqn:Ed; [by apply started_input|done..].
  - repeat case_hyp E; by simplify_eq.
  - destruct (poll_main_exec _ _ _ _ _ _ Em Ep) as [(res & _ & ->)|(x' & r' & ob' & Ex & ->)]; [by apply drive_returned_input|].
    destruct Hi as [Hi Hws]. split; [|done]. by eapply exec_input.
  - destruct (poll_main_pty _ _ _ _ _ _ Em Ep) as [(ks & res & _ & ->)|(p' & r' & ob' & k' & Hp & ->)]; [by apply drive_returned_input|].
    by eapply poll_pty_input.
  - repeat case_hyp E; by simplify_eq.
  - repeat case_hyp E; by simplify_eq.
Qed.

Lemma session_input_step cf f0 fs ws0 s e :
  Forall (frame_fits MAX_FRAME_LEN) (f0 :: fs) -> Forall (frame_fits (cf_inbound_cap cf)) (f0 :: fs) ->
  session_input_inv cf f0 fs ws0 s -> session_input_inv cf f0 fs ws0 (step cf s e).
Proof.
  intros HM Hc Hi. unfold step. destruct (try_event cf e s) as [s'|] eqn:E; [|done].
  destruct e as [env first|env|env|env|st|d]; cbn in E.
  - by eapply session_input_main.
  - unfold poll_writer_task in E. case_hyp E; by simplify_eq.
  - unfold poll_out_task, session_input_inv in *.
    destruct (s_main s) as [| |x|[| | |l|]| | |]; try done; case_hyp E; try case_hyp E; simplify_eq; [done|].
    cbn. destruct Hi as (req & Hd & Hi). exists req. split; [done|]. by eapply tty_inv_same.
  - unfold poll_err_task, session_input_inv in *.
    destruct (s_main s) as [| |x|[| | |l|]| | |]; try done; case_hyp E; try case_hyp E; by simplify_eq.
  - simplify_eq. unfold session_input_inv in *. cbn.
    by destruct (s_main s) as [| |x|[| | |l|]| | |].
  - unfold tick in E. case_hyp E; by simplify_eq.
Qed.

Lemma session_input_run cf f0 fs ws0 s es :
  Forall (frame_fits MAX_FRAME_LEN) (f0 :: fs) -> Forall (frame_fits (cf_inbound_cap cf)) (f0 :: fs) ->
  session_input_inv cf f0 fs ws0 s -> session_input_inv cf f0 fs ws0 (run cf s es).
Proof.
  intros HM Hc. revert s. induction es as [|e es IH]; intros s Hi; [done|]. cbn.
  by apply IH, session_input_step.
Qed.

(** C14 The child receives its host's input and nothing else, in every
    execution of a whole session: for every client that sends a first frame and
    then well-formed frames, the bytes written to the command's stdin are a
    prefix of the STDIN payloads before the first STDIN_EOF, the bytes written
    to the terminal a prefix of all STDIN payloads, in order; and whenever the
    input task is back at a read with the client's bytes used up, they are all
    of them. *)
Theorem session_input_in_order cf f0 fs (r : R) (w : W) (k : K) b es :
  Forall (frame_fits MAX_FRAME_LEN) (f0 :: fs) -> Forall (frame_fits (cf_inbound_cap cf)) (f0 :: fs) ->
  incoming r = encode_frames (f0 :: fs) ->
  let s := run cf (new_session (S := S) (I := I) (C := C) r w k b) es in
  match s_main s with
  | MExec x =>
      written (si_pipe (ex_stdin x)) `prefix_of` stdin_bytes fs /\
      (forall since, si_state (ex_stdin x) = StdinReading since -> incoming (s_reader s) = [] ->
         written (si_pipe (ex_stdin x)) = stdin_bytes fs)
  | MPty (PtyLive l) =>
      written (lv_write l) `prefix_of` tty_bytes fs /\
      (forall since, lv_input l = InReading since -> incoming (s_reader s) = [] ->
         written (lv_write l) = tty_bytes fs)
  | _ => True
  end.
Proof.
  intros HM Hc Hin s.
  pose proof (session_input_run cf f0 fs _ (new_session r w k b) es HM Hc (conj Hin eq_refl)) as Hi.
  fold s in Hi. unfold session_input_inv in Hi. destruct (s_main s) as [| |x|[| | |l|]| | |]; try done.
  - destruct Hi as [Hi _]. by apply (stdin_inv_promise (cf_inbound_cap cf)).
  - destruct Hi as (req & _ & seen & rest & -> & _ & _ & _ & Hst). rewrite tty_bytes_app.
    destruct (lv_input l) as [since|data off since|].
    + destruct Hst as [Hr ->]. split; [apply prefix_app_split|]. intros _ _ Hnil. rewrite Hr in Hnil.
      destruct rest; [|done]. by rewrite app_nil_r.
    + destruct Hst as [_ <-]. split; [|done]. rewrite <- app_assoc. apply prefix_app_split.
    + split; [|done]. by apply prefix_app_r.
Qed.

(** C15 The terminal's window is the one its client asked for, in every
    execution of a whole session: the window sizes requested of the kernel are
    none at all unless the first frame opens a shell, and otherwise those of
    its request (80x24 where it names none) followed by those of a prefix of
    the client's RESIZE frames, in order and for the shell's own terminal; once
    the input task of a live shell is back at a read with the client's bytes
    used up, they are all of them, and malformed ones changed nothing. *)
Theorem session_window_sizes cf f0 fs (r : R) (w : W) (k : K) b es :
  Forall (frame_fits MAX_FRAME_LEN) (f0 :: fs) -> Forall (frame_fits (cf_inbound_cap cf)) (f0 :: fs) ->
  incoming r = encode_frames (f0 :: fs) ->
  let s := run cf (new_session (S := S) (I := I) (C := C) r w k b) es in
  window_history f0 fs (winsizes k) (winsizes (s_kernel s)) /\
  forall l since, s_main s = MPty (PtyLive l) -> lv_input l = InReading since -> incoming (s_reader s) = [] ->
    exists req, dispatch (Ok (Some f0)) = RunPty req /\
      winsizes (s_kernel s) = winsizes k ++ (lv_master l, initial_size req) :: resizes (lv_master l) fs.
Proof.
  intros HM Hc Hin s.
  pose proof (session_input_run cf f0 fs _ (new_session r w k b) es HM Hc (conj Hin eq_refl)) as Hi.
  fold s in Hi. split; [by eapply session_input_history|].
  intros l since Em El Hnil. unfold session_input_inv in Hi. rewrite Em in Hi.
  destruct Hi as (req & Hd & seen & rest & -> & _ & _ & Hws & Hst). rewrite El in Hst. destruct Hst as [Hr _].
  rewrite Hr in Hnil. destruct rest; [|done]. exists req. split; [done|].
  rewrite app_nil_r. by rewrite <- app_assoc in Hws.
Qed.
End proofs.
