(* ===== verification/SessionDelivery.v ===== *)
(** * SessionDelivery: a settled verdict reaches the peer

    The positive side of the liveness theorems.  A session's verdict is settled
    once its answer no longer depends on anything outside: the request has been
    refused, the terminal could not be set up, the child has exited, the drain
    has begun.  From there on a peer that keeps reading gets the whole reply,
    with the settled EXIT or ERROR frame at its end, and the session is over. *)

From S2P Require Import Prelude AsyncIO Frame Duration Status Request Shell Outbound Pump.
From S2P Require Import Stdin Exec FdOps Pty Session SessionTime SessionWire SessionEnds.

#[local] Arguments encode_frames : simpl never.
#[local] Arguments encode_frame : simpl never.

(** The peer keeps reading: every frame that may be written gets written. *)
Class KeepsReading (W : Type) `{!AsyncWrite W} : Prop :=
  accepts f (w : W) : frame_fits MAX_FRAME_LEN f -> exists w', write_frame (ftype f) (payload f) w = (Ok tt, w').

(** The peer reads; nothing else is asked of anyone: the pumps get no more data
    and the child is not heard of again.  The select of [open_pty] is polled from
    the arm of the child's exit, as its random start allows. *)
Definition ready_env : poll_env := PollEnv true 0.
Definition delivery_event (e : event) : Prop :=
  match e with
  | EvMain env first => env = parked_env /\ first = 1%nat
  | EvWriterTask env => env = ready_env
  | EvOut env | EvErr env => env = parked_env
  | EvChild _ => False
  | EvTick _ => True
  end.

(** The frames the writer has yet to write. *)
Definition in_flight {C W} `{!MpscView C} (ob : outbound C W) : list Frame :=
  match ob_writer ob with WWriting f _ => f :: queued (ob_chan ob) | _ => queued (ob_chan ob) end.

Definition writer_rank {C W} (ob : outbound C W) : nat :=
  match ob_writer ob with WRecv => 1 | WWriting _ _ => 2 | WDone => 0 end.

Section defs.
Context {C W R S I K : Type} `{!Mpsc C, !MpscView C, !AsyncWrite W, !WriteView W, !Json, !Fmt}.
Implicit Types (s : session C W R S I K) (ob : outbound C W) (m : main_state S I).

(** The frame that reports how a child ended. *)
Definition exit_verdict (raw : io_result Z) (reason : string) : Frame :=
  let '(code, reason) := exit_fields raw reason in
  match to_vec_exit code reason with
  | Ok p => mkFrame FRAME_EXIT p
  | Err e => error_frame (session_error_msg e)
  end.

Definition exec_verdict (now : Z) (x : exec_state S I) : option Frame :=
  match ex_phase x, ex_child x with
  | ExRunning, ChildZombie st =>
      Some (exit_verdict (Ok st) (if deadline_elapsed now x then "timeout" else ""))
  | ExReaping reason _, ChildZombie st => Some (exit_verdict (Ok st) reason)
  | ExDrainOut raw reason _, _ | ExDrainErr raw reason _, _ => Some (exit_verdict raw reason)
  | ExSendExit f, _ => Some f
  | ExReturned (Err e), _ => Some (error_frame (session_error_msg e))
  | _, _ => None
  end.

Definition live_verdict (l : live S I) : option Frame :=
  match lv_phase l, lv_child l with
  | LvRunning, ChildZombie st => Some (exit_verdict (Ok st) "")
  | LvHangup _, ChildZombie st | LvKilled _, ChildZombie st => Some (exit_verdict (Ok st) "disconnected")
  | LvDrain raw reason _, _ => Some (exit_verdict raw reason)
  | LvSendExit f, _ => Some f
  | _, _ => None
  end.

Definition pty_verdict (p : pty_state S I) : option Frame :=
  match p with
  | PtyFailing msg _ | PtyReaping msg _ _ _ _ => Some (error_frame msg)
  | PtyLive l => live_verdict l
  | PtyReturned _ (Err e) => Some (error_frame (session_error_msg e))
  | _ => None
  end.

(** The terminal frame an uncancelled session is going to send, once it is settled. *)
Definition verdict s : option Frame :=
  match s_main s with
  | MSendError msg => Some (error_frame msg)
  | MExec x => exec_verdict (s_now s) x
  | MPty p => pty_verdict p
  | MReport e => Some (error_frame (session_error_msg e))
  | _ => None
  end.

(** Since [o0] was on the wire or on its way to it, the tail [more] has been
    added, and it satisfies [P]. *)
Definition extends (o0 : list byte) (P : list Frame -> Prop) ob : Prop :=
  exists more, P more /\ outgoing ob = o0 ++ encode_frames more.
Definition more_output : list Frame -> Prop := Forall is_output.
Definition output_then (f : Frame) (more : list Frame) : Prop :=
  exists out, more = out ++ [f] /\ Forall is_output out.

(** [o0], output, and [f] at the end, are on the wire or will be. *)
Definition sent (o0 : list byte) (f : Frame) ob : Prop :=
  extends o0 (output_then f) ob /\ Forall (frame_fits MAX_FRAME_LEN) (in_flight ob).

(** The verb has returned, its answer is on its way. *)
Definition closing m : bool :=
  match m with
  | MExec x => match ex_phase x with ExReturned (Ok _) => true | _ => false end
  | MPty (PtyReturned _ (Ok _)) | MJoin _ | MFinished _ => true
  | _ => false
  end.

(** From the settled verdict to the end of the session. *)
Definition delivering (o0 : list byte) (f : Frame) s : Prop :=
  (verdict s = Some f /\ extends o0 more_output (s_ob s)) \/
  (closing (s_main s) = true /\ sent o0 f (s_ob s) /\ (finished s = true -> receiver_gone (s_ob s) = true)).

(** Work still to be done. *)
Definition to_deliver s : nat :=
  (3 * (rank_main (s_main s) + rank_pumps (s_main s)) + 2 * length (queued (ob_chan (s_ob s))) +
   writer_rank (s_ob s))%nat.
End defs.

Section proofs.
Context {C W R S I K : Type}.
Context `{MpscSpec C, AsyncWriteSpec W, !KeepsReading W, !AsyncRead R, AsyncReadSpec S}.
Context `{!AsyncWrite I, !FdWrite I, KernelSpec K}.
Context `{!Json, !Fmt, !Shlex, !Spawn S I K, !PtyStreams S I}.
Implicit Types (s : session C W R S I K) (ob : outbound C W) (m : main_state S I).

(** What was on the wire or on its way to it when the verdict was settled. *)
Variable o0 : list byte.

(** ** The outbound path *)

Lemma send_in_flight f q ob ob' :
  receiver_gone ob = false -> (length (queued (ob_chan ob)) <= bound (ob_chan ob))%nat ->
  poll_send f ob = Some (q, ob') ->
  outgoing ob' = outgoing ob ++ encode_frame f /\ in_flight ob' = in_flight ob ++ [f] /\
  ob_writer ob' = ob_writer ob /\ ob_cancel ob' = ob_cancel ob /\
  length (queued (ob_chan ob')) = Datatypes.S (length (queued (ob_chan ob))).
Proof.
  unfold poll_send. intros Hg Hl E. rewrite Hg in E.
  destruct (Nat.lt_ge_cases (length (queued (ob_chan ob))) (bound (ob_chan ob))) as [Hlt|Hge];
    [|by rewrite try_send_full in E].
  destruct (try_send_room f _ Hlt) as (c' & Es & Hq & _). rewrite Es in E. simplify_eq.
  unfold outgoing, in_flight, receiver_gone in *; cbn.
  rewrite Hq, length_app. destruct (ob_writer ob); [..|done];
    rewrite ?app_comm_cons, encode_frames_app, app_assoc, (encode_frames_cons f), app_nil_r;
    cbn; (split_and!; [done..|lia]).
Qed.

Lemma writer_delivers wt now ob ob' :
  ob_cancel ob = false -> Forall (frame_fits MAX_FRAME_LEN) (in_flight ob) ->
  poll_writer wt now ready_env ob = Some ob' ->
  ob_cancel ob' = false /\ outgoing ob' = outgoing ob /\
  Forall (frame_fits MAX_FRAME_LEN) (in_flight ob') /\
  (2 * length (queued (ob_chan ob')) + writer_rank ob' < 2 * length (queued (ob_chan ob)) + writer_rank ob)%nat.
Proof.
  unfold poll_writer, outgoing, in_flight, writer_rank. intros Hc Hfit E. rewrite Hc in E.
  destruct (ob_writer ob) as [|g since|] eqn:Ew; [| |done].
  - destruct (queued (ob_chan ob)) as [|h l] eqn:Eq.
    + rewrite (try_recv_none _ Eq) in E. case_hyp E; simplify_eq. cbn. rewrite Eq.
      split_and!; [done|by rewrite app_nil_r|done|cbn; lia].
    + destruct (try_recv_some _ _ _ Eq) as (c' & Er & <- & _). rewrite Er in E. simplify_eq.
      cbn. split_and!; [done..|lia].
  - apply Forall_cons in Hfit as [Hg Hfit]. destruct (accepts g (ob_sink ob) Hg) as (w' & Ewf).
    cbn in E. rewrite Ewf in E. simplify_eq. cbn.
    apply write_frame_written in Ewf as [_ Hw].
    rewrite Hw, encode_frames_cons, <- app_assoc. destruct g. split_and!; [done..|lia].
Qed.

(** Before the terminal frame, everything in flight is output and fits. *)
Lemma in_flight_fits cf asked log m ob :
  chan_inv cf asked log m ob -> answered m = false -> receiver_gone ob = false ->
  Forall (frame_fits MAX_FRAME_LEN) (in_flight ob).
Proof.
  intros [(_ & _ & Hw) _ _ Hsh _ _ _] Ha Hg. rewrite Ha in Hsh.
  destruct Hsh as (body & tail & Hlog & Hb & _ & _ & Ht & _). rewrite (Ht eq_refl), app_nil_r in Hlog. subst log.
  assert (Hall : Forall (frame_fits MAX_FRAME_LEN) body).
  { eapply Forall_impl; [exact Hb|]. intros g (_ & _ & Hl). unfold frame_fits, READ_CHUNK, MAX_FRAME_LEN in *. lia. }
  clear Hb. unfold in_flight, receiver_gone in *.
  destruct (ob_writer ob); [..|done]; destruct Hw as (fs & _ & ->); by apply Forall_app in Hall as [_ ?].
Qed.

(** The terminal frame is accepted. *)
Lemma send_sent cf asked log m f q ob ob' :
  chan_inv cf asked log m ob -> answered m = false -> receiver_gone ob = false ->
  extends o0 more_output ob -> frame_fits MAX_FRAME_LEN f -> poll_send f ob = Some (q, ob') ->
  sent o0 f ob' /\ ob_writer ob' = ob_writer ob /\ ob_cancel ob' = ob_cancel ob /\
  length (queued (ob_chan ob')) = Datatypes.S (length (queued (ob_chan ob))).
Proof.
  intros Hi Ha Hg (out & Hout & Hx) Hf E. pose proof (in_flight_fits _ _ _ _ _ Hi Ha Hg) as Hfit.
  pose proof (ci_wire _ _ _ _ _ Hi) as (Hb & Hl & _).
  destruct (send_in_flight f q ob ob' Hg) as (Ho & Hin & ? & ? & ?); [by rewrite Hb|done|].
  split; [|done]. split.
  - exists (out ++ [f]). split; [by exists out|].
    by rewrite Ho, Hx, encode_frames_app, (encode_frames_cons f), app_nil_r, app_assoc.
  - rewrite Hin. apply Forall_app. by repeat constructor.
Qed.
(** ** The session task *)

(** What [abort_pump] leaves alone. *)
Lemma abort_keeps (p : pump S) ob :
  ob_cancel (abort_pump p ob).2 = ob_cancel ob /\ ob_writer (abort_pump p ob).2 = ob_writer ob /\
  ob_chan (abort_pump p ob).2 = ob_chan ob.
Proof. unfold abort_pump. by case_match. Qed.

Lemma deliver_exec cf asked log now x (r r' : R) ob ob' f x' :
  chan_inv cf asked log (MExec x) ob -> extends o0 more_output ob -> frame_fits MAX_FRAME_LEN f -> ob_cancel ob = false ->
  exec_verdict now x = Some f -> poll_exec cf now parked_env x r ob = Some (x', r', ob') ->
  ob_cancel ob' = false /\ ob_writer ob' = ob_writer ob /\
  (exec_verdict now x' = Some f /\ ob_chan ob' = ob_chan ob /\
     (rank_main (MExec x') + rank_pumps (MExec x') < rank_main (MExec x) + rank_pumps (MExec x))%nat \/
   ex_phase x' = ExReturned (Ok tt) /\ sent o0 f ob' /\
     length (queued (ob_chan ob')) = Datatypes.S (length (queued (ob_chan ob))) /\
     (rank_main (MExec x') + rank_pumps (MExec x') < rank_main (MExec x) + rank_pumps (MExec x))%nat).
Proof.
  intros Hi Hx Hf Hc Hv E.
  assert (Hg : receiver_gone ob = false).
  { destruct (receiver_gone ob) eqn:Eg; [|done]. destruct (ci_done _ _ _ _ _ Hi Eg); [congruence|done]. }
  unfold exec_verdict in Hv. cbn [rank_main rank_pumps]. unfold poll_exec in E. rewrite Hc in E.
  assert (Hfin : forall raw reason (x1 : exec_state S I), exit_verdict raw reason = f ->
    exec_verdict now (set_phase (exit_step raw reason) x1) = Some f /\
    (match exit_step raw reason with ExSendExit _ => 8 | ExReturned _ => 6 | _ => 9 end <= 8)%nat).
  { unfold exit_verdict, exec_verdict, exit_step. intros raw reason x1 <-. destruct (exit_fields raw reason).
    by destruct (to_vec_exit _ _); cbn; (split; [|lia]). }
  destruct (ex_phase x) as [|reason since|raw reason since|raw reason since|g|[[]|e]] eqn:Ep.
  - destruct (ex_child x) as [|st|] eqn:Ech; [done| |done].
    destruct (deadline_elapsed now x); simplify_eq; unfold exec_verdict; cbn; rewrite ?Ech;
      (split; [done|]); (split; [done|]); left; (split_and!; [done|done|lia]).
  - destruct (ex_child x) as [|st|] eqn:Ech; [done| |done]. cbn in E. simplify_eq.
    split; [done|]. split; [done|]. left. unfold exec_verdict; cbn. split_and!; [done|done|lia].
  - destruct (pump_over _); [simplify_eq|destruct (_ <=? now); [|done]; pose proof (abort_keeps (ex_out x) ob) as (? & ? & ?);
      pose proof (rank_abort (ex_out x) ob); destruct (abort_pump _ _); cbn in *; simplify_eq];
      unfold exec_verdict; cbn; (split; [congruence|]); (split; [done|]); left; (split_and!; [congruence|done|lia]).
  - simplify_eq.
    destruct (pump_over _); [simplify_eq|destruct (_ <=? now); [|done]; pose proof (abort_keeps (ex_err x) ob) as (? & ? & ?);
      pose proof (rank_abort (ex_err x) ob); destruct (abort_pump _ _) as [p1 ob1]; cbn in *; simplify_eq].
    + destruct (Hfin raw reason x eq_refl) as [Hv1 Hr]. split; [done|]. split; [done|]. left.
      split_and!; [exact Hv1|done|]. cbn. unfold exit_step in *. destruct (exit_fields raw reason).
      destruct (to_vec_exit _ _); lia.
    + destruct (Hfin raw reason (set_err p1 x) eq_refl) as [Hv1 Hr]. split; [congruence|]. split; [done|]. left.
      split_and!; [exact Hv1|done|]. cbn. unfold exit_step in *. destruct (exit_fields raw reason).
      destruct (to_vec_exit _ _); lia.
  - simplify_eq. destruct (poll_send f ob) as [[q ob1]|] eqn:Es; [|done]. simplify_eq.
    destruct (send_sent _ _ _ _ _ _ _ _ Hi ltac:(cbn; by rewrite Ep) Hg Hx Hf Es) as (Hs & -> & -> & Hl).
    split; [done|]. split; [done|]. right. cbn. split_and!; [done|done|done|lia].
  - done.
  - done.
Qed.

Lemma deliver_live cf asked log now (l : live S I) (r r' : R) ob ob' (k k' : K) f p :
  chan_inv cf asked log (MPty (PtyLive l)) ob -> extends o0 more_output ob -> frame_fits MAX_FRAME_LEN f -> ob_cancel ob = false ->
  live_verdict l = Some f -> poll_live cf now parked_env 1 l r ob k = Some (p, r', ob', k') ->
  ob_cancel ob' = false /\ ob_writer ob' = ob_writer ob /\
  (rank_main (MPty p) + rank_pumps (MPty p) < rank_main (MPty (PtyLive l)) + rank_pumps (MPty (PtyLive l)))%nat /\
  ((pty_verdict p = Some f /\ ob_chan ob' = ob_chan ob) \/
   (exists ks, p = PtyReturned ks (Ok tt)) /\ sent o0 f ob' /\
     length (queued (ob_chan ob')) = Datatypes.S (length (queued (ob_chan ob)))).
Proof.
  intros Hi Hx Hf Hc Hv E.
  assert (Hg : receiver_gone ob = false).
  { destruct (receiver_gone ob) eqn:Eg; [|done]. destruct (ci_done _ _ _ _ _ Hi Eg); [congruence|done]. }
  unfold live_verdict in Hv. unfold poll_live in E.
  assert (Hfin : forall raw reason (l1 : live S I) ob1 p1 ob2 k2, exit_verdict raw reason = f ->
    pty_finish raw reason l1 ob1 k = (p1, ob2, k2) ->
    ob2 = ob1 /\ pty_verdict p1 = Some f).
  { unfold exit_verdict, pty_verdict, live_verdict, pty_finish, pty_exit_step. intros raw reason l1 ob1 p1 ob2 k2 <-.
    destruct (exit_fields raw reason). by destruct (to_vec_exit _ _); intros [= <- <- <-]. }
  destruct (lv_phase l) as [|since|since|raw reason since|g] eqn:Ep.
  - destruct (lv_child l) as [|st|] eqn:Ech; [done| |done]. unfold poll_select, arm_child in E. rewrite Ech in E.
    cbn in E. simplify_eq. split_and!; [done|done|cbn; rewrite Ep; lia|by left].
  - destruct (lv_child l) as [|st|] eqn:Ech; [done| |done]. simplify_eq.
    split_and!; [done|done|cbn; rewrite Ep; lia|by left].
  - destruct (lv_child l) as [|st|] eqn:Ech; [done| |done]. cbn in E. simplify_eq.
    split_and!; [done|done|cbn; rewrite Ep; lia|by left].
  - simplify_eq. destruct (pump_over _).
    + destruct (pty_finish _ _ _ _ _) as [[p1 ob1] k1] eqn:Ef. simplify_eq.
      destruct (Hfin _ _ _ _ _ _ _ eq_refl Ef) as [-> Hv1]. apply rank_pty_finish in Ef.
      split_and!; [done|done|cbn in *; rewrite Ep; lia|by left].
    + destruct (_ <=? now); [|done]. pose proof (abort_keeps (lv_out l) ob) as (? & ? & ?).
      pose proof (rank_abort (lv_out l) ob). destruct (abort_pump (lv_out l) ob) as [out ob0]. cbn in *.
      destruct (pty_finish _ _ _ _ _) as [[p1 ob1] k1] eqn:Ef. simplify_eq.
      destruct (Hfin _ _ _ _ _ _ _ eq_refl Ef) as [-> Hv1]. apply rank_pty_finish in Ef.
      split_and!; [congruence|done|cbn in *; rewrite Ep; lia|by left].
  - simplify_eq. destruct (poll_send f ob) as [[q ob1]|] eqn:Es; [|done]. simplify_eq.
    destruct (send_sent _ _ _ _ _ _ _ _ Hi eq_refl Hg Hx Hf Es) as (Hs & -> & -> & Hl).
    split_and!; [done|done|cbn; rewrite Ep; lia|]. right. split; [by eexists|done].
Qed.
Lemma deliver_pty cf asked log now (p p' : pty_state S I) (r r' : R) ob ob' (k k' : K) f :
  chan_inv cf asked log (MPty p) ob -> extends o0 more_output ob -> frame_fits MAX_FRAME_LEN f -> ob_cancel ob = false ->
  pty_verdict p = Some f -> poll_pty cf now parked_env 1 p r ob k = Some (p', r', ob', k') ->
  ob_cancel ob' = false /\ ob_writer ob' = ob_writer ob /\
  (rank_main (MPty p') + rank_pumps (MPty p') < rank_main (MPty p) + rank_pumps (MPty p))%nat /\
  ((pty_verdict p' = Some f /\ ob_chan ob' = ob_chan ob) \/
   (exists ks, p' = PtyReturned ks (Ok tt)) /\ sent o0 f ob' /\
     length (queued (ob_chan ob')) = Datatypes.S (length (queued (ob_chan ob)))).
Proof.
  intros Hi Hx Hf Hc Hv E. destruct p as [req|msg owned|msg mo ch ks since|l|ks res]; cbn [poll_pty] in E; [done| | | |done].
  - assert (Hg : receiver_gone ob = false).
    { destruct (receiver_gone ob) eqn:Eg; [|done]. destruct (ci_done _ _ _ _ _ Hi Eg); [congruence|done]. }
    cbn in Hv. simplify_eq. destruct (poll_send _ ob) as [[q ob1]|] eqn:Es; [|done]. simplify_eq.
    destruct (send_sent _ _ _ _ _ _ _ _ Hi eq_refl Hg Hx Hf Es) as (Hs & -> & -> & Hl).
    split_and!; [done|done|cbn; lia|]. right. split; [by eexists|done].
  - destruct (reap_bounded _ _ _) as [[raw ch']|]; [|done]. simplify_eq.
    split_and!; [done|done|cbn; lia|by left].
  - by eapply deliver_live.
Qed.

(** The verdict is handed to the channel, and [tx] dropped. *)
Lemma deliver_sent cf asked log s g q ob' res :
  chan_inv cf asked log (s_main s) (s_ob s) -> extends o0 more_output (s_ob s) -> ob_cancel (s_ob s) = false ->
  senders_of (s_main s) <> 0%nat -> answered (s_main s) = false -> frame_fits MAX_FRAME_LEN g ->
  poll_send g (s_ob s) = Some (q, ob') -> (2 < rank_main (s_main s) + rank_pumps (s_main s))%nat ->
  let s' := with_main (MJoin res) (drop_sender ob') s in
  delivering o0 g s' /\ ob_cancel (s_ob s') = false /\ (to_deliver s' < to_deliver s)%nat.
Proof.
  intros Hi Hx Hc Hn Ha Hg Es Hr s'.
  assert (Hgone : receiver_gone (s_ob s) = false).
  { destruct (receiver_gone (s_ob s)) eqn:Eg; [|done]. destruct (ci_done _ _ _ _ _ Hi Eg); [congruence|done]. }
  destruct (send_sent _ _ _ _ _ _ _ _ Hi Ha Hgone Hx Hg Es) as (Hs & Hw & Hcc & Hl).
  split_and!; [by right|cbn; congruence|]. unfold to_deliver, writer_rank; cbn. rewrite Hl, Hw. lia.
Qed.

(** [drive] returns: with the verdict sent, or with an error that is the verdict. *)
Lemma deliver_returned f s res :
  ob_cancel (s_ob s) = false ->
  (exists e, res = Err e /\ f = error_frame (session_error_msg e)) /\ extends o0 more_output (s_ob s) \/
  (res = Ok tt /\ sent o0 f (s_ob s)) ->
  (6 <= rank_main (s_main s) + rank_pumps (s_main s))%nat ->
  let s' := drive_returned res s in
  delivering o0 f s' /\ ob_cancel (s_ob s') = false /\ (to_deliver s' < to_deliver s)%nat.
Proof.
  intros Hc [[(e & -> & ->) Hx]|(-> & Hs)] Hr; cbn; (split_and!; [|done|unfold to_deliver, writer_rank; cbn; lia]);
    [by left|by right].
Qed.

(** The writer of an uncancelled session that owes its verdict is there. *)
Lemma verdict_open cf s f :
  session_inv cf s -> ob_cancel (s_ob s) = false -> verdict s = Some f -> receiver_gone (s_ob s) = false.
Proof.
  intros (asked & _ & log & Hi) Hc Hv. destruct (receiver_gone (s_ob s)) eqn:Eg; [|done].
  destruct (ci_done _ _ _ _ _ Hi Eg) as [?|Hs]; [congruence|].
  unfold verdict in Hv. by destruct (s_main s) as [| | |[]| | |].
Qed.

Lemma verdict_not_leaving s f : verdict s = Some f -> stage_of (s_main s) <> Leaving.
Proof.
  unfold verdict, exec_verdict. destruct (s_main s) as [| |x|[| | |l|ks []]| | |]; try done; cbn.
  - by destruct (ex_phase x) as [| | | | |[]].
  - by destruct (lv_phase l).
Qed.

(** While the verdict is owed, all that is added is output. *)
Lemma verdict_extends cf e s s' f f' :
  session_inv cf s -> try_event cf e s = Some s' ->
  ob_cancel (s_ob s) = false -> ob_cancel (s_ob s') = false -> verdict s = Some f -> verdict s' = Some f' ->
  extends o0 more_output (s_ob s) -> extends o0 more_output (s_ob s').
Proof.
  intros Hi E Hc Hc' Hv Hv' (out & Hout & Hx). pose proof (verdict_open _ _ _ Hi Hc Hv) as Hg.
  assert (Es : step cf s e = s') by (unfold step; by rewrite E).
  assert (Hg' : receiver_gone (s_ob s') = false).
  { eapply verdict_open; [|done..]. rewrite <- Es. by apply session_inv_step. }
  destruct Hi as (asked & Hfa & log & Hi). destruct (session_grown cf asked log s e Hfa Hi) as (log' & Hl & Hi').
  rewrite Es in *. pose proof (wire_inv_outgoing _ _ (ci_wire _ _ _ _ _ Hi) Hg) as Ho.
  pose proof (wire_inv_outgoing _ _ (ci_wire _ _ _ _ _ Hi') Hg') as Ho'.
  destruct Hl as [->|(g & -> & [(Hgo & _ & _)|(_ & _ & Hlv)])]; [exists out; split; [done|congruence]| |].
  - exists (out ++ [g]). split; [by apply Forall_app_2; [|constructor]|].
    by rewrite Ho', encode_frames_app, <- Ho, Hx, encode_frames_app, app_assoc.
  - by destruct (verdict_not_leaving _ _ Hv').
Qed.

Lemma deliver_main cf f s s' :
  session_inv cf s -> frame_fits MAX_FRAME_LEN f -> ob_cancel (s_ob s) = false ->
  delivering o0 f s -> poll_main cf parked_env 1 s = Some s' ->
  delivering o0 f s' /\ ob_cancel (s_ob s') = false /\ (to_deliver s' < to_deliver s)%nat.
Proof.
  intros Hsi Hf Hc Hd E. pose proof Hsi as (asked & _ & log & Hi). pose proof E as Em. unfold poll_main in E.
  destruct Hd as [[Hv Hx]|(Hcl & Hs & Hfin)].
  - pose proof (fun f' Hc' Hv' => verdict_extends cf (EvMain parked_env 1) s s' f f' Hsi Em Hc Hc' Hv Hv' Hx) as Hk.
    unfold verdict in Hv. destruct (s_main s) as [since|msg|x|p|e|res|res] eqn:Ems; try done.
    + destruct (poll_send _ _) as [[q ob']|] eqn:Es; simplify_eq.
      apply (deliver_sent cf asked log s _ q ob' (Ok tt)); rewrite ?Ems; done || (cbn; lia).
    + destruct (poll_main_exec _ _ _ _ _ _ Ems Em) as [(res & Ep & ->)|(x' & r' & ob' & Ex & ->)].
      * unfold exec_verdict in Hv. rewrite Ep in Hv. destruct res as [|e]; simplify_eq.
        apply deliver_returned; [done|left; split; [by exists e|done]|]. rewrite Ems. cbn. rewrite Ep. lia.
      * destruct (deliver_exec _ _ _ _ _ _ _ _ _ _ _ Hi Hx Hf Hc Hv Ex) as (Hc' & Hw & [(Hv' & Hq & Hr)|(Ep & Hs & Hq & Hr)]);
          unfold to_deliver, writer_rank; cbn [s_main s_ob with_io]; rewrite Ems, Hw, Hq.
        -- split_and!; [left; split; [done|by eapply Hk]|done|lia].
        -- split_and!; [|done|lia]. right. unfold closing; cbn. by rewrite Ep.
    + destruct (poll_main_pty _ _ _ _ _ _ Ems Em) as [(ks & res & -> & ->)|(p' & r' & ob' & k' & Ep & ->)].
      * cbn in Hv. destruct res as [|e]; simplify_eq.
        apply deliver_returned; [done|left; split; [by exists e|done]|]. rewrite Ems. cbn. lia.
      * destruct (deliver_pty _ _ _ _ _ _ _ _ _ _ _ _ _ Hi Hx Hf Hc Hv Ep) as (Hc' & Hw & Hr & [(Hv' & Hq)|((ks & ->) & Hs & Hq)]);
          unfold to_deliver, writer_rank; cbn [s_main s_ob with_io]; rewrite Ems, Hw, Hq.
        -- split_and!; [left; split; [done|by eapply Hk]|done|lia].
        -- split_and!; [by right|done|lia].
    + destruct (poll_send _ _) as [[q ob']|] eqn:Es; simplify_eq.
      apply (deliver_sent cf asked log s _ q ob' (Err e)); rewrite ?Ems; done || (cbn; lia).
  - destruct (s_main s) as [since|msg|x|p|e|res|res] eqn:Ems; try done.
    + cbn in Hcl. destruct (ex_phase x) as [| | | | |[[]|]] eqn:Ep; try done. simplify_eq.
      apply deliver_returned; [done|by right|]. rewrite Ems. cbn. rewrite Ep. lia.
    + destruct p as [| | | |ks [[]|e]]; try done. simplify_eq.
      apply deliver_returned; [done|by right|]. rewrite Ems. cbn. lia.
    + destruct (receiver_gone (s_ob s)) eqn:Eg; [|done]. simplify_eq. split_and!; [|done|].
      * right. by split_and!.
      * unfold to_deliver; cbn. rewrite Ems. cbn. lia.
Qed.
(** ** The other tasks *)

Lemma pump_delivers ft (p p' : pump S) ob ob' :
  receiver_gone ob = false -> (length (queued (ob_chan ob)) <= bound (ob_chan ob))%nat ->
  poll_pump ft parked_env p ob = Some (p', ob') ->
  (rank_pump p' < rank_pump p)%nat /\ ob_writer ob' = ob_writer ob /\ ob_cancel ob' = ob_cancel ob /\
  (length (queued (ob_chan ob')) <= Datatypes.S (length (queued (ob_chan ob))))%nat.
Proof.
  intros Hg Hl E. unfold poll_pump, rank_pump in *. destruct (pm_state p) as [|buf| |]; cbn in *; try done.
  destruct (poll_send _ ob) as [[q ob1]|] eqn:Es; [|done]. simplify_eq.
  destruct (send_in_flight _ _ _ _ Hg Hl Es) as (_ & _ & ? & ? & ->). cbn. split_and!; [lia|done|done|lia].
Qed.

Lemma pty_out_delivers (p p' : pump S) ob ob' :
  receiver_gone ob = false -> (length (queued (ob_chan ob)) <= bound (ob_chan ob))%nat ->
  poll_pty_out parked_env p ob = Some (p', ob') ->
  (rank_pump p' < rank_pump p)%nat /\ ob_writer ob' = ob_writer ob /\ ob_cancel ob' = ob_cancel ob /\
  (length (queued (ob_chan ob')) <= Datatypes.S (length (queued (ob_chan ob))))%nat.
Proof.
  intros Hg Hl E. unfold poll_pty_out, rank_pump in *. destruct (pm_state p) as [|buf| |]; cbn in *; try done.
  destruct (poll_send _ ob) as [[[] ob1]|] eqn:Es; [| |done]; simplify_eq;
    destruct (send_in_flight _ _ _ _ Hg Hl Es) as (_ & _ & ? & ? & Hq); cbn; (split_and!; [lia|done|done|lia]).
Qed.

Lemma deliver_output cf f s s' :
  session_inv cf s -> ob_cancel (s_ob s) = false -> delivering o0 f s ->
  poll_out_task parked_env s = Some s' \/ poll_err_task parked_env s = Some s' ->
  delivering o0 f s' /\ ob_cancel (s_ob s') = false /\ (to_deliver s' < to_deliver s)%nat.
Proof.
  intros Hsi Hc Hd E. pose proof Hsi as (asked & _ & log & Hi).
  assert (Hk : verdict s = Some f -> ob_cancel (s_ob s') = false -> verdict s' = Some f ->
    extends o0 more_output (s_ob s) -> extends o0 more_output (s_ob s')).
  { intros Hv Hc' Hv' Hx. destruct E as [E|E];
      [by eapply (verdict_extends cf (EvOut parked_env) s)|by eapply (verdict_extends cf (EvErr parked_env) s)]. }
  pose proof (ci_wire _ _ _ _ _ Hi) as (Hb & Hl & _).
  pose proof (ci_drained _ _ _ _ _ Hi) as Hdr. pose proof (ci_done _ _ _ _ _ Hi) as Hdone. rewrite <- Hb in Hl.
  unfold poll_out_task, poll_err_task in E. unfold delivering, verdict in *.
  destruct (s_main s) as [| |x|[| | |l|]| | |] eqn:Em; try (by destruct E); cbn in Hdr, Hdone.
  - assert (Hg : receiver_gone (s_ob s) = false).
    { destruct (receiver_gone (s_ob s)); [|done]. destruct (Hdone eq_refl); [congruence|done]. }
    assert (Hv : exec_verdict (s_now s) x = Some f /\ extends o0 more_output (s_ob s)).
    { destruct Hd as [|(Hcl & _)]; [done|]. cbn in Hcl.
      destruct (ex_phase x) as [| | | | |[]]; try done. destruct Hdr as [Ho He].
      exfalso. unfold poll_pump, pump_over in *. destruct E as [E|E];
        [by destruct (pm_state (ex_out x))|by destruct (pm_state (ex_err x))]. }
    destruct E as [E|E]; destruct (poll_pump _ _ _ _) as [[p' ob']|] eqn:Ep; try done;
      destruct (pump_delivers _ _ _ _ _ Hg Hl Ep) as (Hr & Hw & Hc' & Hq); simplify_eq; cbn in Hk;
      (split_and!; [left; split; [apply Hv|apply Hk; [apply Hv|congruence|apply Hv..]]|cbn; congruence|]); unfold to_deliver, writer_rank; rewrite Em; cbn; rewrite Hw; lia.
  - assert (Hg : receiver_gone (s_ob s) = false).
    { destruct (receiver_gone (s_ob s)); [|done]. destruct (Hdone eq_refl); [congruence|done]. }
    destruct Hd as [[Hv Hx]|(Hcl & _)]; [|done].
    destruct E as [E|E]; [|done]. destruct (poll_pty_out _ _ _) as [[p' ob']|] eqn:Ep; [|done].
    destruct (pty_out_delivers _ _ _ _ Hg Hl Ep) as (Hr & Hw & Hc' & Hq); simplify_eq; cbn in Hk.
    split_and!; [left; split; [done|apply Hk; [done|congruence|done..]]|cbn; congruence|]. unfold to_deliver, writer_rank; rewrite Em; cbn; rewrite Hw; lia.
Qed.

(** A settled session still owes its frame, so the writer has not gone. *)
Lemma deliver_writer cf f s s' :
  session_inv cf s -> ob_cancel (s_ob s) = false -> delivering o0 f s ->
  poll_writer_task cf ready_env s = Some s' ->
  delivering o0 f s' /\ ob_cancel (s_ob s') = false /\ (to_deliver s' < to_deliver s)%nat.
Proof.
  intros Hsi Hc Hd E. pose proof Hsi as (asked & _ & log & Hi). pose proof E as Et. unfold poll_writer_task in E.
  destruct (poll_writer _ _ _ _) as [ob'|] eqn:Ep; [|done]. simplify_eq.
  assert (Hg : receiver_gone (s_ob s) = false).
  { unfold poll_writer, receiver_gone in *. by destruct (ob_writer (s_ob s)). }
  assert (Hfit : Forall (frame_fits MAX_FRAME_LEN) (in_flight (s_ob s))).
  { destruct Hd as [[Hv _]|(_ & [_ ?] & _)]; [|done]. eapply in_flight_fits; [exact Hi| |done].
    unfold verdict, exec_verdict in Hv. destruct (s_main s) as [| |x|[| | | |ks []]| | |]; try done.
    cbn. by destruct (ex_phase x) as [| | | | |[]]. }
  destruct (writer_delivers _ _ _ _ Hc Hfit Ep) as (Hc' & Ho & Hf' & Hr).
  split_and!; [|done|unfold to_deliver; cbn; lia].
  destruct Hd as [[Hv Hx]|(Hcl & [(out & Eo & Hx) _] & Hfin)]; [left|right; split_and!; [done| |]].
  - split; [done|]. by eapply (verdict_extends cf (EvWriterTask ready_env) s).
  - split; [exists out; cbn; split; [done|congruence]|done].
  - cbn. intros Hf1. specialize (Hfin Hf1). congruence.
Qed.

(** When every task is parked, the session task is in a bounded phase. *)
Lemma deliver_parked cf f s :
  delivering o0 f s -> poll_main cf parked_env 1 s = None -> poll_main cf parked_env 0 s = None /\
  forall d, delivering o0 f (Session (s_now s + d) (s_main s) (s_reader s) (s_ob s) (s_kernel s) (s_warned s) (s_console s)).
Proof.
  intros Hd E. unfold delivering, verdict, finished in *. cbn. unfold poll_main in *.
  destruct (s_main s) as [since|msg|x|p|e|res|res]; try done.
  - split; [done|]. intros d. destruct Hd as [[Hv Hx]|Hd]; [left; split; [|done]|by right]. unfold exec_verdict in *.
    destruct (ex_phase x) as [|reason since|raw reason since|raw reason since|g|[]] eqn:Ep; try done.
    unfold poll_exec in E. rewrite Ep in E. destruct (ex_child x); try done.
    destruct (ob_cancel _); [done|]. by destruct (deadline_elapsed _ _).
  - split; [|done]. destruct p as [| | |l|]; try done. cbn [poll_pty] in *. unfold poll_live in *.
    destruct (lv_phase l) eqn:Ep; try done. destruct Hd as [[Hv _]|(? & _)]; [|done].
    cbn in Hv. unfold live_verdict in Hv. rewrite Ep in Hv. unfold poll_select, arm_child in *. by destruct (lv_child l).
Qed.
(** ** To the end *)

Definition deliver_rank (cf : config) s : nat :=
  (2 * to_deliver s + (if all_parked cf s then 1 else 0))%nat.

Lemma deliver_rank_bound cf s :
  (length (queued (ob_chan (s_ob s))) <= CHANNEL_BOUND)%nat -> (deliver_rank cf s < 370)%nat.
Proof.
  unfold deliver_rank, to_deliver, writer_rank, rank_main, rank_pumps, rank_pump, CHANNEL_BOUND.
  intros Hl. repeat case_match; lia.
Qed.

Lemma deliver_rank_less cf s s' :
  (to_deliver s' < to_deliver s)%nat -> (deliver_rank cf s' < deliver_rank cf s)%nat.
Proof. unfold deliver_rank. destruct (all_parked cf s), (all_parked cf s'); lia. Qed.

Lemma delivering_not_waiting f s : delivering o0 f s -> waiting s = false.
Proof.
  unfold delivering, verdict, waiting. destruct (s_main s) as [| |x|[]| | |]; try done.
  - unfold exec_verdict, closing. destruct (ex_phase x), (ex_timer x), (si_state (ex_stdin x)), (ex_child x); try done; by intros [[]|[]].
  - by intros [[]|[]].
Qed.

Lemma deliver_progress cf f s :
  session_inv cf s -> input_ok (s_main s) -> frame_fits MAX_FRAME_LEN f -> ob_cancel (s_ob s) = false ->
  finished s = false -> delivering o0 f s ->
  exists e, delivery_event e /\ delivering o0 f (step cf s e) /\ ob_cancel (s_ob (step cf s e)) = false /\
    (deliver_rank cf (step cf s e) < deliver_rank cf s)%nat.
Proof.
  intros Hi Hin Hf Hc Hfin Hd.
  assert (Hgo : forall e s1, try_event cf e s = Some s1 -> delivery_event e ->
    delivering o0 f s1 /\ ob_cancel (s_ob s1) = false /\ (to_deliver s1 < to_deliver s)%nat ->
    exists e, delivery_event e /\ delivering o0 f (step cf s e) /\ ob_cancel (s_ob (step cf s e)) = false /\
      (deliver_rank cf (step cf s e) < deliver_rank cf s)%nat).
  { intros e s1 E He (? & ? & Hr). exists e. unfold step. rewrite E. split_and!; [done..|].
    by apply deliver_rank_less. }
  destruct (poll_main cf parked_env 1 s) as [s1|] eqn:Em.
  { apply (Hgo (EvMain parked_env 1) s1 Em); [done|]. by eapply deliver_main. }
  destruct (poll_writer_task cf ready_env s) as [s1|] eqn:Ew.
  { apply (Hgo (EvWriterTask ready_env) s1 Ew); [done|]. by eapply deliver_writer. }
  destruct (poll_out_task parked_env s) as [s1|] eqn:Eo.
  { apply (Hgo (EvOut parked_env) s1 Eo); [done|]. eapply deliver_output; eauto. }
  destruct (poll_err_task parked_env s) as [s1|] eqn:Ee.
  { apply (Hgo (EvErr parked_env) s1 Ee); [done|]. eapply deliver_output; eauto. }
  destruct (deliver_parked _ _ _ Hd Em) as [Em0 Hlater].
  assert (Hpk : all_parked cf s = true).
  { unfold all_parked. rewrite Em0, Eo, Ee. cbn. rewrite !andb_true_r.
    unfold poll_writer_task, poll_writer in *. destruct (ob_writer (s_ob s)) as [|g since|]; [| |done].
    - rewrite Hc in *. destruct (try_recv _) as [[]|]; [done|]. by destruct (_ =? _)%nat.
    - rewrite Hc in Ew. cbn in Ew. by destruct (write_frame _ _ _) as [[] ?]. }
  pose proof Hi as (asked & _ & log & Hci).
  destruct (wake_up cf s) as (d & s' & Et & Hm & Hob & Hpk');
    [by eapply parked_timers; eauto using delivering_not_waiting|done|].
  exists (EvTick d). unfold step, try_event. rewrite Et. split_and!; [done| |by rewrite Hob|].
  - unfold tick in Et. case_hyp Et; simplify_eq. apply Hlater.
  - unfold deliver_rank, to_deliver. rewrite Hpk, Hpk', Hm, Hob. lia.
Qed.

Lemma deliver_end cf f n s :
  (deliver_rank cf s < n)%nat -> session_inv cf s -> input_ok (s_main s) -> frame_fits MAX_FRAME_LEN f ->
  ob_cancel (s_ob s) = false -> delivering o0 f s ->
  exists es, (length es < n)%nat /\ Forall delivery_event es /\ finished (run cf s es) = true /\
    ob_cancel (s_ob (run cf s es)) = false /\ delivering o0 f (run cf s es).
Proof.
  revert s. induction n as [|n IH]; intros s Hn Hi Hin Hf Hc Hd; [lia|].
  destruct (finished s) eqn:Hfin; [exists []; split_and!; try done; cbn; lia|].
  destruct (deliver_progress cf f s Hi Hin Hf Hc Hfin Hd) as (e & He & Hd' & Hc' & Hr).
  destruct (IH (step cf s e)) as (es & Hl & Hq & ? & ? & ?);
    [lia|by apply session_inv_step|by apply input_ok_step|done..|].
  exists (e :: es). split_and!; [cbn; lia|by constructor|done..].
Qed.

End proofs.

Section delivery.
Context {C W R S I K : Type}.
Context `{MpscSpec C, AsyncWriteSpec W, !KeepsReading W, !AsyncRead R, AsyncReadSpec S}.
Context `{!AsyncWrite I, !FdWrite I, KernelSpec K}.
Context `{!Json, !Fmt, !Shlex, !Spawn S I K, !PtyStreams S I}.

(** C6 A settled session answers in full: from every reachable state of an
    uncancelled session whose verdict no longer depends on anything outside -- a
    refused request, a terminal that could not be set up, a child that has
    exited, a drain under way -- and is of a length [write_frame] takes, fewer
    than 370 task polls and timer expiries in which the peer keeps reading end
    the session, uncancelled, with these bytes on the wire: all that was on the
    wire, in the writer's hands or queued before, then at most more output, then
    the settled EXIT or ERROR frame and nothing after it. *)
Theorem verdict_delivered cf r (w : W) (k : K) b es f :
  written w = [] ->
  let s := run cf (new_session (S := S) (I := I) (C := C) (R := R) r w k b) es in
  verdict s = Some f -> frame_fits MAX_FRAME_LEN f -> ob_cancel (s_ob s) = false ->
  exists es' out, (length es' < 370)%nat /\ Forall delivery_event es' /\
    finished (run cf s es') = true /\ ob_cancel (s_ob (run cf s es')) = false /\
    Forall is_output out /\
    written (ob_sink (s_ob (run cf s es'))) = outgoing (s_ob s) ++ encode_frames out ++ encode_frame f.
Proof.
  intros Hw s Hv Hf Hc.
  assert (Hi : session_inv cf s) by (by apply session_inv_run, session_inv_new).
  destruct (deliver_end (outgoing (s_ob s)) cf f 370 s) as (es' & Hl & Hq & Hfin & Hc' & Hd);
    [|done|by apply input_ok_run|done|done| |].
  - apply deliver_rank_bound. destruct Hi as (asked & _ & log & Hi). apply (ci_wire _ _ _ _ _ Hi).
  - left. split; [done|]. exists []. split; [constructor|]. by rewrite app_nil_r.
  - destruct Hd as [[Hv' _]|(_ & [(more & (out & -> & Hout) & Ho) _] & Hg)].
    { unfold finished, verdict in *. by destruct (s_main (run cf s es')). }
    specialize (Hg Hfin). exists es', out. split_and!; try done.
    rewrite encode_frames_app, (encode_frames_cons f), app_nil_r in Ho. rewrite <- Ho.
    unfold outgoing, receiver_gone in *. by destruct (ob_writer (s_ob (run cf s es'))).
Qed.
End delivery.
