(* ===== verification/Disconnect.v ===== *)
(** * Disconnect: what a running command's session hears of its peer

    The two sides of a disconnection while a command runs.  As long as the STDIN
    task is there, the end of the connection, and an idle timeout on either of
    its operations, fires the session's [Cancel], and the next poll of the session
    task kills the command's group.  After the child has refused a write to its
    stdin the task is over without having fired, and a silent command without a
    deadline then runs on whatever happens to the connection. *)

From S2P Require Import Prelude AsyncIO Frame Duration Status Request Shell Outbound Pump.
From S2P Require Import Stdin Exec FdOps Pty Session SessionTime.

Section disconnect.
Context {C W R S I K : Type}.
Context `{MpscSpec C, !AsyncWrite W, AsyncReadSpec R, !AsyncRead S}.
Context `{!AsyncWrite I, !FdWrite I, !Kernel K}.
Context `{!Json, !Fmt, !Shlex, !Spawn S I K, !PtyStreams S I}.
Implicit Types (s : session C W R S I K) (x : exec_state S I).

(** A command that runs with no deadline, says nothing and does not exit,
    with the writer at rest. *)
Definition quiet_command x s : Prop :=
  s_main s = MExec x /\ ex_phase x = ExRunning /\ ex_timer x = None /\
  ex_child x = ChildRunning /\ pm_state (ex_out x) = PumpReading /\ pm_state (ex_err x) = PumpReading /\
  ob_cancel (s_ob s) = false /\ ob_writer (s_ob s) = WRecv /\ queued (ob_chan (s_ob s)) = [] /\
  ob_senders (s_ob s) <> 0%nat.

(** The child neither writes nor exits; everything else may happen. *)
Definition silent_child (e : event) : Prop :=
  match e with
  | EvOut env | EvErr env => io_ready env = false
  | EvChild _ => False
  | _ => True
  end.

Lemma quiet_step cf x s e :
  quiet_command x s -> si_state (ex_stdin x) = StdinOver -> silent_child e ->
  quiet_command x (step cf s e).
Proof.
  intros (Hm & Hp & Ht & Hc & Ho & Her & Hca & Hw & Hq & Hs) Hsi He.
  assert (Hsame : s_main (step cf s e) = s_main s /\ s_ob (step cf s e) = s_ob s).
  { unfold step. destruct e as [env first|env|env|env|st|d]; cbn in *.
    - unfold poll_main. rewrite Hm, Hp. unfold poll_exec. rewrite Hp, Hca, Hc.
      unfold deadline_elapsed. rewrite Ht. unfold poll_stdin. by rewrite Hsi.
    - unfold poll_writer_task, poll_writer. rewrite Hw, Hca, (try_recv_none _ Hq).
      by rewrite (proj2 (Nat.eqb_neq _ _) Hs).
    - unfold poll_out_task. rewrite Hm. unfold poll_pump. by rewrite Ho, He.
    - unfold poll_err_task. rewrite Hm. unfold poll_pump. by rewrite Her, He.
    - done.
    - unfold tick. by destruct (_ && _). }
  destruct Hsame as [E1 E2]. unfold quiet_command. rewrite E1, E2. by split_and!.
Qed.

(** C22 After a failed write to the child's stdin, the session is deaf: from
    a running command with no deadline whose pipe refuses the STDIN payload in
    hand, one poll of the session task leaves a state in which -- for every
    continuation of the connection, its end included, and however much time
    passes -- no poll of the session task or of the writer kills the command
    or ends the session while the command stays silent. *)
Theorem exec_deaf_after_stdin_error cf x s p since e i' first es :
  quiet_command x s -> si_state (ex_stdin x) = StdinWriting p since ->
  write_all p (si_pipe (ex_stdin x)) = (Err e, i') -> Forall silent_child es ->
  forall r, let s1 := step cf s (EvMain (PollEnv true 0) first) in
  let s2 := run cf (with_io (s_main s1) r (s_ob s1) (s_kernel s1) s1) es in
  finished s2 = false /\ ob_cancel (s_ob s2) = false /\
  exists x', s_main s2 = MExec x' /\ ex_phase x' = ExRunning /\ ex_kills x' = ex_kills x.
Proof.
  intros Hqc Hsi Hwr Hes r s1 s2. destruct Hqc as (Hm & Hp & Ht & Hc & Ho & Her & Hca & Hrest).
  set (x1 := set_stdin (StdinTask i' false StdinOver) x).
  assert (Hx : quiet_command x1 (with_io (s_main s1) r (s_ob s1) (s_kernel s1) s1)).
  { unfold quiet_command, s1, step, try_event, poll_main. rewrite Hm, Hp.
    unfold poll_exec. rewrite Hp, Hca, Hc. unfold deadline_elapsed. rewrite Ht.
    unfold poll_stdin. rewrite Hsi, Hwr. cbn. destruct Hrest as (? & ? & ?). by split_and!. }
  assert (Hx2 : quiet_command x1 s2).
  { subst s2. revert Hx. generalize (with_io (s_main s1) r (s_ob s1) (s_kernel s1) s1).
    unfold run. induction Hes as [|ev es He _ IH]; intros s' Hs'; [done|]. cbn.
    by apply IH, quiet_step. }
  destruct Hx2 as (Hm2 & Hp2 & _ & _ & _ & _ & Hca2 & _).
  unfold finished. rewrite Hm2. split_and!; [done | done | by exists x1].
Qed.

(** What the STDIN task finds when it is polled: the connection at its end or
    broken, or a read or a write that has lasted the idle timeout. *)
Definition peer_lost (cf : config) (env : poll_env) x s : Prop :=
  match si_state (ex_stdin x) with
  | StdinReading since =>
      if io_ready env
      then match (read_frame (cf_inbound_cap cf) (s_reader s)).1 with Ok (Some _) => False | _ => True end
      else since + cf_idle_timeout cf <= s_now s
  | StdinWriting _ since => io_ready env = false /\ since + cf_idle_timeout cf <= s_now s
  | StdinOver => False
  end.

Lemma peer_lost_fires cf env x s :
  peer_lost cf env x s ->
  exists t' r', poll_stdin (cf_idle_timeout cf) (cf_inbound_cap cf) (s_now s) env false (ex_stdin x) (s_reader s) =
    Some (t', r', true).
Proof.
  unfold peer_lost, poll_stdin. destruct (si_state (ex_stdin x)) as [since|p since|]; [| |done].
  - destruct (io_ready env); [|intros Hn; rewrite (proj2 (Z.leb_le _ _) Hn); by eauto].
    destruct (read_frame _ _) as [[[f|]|e] r']; [done|by eauto..].
  - intros [-> Hn]. rewrite (proj2 (Z.leb_le _ _) Hn). by eauto.
Qed.

(** A cancelled command that still runs, as it was but for its output pumps. *)
Definition doomed x s : Prop :=
  exists x', s_main s = MExec x' /\ ex_phase x' = ExRunning /\ ob_cancel (s_ob s) = true /\
    ex_pid x' = ex_pid x /\ ex_kills x' = ex_kills x.

(** Events of every other kind than a poll of the session task. *)
Definition not_main (e : event) : Prop := match e with EvMain _ _ => False | _ => True end.

Lemma doomed_step cf x s e : doomed x s -> not_main e -> doomed x (step cf s e).
Proof.
  intros (x' & Em & Ep & Hc & Hpid & Hk) He. unfold step.
  destruct (try_event cf e s) as [s'|] eqn:E; [|by exists x'].
  destruct e as [env first|env|env|env|st|d]; cbn in E; [done|..].
  - unfold poll_writer_task, poll_writer in E. rewrite Hc in E.
    destruct (ob_writer (s_ob s)); simplify_eq; by exists x'.
  - pose proof (output_task_moves _ _ _ (or_introl E)) as (_ & _ & _ & _ & _ & _ & Hc' & _).
    unfold poll_out_task in E. rewrite Em in E. repeat case_hyp E; simplify_eq. cbn in Hc'.
    eexists. split; [done|]. cbn. split_and!; congruence || done.
  - pose proof (output_task_moves _ _ _ (or_intror E)) as (_ & _ & _ & _ & _ & _ & Hc' & _).
    unfold poll_err_task in E. rewrite Em in E. repeat case_hyp E; simplify_eq. cbn in Hc'.
    eexists. split; [done|]. cbn. split_and!; congruence || done.
  - simplify_eq. unfold child_exit, doomed; cbn. rewrite Em. eexists. split; [done|]. by split_and!.
  - unfold tick in E. case_hyp E; simplify_eq. by exists x'.
Qed.

Lemma doomed_run cf x s es : doomed x s -> Forall not_main es -> doomed x (run cf s es).
Proof.
  intros Hd Hes. revert s Hd. induction Hes as [|e es He _ IH]; intros s Hd; [done|]. cbn.
  by apply IH, doomed_step.
Qed.

(** C23 The loss of the peer is heard, in every state of a running command:
    whatever its deadline, its pumps, the queue and the writer are doing, when
    the session task is polled before the deadline with the child still running
    and the STDIN task finds the connection at its end, broken, or silent or
    blocked for the idle timeout, then -- however the writer, the pumps, the
    child and the clock go on in between -- the next poll of the session task
    kills the command's group, once, as "disconnected". *)
Theorem exec_hears_disconnect cf x s env first es env2 first2 :
  s_main s = MExec x -> ex_phase x = ExRunning -> ex_child x = ChildRunning ->
  ob_cancel (s_ob s) = false -> deadline_elapsed (s_now s) x = false -> peer_lost cf env x s ->
  Forall not_main es ->
  let s' := run cf s (EvMain env first :: es ++ [EvMain env2 first2]) in
  exists x', s_main s' = MExec x' /\ ex_phase x' = ExReaping "disconnected" (s_now s') /\
    ex_pid x' = ex_pid x /\ ex_kills x' = ex_kills x ++ kill_group (ex_pid x) /\ ob_cancel (s_ob s') = true.
Proof.
  intros Em Ep Hch Hc Hdl Hl Hes s'. destruct (peer_lost_fires _ _ _ _ Hl) as (t' & r' & Epoll).
  assert (Hd : doomed x (step cf s (EvMain env first))).
  { unfold doomed, step, try_event, poll_main. rewrite Em, Ep. unfold poll_exec. rewrite Ep, Hc, Hdl, Hch, Epoll.
    eexists. split; [done|]. cbn. by split_and!. }
  apply (doomed_run cf _ _ es Hd) in Hes. unfold run in *. subst s'. cbn [fold_left app].
  rewrite fold_left_app. cbn [fold_left]. destruct Hes as (x2 & Em2 & Ep2 & Hc2 & Hpid & Hk).
  set (s2 := fold_left _ es _) in *. unfold step, try_event, poll_main. rewrite Em2, Ep2.
  unfold poll_exec. rewrite Ep2, Hc2. eexists. split; [done|]. cbn. rewrite Hk, Hpid. by split_and!.
Qed.
End disconnect.
