(* ===== verification/Cancel.v ===== *)
(** * Cancel: the one-shot, multi-waiter cancellation signal

    [Cancel] of [src/session.rs] at the grain of its atomic operations: the
    store and the broadcast of [fire], the load, arming, re-check and await of
    [wait], for any number of concurrent callers, each of which may be dropped
    by the [select!] it runs in.  [tokio::sync::Notify] is third-party code: an
    interface with the two guarantees the code relies on -- a notification wakes
    every waiter that was armed before it, and waiters do not disturb each other.

    The other files use the flag [ob_cancel] for the whole signal; the theorems
    here are why they may. *)

From S2P Require Import Prelude.

(** ** [tokio::sync::Notify] *)

Class Notify (N : Type) := {
  notify_new : N;
  notified : N -> nat * N;                (* a new [Notified] future *)
  enable : nat -> N -> N;
  notify_waiters : N -> N;
  notified_ready : nat -> N -> bool;      (* does polling the future complete? *)
  notified_drop : nat -> N -> N;
}.

Class NotifyView (N : Type) := {
  live : N -> gset nat;
  armed : N -> gset nat;
  woken : N -> gset nat;
}.

Definition same_waiter {N} `{!NotifyView N} (u : nat) (n n' : N) : Prop :=
  (u ∈ live n <-> u ∈ live n') /\ (u ∈ armed n <-> u ∈ armed n') /\ (u ∈ woken n <-> u ∈ woken n').

(** An un-armed future may or may not be woken, and any future may complete
    spuriously: nothing is said of either. *)
Class NotifySpec (N : Type) `{!Notify N, !NotifyView N} : Prop := {
  notified_spec t (n n' : N) : notified n = (t, n') ->
    t ∉ live n /\ t ∈ live n' /\ (forall u, u <> t -> same_waiter u n n');
  enable_spec t (n : N) : t ∈ live n ->
    t ∈ live (enable t n) /\ (t ∈ armed (enable t n) \/ t ∈ woken (enable t n)) /\
    (forall u, u <> t -> same_waiter u n (enable t n));
  notify_waiters_spec (n : N) :
    live (notify_waiters n) = live n /\
    (forall u, u ∈ armed n \/ u ∈ woken n -> u ∈ woken (notify_waiters n));
  notified_ready_spec t (n : N) : t ∈ woken n -> notified_ready t n = true;
  notified_drop_spec t u (n : N) : u <> t -> same_waiter u n (notified_drop t n);
}.

(** A reference implementation. *)
Record set_notify := SetNotify { sn_live : gset nat; sn_armed : gset nat; sn_woken : gset nat }.

#[export] Instance set_Notify : Notify set_notify := {
  notify_new := SetNotify ∅ ∅ ∅;
  notified n := let t := fresh (sn_live n ∪ sn_armed n ∪ sn_woken n) in
    (t, SetNotify ({[t]} ∪ sn_live n) (sn_armed n) (sn_woken n));
  enable t n := SetNotify (sn_live n) ({[t]} ∪ sn_armed n) (sn_woken n);
  notify_waiters n := SetNotify (sn_live n) ∅ (sn_armed n ∪ sn_woken n);
  notified_ready t n := bool_decide (t ∈ sn_woken n);
  notified_drop t n := SetNotify (sn_live n ∖ {[t]}) (sn_armed n ∖ {[t]}) (sn_woken n ∖ {[t]});
}.
#[export] Instance set_NotifyView : NotifyView set_notify :=
  { live := sn_live; armed := sn_armed; woken := sn_woken }.
#[export] Instance set_NotifySpec : NotifySpec set_notify.
Proof.
  split; unfold same_waiter; cbn.
  - intros t n n' [= <- <-]; cbn. pose proof (is_fresh (sn_live n ∪ sn_armed n ∪ sn_woken n)). set_solver.
  - set_solver.
  - set_solver.
  - intros t n Ht. by apply bool_decide_eq_true_2.
  - set_solver.
Qed.

(** ** The code *)

(** Where a call of [wait] is. *)
Inductive wait_pc :=
| WLoad                  (* the loop's first [fired.load] *)
| WNotified              (* [notify.notified()] *)
| WEnable (t : nat)      (* [n.enable()] *)
| WRecheck (t : nat)     (* the second [fired.load] *)
| WAwait (t : nat)       (* [n.await] *)
| WReturned
| WDropped.

Inductive fire_pc := FStore | FNotify | FReturned.

#[export] Instance wait_pc_eq_dec : EqDecision wait_pc.
Proof. solve_decision. Defined.
#[export] Instance fire_pc_eq_dec : EqDecision fire_pc.
Proof. solve_decision. Defined.

Record cancel (N : Type) := Cancel { fired : bool; notify : N }.
Arguments Cancel {N} _ _.
Arguments fired {N} _.
Arguments notify {N} _.

Section ops.
Context {N : Type} `{!Notify N}.

Definition cancel_default : cancel N := Cancel false notify_new.

(** The next atomic operation of a call of [fire]. *)
Definition fire_step (c : cancel N) (pc : fire_pc) : cancel N * fire_pc :=
  match pc with
  | FStore => (Cancel true (notify c), FNotify)
  | FNotify => (Cancel (fired c) (notify_waiters (notify c)), FReturned)
  | FReturned => (c, FReturned)
  end.

(** The next atomic operation of a call of [wait]; leaving the loop body drops
    the armed future. *)
Definition wait_step (c : cancel N) (pc : wait_pc) : cancel N * wait_pc :=
  match pc with
  | WLoad => (c, if fired c then WReturned else WNotified)
  | WNotified => let '(t, n) := notified (notify c) in (Cancel (fired c) n, WEnable t)
  | WEnable t => (Cancel (fired c) (enable t (notify c)), WRecheck t)
  | WRecheck t =>
      if fired c then (Cancel (fired c) (notified_drop t (notify c)), WReturned) else (c, WAwait t)
  | WAwait t =>
      if notified_ready t (notify c)
      then (Cancel (fired c) (notified_drop t (notify c)), WLoad) else (c, WAwait t)
  | WReturned | WDropped => (c, pc)
  end.

Definition pc_token (pc : wait_pc) : option nat :=
  match pc with WEnable t | WRecheck t | WAwait t => Some t | _ => None end.

(** The future of a call of [wait] is dropped. *)
Definition wait_drop (c : cancel N) (pc : wait_pc) : cancel N * wait_pc :=
  match pc with
  | WReturned => (c, WReturned)
  | _ => (match pc_token pc with
          | Some t => Cancel (fired c) (notified_drop t (notify c))
          | None => c
          end, WDropped)
  end.

(** *** Any number of callers *)

Record calls := Calls { cl_cancel : cancel N; cl_waits : list wait_pc; cl_fires : list fire_pc }.

Inductive call_event :=
| CallWait                 (* a new call of [wait] *)
| CallFire                 (* a new call of [fire] *)
| StepWait (i : nat)
| StepFire (i : nat)
| DropWait (i : nat).

Definition call_step (s : calls) (e : call_event) : calls :=
  match e with
  | CallWait => Calls (cl_cancel s) (cl_waits s ++ [WLoad]) (cl_fires s)
  | CallFire => Calls (cl_cancel s) (cl_waits s) (cl_fires s ++ [FStore])
  | StepWait i =>
      match cl_waits s !! i with
      | Some pc => let '(c, pc') := wait_step (cl_cancel s) pc in
                   Calls c (<[i := pc']> (cl_waits s)) (cl_fires s)
      | None => s
      end
  | StepFire i =>
      match cl_fires s !! i with
      | Some pc => let '(c, pc') := fire_step (cl_cancel s) pc in
                   Calls c (cl_waits s) (<[i := pc']> (cl_fires s))
      | None => s
      end
  | DropWait i =>
      match cl_waits s !! i with
      | Some pc => let '(c, pc') := wait_drop (cl_cancel s) pc in
                   Calls c (<[i := pc']> (cl_waits s)) (cl_fires s)
      | None => s
      end
  end.

Definition call_run (s : calls) (es : list call_event) : calls := fold_left call_step es s.
Definition no_calls : calls := Calls cancel_default [] [].
End ops.
Arguments calls : clear implicits.

(** ** Properties *)

Section proofs.
Context {N : Type} `{NotifySpec N}.
Implicit Types (s : calls N) (c : cancel N) (n : N).

(** What a waiter that is at [pc] may rely on; [done] when a [fire] returned. *)
Definition pc_ok (done : bool) c (pc : wait_pc) : Prop :=
  (forall t, pc_token pc = Some t -> t ∈ live (notify c)) /\
  match pc with
  | WRecheck t => t ∈ armed (notify c) \/ t ∈ woken (notify c)
  | WAwait t => (t ∈ armed (notify c) \/ t ∈ woken (notify c)) /\ (done = true -> t ∈ woken (notify c))
  | WReturned => fired c = true
  | _ => True
  end.

Definition fire_done (fs : list fire_pc) : bool := bool_decide (FReturned ∈ fs).

Definition calls_inv s : Prop :=
  (forall i pc, cl_waits s !! i = Some pc -> pc_ok (fire_done (cl_fires s)) (cl_cancel s) pc) /\
  (forall i j pi pj t, cl_waits s !! i = Some pi -> cl_waits s !! j = Some pj ->
     pc_token pi = Some t -> pc_token pj = Some t -> i = j) /\
  (forall i pc, cl_fires s !! i = Some pc -> pc <> FStore -> fired (cl_cancel s) = true).

Lemma fire_done_fired s : calls_inv s -> fire_done (cl_fires s) = true -> fired (cl_cancel s) = true.
Proof.
  intros (_ & _ & Hf) Hd. apply bool_decide_eq_true in Hd.
  apply list_elem_of_lookup in Hd as [i Hi]. by apply (Hf i FReturned).
Qed.

(** A waiter is not disturbed by what happens to another's future. *)
Lemma pc_ok_other b c n pc :
  pc_ok b c pc -> (forall t, pc_token pc = Some t -> same_waiter t (notify c) n) ->
  pc_ok b (Cancel (fired c) n) pc.
Proof.
  unfold pc_ok, same_waiter. intros [Hl Hp] Hs. split.
  - intros t Ht. cbn. apply (Hs t Ht), Hl, Ht.
  - destruct pc as [| |t|t|t| |]; cbn in *; try done; specialize (Hs t eq_refl); naive_solver.
Qed.

(** Updating one waiter, with a new state of the shared [Notify]. *)
Lemma calls_inv_update s i pc pc' n :
  calls_inv s -> cl_waits s !! i = Some pc ->
  (forall t, pc_token pc' = Some t -> pc_token pc = Some t \/ t ∉ live (notify (cl_cancel s))) ->
  (forall u, u ∈ live (notify (cl_cancel s)) -> pc_token pc <> Some u ->
     same_waiter u (notify (cl_cancel s)) n) ->
  pc_ok (fire_done (cl_fires s)) (Cancel (fired (cl_cancel s)) n) pc' ->
  calls_inv (Calls (Cancel (fired (cl_cancel s)) n) (<[i := pc']> (cl_waits s)) (cl_fires s)).
Proof.
  intros (Hpc & Hne & Hf) Hi Hnew Hoth Hpc'. split_and!; cbn; [| |done].
  - intros j pj. destruct (decide (i = j)) as [<-|Hij].
    + rewrite list_lookup_insert_eq by (by eapply lookup_lt_Some). by intros [= <-].
    + rewrite list_lookup_insert_ne by done. intros Hj.
      apply pc_ok_other; [by eapply Hpc|]. intros t Ht.
      apply Hoth; [by apply (Hpc _ _ Hj)|]. intros Hti. by apply Hij, (Hne i j pc pj t).
  - assert (Hno : forall j pj t, j <> i -> cl_waits s !! j = Some pj -> pc_token pj = Some t ->
      pc_token pc' <> Some t).
    { intros j pj t Hji Hj Ht Ht'. destruct (Hnew t Ht') as [Hti|Hfr].
      - by apply Hji, (Hne j i pj pc t).
      - by apply Hfr, (Hpc _ _ Hj). }
    intros j k pj pk t Hj Hk Htj Htk.
    apply list_lookup_insert_Some in Hj as [(<- & <- & _)|[Hij Hj]];
      apply list_lookup_insert_Some in Hk as [(<- & <- & _)|[Hik Hk]]; [done|..].
    + by destruct (Hno k pk t (not_eq_sym Hik) Hk Htk).
    + by destruct (Hno j pj t (not_eq_sym Hij) Hj Htj).
    + by apply (Hne j k pj pk t).
Qed.

Lemma same_waiter_refl u n : same_waiter u n n.
Proof. by split_and!. Qed.

Lemma calls_inv_wait s i pc c pc' :
  calls_inv s -> cl_waits s !! i = Some pc -> wait_step (cl_cancel s) pc = (c, pc') ->
  calls_inv (Calls c (<[i := pc']> (cl_waits s)) (cl_fires s)).
Proof.
  intros Hi Hl E. pose proof Hi as (Hpc & _ & Hf). pose proof (Hpc _ _ Hl) as [Hlive Hok].
  assert (Hsame : forall pc', (forall t, pc_token pc' = Some t -> pc_token pc = Some t) ->
    pc_ok (fire_done (cl_fires s)) (cl_cancel s) pc' ->
    calls_inv (Calls (cl_cancel s) (<[i := pc']> (cl_waits s)) (cl_fires s))).
  { intros pc1 Ht Hpc1. destruct (cl_cancel s) as [fl n] eqn:Ec.
    pose proof (calls_inv_update s i pc pc1 n Hi Hl) as Hu. rewrite Ec in Hu.
    apply Hu; [by auto | by intros; apply same_waiter_refl | done]. }
  assert (Hdrop : forall pc1 t, pc_token pc = Some t -> pc_token pc1 = None ->
    (pc1 = WReturned -> fired (cl_cancel s) = true) ->
    calls_inv (Calls (Cancel (fired (cl_cancel s)) (notified_drop t (notify (cl_cancel s))))
      (<[i := pc1]> (cl_waits s)) (cl_fires s))).
  { intros pc1 t Ht Hn Hr. apply (calls_inv_update s i pc pc1 _ Hi Hl); [by rewrite Hn| |].
    - intros u _ Hu. apply notified_drop_spec. congruence.
    - split; [by rewrite Hn|]. destruct pc1; cbn in *; try done. by apply Hr. }
  unfold wait_step in E. destruct pc as [| |t|t|t| |]; cbn in Hok.
  - injection E as <- <-. apply Hsame; [by destruct (fired _)|].
    destruct (fired (cl_cancel s)) eqn:Ef; by split.
  - destruct (notified (notify (cl_cancel s))) as [t n] eqn:En. injection E as <- <-.
    apply notified_spec in En as (Hfr & Hin & Ho).
    apply (calls_inv_update s i _ _ _ Hi Hl).
    + intros u [= ->]. by right.
    + intros u Hu _. apply Ho. by intros ->.
    + split; [|done]. by intros u [= ->].
  - injection E as <- <-. destruct (enable_spec t (notify (cl_cancel s))) as (Hin & Hr & Ho); [by apply Hlive|].
    apply (calls_inv_update s i _ _ _ Hi Hl).
    + intros u Hu. by left.
    + intros u _ Hu. apply Ho. by intros ->.
    + split; [|done]. by intros u [= ->].
  - destruct (fired (cl_cancel s)) eqn:Ef; injection E as <- <-.
    + by apply (Hdrop WReturned t).
    + apply Hsame; [done|]. split; [done|]. cbn. split; [done|].
      intros Hd. by rewrite (fire_done_fired s Hi Hd) in Ef.
  - destruct (notified_ready t _); injection E as <- <-; [by apply (Hdrop WLoad t)|].
    apply Hsame; [done|]. by split.
  - injection E as <- <-. apply Hsame; [done|]. by split.
  - injection E as <- <-. apply Hsame; [done|]. by split.
Qed.

Lemma calls_inv_drop s i pc c pc' :
  calls_inv s -> cl_waits s !! i = Some pc -> wait_drop (cl_cancel s) pc = (c, pc') ->
  calls_inv (Calls c (<[i := pc']> (cl_waits s)) (cl_fires s)).
Proof.
  intros Hi Hl E. pose proof Hi as (Hpc & _ & Hf). pose proof (Hpc _ _ Hl) as [Hlive Hok].
  assert (exists n, c = Cancel (fired (cl_cancel s)) n /\ pc_token pc' = None /\
    (pc' = WReturned -> fired (cl_cancel s) = true) /\ (pc' = WReturned \/ pc' = WDropped) /\
    forall u, pc_token pc <> Some u -> same_waiter u (notify (cl_cancel s)) n) as (n & -> & Hn & Hr & Hp & Ho).
  { assert (Hc : cl_cancel s = Cancel (fired (cl_cancel s)) (notify (cl_cancel s))) by (by destruct (cl_cancel s)).
    assert (Hdr : forall t, pc_token pc = Some t -> forall u, pc_token pc <> Some u ->
      same_waiter u (notify (cl_cancel s)) (notified_drop t (notify (cl_cancel s)))).
    { intros t Ht u Hu. apply notified_drop_spec. congruence. }
    pose proof same_waiter_refl as Hrf.
    destruct pc as [| |t|t|t| |]; injection E as <- <-;
      (eexists; split; [first [exact Hc | reflexivity]|]); cbn in Hok |- *;
      (split_and!; [done | done | auto | by auto]). }
  apply (calls_inv_update s i pc pc' n Hi Hl); [by rewrite Hn | by auto |].
  split; [by rewrite Hn|]. destruct Hp as [-> | ->]; [|done]. by apply Hr.
Qed.

Lemma calls_inv_fire s i pc c pc' :
  calls_inv s -> cl_fires s !! i = Some pc -> fire_step (cl_cancel s) pc = (c, pc') ->
  calls_inv (Calls c (cl_waits s) (<[i := pc']> (cl_fires s))).
Proof.
  intros Hi Hl E. pose proof Hi as (Hpc & Hne & Hf).
  destruct pc; injection E as <- <-; cbn.
  - (* the store *)
    assert (Hd : fire_done (<[i := FNotify]> (cl_fires s)) = true -> fire_done (cl_fires s) = true).
    { unfold fire_done. rewrite !bool_decide_eq_true. intros Hin. apply list_elem_of_lookup in Hin as [j Hj].
      apply list_lookup_insert_Some in Hj as [(_ & ? & _)|[_ Hj]]; [done|].
      by apply list_elem_of_lookup_2 in Hj. }
    split_and!; cbn; [|done|done]. intros j pj Hj. destruct (Hpc _ _ Hj) as [Hlv Hok].
    split; [done|]. destruct pj; cbn in *; naive_solver.
  - (* the broadcast: every armed waiter is woken *)
    assert (Ht : fired (cl_cancel s) = true) by (by apply (Hf i FNotify)).
    destruct (notify_waiters_spec (notify (cl_cancel s))) as [Hlv' Hwk].
    split_and!; cbn; [|done|by intros]. intros j pj Hj. destruct (Hpc _ _ Hj) as [Hlv Hok].
    split; cbn; [by rewrite Hlv'|]. destruct pj; cbn in *; try done; naive_solver.
  - rewrite list_insert_id by done. by destruct s as [[] ? ?].
Qed.

Lemma calls_inv_step s e : calls_inv s -> calls_inv (call_step s e).
Proof.
  intros Hi. pose proof Hi as (Hpc & Hne & Hf). destruct e as [| |i|i|i]; cbn.
  - assert (Hsn : forall i pc, (cl_waits s ++ [WLoad]) !! i = Some pc -> cl_waits s !! i = Some pc \/ pc = WLoad).
    { intros i pc [?|(_ & Hl)]%lookup_app_Some; [by left|].
      apply list_lookup_singleton_Some in Hl as [_ <-]. by right. }
    split_and!; cbn; [| |done].
    + intros i pc [Hl | ->]%Hsn; [by eapply Hpc|by split].
    + intros i j pi pj t [Hl | ->]%Hsn; [|done]. intros [Hl' | ->]%Hsn; [|done].
      by apply (Hne i j pi pj t).
  - assert (Hd : fire_done (cl_fires s ++ [FStore]) = fire_done (cl_fires s)).
    { unfold fire_done. apply bool_decide_ext. rewrite elem_of_app, list_elem_of_singleton. naive_solver. }
    split_and!; cbn; [by rewrite Hd | done |].
    intros i pc [?|(_ & Hl)]%lookup_app_Some; [by eapply Hf|].
    by apply list_lookup_singleton_Some in Hl as [_ <-].
  - destruct (cl_waits s !! i) as [pc|] eqn:El; [|done].
    destruct (wait_step _ pc) as [c pc'] eqn:E. by eapply calls_inv_wait.
  - destruct (cl_fires s !! i) as [pc|] eqn:El; [|done].
    destruct (fire_step _ pc) as [c pc'] eqn:E. by eapply calls_inv_fire.
  - destruct (cl_waits s !! i) as [pc|] eqn:El; [|done].
    destruct (wait_drop _ pc) as [c pc'] eqn:E. by eapply calls_inv_drop.
Qed.

Lemma calls_inv_run es : calls_inv (call_run (no_calls (N := N)) es).
Proof.
  assert (Hi : calls_inv (no_calls (N := N))).
  { split_and!; cbn; intros *; rewrite lookup_nil; done. }
  revert Hi. unfold call_run. generalize (no_calls (N := N)).
  induction es as [|e es IH]; intros s Hi; [done|]. cbn. by apply IH, calls_inv_step.
Qed.

(** *** A waiter on its own *)

Lemma step_wait_at s i pc :
  cl_waits s !! i = Some pc ->
  cl_cancel (call_step s (StepWait i)) = (wait_step (cl_cancel s) pc).1 /\
  cl_waits (call_step s (StepWait i)) !! i = Some (wait_step (cl_cancel s) pc).2.
Proof.
  intros Hl. cbn. rewrite Hl. destruct (wait_step _ pc) as [c pc']; cbn.
  split; [done|]. apply list_lookup_insert_eq. by eapply lookup_lt_Some.
Qed.

Lemma wait_step_fired c pc : fired (wait_step c pc).1 = fired c.
Proof. unfold wait_step. by repeat case_match. Qed.

(** Steps left to a waiter that sees the flag and is woken if it awaits. *)
Definition wait_rank (pc : wait_pc) : nat :=
  match pc with
  | WNotified => 3 | WEnable _ | WAwait _ => 2 | WLoad | WRecheck _ => 1 | WReturned | WDropped => 0
  end.

Lemma wait_alone m s i pc :
  (wait_rank pc <= m)%nat -> cl_waits s !! i = Some pc -> pc <> WDropped -> fired (cl_cancel s) = true ->
  (forall t, pc = WAwait t -> t ∈ woken (notify (cl_cancel s))) ->
  exists m', (m' <= m)%nat /\ cl_waits (call_run s (replicate m' (StepWait i))) !! i = Some WReturned.
Proof.
  revert s pc. induction m as [|m IH]; intros s pc Hm Hl Hd Hf Hw.
  { exists 0%nat. by destruct pc; try (cbn in Hm; lia). }
  destruct (decide (pc = WReturned)) as [->|Hr]; [exists 0%nat; split; [lia|done]|].
  destruct (step_wait_at s i pc Hl) as [Ec Ep].
  assert (Hs : (wait_rank (wait_step (cl_cancel s) pc).2 < wait_rank pc)%nat /\
    (wait_step (cl_cancel s) pc).2 <> WDropped /\
    forall t, (wait_step (cl_cancel s) pc).2 <> WAwait t).
  { destruct pc as [| |t|t|t| |]; cbn; rewrite ?Hf, ?notified_ready_spec by auto; try done;
      try destruct (notified _); cbn; (split_and!; [lia | done | done]). }
  destruct Hs as (Hrk & Hnd & Hna).
  assert (Hrm : (wait_rank (wait_step (cl_cancel s) pc).2 <= m)%nat) by lia.
  destruct (IH _ _ Hrm Ep Hnd) as (m' & Hm' & Hret).
  - by rewrite Ec, wait_step_fired.
  - intros t Ht. by destruct (Hna t).
  - exists (Datatypes.S m'). split; [lia|done].
Qed.

(** C9 No wake-up is lost: whatever the interleaving of any number of
    [fire] and [wait] calls, and whichever of them are dropped, once one
    [fire] has returned every [wait], begun before it or after it, returns
    within three steps of its own, without any further help. *)
Theorem cancel_no_lost_wakeup es i pc :
  let s := call_run (no_calls (N := N)) es in
  FReturned ∈ cl_fires s -> cl_waits s !! i = Some pc -> pc <> WDropped ->
  exists m, (m <= 3)%nat /\
    cl_waits (call_run s (replicate m (StepWait i))) !! i = Some WReturned.
Proof.
  intros s Hd Hl Hnd. assert (Hi : calls_inv s) by apply calls_inv_run.
  assert (Hdone : fire_done (cl_fires s) = true) by by apply bool_decide_eq_true_2.
  destruct (proj1 Hi _ _ Hl) as [_ Hok].
  apply (wait_alone 3 s i pc); [by destruct pc; cbn; lia | done | done | by apply fire_done_fired |].
  intros t ->. by apply Hok.
Qed.

(** C25 [wait] returns only after a [fire] has begun: a session is never
    cancelled spuriously, whatever the notifications do. *)
Theorem cancel_wait_sound es i :
  let s := call_run (no_calls (N := N)) es in
  cl_waits s !! i = Some WReturned -> CallFire ∈ es /\ fired (cl_cancel s) = true.
Proof.
  intros s Hl. assert (Hi : calls_inv s) by apply calls_inv_run.
  destruct (proj1 Hi _ _ Hl) as [_ Hf]. split; [|done]. clear Hi Hl.
  destruct (existsb (fun e => match e with CallFire => true | _ => false end) es) eqn:Hex.
  { apply existsb_exists in Hex as ([] & Hin & ?); try done. by apply list_elem_of_In. }
  assert (Hn : CallFire ∉ es).
  { intros Hin. apply list_elem_of_In in Hin. rewrite <- not_true_iff_false in Hex.
    apply Hex, existsb_exists. by exists CallFire. }
  exfalso.
  assert (Hx : forall es s, CallFire ∉ es -> fired (cl_cancel s) = false -> cl_fires s = [] ->
    fired (cl_cancel (call_run s es)) = false).
  { clear. intros es. induction es as [|e es IH]; intros s Hn Hf Hfs; [done|]. cbn.
    apply not_elem_of_cons in Hn as [He Hn].
    destruct e as [| |j|j|j]; cbn; try done; apply IH; try done; cbn; rewrite ?Hfs; try done;
      (destruct (cl_waits s !! j) as [pc|]; [|done]).
    - pose proof (wait_step_fired (cl_cancel s) pc) as Hw. destruct (wait_step _ pc); cbn in *. congruence.
    - destruct (wait_step _ pc); done.
    - unfold wait_drop. by destruct pc.
    - by destruct (wait_drop _ pc). }
  assert (fired (cl_cancel s) = false) by by apply Hx. cbn in Hf. congruence.
Qed.
End proofs.

(** ** A concrete interleaving *)

(** One waiter arms, re-checks and awaits; a [fire] runs; a second waiter comes
    later; a third is dropped while armed. *)
Definition demo_calls : list call_event :=
  [CallWait; StepWait 0; StepWait 0; CallWait; StepWait 1; StepWait 1; StepWait 1; StepWait 0; CallFire;
   StepFire 0; DropWait 1; StepWait 0; StepFire 0; CallWait; StepWait 2].

Lemma cancel_no_lost_wakeup_witness :
  exists m, (m <= 3)%nat /\
    cl_waits (call_run (call_run (no_calls (N := set_notify)) demo_calls) (replicate m (StepWait 0))) !! 0%nat
      = Some WReturned.
Proof.
  eapply (cancel_no_lost_wakeup (N := set_notify) demo_calls 0 _).
  - vm_compute. apply list_elem_of_here.
  - vm_compute. reflexivity.
  - discriminate.
Defined.

Lemma cancel_wait_sound_witness :
  fired (cl_cancel (call_run (no_calls (N := set_notify)) demo_calls)) = true.
Proof.
  apply (cancel_wait_sound (N := set_notify) demo_calls 2). vm_compute. reflexivity.
Defined.
