(* ===== verification/Portal.v ===== *)
(** * Portal: the hypercall to the emulator

    [src/portalcall.rs]: a [sendto] system call whose arguments the emulator
    intercepts.  The register width is the target's; the system call and the
    address of a slice are the environment's. *)

From S2P Require Import Prelude.

(** [target_pointer_width]: 64 or 32 bits. *)
Inductive target := Width32 | Width64.
Definition width (t : target) : Z := match t with Width32 => 32 | Width64 => 64 end.
Definition as_uregsize (t : target) (z : Z) : Z := z mod 2 ^ width t.
Definition as_regsize (t : target) (z : Z) : Z :=
  (z + 2 ^ (width t - 1)) mod 2 ^ width t - 2 ^ (width t - 1).

Definition PORTAL_MAGIC : Z := 0xc1d1e1f1.
Definition INDIV_DEBUG_PORTALCALL_MAGIC : Z := 0xfeedbeef.

(** One system call: its number, its register arguments, and the u64 words the
    pointer argument designates at the time of the call. *)
Record sys_call := SysCall { sc_number : Z; sc_args : list Z; sc_memory : list Z }.

Class Syscall := {
  SYS_sendto : Z;
  slice_ptr : list Z -> Z;
  syscall : sys_call -> Z;
}.

Section ops.
Context `{!Syscall} (t : target).

Definition portal_request (user_magic argc : Z) (args : list Z) : sys_call :=
  SysCall SYS_sendto [PORTAL_MAGIC; user_magic; argc; slice_ptr args; 0; 0] args.
Definition portal_call (user_magic argc : Z) (args : list Z) : Z :=
  as_regsize t (syscall (portal_request user_magic argc args)).

Definition portal_call0 (user_magic : Z) : Z := portal_call user_magic 0 [].
Definition portal_call1 (user_magic a1 : Z) : Z := portal_call user_magic 1 [a1].
Definition portal_call2 (user_magic a1 a2 : Z) : Z := portal_call user_magic 2 [a1; a2].
Definition portal_call3 (user_magic a1 a2 a3 : Z) : Z := portal_call user_magic 3 [a1; a2; a3].
Definition portal_call4 (user_magic a1 a2 a3 a4 : Z) : Z := portal_call user_magic 4 [a1; a2; a3; a4].
Definition portal_call5 (user_magic a1 a2 a3 a4 a5 : Z) : Z :=
  portal_call user_magic 5 [a1; a2; a3; a4; a5].
End ops.
