(* ===== verification/Startup.v ===== *)
(** * Startup: the agent's configuration

    The part of [src/main.rs] before the accept loop: the environment variables
    ([str::parse] of [u64], [usize] and [f64] from the standard library), their
    defaults and floors, the shell, the address to listen on.  The values of
    the environment and of the symbolic link are parameters; parsing the command
    line is [structopt]'s, binding the socket [tokio_vsock]'s. *)

From Stdlib Require Import Strings.Ascii.
From S2P Require Import Prelude Frame Duration Exec Portal.

(** ** [str::parse] for unsigned integers *)

Definition digit (c : Ascii.ascii) : option Z :=
  let n := Z.of_nat (Ascii.nat_of_ascii c) - 48 in
  if (0 <=? n) && (n <=? 9) then Some n else None.

(** Checked accumulation: an overflow at any digit is an error. *)
Fixpoint digits_value (bits acc : Z) (s : string) : option Z :=
  match s with
  | EmptyString => Some acc
  | String c s' =>
      match digit c with
      | Some d => let v := acc * 10 + d in
                  if v <? 2 ^ bits then digits_value bits v s' else None
      | None => None
      end
  end.

Definition parse_uint (bits : Z) (s : string) : option Z :=
  let ds := match s with String "+"%char s' => s' | _ => s end in
  match ds with EmptyString => None | _ => digits_value bits 0 ds end.

(** ** [str::parse] for [f64] *)

Fixpoint span_digits (acc : Z) (n : nat) (s : string) : Z * nat * string :=
  match s with
  | String c s' =>
      match digit c with
      | Some d => span_digits (acc * 10 + d) (S n) s'
      | None => (acc, n, s)
      end
  | EmptyString => (acc, n, s)
  end.

Definition span_sign (s : string) : bool * string :=
  match s with
  | String "-"%char s' => (true, s')
  | String "+"%char s' => (false, s')
  | _ => (false, s)
  end.

Definition ascii_lower (c : Ascii.ascii) : Ascii.ascii :=
  let n := Ascii.nat_of_ascii c in
  if ((65 <=? n) && (n <=? 90))%nat then Ascii.ascii_of_nat (n + 32) else c.
Fixpoint to_lower (s : string) : string :=
  match s with EmptyString => EmptyString | String c s' => String (ascii_lower c) (to_lower s') end.

(** [mant * 10 ^ e], rounded to nearest even. *)
Definition decimal_f64 (neg : bool) (mant e : Z) : f64 :=
  match mant with
  | Zpos m =>
      if 0 <=? e then binary_normalize 53 1024 ((if neg then -1 else 1) * mant * 10 ^ e) 0 neg
      else SFdiv 53 1024 (S754_finite neg m 0) (S754_finite false (Z.to_pos (10 ^ (- e))) 0)
  | _ => S754_zero neg
  end.

Definition parse_exponent (s : string) : option Z :=
  match s with
  | EmptyString => Some 0
  | String c s' =>
      if Ascii.eqb (ascii_lower c) "e"%char then
        let '(neg, s1) := span_sign s' in
        match span_digits 0 0 s1 with
        | (v, S _, EmptyString) => Some (if neg then - v else v)
        | _ => None
        end
      else None
  end.

Definition parse_f64 (s : string) : option f64 :=
  let '(neg, s1) := span_sign s in
  if String.eqb (to_lower s1) "inf" || String.eqb (to_lower s1) "infinity" then Some (S754_infinity neg)
  else if String.eqb (to_lower s1) "nan" then Some S754_nan
  else
    let '(ip, ni, s2) := span_digits 0 0 s1 in
    let '(m, nf, s3) := match s2 with
                        | String "."%char s' => span_digits ip 0 s'
                        | _ => (ip, 0%nat, s2)
                        end in
    if (ni + nf =? 0)%nat then None
    else match parse_exponent s3 with
         | Some e => Some (decimal_f64 neg m (e - Z.of_nat nf))
         | None => None
         end.

(** ** [main], up to the accept loop *)

(** [std::env::var(name).ok()]. *)
Definition environment : Type := string -> option string.

(** [.ok().and_then(parse).unwrap_or(default).max(1)]. *)
Definition env_uint (env : environment) (name : string) (bits dflt : Z) : Z :=
  Z.max (default dflt (env name ≫= parse_uint bits)) 1.

Definition idle_timeout (env : environment) : Z :=
  from_secs (env_uint env "GUESTHOPPER_IDLE_TIMEOUT_SECS" 64 30).
Definition write_timeout (env : environment) : Z :=
  from_secs (env_uint env "GUESTHOPPER_WRITE_TIMEOUT_SECS" 64 60).
Definition max_sessions (t : target) (env : environment) : Z :=
  env_uint env "GUESTHOPPER_MAX_SESSIONS" (width t) 64.
Definition startup_deadline (env : environment) : option Z :=
  default_deadline (env "GUESTHOPPER_COMMAND_TIMEOUT_SECS" ≫= parse_f64).
Definition startup_inbound (t : target) (env : environment) : inbound_cell :=
  match env "GUESTHOPPER_MAX_FRAME_LEN" ≫= parse_uint (width t) with
  | Some v => set_max_inbound_frame_len v MAX_INBOUND_FRAME_LEN
  | None => MAX_INBOUND_FRAME_LEN
  end.

(** [link] is the target of /igloo/utils/sh.orig, decoded lossily. *)
Definition startup_shell (arg : option string) (link : io_result string) : string :=
  match arg with
  | Some s => s
  | None => match link with Ok p => p | Err _ => "/bin/sh" end
  end.

Definition startup_config (t : target) (env : environment) (arg : option string)
    (link : io_result string) : config :=
  Config (startup_shell arg link) (idle_timeout env) (write_timeout env) (startup_deadline env)
    (startup_inbound t env).

(** ** The listener *)

(** What [structopt] makes of the command line. *)
Record ListenAddress := mkListenAddress {
  la_cid : option Z;
  la_port : Z;
  la_shell : option string;
}.

Class Vsock := {
  VMADDR_CID_ANY : Z;
  bind : Z * Z -> io_result unit;       (* VsockListener::bind *)
}.

Definition listen_addr `{!Vsock} (args : ListenAddress) : Z * Z :=
  (default VMADDR_CID_ANY (la_cid args), la_port args).

(** ** Properties *)

Example parse_f64_examples :
  parse_f64 "3600" = Some (f64_of_Z 3600) /\ parse_f64 "+0.5e1" = Some (f64_of_Z 5) /\
  parse_f64 "1e-3" = Some (SFdiv 53 1024 (f64_of_Z 1) (f64_of_Z 1000)) /\
  parse_f64 "1e400" = Some (S754_infinity false) /\ parse_f64 "-Inf" = Some (S754_infinity true) /\
  parse_f64 "." = None /\ parse_f64 "1e" = None /\ parse_f64 "" = None /\ parse_f64 " 1" = None.
Proof. by vm_compute. Qed.

Lemma digit_range c d : digit c = Some d -> 0 <= d <= 9.
Proof. unfold digit. case_match; [|done]. bool_prop. intros [= <-]. lia. Qed.

Lemma digits_value_range bits acc s v :
  0 <= acc -> digits_value bits acc s = Some v -> 0 <= v.
Proof.
  revert acc. induction s as [|c s IH]; cbn; intros acc Ha; [by intros [= <-]|].
  destruct (digit c) as [d|] eqn:Ed; [|done]. apply digit_range in Ed.
  destruct (_ <? _); [|done]. apply IH. lia.
Qed.

Lemma digits_value_bound bits acc s v :
  acc < 2 ^ bits -> digits_value bits acc s = Some v -> v < 2 ^ bits.
Proof.
  revert acc. induction s as [|c s IH]; cbn; intros acc Ha; [by intros [= <-]|].
  destruct (digit c) as [d|]; [|done]. destruct (_ <? _) eqn:E; [|done]. bool_prop. by apply IH.
Qed.

Lemma parse_uint_range bits s v : 0 <= bits -> parse_uint bits s = Some v -> 0 <= v < 2 ^ bits.
Proof.
  intros Hb. assert (0 < 2 ^ bits) by (by apply Z.pow_pos_nonneg).
  unfold parse_uint. generalize (match s with String "+"%char s' => s' | _ => s end). intros ds.
  destruct ds as [|c ds]; [done|]. intros E. split.
  - by eapply digits_value_range; [|exact E].
  - by eapply digits_value_bound; [|exact E].
Qed.

Lemma env_uint_range env name bits dflt :
  0 < bits -> 0 <= dflt < 2 ^ bits -> 1 <= env_uint env name bits dflt < 2 ^ bits.
Proof.
  intros Hb Hd. assert (1 < 2 ^ bits) by (by apply Z.pow_gt_1). unfold env_uint.
  destruct (env name) as [s|]; cbn; [|lia].
  destruct (parse_uint bits s) as [v|] eqn:E; cbn; [|lia].
  apply parse_uint_range in E; lia.
Qed.

Lemma startup_deadline_nonneg env d : startup_deadline env = Some d -> 0 <= d.
Proof.
  unfold startup_deadline, default_deadline.
  destruct (SFleb _ f64_zero); [done|]. destruct (try_from_secs_f64 _) as [d'|] eqn:E; intros [= <-].
  - by eapply try_from_secs_f64_nonneg.
  - by vm_compute.
Qed.

Lemma startup_timeouts env :
  from_secs 1 <= idle_timeout env /\ from_secs 1 <= write_timeout env.
Proof.
  pose proof (env_uint_range env "GUESTHOPPER_IDLE_TIMEOUT_SECS" 64 30 eq_refl ltac:(lia)).
  pose proof (env_uint_range env "GUESTHOPPER_WRITE_TIMEOUT_SECS" 64 60 eq_refl ltac:(lia)).
  unfold idle_timeout, write_timeout, from_secs, NANOS_PER_SEC. lia.
Qed.

(** C38 Whatever the environment holds, a started agent runs with sane limits:
    idle and write timeouts of at least one second that fit a [Duration], a
    non-negative default deadline, an inbound cap between 64 KiB and 16 MiB, at
    least one session, and the defaults of 30 s, 60 s, one hour, 1 MiB and 64
    sessions for variables that are unset or do not parse. *)
Theorem startup_limits t env arg link :
  let cf := startup_config t env arg link in
  (from_secs 1 <= cf_idle_timeout cf /\ duration_ok (cf_idle_timeout cf)) /\
  (from_secs 1 <= cf_write_timeout cf /\ duration_ok (cf_write_timeout cf)) /\
  (forall d, cf_default_deadline cf = Some d -> 0 <= d) /\
  cap_ok (cf_inbound_cap cf) /\
  1 <= max_sessions t env < 2 ^ width t /\
  ((forall name, env name = None) ->
   cf_idle_timeout cf = from_secs 30 /\ cf_write_timeout cf = from_secs 60 /\
   cf_default_deadline cf = Some (from_secs 3600) /\ cf_inbound_cap cf = 1024 * 1024 /\
   max_sessions t env = 64).
Proof.
  assert (Hu : forall name dflt, 0 <= dflt < 2 ^ 64 ->
    from_secs 1 <= from_secs (env_uint env name 64 dflt) /\ duration_ok (from_secs (env_uint env name 64 dflt))).
  { intros name dflt Hd. pose proof (env_uint_range env name 64 dflt eq_refl Hd).
    unfold duration_ok, from_secs, NANOS_PER_SEC. lia. }
  cbn. split; [by apply Hu|]. split; [by apply Hu|]. split; [|split; [|split]].
  - apply startup_deadline_nonneg.
  - unfold startup_inbound. destruct (env _ ≫= _) as [v|]; [|split; vm_compute; congruence].
    unfold set_max_inbound_frame_len, clamp_inbound, clamp, cap_ok.
    change MIN_INBOUND_FRAME_LEN with 65536. change MAX_FRAME_LEN with 16777216. lia.
  - destruct t; apply env_uint_range; cbn; lia.
  - intros Hn. unfold idle_timeout, write_timeout, startup_deadline, startup_inbound, max_sessions, env_uint.
    rewrite !Hn. cbn -[from_secs default_deadline]. split_and!; try done; by vm_compute.
Qed.
