(* ===== verification/Agent.v ===== *)
(** * Agent: the accept loop and the sessions it runs

    [main] of [src/main.rs] from the semaphore on: a permit is acquired before
    each accept, moved into the session's task, and released when that task is
    over; a failed accept releases it at once.  The running sessions are those
    of [Session], sharing the kernel and the long-command flag; each keeps its
    own clock, counted from its start.  [tokio::sync::Semaphore] is third-party
    code and an interface here. *)

From S2P Require Import Prelude AsyncIO Frame Duration Status Request Shell Outbound Pump.
From S2P Require Import Stdin Exec FdOps Pty Session SessionTime SessionWire SessionEnds Portal Startup.

(** ** [tokio::sync::Semaphore] *)

Inductive acquired (P : Type) := Acquired (p : P) | WouldWait | Closed.
Arguments Acquired {P} _.
Arguments WouldWait {P}.
Arguments Closed {P}.

Class Semaphore (P : Type) := {
  MAX_PERMITS : Z;
  sem_new : Z -> option P;              (* [None]: the constructor panics *)
  acquire_owned : P -> acquired P;
  permit_drop : P -> P;
}.

Class SemaphoreView (P : Type) := { permits : P -> Z }.

Class SemaphoreSpec (P : Type) `{!Semaphore P, !SemaphoreView P} : Prop := {
  sem_new_ok n : 0 <= n <= MAX_PERMITS -> exists p, sem_new n = Some p /\ permits p = n;
  sem_new_panics n : MAX_PERMITS < n -> sem_new n = None;
  acquire_some (p : P) : 0 < permits p -> exists p', acquire_owned p = Acquired p' /\ permits p' = permits p - 1;
  acquire_none (p : P) : permits p = 0 -> acquire_owned p = WouldWait;
  permit_drop_spec (p : P) : permits (permit_drop p) = permits p + 1;
}.

(** A counter; [MAX_PERMITS] is [usize::MAX >> 3] on a 64-bit target. *)
#[export] Instance Z_Semaphore : Semaphore Z := {
  MAX_PERMITS := 2 ^ 61 - 1;
  sem_new n := if n <=? 2 ^ 61 - 1 then Some n else None;
  acquire_owned p := if 0 <? p then Acquired (p - 1) else WouldWait;
  permit_drop p := p + 1;
}.
#[export] Instance Z_SemaphoreView : SemaphoreView Z := { permits p := p }.
#[export] Instance Z_SemaphoreSpec : SemaphoreSpec Z.
Proof.
  split; cbn [sem_new acquire_owned permit_drop permits Z_Semaphore Z_SemaphoreView MAX_PERMITS].
  - intros n Hn. rewrite (proj2 (Z.leb_le _ _)) by lia. eauto.
  - intros n Hn. by rewrite (proj2 (Z.leb_gt _ _)) by lia.
  - intros p Hp. rewrite (proj2 (Z.ltb_lt _ _)) by lia. eauto.
  - by intros p ->.
  - done.
Qed.

(** ** State *)

Inductive accept_pc :=
| Acquiring               (* acquire_owned().await *)
| Accepting               (* listener.accept().await, holding a permit *)
| Stopped.                (* the loop was left *)

Record agent (P C W R S I K : Type) := Agent {
  ag_pc : accept_pc;
  ag_sem : P;
  ag_sessions : list (session C W R S I K);
  ag_kernel : K;
  ag_warned : bool;
}.
Arguments Agent {P C W R S I K} _ _ _ _ _.
Arguments ag_pc {P C W R S I K} _.
Arguments ag_sem {P C W R S I K} _.
Arguments ag_sessions {P C W R S I K} _.
Arguments ag_kernel {P C W R S I K} _.
Arguments ag_warned {P C W R S I K} _.

Inductive agent_event (W R : Type) :=
| AgAcquire                                    (* the accept loop is polled *)
| AgAccept (conn : io_result (R * W))          (* accept() completes *)
| AgSession (i : nat) (e : event).             (* something happens in session i *)
Arguments AgAcquire {W R}.
Arguments AgAccept {W R} _.
Arguments AgSession {W R} _ _.

(** How [main] gets to its loop, or does not. *)
Inductive started (P C W R S I K : Type) :=
| BindFailed (e : io_error)                    (* main returns the error *)
| Panicked
| Listening (cf : config) (a : agent P C W R S I K).
Arguments BindFailed {P C W R S I K} _.
Arguments Panicked {P C W R S I K}.
Arguments Listening {P C W R S I K} _ _.

Section ops.
Context {P C W R S I K : Type}.
Context `{!Semaphore P, !Mpsc C, !AsyncWrite W, !AsyncRead R, !AsyncRead S, !AsyncWrite I, !FdWrite I, !Kernel K}.
Context `{!Json, !Fmt, !Shlex, !Spawn S I K, !PtyStreams S I, !Syscall, !Vsock}.
Implicit Type a : agent P C W R S I K.

(** The session's view of what the process shares, and back. *)
Definition enter (k : K) (warned : bool) (s : session C W R S I K) : session C W R S I K :=
  Session (s_now s) (s_main s) (s_reader s) (s_ob s) k warned (s_console s).

(** One event of one session; its task's end drops the permit. *)
Definition session_event (cf : config) (i : nat) (e : event) a : agent P C W R S I K :=
  match ag_sessions a !! i with
  | Some s =>
      let s' := step cf (enter (ag_kernel a) (ag_warned a) s) e in
      if finished s'
      then Agent (ag_pc a) (permit_drop (ag_sem a)) (delete i (ag_sessions a)) (s_kernel s') (s_warned s')
      else Agent (ag_pc a) (ag_sem a) (<[i := s']> (ag_sessions a)) (s_kernel s') (s_warned s')
  | None => a
  end.

Definition agent_step (cf : config) a (ev : agent_event W R) : agent P C W R S I K :=
  match ev, ag_pc a with
  | AgAcquire, Acquiring =>
      match acquire_owned (ag_sem a) with
      | Acquired p => Agent Accepting p (ag_sessions a) (ag_kernel a) (ag_warned a)
      | WouldWait => a
      | Closed => Agent Stopped (ag_sem a) (ag_sessions a) (ag_kernel a) (ag_warned a)
      end
  | AgAccept (Ok (r, w)), Accepting =>
      Agent Acquiring (ag_sem a)
        (ag_sessions a ++ [new_session r w (ag_kernel a) (ag_warned a)]) (ag_kernel a) (ag_warned a)
  | AgAccept (Err _), Accepting =>
      Agent Acquiring (permit_drop (ag_sem a)) (ag_sessions a) (ag_kernel a) (ag_warned a)
  | AgSession i e, _ => session_event cf i e a
  | _, _ => a
  end.

Definition agent_run (cf : config) a (evs : list (agent_event W R)) : agent P C W R S I K :=
  fold_left (agent_step cf) evs a.

(** [main] up to the loop: the portal call, whose result is dropped, the
    listener, the configuration, the semaphore. *)
Definition agent_start (t : target) (env : environment) (args : ListenAddress) (link : io_result string)
    (k : K) : Z * started P C W R S I K :=
  let portal := portal_call0 t INDIV_DEBUG_PORTALCALL_MAGIC in
  match bind (listen_addr args) with
  | Err e => (portal, BindFailed e)
  | Ok _ =>
      match sem_new (max_sessions t env) with
      | Some p => (portal, Listening (startup_config t env (la_shell args) link) (Agent Acquiring p [] k false))
      | None => (portal, Panicked)
      end
  end.
End ops.

(** ** Properties *)

Lemma startup_config_ok t env arg link : config_ok (startup_config t env arg link).
Proof.
  destruct (startup_timeouts env) as [Hi Hw]. unfold from_secs, NANOS_PER_SEC in *.
  split; [cbn; lia|]. split; [cbn; lia|]. apply startup_deadline_nonneg.
Qed.

Section proofs.
Context {P C W R S I K : Type}.
Context `{SemaphoreSpec P, MpscSpec C, AsyncWriteSpec W, !AsyncRead R, AsyncReadSpec S}.
Context `{!AsyncWrite I, !FdWrite I, KernelSpec K}.
Context `{!Json, !Fmt, !Shlex, !Spawn S I K, !PtyStreams S I, !Syscall, !Vsock}.
Implicit Type a : agent P C W R S I K.

Definition held_permits a : Z := match ag_pc a with Accepting => 1 | _ => 0 end.

Definition session_ok (cf : config) (s : session C W R S I K) : Prop :=
  session_inv cf s /\ time_inv cf s /\ input_ok (s_main s) /\ finished s = false.

(** Every permit is free, held by the accept loop, or held by a session. *)
Definition agent_inv (cf : config) (max : Z) a : Prop :=
  permits (ag_sem a) + held_permits a + Z.of_nat (length (ag_sessions a)) = max /\
  0 <= permits (ag_sem a) /\ ag_pc a <> Stopped /\
  (forall s, s ∈ ag_sessions a -> session_ok cf s).

Lemma session_event_inv cf max a i e :
  config_ok cf -> agent_inv cf max a -> agent_inv cf max (session_event cf i e a).
Proof.
  intros Hcf Hi. pose proof Hi as (Hsum & Hpos & Hpc & Hs). unfold session_event.
  destruct (ag_sessions a !! i) as [s|] eqn:El; [|done].
  assert (Hok : session_ok cf s) by (apply Hs; by eapply list_elem_of_lookup_2).
  destruct Hok as (Hw & Ht & Hin & Hf).
  set (s' := step cf (enter (ag_kernel a) (ag_warned a) s) e).
  assert (Hw' : session_inv cf s') by by apply session_inv_step.
  assert (Ht' : time_inv cf s') by by apply time_inv_step.
  assert (Hin' : input_ok (s_main s')) by by apply input_ok_step.
  pose proof (lookup_lt_Some _ _ _ El) as Hlt.
  destruct (finished s') eqn:Hf'; unfold agent_inv, held_permits in *; cbn.
  - rewrite permit_drop_spec, length_delete by done. split_and!; [lia|lia|done|].
    intros s1 Hs1. apply Hs. rewrite delete_take_drop in Hs1. apply elem_of_app in Hs1 as [Hs1|Hs1].
    + by eapply subseteq_take.
    + by eapply subseteq_drop.
  - rewrite length_insert. split_and!; [lia|lia|done|].
    intros s1 [j Hj]%list_elem_of_lookup. apply list_lookup_insert_Some in Hj as [(_ & <- & _)|[_ Hj]].
    + by split_and!.
    + apply Hs. by eapply list_elem_of_lookup_2.
Qed.

Lemma agent_inv_step cf max a ev :
  config_ok cf -> (forall r w, ev = AgAccept (Ok (r, w)) -> written w = []) ->
  agent_inv cf max a -> agent_inv cf max (agent_step cf a ev).
Proof.
  intros Hcf Hev Hi. pose proof Hi as (Hsum & Hpos & Hpc & Hs). unfold agent_step, held_permits in *.
  destruct ev as [|[[r w]|e]|i e]; [..|by apply session_event_inv]; destruct (ag_pc a) eqn:Epc; try done.
  - destruct (decide (permits (ag_sem a) = 0)) as [Hz|Hz].
    + by rewrite (acquire_none _ Hz).
    + destruct (acquire_some (ag_sem a)) as (p' & -> & Hp'); [lia|].
      unfold agent_inv, held_permits; cbn. split_and!; [lia|lia|done|done].
  - unfold agent_inv, held_permits; cbn. rewrite length_app; cbn. split_and!; [lia|lia|done|].
    intros s [?|Hn]%elem_of_app; [by apply Hs|]. apply list_elem_of_singleton in Hn as ->.
    split_and!; [|by apply time_inv_new|done|done]. apply session_inv_new. by eapply Hev.
  - unfold agent_inv, held_permits; cbn. rewrite permit_drop_spec. split_and!; [lia|lia|done|done].
Qed.

(** Accepted connections have had nothing written to them yet. *)
Definition fresh_connections (evs : list (agent_event W R)) : Prop :=
  Forall (fun ev => forall r w, ev = AgAccept (Ok (r, w)) -> written w = []) evs.

Lemma agent_inv_run cf max a evs :
  config_ok cf -> fresh_connections evs -> agent_inv cf max a -> agent_inv cf max (agent_run cf a evs).
Proof.
  intros Hcf Hev. unfold agent_run. revert a. induction Hev as [|ev evs He _ IH]; intros a Hi; [done|].
  cbn. by apply IH, agent_inv_step.
Qed.

Lemma agent_start_inv t env args link (k : K) portal cf a :
  agent_start t env args link k = (portal, Listening cf a) ->
  config_ok cf /\ agent_inv cf (max_sessions t env) a.
Proof.
  unfold agent_start. destruct (bind _); [|done]. destruct (sem_new _) as [p|] eqn:E; [|done]. intros [= <- <- <-].
  split; [apply startup_config_ok|].
  assert (Hmax : 1 <= max_sessions t env) by (by destruct t; apply env_uint_range).
  destruct (Z.le_gt_cases (max_sessions t env) MAX_PERMITS) as [Hl|Hl];
    [|by rewrite sem_new_panics in E].
  destruct (sem_new_ok (max_sessions t env)) as (p' & E' & Hp); [lia|].
  rewrite E in E'. simplify_eq. unfold agent_inv, held_permits; cbn. rewrite Hp.
  split_and!; [lia|lia|done|]. intros s. by rewrite elem_of_nil.
Qed.

(** C10 The agent never serves more connections than its cap and never loses a
    slot: from every start and along every execution -- accept errors, session
    errors and cancelled sessions included -- the free permits, the one the
    accept loop holds and the running sessions always add up to the configured
    maximum, the loop is never left, and while a slot is free the loop gets its
    permit at once. *)
Theorem agent_permits_conserved t env args link (k : K) portal cf a0 evs :
  agent_start t env args link k = (portal, Listening cf a0) -> fresh_connections evs ->
  let a := agent_run cf a0 evs in
  permits (ag_sem a) + held_permits a + Z.of_nat (length (ag_sessions a)) = max_sessions t env /\
  Z.of_nat (length (ag_sessions a)) <= max_sessions t env /\
  ag_pc a <> Stopped /\
  (ag_pc a = Acquiring -> Z.of_nat (length (ag_sessions a)) < max_sessions t env ->
   ag_pc (agent_step cf a AgAcquire) = Accepting).
Proof.
  intros E Hev a. destruct (agent_start_inv _ _ _ _ _ _ _ _ E) as [Hcf Hi].
  assert (Ha : agent_inv cf (max_sessions t env) a) by by apply agent_inv_run.
  clearbody a. destruct Ha as (Hsum & Hpos & Hpc & _). unfold held_permits in *.
  assert (Hle : 0 <= match ag_pc a with Accepting => 1 | _ => 0 end) by (by case_match).
  split_and!; [lia|lia|done|]. intros Epc Hlt. rewrite Epc in *. cbn. rewrite Epc.
  destruct (acquire_some (ag_sem a)) as (p' & -> & _); [lia|done].
Qed.

(** C39 How the agent starts, in every environment: an address that cannot be
    bound makes [main] return the error; otherwise the agent serves with the
    whole cap free -- except for one kind of variable: a
    GUESTHOPPER_MAX_SESSIONS beyond the semaphore's own maximum is not clamped
    and panics the agent before it accepts a connection. *)
Theorem agent_start_outcomes t env args link (k : K) :
  match (agent_start (P := P) (C := C) (W := W) (R := R) (S := S) (I := I) t env args link k).2 with
  | BindFailed e => bind (default VMADDR_CID_ANY (la_cid args), la_port args) = Err e
  | Panicked => MAX_PERMITS < max_sessions t env
  | Listening cf a =>
      bind (default VMADDR_CID_ANY (la_cid args), la_port args) = Ok tt /\ max_sessions t env <= MAX_PERMITS /\
      permits (ag_sem a) = max_sessions t env /\ 1 <= permits (ag_sem a) /\ ag_sessions a = [] /\
      cf = startup_config t env (la_shell args) link
  end.
Proof.
  assert (Hmax : 1 <= max_sessions t env) by (by destruct t; apply env_uint_range).
  unfold agent_start. fold (listen_addr args). destruct (bind _) as [[]|e]; [|done].
  destruct (Z.le_gt_cases (max_sessions t env) MAX_PERMITS) as [Hl|Hl].
  - destruct (sem_new_ok (max_sessions t env)) as (p' & -> & Hp); [lia|]. cbn. split_and!; done || lia.
  - rewrite sem_new_panics by done. cbn. lia.
Qed.

(** One session's events, the others standing still. *)
Lemma agent_run_session cf a i s es :
  ag_sessions a !! i = Some s ->
  (forall n, (n < length es)%nat ->
     finished (run cf (enter (ag_kernel a) (ag_warned a) s) (take n es)) = false) ->
  finished (run cf (enter (ag_kernel a) (ag_warned a) s) es) = true -> es <> [] ->
  let a' := agent_run cf a (map (AgSession i) es) in
  ag_sessions a' = delete i (ag_sessions a) /\ permits (ag_sem a') = permits (ag_sem a) + 1 /\
  ag_pc a' = ag_pc a.
Proof.
  revert a s. induction es as [|e es IH]; intros a s Hl Hpre Hfin Hne; [done|].
  unfold agent_run; cbn [map fold_left agent_step]. unfold session_event. rewrite Hl.
  set (s' := step cf (enter (ag_kernel a) (ag_warned a) s) e) in *.
  destruct es as [|e2 es].
  - cbn in Hfin. fold s' in Hfin. rewrite Hfin. cbn. by rewrite permit_drop_spec.
  - assert (Hf : finished s' = false) by (apply (Hpre 1%nat); cbn; lia). rewrite Hf.
    set (a1 := Agent (ag_pc a) (ag_sem a) (<[i := s']> (ag_sessions a)) (s_kernel s') (s_warned s')).
    assert (Hen : enter (s_kernel s') (s_warned s') s' = s') by (by destruct s').
    destruct (IH a1 s') as (Hs & Hp & Hpc).
    + apply list_lookup_insert_eq. by eapply lookup_lt_Some.
    + intros n Hn. cbn [ag_kernel ag_warned a1]. rewrite Hen. apply (Hpre (Datatypes.S n)). cbn in *; lia.
    + cbn [ag_kernel ag_warned a1]. rewrite Hen. exact Hfin.
    + done.
    + unfold agent_run in Hs, Hp, Hpc. split_and!; [|exact Hp|exact Hpc]. rewrite Hs. cbn.
      by rewrite !delete_take_drop, take_insert_ge, drop_insert_lt by lia.
Qed.

(** C11 No slot is lost to a session: from any reachable state of the agent,
    every running session -- its peer dead, silent or slow, its command stuck or
    silent -- is over after at most sixty-four events of its own that need
    nothing from the peer or the child, and then its permit is free again, the
    other sessions untouched; unless it is [waiting] for the blocking [openpty]
    or for a command without a deadline whose STDIN task is over. *)
Theorem agent_slot_recovers t env args link (k : K) portal cf a0 evs i s :
  agent_start t env args link k = (portal, Listening cf a0) -> fresh_connections evs ->
  let a := agent_run cf a0 evs in
  ag_sessions a !! i = Some s -> waiting s = false ->
  exists es, (length es <= 64)%nat /\ Forall quiet_event es /\
    let a' := agent_run cf a (map (AgSession i) es) in
    ag_sessions a' = delete i (ag_sessions a) /\ permits (ag_sem a') = permits (ag_sem a) + 1 /\
    ag_pc a' = ag_pc a.
Proof.
  intros E Hev a Hl Hwt. destruct (agent_start_inv _ _ _ _ _ _ _ _ E) as [Hcf Hi].
  assert (Ha : agent_inv cf (max_sessions t env) a) by by apply agent_inv_run.
  clearbody a. destruct Ha as (_ & _ & _ & Hok).
  destruct (Hok s) as (Hw & Ht & Hin & Hf); [by eapply list_elem_of_lookup_2|].
  destruct (remaining_ends cf (enter (ag_kernel a) (ag_warned a) s) Hcf Hw Ht Hin Hwt)
    as (es & Hlen & Hq & Hfin & Hpre).
  exists es. split_and!; [done|done|]. apply (agent_run_session cf a i s); try done.
  intros ->. cbn in Hfin. unfold finished in *. cbn in Hfin. congruence.
Qed.
End proofs.
