(* ===== verification/AgentIsolation.v ===== *)
(** * AgentIsolation: sessions do not affect one another

    The sessions of one agent share the kernel -- which [spawn] and every
    operation on a terminal read and change -- and the long-command flag.  Up to
    those two and the console's lines, a session that does not ask for a terminal
    goes on in the agent exactly as it would alone: the agent, seen by one
    connection, is equivalent to [run_session] on that connection, with the kernel
    its command was spawned on.  Every session has its own clock, so the
    executions of the agent include those in which all the clocks agree. *)

From S2P Require Import Prelude AsyncIO Frame Duration Status Request Shell Outbound Pump.
From S2P Require Import Stdin Exec FdOps Pty Session SessionTime SessionWire SessionEnds Portal Startup Agent.

Section defs.
Context {P C W R S I K : Type}.
Context `{!Semaphore P, !Mpsc C, !AsyncWrite W, !AsyncRead R, !AsyncRead S, !AsyncWrite I, !FdWrite I, !Kernel K}.
Context `{!Json, !Fmt, !Shlex, !Spawn S I K, !PtyStreams S I}.
Implicit Types (s : session C W R S I K) (a : agent P C W R S I K).

(** Equal but for what the process shares. *)
#[export] Instance session_equiv : Equiv (session C W R S I K) := fun s1 s2 =>
  s_now s1 = s_now s2 /\ s_main s1 = s_main s2 /\ s_reader s1 = s_reader s2 /\ s_ob s1 = s_ob s2.

(** The session has had its first frame and has not opened a terminal. *)
Definition settled s : bool := match s_main s with MPty _ | MFirst _ => false | _ => true end.

(** It has not had its first frame, or is settled; that frame asks for no terminal. *)
Definition no_terminal (cf : config) (r : R) : bool :=
  match dispatch (read_frame (cf_inbound_cap cf) r).1 with RunPty _ => false | _ => true end.
Definition plain (cf : config) s : bool :=
  match s_main s with MFirst _ => no_terminal cf (s_reader s) | _ => settled s end.

(** Where session [i] of [a] is after [evs], [None] once it is over, and the
    events that were its own. *)
Fixpoint follow (cf : config) (i : nat) a (evs : list (agent_event W R)) : option nat * list event :=
  match evs with
  | [] => (Some i, [])
  | ev :: evs' =>
      let a' := agent_step cf a ev in
      let ended := (length (ag_sessions a') <? length (ag_sessions a))%nat in
      match ev with
      | AgSession j e =>
          if (j =? i)%nat then
            if ended then (None, [e]) else let '(o, es) := follow cf i a' evs' in (o, e :: es)
          else if ended && (j <? i)%nat then follow cf (pred i) a' evs'
          else follow cf i a' evs'
      | _ => follow cf i a' evs'
      end
  end.
End defs.

Section proofs.
Context {P C W R S I K : Type}.
Context `{!Semaphore P, !Mpsc C, !AsyncWrite W, !AsyncRead R, !AsyncRead S, !AsyncWrite I, !FdWrite I, !Kernel K}.
Context `{!Json, !Fmt, !Shlex, !Spawn S I K, !PtyStreams S I}.
Implicit Types (s : session C W R S I K) (a : agent P C W R S I K).

#[export] Instance session_equivalence : Equivalence (≡@{session C W R S I K}).
Proof.
  split.
  - done.
  - intros s1 s2 (? & ? & ? & ?). by split_and!.
  - intros s1 s2 s3 (? & ? & ? & ?) (? & ? & ? & ?). unfold equiv, session_equiv. split_and!; congruence.
Qed.

#[export] Instance finished_proper : Proper ((≡@{session C W R S I K}) ==> (=)) finished.
Proof. intros s1 s2 (? & Em & _). unfold finished. by rewrite Em. Qed.

Lemma enter_equiv (k : K) b s : enter k b s ≡ s.
Proof. done. Qed.

(** ** A settled session does not look at what the process shares *)

(** One poll of the session task, whatever the kernel and the flag. *)
Lemma poll_main_equiv cf env first s1 s2 :
  settled s1 = true -> s1 ≡ s2 ->
  match poll_main cf env first s1, poll_main cf env first s2 with
  | Some s1', Some s2' => s1' ≡ s2' /\ settled s1' = true
  | None, None => True
  | _, _ => False
  end.
Proof.
  destruct s1 as [now m r ob k1 b1 c1], s2 as [now2 m2 r2 ob2 k2 b2 c2].
  intros Hp (Hn & Hm & Hr & Ho). cbn in Hn, Hm, Hr, Ho. subst now2 m2 r2 ob2.
  unfold poll_main, settled in *. cbn in *. destruct m as [since|msg|x|p|e|res|res]; [done| | |done| | |done].
  - by destruct (poll_send _ _) as [[q ob']|].
  - destruct (ex_phase x) as [| | | | |[]]; [..|done|done];
      by destruct (poll_exec _ _ _ _ _ _) as [[[x' r'] ob']|].
  - by destruct (poll_send _ _) as [[q ob']|].
  - by destruct (receiver_gone ob).
Qed.

Lemma task_equiv cf s1 s2 :
  settled s1 = true -> s1 ≡ s2 ->
  (forall env, match poll_writer_task cf env s1, poll_writer_task cf env s2 with
    | Some s1', Some s2' => s1' ≡ s2' /\ settled s1' = true | None, None => True | _, _ => False end) /\
  (forall env, match poll_out_task env s1, poll_out_task env s2 with
    | Some s1', Some s2' => s1' ≡ s2' /\ settled s1' = true | None, None => True | _, _ => False end) /\
  (forall env, match poll_err_task env s1, poll_err_task env s2 with
    | Some s1', Some s2' => s1' ≡ s2' /\ settled s1' = true | None, None => True | _, _ => False end) /\
  (forall st, child_exit st s1 ≡ child_exit st s2 /\ settled (child_exit st s1) = true).
Proof.
  destruct s1 as [now m r ob k1 b1 c1], s2 as [now2 m2 r2 ob2 k2 b2 c2].
  intros Hp (Hn & Hm & Hr & Ho). cbn in Hn, Hm, Hr, Ho. subst now2 m2 r2 ob2.
  unfold poll_writer_task, poll_out_task, poll_err_task, child_exit. cbn. split_and!; intros.
  - by destruct (poll_writer _ _ _ _).
  - destruct m; try done. by destruct (poll_pump _ _ _ _) as [[]|].
  - destruct m; try done. by destruct (poll_pump _ _ _ _) as [[]|].
  - by destruct m.
Qed.

Lemma try_event_equiv cf e s1 s2 :
  settled s1 = true -> s1 ≡ s2 ->
  match try_event cf e s1, try_event cf e s2 with
  | Some s1', Some s2' => s1' ≡ s2' /\ settled s1' = true
  | None, None => True
  | _, _ => False
  end.
Proof.
  intros Hp He. destruct (task_equiv cf s1 s2 Hp He) as (Hw & Ho & Hr & Hc).
  destruct e as [env first|env|env|env|st|d];
    [by apply poll_main_equiv|apply Hw|apply Ho|apply Hr|apply Hc|]. cbn [try_event].
  assert (Hpk : all_parked cf s1 = all_parked cf s2).
  { unfold all_parked. pose proof (poll_main_equiv cf parked_env 0 s1 s2 Hp He) as Hm.
    specialize (Hw parked_env). specialize (Ho parked_env). specialize (Hr parked_env).
    f_equal; [f_equal; [f_equal|]|].
    - by destruct (poll_main _ _ _ s1), (poll_main _ _ _ s2).
    - by destruct (poll_writer_task _ _ s1), (poll_writer_task _ _ s2).
    - by destruct (poll_out_task _ s1), (poll_out_task _ s2).
    - by destruct (poll_err_task _ s1), (poll_err_task _ s2). }
  destruct s1 as [now m r ob k1 b1 c1], s2 as [now2 m2 r2 ob2 k2 b2 c2].
  destruct He as (Hn & Hm & Hr' & Hob). cbn in Hn, Hm, Hr', Hob. subst now2 m2 r2 ob2.
  unfold tick, timers. rewrite Hpk. cbn. by destruct (_ && _ && _).
Qed.

Lemma run_equiv cf es s1 s2 :
  settled s1 = true -> s1 ≡ s2 -> run cf s1 es ≡ run cf s2 es.
Proof.
  revert s1 s2. induction es as [|e es IH]; intros s1 s2 Hp He; [done|]. cbn.
  pose proof (try_event_equiv cf e s1 s2 Hp He) as Ht. unfold step.
  destruct (try_event cf e s1), (try_event cf e s2); try done; [destruct Ht|]; by apply IH.
Qed.

(** ** Before the first frame *)

(** A plain session stays plain; while it has not had its first frame, an event
    commutes with a change of what the process shares. *)
Lemma plain_step cf e s :
  plain cf s = true -> plain cf (step cf s e) = true /\
  (settled (step cf s e) = true \/
   forall k b, step cf (enter k b s) e = enter k b (step cf s e)).
Proof.
  intros Hp. destruct (settled s) eqn:Hs.
  { unfold step. pose proof (try_event_equiv cf e s s Hs (reflexivity s)) as Ht.
    destruct (try_event cf e s) as [s'|]; [destruct Ht as [_ Ht]|by auto].
    split; [|by left]. unfold plain, settled in *. by destruct (s_main s'). }
  destruct s as [now m r ob k0 b0 c0]. unfold plain, settled in *. cbn in *. destruct m as [since| | | | | |]; try done.
  unfold step. destruct e as [env first|env|env|env|st|d]; cbn; [| |by auto..|].
  - unfold poll_main, enter; cbn. destruct (io_ready env).
    + unfold no_terminal in Hp. destruct (read_frame _ r) as [res r']. cbn in Hp. unfold first_frame, start_exec, exec_begin.
      destruct (dispatch res) as [req|req|msg| |e]; [|done|by auto..]. cbn.
      destruct (warn_long_command b0 _). cbn. destruct (effective_deadline _ _); [|by auto].
      destruct (spawn _ _) as [[ch|e] k']; by auto.
    + destruct (_ <=? now); by auto.
  - unfold poll_writer_task; cbn. destruct (poll_writer _ _ _ _); by auto.
  - unfold tick, all_parked, poll_writer_task, poll_out_task, poll_err_task, timers; cbn.
    destruct (poll_writer _ _ _ _), (since + cf_idle_timeout cf <=? now); cbn;
      rewrite ?andb_false_r; try (by auto); destruct (_ && _); by auto.
Qed.

(** ** Following one session *)

(** What one event of the agent does to the list of its sessions. *)
Lemma agent_step_sessions cf a ev i s :
  ag_sessions a !! i = Some s ->
  match ev with
  | AgSession j e =>
      match ag_sessions a !! j with
      | None => agent_step cf a ev = a
      | Some s1 =>
          let s1' := step cf (enter (ag_kernel a) (ag_warned a) s1) e in
          ag_sessions (agent_step cf a ev) =
            if finished s1' then delete j (ag_sessions a) else <[j := s1']> (ag_sessions a)
      end
  | _ => ag_sessions (agent_step cf a ev) !! i = Some s /\
      (length (ag_sessions a) <= length (ag_sessions (agent_step cf a ev)))%nat
  end.
Proof.
  intros Hl. destruct ev as [|[[r w]|e]|j e]; cbn.
  - destruct (ag_pc a); [|done..]. by destruct (acquire_owned _).
  - destruct (ag_pc a); try done. cbn. rewrite length_app. split; [by apply lookup_app_l_Some|lia].
  - by destruct (ag_pc a).
  - unfold session_event. destruct (ag_pc a); destruct (ag_sessions a !! j); try done; by case_match.
Qed.
Lemma ended_delete (l : list (session C W R S I K)) j s1 :
  l !! j = Some s1 -> (length (delete j l) <? length l)%nat = true.
Proof.
  intros Hl. rewrite length_delete by done. apply lookup_lt_Some in Hl. apply Nat.ltb_lt. lia.
Qed.

(** The session at [i], one event later: over, or somewhere, one step on if the
    event was its own. *)
Lemma follow_step cf a ev evs i s :
  ag_sessions a !! i = Some s ->
  (exists e, ev = AgSession i e /\ finished (step cf (enter (ag_kernel a) (ag_warned a) s) e) = true /\
     follow cf i a (ev :: evs) = (None, [e])) \/
  (exists e, ev = AgSession i e /\
     let s' := step cf (enter (ag_kernel a) (ag_warned a) s) e in
     finished s' = false /\ ag_sessions (agent_step cf a ev) !! i = Some s' /\
     follow cf i a (ev :: evs) = ((follow cf i (agent_step cf a ev) evs).1, e :: (follow cf i (agent_step cf a ev) evs).2)) \/
  (exists i', ag_sessions (agent_step cf a ev) !! i' = Some s /\
     follow cf i a (ev :: evs) = follow cf i' (agent_step cf a ev) evs).
Proof.
  intros Hl. pose proof (agent_step_sessions cf a ev i s Hl) as Hs. cbn [follow].
  set (a' := agent_step cf a ev) in *.
  destruct ev as [|conn|j e]; [right; right; exists i; split; [apply Hs|done]..|].
  destruct (ag_sessions a !! j) as [s1|] eqn:Ej.
  2:{ subst a'. rewrite Hs. right; right. exists i. split; [done|].
      destruct (Nat.eqb_spec j i); [congruence|]. by rewrite Nat.ltb_irrefl. }
  cbv zeta in Hs. destruct (finished _) eqn:Hf.
  - assert (He : (length (ag_sessions a') <? length (ag_sessions a))%nat = true)
      by (rewrite Hs; by eapply ended_delete). rewrite He.
    destruct (Nat.eqb_spec j i) as [->|Hji]; [left; exists e; simplify_eq; by split_and!|].
    right; right. cbn [andb]. destruct (Nat.ltb_spec j i).
    + exists (pred i). split; [|done]. rewrite Hs, list_lookup_delete_ge by lia. by replace (Datatypes.S (pred i)) with i by lia.
    + exists i. split; [|done]. by rewrite Hs, list_lookup_delete_lt by lia.
  - assert (He : (length (ag_sessions a') <? length (ag_sessions a))%nat = false)
      by (rewrite Hs, length_insert; apply Nat.ltb_irrefl). rewrite He. cbn [andb].
    destruct (Nat.eqb_spec j i) as [->|Hji].
    + simplify_eq. right; left. exists e. split_and!; [done|done| |by destruct (follow cf i a' evs)].
      rewrite Hs. apply list_lookup_insert_eq. by eapply lookup_lt_Some.
    + right; right. exists i. split; [|done]. by rewrite Hs, list_lookup_insert_ne.
Qed.

(** The outcome in the agent is that of [run] from [s], with a kernel and a flag
    that the agent had on the way. *)
Definition as_alone cf i a (evs : list (agent_event W R)) s : Prop :=
  let '(o, es) := follow cf i a evs in
  exists evs1 evs2, evs = evs1 ++ evs2 /\
  let a1 := agent_run cf a evs1 in
  let alone := run cf (enter (ag_kernel a1) (ag_warned a1) s) es in
  match o with
  | Some j => exists s', ag_sessions (agent_run cf a evs) !! j = Some s' /\ s' ≡ alone
  | None => finished alone = true
  end.

Lemma as_alone_all cf a evs i s :
  ag_sessions a !! i = Some s -> plain cf s = true -> as_alone cf i a evs s.
Proof.
  unfold as_alone. revert a i s. induction evs as [|ev evs IH]; intros a i s Hl Hp.
  { exists [], []. split; [done|]. by exists s. }
  destruct (follow_step cf a ev evs i s Hl) as [(e & -> & Hf & ->)|[(e & -> & Hf & Hl' & ->)|(i' & Hl' & ->)]].
  - by exists [], (AgSession i e :: evs).
  - set (s1 := enter (ag_kernel a) (ag_warned a) s) in *. set (a' := agent_step cf a (AgSession i e)) in *.
    destruct (plain_step cf e s1 Hp) as [Hp1 Hnext]. specialize (IH a' i (step cf s1 e) Hl' Hp1).
    destruct (follow cf i a' evs) as [o es]. destruct IH as (evs1 & evs2 & -> & IH). cbv zeta in IH. cbn [fst snd].
    set (a1 := agent_run cf a' evs1) in *.
    destruct Hnext as [Hset|Hcom].
    + exists [], (AgSession i e :: evs1 ++ evs2). split; [done|]. cbv zeta.
      change (run cf (enter (ag_kernel (agent_run cf a [])) (ag_warned (agent_run cf a [])) s) (e :: es))
        with (run cf (step cf s1 e) es).
      pose proof (run_equiv cf es (step cf s1 e) (enter (ag_kernel a1) (ag_warned a1) (step cf s1 e)) Hset
        (symmetry (enter_equiv _ _ _))) as Heq.
      destruct o as [j|]; [|by rewrite Heq]. destruct IH as (s' & Hs' & He'). exists s'. split; [done|].
      by rewrite Heq.
    + exists (AgSession i e :: evs1), evs2. split; [done|]. cbv zeta.
      change (agent_run cf a (AgSession i e :: evs1)) with a1.
      change (run cf (enter (ag_kernel a1) (ag_warned a1) s) (e :: es))
        with (run cf (step cf (enter (ag_kernel a1) (ag_warned a1) s1) e) es).
      by rewrite Hcom.
  - specialize (IH (agent_step cf a ev) i' s Hl' Hp).
    destruct (follow cf i' (agent_step cf a ev) evs) as [o es]. destruct IH as (evs1 & evs2 & -> & IH).
    by exists (ev :: evs1), evs2.
Qed.

(** C24 Connections do not interfere: a connection that the agent accepts and
    whose first frame asks for no terminal is, along every further execution of
    the agent -- other connections spawning, opening terminals, failing and
    ending, further accepts included -- in exactly the state that [run_session]
    alone reaches on its own events, but for the kernel, the long-command flag and
    the console: the same bytes written, the same phase, the same clock; and it is
    over in the agent exactly when it is over alone. All that the others can
    change is what [spawn] answers its command: it is run alone with one of the
    kernels the agent went through after the accept. *)
Theorem agent_isolates cf a r w evs :
  ag_pc a = Accepting -> no_terminal cf r = true ->
  let a0 := agent_step cf a (AgAccept (Ok (r, w))) in
  let '(o, es) := follow cf (length (ag_sessions a)) a0 evs in
  exists evs1 evs2, evs = evs1 ++ evs2 /\
  let a1 := agent_run cf a0 evs1 in
  let alone := run cf (new_session r w (ag_kernel a1) (ag_warned a1)) es in
  match o with
  | Some j => exists s', ag_sessions (agent_run cf a0 evs) !! j = Some s' /\ s' ≡ alone
  | None => finished alone = true
  end.
Proof.
  intros Epc Hn a0. apply (as_alone_all cf a0 evs _ (new_session r w (ag_kernel a) (ag_warned a))); [|done].
  subst a0. cbn. rewrite Epc. cbn. by rewrite lookup_app_r, Nat.sub_diag.
Qed.
End proofs.
