(* ===== verification/Memory.v ===== *)
(** * Memory: what a session, and the whole agent, may hold

    The agent runs in a guest with little memory.  This file bounds the bytes
    that a client or a command can make it keep: the output on its way to the
    wire, limited by the channel and the size of a read, and the input on its way
    to a child, limited by the inbound cap -- per session, and for all sessions
    of the agent together.  The read buffer of an output task, one chunk each,
    and the request, which [exec] keeps, are fixed costs outside the measure. *)

From S2P Require Import Prelude AsyncIO Frame Duration Status Request Shell Outbound Pump.
From S2P Require Import Stdin Exec FdOps Pty Session SessionTime SessionWire SessionEnds Portal Startup Agent.

Section defs.
Context {C W R S I K : Type} `{!MpscView C}.
Implicit Types (s : session C W R S I K) (ob : outbound C W).

(** The frames that wait: dropping the receiver drops the queue. *)
Definition in_flight ob : list Frame :=
  match ob_writer ob with
  | WRecv => queued (ob_chan ob)
  | WWriting f _ => f :: queued (ob_chan ob)
  | WDone => []
  end.

Definition sending (p : pump S) : list (list byte) :=
  match pm_state p with PumpSending buf => [buf] | _ => [] end.

Definition stream_frame (f : Frame) : bool :=
  bool_decide (ftype f = FRAME_STDOUT) || bool_decide (ftype f = FRAME_STDERR).

(** The chunks of output the session holds. *)
Definition chunks_held s : list (list byte) :=
  map payload (List.filter stream_frame (in_flight (s_ob s))) ++
  match s_main s with
  | MExec x => sending (ex_out x) ++ sending (ex_err x)
  | MPty (PtyLive l) => sending (lv_out l)
  | _ => []
  end.

(** The payload being handed to the child. *)
Definition input_held s : list byte :=
  match s_main s with
  | MExec x => match si_state (ex_stdin x) with StdinWriting p _ => p | _ => [] end
  | MPty (PtyLive l) => match lv_input l with InWriting data _ _ => data | _ => [] end
  | _ => []
  end.

Definition bytes_held s : Z :=
  Z.of_nat (sum_list_with length (chunks_held s) + length (input_held s)).

(** 64 queued frames, one in the writer's hands, one in each pump's. *)
Definition OUTPUT_BOUND : Z := (Z.of_nat CHANNEL_BOUND + 3) * Z.of_nat READ_CHUNK.

Definition input_fits (cf : config) s : Prop := Z.of_nat (length (input_held s)) <= Z.max 0 (cf_inbound_cap cf).
End defs.

Lemma sum_lengths {A} (n : nat) (l : list (list A)) :
  Forall (fun c => length c <= n)%nat l -> (sum_list_with length l <= length l * n)%nat.
Proof. induction 1 as [|c l Hc _ IH]; [done|]. cbn [sum_list_with length]. lia. Qed.

Lemma stream_chunks body tail :
  Forall is_output body -> Forall is_terminal tail ->
  Forall (fun c : list byte => c <> [] /\ (length c <= READ_CHUNK)%nat)
    (map payload (List.filter stream_frame (body ++ tail))).
Proof.
  intros Hb Ht. rewrite List.filter_app, map_app. apply Forall_app. split.
  - induction Hb as [|f body [_ Hf] _ IH]; [constructor|]. cbn. destruct (stream_frame f); [by constructor|done].
  - replace (List.filter stream_frame tail) with (@nil Frame); [constructor|]. symmetry.
    induction Ht as [|f tail [Hf|Hf] _ IH]; [done|..]; cbn; unfold stream_frame at 1;
      by rewrite Hf.
Qed.

Section output.
Context {C W R S I K : Type}.
Context `{MpscSpec C, AsyncWriteSpec W, !AsyncRead R, AsyncReadSpec S}.
Context `{!AsyncWrite I, !FdWrite I, !Kernel K}.
Context `{!Json, !Fmt, !Shlex, !Spawn S I K, !PtyStreams S I}.
Implicit Types (s : session C W R S I K) (ob : outbound C W).

(** What waits is the end of what was accepted. *)
Lemma in_flight_log log ob :
  wire_inv log ob -> in_flight ob `suffix_of` log /\ (length (in_flight ob) <= CHANNEL_BOUND + 1)%nat.
Proof.
  unfold in_flight. intros (Hb & Hl & Hw). destruct (ob_writer ob).
  - destruct Hw as (fs & _ & ->). split; [by exists fs|lia].
  - destruct Hw as (fs & _ & ->). split; [by exists fs|cbn [length]; lia].
  - split; [apply suffix_nil|cbn [length]; lia].
Qed.

Lemma sending_ok ft total gone log (p : pump S) :
  pump_inv ft total gone log p ->
  Forall (fun c => c <> [] /\ (length c <= READ_CHUNK)%nat) (sending p) /\ (length (sending p) <= 1)%nat.
Proof.
  intros (_ & _ & Hs & _). unfold sending. destruct (pm_state p) as [|buf| |];
    (split; [constructor|cbn; lia]); [apply (Hs buf eq_refl)|constructor].
Qed.

Lemma chunks_held_ok cf s :
  session_inv cf s ->
  Forall (fun c => c <> [] /\ (length c <= READ_CHUNK)%nat) (chunks_held s) /\
  (length (chunks_held s) <= CHANNEL_BOUND + 3)%nat.
Proof.
  intros (asked & _ & log & [Hw _ _ Hsh _ _ _ (out & err & _ & _ & _ & Hp)]).
  destruct Hsh as (body & tail & -> & Hb & Ht & _).
  destruct (in_flight_log _ _ Hw) as [[fs Hfs] Hl].
  pose proof (stream_chunks _ _ Hb Ht) as Hc. rewrite Hfs, List.filter_app, map_app in Hc.
  apply Forall_app in Hc as [_ Hc]. unfold chunks_held. rewrite length_app, length_map.
  pose proof (filter_length_le stream_frame (in_flight (s_ob s))) as Hfl.
  destruct (s_main s) as [| |x|[| | |l|]| | |]; try (rewrite app_nil_r; split; [done|cbn [length]; lia]).
  - destruct Hp as [Ho He]. apply sending_ok in Ho as [Ho Hlo]. apply sending_ok in He as [He Hle].
    rewrite length_app. split; [by rewrite !Forall_app|lia].
  - apply sending_ok in Hp as [Ho Hlo]. split; [by rewrite !Forall_app|lia].
Qed.
End output.

(** ** Input *)

(** A property of sessions that every event keeps, whatever the process shares. *)
Class SessionInvariant {C W R S I K} `{!Mpsc C, !AsyncWrite W, !AsyncRead R, !AsyncRead S, !AsyncWrite I, !FdWrite I,
    !Kernel K, !Json, !Fmt, !Shlex, !Spawn S I K, !PtyStreams S I} (cf : config) (Q : session C W R S I K -> Prop) : Prop := {
  si_new r w k b : Q (new_session r w k b);
  si_step s e : Q s -> Q (step cf s e);
  si_enter s k b : Q s -> Q (enter k b s);
}.

Section input.
Context {C W R S I K : Type}.
Context `{!Mpsc C, !AsyncWrite W, AsyncReadSpec R, !AsyncRead S}.
Context `{!AsyncWrite I, !FdWrite I, !Kernel K}.
Context `{!Json, !Fmt, !Shlex, !Spawn S I K, !PtyStreams S I}.
Implicit Types (s : session C W R S I K) (ob : outbound C W) (r : R) (k : K).

Definition stdin_held (t : stdin_task I) : list byte := match si_state t with StdinWriting p _ => p | _ => [] end.
Definition tty_held (st : input_state) : list byte := match st with InWriting data _ _ => data | _ => [] end.
Definition fits (cf : config) (bs : list byte) : Prop := Z.of_nat (length bs) <= Z.max 0 (cf_inbound_cap cf).

Lemma fits_nil cf : fits cf [].
Proof. unfold fits. cbn. lia. Qed.

Lemma fits_frame cf r r' f : read_frame (cf_inbound_cap cf) r = (Ok (Some f), r') -> fits cf (payload f).
Proof. intros E%read_frame_fits. unfold fits, frame_fits in *. lia. Qed.

Lemma stdin_fits cf now env b (t t' : stdin_task I) r r' fired :
  fits cf (stdin_held t) ->
  poll_stdin (cf_idle_timeout cf) (cf_inbound_cap cf) now env b t r = Some (t', r', fired) -> fits cf (stdin_held t').
Proof.
  intros Hf. pose proof (fits_nil cf) as Hnil. unfold poll_stdin.
  destruct (si_state t) as [since|p since|] eqn:Et; [| |done].
  - destruct (io_ready env); [|case_match; [|done]; by intros [= <- _ _]].
    destruct (read_frame _ r) as [[[f|]|e] r1] eqn:E; cbn; [|by intros [= <- _ _]..].
    unfold stdin_frame. repeat case_match; intros E'; simplify_eq; try done. by apply fits_frame in E.
  - destruct b; [by intros [= <- _ _]|]. destruct (io_ready env); [|case_match; [|done]; by intros [= <- _ _]].
    destruct (write_all _ _) as [[u|e] i']; by intros [= <- _ _].
Qed.

Lemma tty_fits cf now env b (l : live S I) r r' k k' st i fired :
  fits cf (tty_held (lv_input l)) -> poll_input cf now env b l r k = Some (st, i, r', k', fired) ->
  fits cf (tty_held st).
Proof.
  intros Hf. pose proof (fits_nil cf) as Hnil. unfold poll_input.
  destruct (lv_input l) as [since|data off since|]; [| |done].
  - destruct (io_ready env); [|case_match; [|done]; by intros [= <- _ _ _ _]].
    destruct (read_frame _ r) as [[[f|]|e] r1] eqn:E; cbn; [|by intros [= <- _ _ _ _]..].
    unfold input_frame. repeat case_match; intros E'; simplify_eq; try done. by apply fits_frame in E.
  - repeat case_match; intros E'; by simplify_eq.
Qed.

Lemma exec_fits cf now env (x x' : exec_state S I) r r' ob ob' :
  fits cf (stdin_held (ex_stdin x)) -> poll_exec cf now env x r ob = Some (x', r', ob') ->
  fits cf (stdin_held (ex_stdin x')).
Proof.
  intros Hf. unfold poll_exec. destruct (ex_phase x) as [|reason since|raw reason since|raw reason since|f|res].
  - destruct (ob_cancel ob); [by intros [= <- _ _]|]. destruct (deadline_elapsed now x); [by intros [= <- _ _]|].
    destruct (poll_stdin _ _ _ _ _ _ _) as [[[t r1] fired]|] eqn:Es;
      destruct (ex_child x); intros E; simplify_eq; try done; by eapply stdin_fits.
  - destruct (reap_bounded _ _ _) as [[raw ch]|]; intros E; by simplify_eq.
  - repeat case_match; intros E; by simplify_eq.
  - repeat case_match; intros E; by simplify_eq.
  - repeat case_match; intros E; by simplify_eq.
  - done.
Qed.

Lemma pty_fits cf now env first (p p' : pty_state S I) r r' ob ob' k k' :
  match p with PtyLive l => fits cf (tty_held (lv_input l)) | _ => True end ->
  poll_pty cf now env first p r ob k = Some (p', r', ob', k') ->
  match p' with PtyLive l => fits cf (tty_held (lv_input l)) | _ => True end.
Proof.
  intros Hf E. destruct p as [req|msg owned|msg mo ch ks since|l|ks res]; cbn [poll_pty] in E; [| | | |done].
  - destruct (io_ready env); [|done].
    destruct (sys_openpty k) as [[[ma sl]|[e|e]] k1]; [|by simplify_eq..].
    destruct (pty_setup _ _ _ _ _ _ _) as [[p1 ob1] k2] eqn:Es. simplify_eq.
    unfold pty_setup, pty_started in Es. repeat case_hyp Es; simplify_eq; done || apply fits_nil.
  - repeat case_hyp E; by simplify_eq.
  - repeat case_hyp E; by simplify_eq.
  - destruct p' as [| | |l'|]; try done.
    destruct (live_input_step _ _ _ _ _ _ _ _ _ _ _ _ E) as [->|(i & fired & Ei)]; [done|by eapply tty_fits].
Qed.

Lemma input_fits_drive cf res s : input_fits cf (drive_returned res s).
Proof. destruct res; apply fits_nil. Qed.

Lemma input_fits_main cf env first s s' :
  input_fits cf s -> poll_main cf env first s = Some s' -> input_fits cf s'.
Proof.
  intros Hi E. pose proof E as Ep. unfold poll_main in E.
  pose proof (fits_nil cf) as Hnil. pose proof (input_fits_drive cf) as Hd.
  unfold input_fits, input_held in Hi.
  destruct (s_main s) as [since|msg|x|p|e|res|res] eqn:Em; [| | | | | |done].
  - destruct (io_ready env); [|case_hyp E; by simplify_eq].
    destruct (read_frame _ _) as [res r']. simplify_eq. unfold first_frame, start_exec, exec_begin.
    repeat case_match; simplify_eq; done || apply Hd.
  - repeat case_hyp E; by simplify_eq.
  - destruct (poll_main_exec _ _ _ _ _ _ Em Ep) as [(res & _ & ->)|(x' & r' & ob' & Ex & ->)]; [apply Hd|].
    exact (exec_fits _ _ _ _ _ _ _ _ _ Hi Ex).
  - destruct (poll_main_pty _ _ _ _ _ _ Em Ep) as [(ks & res & _ & ->)|(p' & r' & ob' & k' & Hp & ->)]; [apply Hd|].
    apply pty_fits in Hp; [|by destruct p]. unfold input_fits, input_held; cbn. by destruct p'.
  - repeat case_hyp E; by simplify_eq.
  - repeat case_hyp E; by simplify_eq.
Qed.

#[export] Instance input_fits_invariant cf : SessionInvariant cf (input_fits (C := C) (W := W) (R := R) (S := S) (I := I) (K := K) cf).
Proof.
  split.
  - intros. apply fits_nil.
  - intros s e Hi. unfold step. destruct (try_event cf e s) as [s'|] eqn:E; [|done].
    destruct e as [env first|env|env|env|st|d]; cbn in E.
    + by eapply input_fits_main.
    + unfold poll_writer_task in E. case_hyp E; by simplify_eq.
    + unfold poll_out_task, input_fits, input_held in *.
      destruct (s_main s) as [| |x|[| | |l|]| | |]; try done; repeat case_hyp E; by simplify_eq.
    + unfold poll_err_task, input_fits, input_held in *.
      destruct (s_main s) as [| |x|[| | |l|]| | |]; try done; repeat case_hyp E; by simplify_eq.
    + simplify_eq. unfold input_fits, input_held in *. cbn. by destruct (s_main s) as [| |x|[| | |l|]| | |].
    + unfold tick in E. case_hyp E; by simplify_eq.
  - done.
Qed.
End input.

(** ** The bounds *)

Section bounds.
Context {P C W R S I K : Type}.
Context `{SemaphoreSpec P, MpscSpec C, AsyncWriteSpec W, AsyncReadSpec R, AsyncReadSpec S}.
Context `{!AsyncWrite I, !FdWrite I, KernelSpec K}.
Context `{!Json, !Fmt, !Shlex, !Spawn S I K, !PtyStreams S I, !Syscall, !Vsock}.
Implicit Types (s : session C W R S I K) (a : agent P C W R S I K).

Lemma run_invariant cf (Q : session C W R S I K -> Prop) `{!SessionInvariant cf Q} s es : Q s -> Q (run cf s es).
Proof. revert s. induction es as [|e es IH]; intros s Hs; [done|]. cbn. by apply IH, si_step. Qed.

(** What every session keeps holds of every session an agent runs. *)
Lemma all_sessions_run cf (Q : session C W R S I K -> Prop) `{!SessionInvariant cf Q} a evs :
  Forall Q (ag_sessions a) -> Forall Q (ag_sessions (agent_run cf a evs)).
Proof.
  revert a. induction evs as [|ev evs IH]; intros a Hs; [done|]. cbn. apply IH.
  destruct ev as [|[[r w]|e]|i e]; cbn.
  - destruct (ag_pc a); [|done..]. by destruct (acquire_owned _).
  - destruct (ag_pc a); [done| |done]. apply Forall_app; split; [done|]. constructor; [apply si_new|done].
  - by destruct (ag_pc a).
  - assert (He : Forall Q (ag_sessions (session_event cf i e a))); [|by destruct (ag_pc a)].
    unfold session_event. destruct (ag_sessions a !! i) as [s|] eqn:El; [|done].
    case_match; cbn; [by apply Forall_delete|]. apply Forall_insert; [done|].
    apply si_step, si_enter. by apply (Forall_lookup_1 _ _ _ _ Hs El).
Qed.

Lemma bytes_held_bound cf s :
  0 <= cf_inbound_cap cf -> session_inv cf s -> input_fits cf s ->
  0 <= bytes_held s <= OUTPUT_BOUND + cf_inbound_cap cf.
Proof.
  intros Hc Hs Hi. destruct (chunks_held_ok cf s Hs) as [Hf Hl]. unfold input_fits in Hi.
  assert (Hsum : (sum_list_with length (chunks_held s) <= length (chunks_held s) * READ_CHUNK)%nat).
  { apply sum_lengths. eapply Forall_impl; [exact Hf|]. by intros c []. }
  unfold bytes_held, OUTPUT_BOUND. pose proof (Nat.mul_le_mono_r _ _ READ_CHUNK Hl). lia.
Qed.

(** C16 A session's memory is bounded whatever its peer and its command do: in
    every execution, the chunks of output it holds -- queued for the writer, in
    the writer's hands, or in a pump's -- are non-empty reads of at most 32 KiB,
    at most sixty-seven of them, however slowly the client reads; and the input
    it holds for a child that does not take it is within the inbound cap. *)
Theorem session_memory_bounded cf (r : R) (w : W) (k : K) b es :
  0 <= cf_inbound_cap cf -> written w = [] ->
  let s := run cf (new_session (S := S) (I := I) (C := C) r w k b) es in
  Forall (fun c => c <> [] /\ (length c <= READ_CHUNK)%nat) (chunks_held s) /\
  (length (chunks_held s) <= CHANNEL_BOUND + 3)%nat /\
  Z.of_nat (length (input_held s)) <= cf_inbound_cap cf /\
  bytes_held s <= OUTPUT_BOUND + cf_inbound_cap cf.
Proof.
  intros Hc Hw s. assert (Hs : session_inv cf s) by (by apply session_inv_run, session_inv_new).
  assert (Hi : input_fits cf s) by (apply run_invariant; [apply _|apply si_new]).
  destruct (chunks_held_ok cf s Hs) as [Hf Hl]. destruct (bytes_held_bound cf s Hc Hs Hi) as [_ Hb].
  unfold input_fits in Hi. split_and!; [done|done|lia|done].
Qed.

Definition agent_bytes a : Z := foldr Z.add 0 (map bytes_held (ag_sessions a)).

(** C12 The agent's memory is bounded by its configuration: along every
    execution from every start, the output and input held by all its sessions
    together never exceed the configured number of sessions times what one
    session may hold -- sixty-seven reads of 32 KiB and one inbound frame. *)
Theorem agent_memory_bounded t env args link (k : K) portal cf a0 evs :
  agent_start t env args link k = (portal, Listening cf a0) -> fresh_connections evs ->
  agent_bytes (agent_run cf a0 evs) <= max_sessions t env * (OUTPUT_BOUND + cf_inbound_cap cf).
Proof.
  intros E Hev. destruct (agent_start_inv _ _ _ _ _ _ _ _ E) as [Hcf Hi].
  destruct (agent_inv_run cf (max_sessions t env) a0 evs Hcf Hev Hi) as (Hsum & Hpos & _ & Hok).
  assert (Hstart : ag_sessions a0 = [] /\ 0 <= cf_inbound_cap cf).
  { revert E. unfold agent_start. destruct (bind _); [|done]. destruct (sem_new _); [|done]. intros [= _ <- <-].
    split; [done|]. cbn. unfold startup_inbound, set_max_inbound_frame_len.
    destruct (env "GUESTHOPPER_MAX_FRAME_LEN" ≫= _) as [v|]; [|by vm_compute].
    pose proof (clamp_inbound_ok v) as Hv. unfold cap_ok, MIN_INBOUND_FRAME_LEN in Hv. lia. }
  destruct Hstart as [Hnil Hc].
  assert (Hfit : Forall (input_fits cf) (ag_sessions (agent_run cf a0 evs)))
    by (apply all_sessions_run; [apply _|by rewrite Hnil]).
  set (B := OUTPUT_BOUND + cf_inbound_cap cf) in *.
  assert (Hle : forall l, Forall (fun s => 0 <= bytes_held s <= B) l -> foldr Z.add 0 (map bytes_held l) <= Z.of_nat (length l) * B).
  { intros l. induction 1 as [|s l Hs _ IH]; [done|]. cbn [map foldr length]. rewrite Nat2Z.inj_succ. lia. }
  assert (HB : 0 <= B) by (unfold B, OUTPUT_BOUND; lia).
  etransitivity; [apply Hle|].
  - apply Forall_forall. intros s Hs. rewrite Forall_forall in Hfit.
    apply bytes_held_bound; [done|by apply Hok|by apply Hfit].
  - apply Z.mul_le_mono_nonneg_r; [done|]. unfold held_permits in Hsum. case_match; lia.
Qed.
End bounds.
