(* ===== verification/Machine.v ===== *)
(** * Machine: a small concrete environment

    One implementation of every interface the development is generic in, so that
    whole sessions can be executed: a descriptor table with a size limit, child
    processes with fixed output, one-byte request payloads, in-memory streams.
    It stands for nothing in the repository; it shows that the interfaces' laws
    can be met together and lets the scenarios run. *)

From Stdlib Require Import Strings.Ascii.
From S2P Require Import Prelude AsyncIO Frame Duration Request Shell Outbound Exec FdOps Pty.
From S2P Require Import Portal Startup.

(** ** The descriptor table *)

Record mem_kernel := MemKernel {
  mk_open : gset Z;
  mk_stray : nat;
  mk_limit : nat;                  (* RLIMIT_NOFILE *)
  mk_fd : gmap Z Z;
  mk_fl : gmap Z Z;
  mk_win : list (Z * (Z * Z));
}.

Definition EMFILE : Z := 24.
Definition mk_fresh (k : mem_kernel) : Z := fold_right Z.max 2 (elements (mk_open k)) + 1.
Definition mk_add (fd : Z) (k : mem_kernel) : mem_kernel :=
  MemKernel ({[fd]} ∪ mk_open k) (mk_stray k) (mk_limit k) (mk_fd k) (mk_fl k) (mk_win k).
Definition mk_full (n : nat) (k : mem_kernel) : bool := (mk_limit k <? size (mk_open k) + n)%nat.

Lemma fold_max_ge l x : x ∈ l -> x <= fold_right Z.max 2 l.
Proof.
  induction l as [|y l IH]; [by rewrite elem_of_nil|]. rewrite elem_of_cons. cbn.
  intros [-> | Hx]; [lia|]. specialize (IH Hx). lia.
Qed.

Lemma mk_fresh_new k x : x ∈ mk_open k -> x < mk_fresh k.
Proof.
  intros Hx. unfold mk_fresh. pose proof (fold_max_ge (elements (mk_open k)) x) as Hm.
  rewrite elem_of_elements in Hm. specialize (Hm Hx). lia.
Qed.

#[export] Instance mem_Kernel : Kernel mem_kernel := {
  O_NONBLOCK := 2048;
  sys_openpty k :=
    if mk_full 2 k then (Err (OpenptyErrno (Os EMFILE)), k)
    else let m := mk_fresh k in
         let k1 := mk_add m k in (Ok (m, mk_fresh k1), mk_add (mk_fresh k1) k1);
  sys_dup fd k := if mk_full 1 k then (Err (Os EMFILE), k) else (Ok (mk_fresh k), mk_add (mk_fresh k) k);
  sys_close fd k :=
    MemKernel (mk_open k ∖ {[fd]}) (if decide (fd ∈ mk_open k) then mk_stray k else S (mk_stray k))
      (mk_limit k) (mk_fd k) (mk_fl k) (mk_win k);
  sys_getfd fd k := (Ok (default 0 (mk_fd k !! fd)), k);
  sys_setfd fd v k :=
    (Ok tt, MemKernel (mk_open k) (mk_stray k) (mk_limit k) (<[fd := v]> (mk_fd k)) (mk_fl k) (mk_win k));
  sys_getfl fd k := (Ok (default 0 (mk_fl k !! fd)), k);
  sys_setfl fd v k :=
    (Ok tt, MemKernel (mk_open k) (mk_stray k) (mk_limit k) (mk_fd k) (<[fd := v]> (mk_fl k)) (mk_win k));
  sys_winsize fd r c k :=
    MemKernel (mk_open k) (mk_stray k) (mk_limit k) (mk_fd k) (mk_fl k) (mk_win k ++ [(fd, (r, c))]);
  sys_spawn c fds k := (Ok (Some 77), k);
  sys_async_fd fd k := (Ok tt, k);
}.
#[export] Instance mem_KernelView : KernelView mem_kernel := {
  open_fds := mk_open;
  stray_closes := mk_stray;
  fd_flags k fd := default 0 (mk_fd k !! fd);
  fl_flags k fd := default 0 (mk_fl k !! fd);
  winsizes := mk_win;
}.

Lemma flag_insert (m : gmap Z Z) fd v g :
  default 0 (<[fd := v]> m !! g) = if decide (g = fd /\ @Ok unit io_error tt = Ok tt) then v else default 0 (m !! g).
Proof.
  case_decide as Hd.
  - destruct Hd as [-> _]. by rewrite lookup_insert_eq.
  - rewrite lookup_insert_ne; [done|]. naive_solver.
Qed.

#[export] Instance mem_KernelSpec : KernelSpec mem_kernel.
Proof.
  split; unfold same_table; cbn.
  - intros m s k k'. case_match; [done|]. intros [= <- <- <-].
    set (f := mk_fresh k). assert (Hf : f ∉ mk_open k) by (intros Hx%mk_fresh_new; unfold f in *; lia).
    assert (Hg : mk_fresh (mk_add f k) ∉ {[f]} ∪ mk_open k).
    { intros Hx. change ({[f]} ∪ mk_open k) with (mk_open (mk_add f k)) in Hx. apply mk_fresh_new in Hx. lia. }
    cbn. set_solver.
  - intros e k k'. case_match; [|done]. by intros [= _ <-].
  - intros fd d k k'. case_match; [done|]. intros [= <- <-]. cbn.
    split; [intros Hx%mk_fresh_new; lia|done].
  - intros fd e k k'. case_match; [|done]. by intros [= _ <-].
  - intros fd k Hfd. split; [done|]. by rewrite decide_True.
  - intros fd r k k' [= <- <-]. split; [done|]. by intros v [= <-].
  - intros fd v r k k' [= <- <-]. split; [done|]. intros g. apply flag_insert.
  - intros fd r k k' [= <- <-]. split; [done|]. by intros v [= <-].
  - intros fd v r k k' [= <- <-]. split; [done|]. intros g. apply flag_insert.
  - done.
  - by intros c fds r k k' [= _ <-].
  - by intros fd r k k' [= _ <-].
Qed.

#[export] Instance mem_WinsizeSpec : WinsizeSpec mem_kernel.
Proof.
  split; cbn; try done; try (by intros; simplify_eq).
  - intros r k k'. case_match; by intros [= _ <-].
  - intros fd r k k'. case_match; by intros [= _ <-].
Qed.

(** ** Writing to a descriptor: at most three bytes at a time, into [wr_room] *)

Definition EIO : Z := 5.
#[export] Instance mem_FdWrite : FdWrite mem_writer := fun bs i =>
  let n := min (min 3 (wr_room i)) (length bs) in
  if (wr_room i =? 0)%nat then (Err (Os EIO), i)
  else (Ok n, MemWriter (wr_bytes i ++ take n bs) (wr_room i - n)).

#[export] Instance mem_FdWriteSpec : FdWriteSpec mem_writer.
Proof.
  split.
  - intros bs n i i'. unfold fd_write, mem_FdWrite. case_match; [done|]. intros [= <- <-]. split; [lia|done].
  - intros bs e i i'. unfold fd_write, mem_FdWrite. case_match; [|done]. by intros [= _ <-].
Qed.

(** ** The rest of the environment *)

(** Requests: byte 1 runs [echo], 2 runs it with deadline 0, 3 opens a pty, 4
    names an unknown verb; anything else does not parse. *)
#[export] Instance mem_Json : Json := {
  from_slice_request p :=
    match p with
    | [x01] => Ok (mkRequest "exec" (Some "echo") None None None)
    | [x02] => Ok (mkRequest "exec" (Some "echo") (Some f64_zero) None None)
    | [x03] => Ok (mkRequest "open-pty" None None (Some 50) None)
    | [x04] => Ok (mkRequest "reboot" None None None None)
    | _ => Err "expected value"
    end;
  from_slice_resize p :=
    match p with [r; c] => Ok (mkResize (u8_val r) (u8_val c)) | _ => Err "expected value" end;
  to_vec_message msg := Ok (map Ascii.byte_of_ascii (String.list_ascii_of_string msg));
  to_vec_exit code reason := Ok (as_u8 code :: map Ascii.byte_of_ascii (String.list_ascii_of_string reason));
}.
#[export] Instance mem_Fmt : Fmt := {
  fmt_f64 _ := "?";
  fmt_io_error e := match e with Os n => "os error" | Custom _ => "error" end;
  fmt_debug_str s := s;
}.
#[export] Instance mem_Shlex : Shlex := fun s => Some [s].

(** Every command prints "hi" and "!"; its stdin takes four bytes; the three pipes
    need room in the descriptor table. *)
#[export] Instance mem_Spawn : Spawn mem_reader mem_writer mem_kernel := fun _ k =>
  if mk_full 3 k then (Err (Os EMFILE), k)
  else (Ok (Spawned (Some 42) (MemWriter [] 4) (MemReader [x68; x69] None) (MemReader [x21] None)), k).
Lemma mem_spawned c k (ch : spawned mem_reader mem_writer) k' :
  spawn c k = (Ok ch, k') ->
  ch = Spawned (Some 42) (MemWriter [] 4) (MemReader [x68; x69] None) (MemReader [x21] None).
Proof. unfold spawn, mem_Spawn. destruct (mk_full 3 k); congruence. Qed.
#[export] Instance mem_PtyStreams : PtyStreams mem_reader mem_writer := {
  pty_reader _ := MemReader [x24] None;
  pty_writer _ := MemWriter [] 100;
}.
#[export] Instance mem_Syscall : Syscall := {
  SYS_sendto := 44;
  slice_ptr _ := 4096;
  syscall _ := 0;
}.
#[export] Instance mem_Vsock : Vsock := { VMADDR_CID_ANY := 2 ^ 32 - 1; bind _ := Ok tt }.

Definition mem_config : config :=
  Config "/bin/sh" (from_secs 30) (from_secs 60) (Some (from_secs 3600)) MAX_INBOUND_FRAME_LEN.
Definition mem_table : mem_kernel := MemKernel {[0; 1; 2]} 0 64 ∅ ∅ [].
