(* ===== verification/Scenarios.v ===== *)
(** * Scenarios: whole sessions, executed

    Runs of the composed model on the environment of [Machine]: they show that
    the hypotheses of the general theorems are met by concrete sessions, and
    what the theorems say of them. *)

From S2P Require Import Prelude AsyncIO Frame Duration Status Request Shell Outbound Pump.
From S2P Require Import Stdin Exec FdOps Pty Session SessionTime SessionWire SessionKills SessionSpec SessionEnds.
From S2P Require Import SessionDeadline SessionInput SessionDelivery Disconnect Portal Startup Agent AgentIsolation Memory Machine.

Abbreviation mem_session := (session list_chan mem_writer mem_reader mem_reader mem_writer mem_kernel).
Abbreviation mem_agent := (agent Z list_chan mem_writer mem_reader mem_reader mem_writer mem_kernel).

(** The client sends [fs] and closes; the connection takes [room] bytes. *)
Definition client (fs : list Frame) : mem_reader := MemReader (encode_frames fs) None.
Definition connect (fs : list Frame) (room : nat) : mem_session :=
  new_session (client fs) (MemWriter [] room) mem_table false.
Definition io_done : poll_env := PollEnv true 0.
Definition main : event := EvMain io_done 0.
Definition idle : event := EvMain parked_env 0.

(** ** One command, from the request to the freed session *)

Definition echo : list Frame := [mkFrame FRAME_REQUEST [x01]; mkFrame FRAME_STDIN_EOF []].
Definition echo_to_exit : list event :=
  [main; EvOut io_done; EvOut io_done; EvErr io_done; EvErr io_done; EvOut io_done; EvErr io_done;
   main; EvChild (exited_status 3); main; main; main].
Definition echo_run : list event :=
  echo_to_exit ++ [main; main] ++ repeat (EvWriterTask io_done) 7 ++ [main].

Definition replies (s : mem_session) : list Frame :=
  (read_frames 20 MAX_FRAME_LEN (MemReader (written (ob_sink (s_ob s))) None)).1.
Definition exit_frame (code : Z) (reason : string) : Frame :=
  mkFrame FRAME_EXIT (as_u8 code :: map Ascii.byte_of_ascii (String.list_ascii_of_string reason)).

(** The state of [echo] while five bytes are written to its stdin. *)
Definition writing_exec : exec_state mem_reader mem_writer :=
  ExecState ExRunning None (Some 42) ChildRunning []
    (StdinTask (MemWriter [] 4) true (StdinWriting [x61; x62; x63; x64; x65] 0))
    (Pump (MemReader [x68; x69] None) PumpReading) (Pump (MemReader [x21] None) PumpReading).
Definition exec_of (s : mem_session) : exec_state mem_reader mem_writer :=
  match s_main s with MExec x => x | _ => writing_exec end.

(** The command's output, then its status. *)
Example echo_reply :
  let s := run mem_config (connect echo 1000) echo_run in
  finished s = true /\ ob_cancel (s_ob s) = false /\
  replies s = [mkFrame FRAME_STDOUT [x68; x69]; mkFrame FRAME_STDERR [x21]; exit_frame 3 "exited"].
Proof. vm_compute. auto. Qed.

Lemma session_reply_contract_witness :
  exists body tail,
    written (ob_sink (s_ob (run mem_config (connect echo 1000) echo_run))) = encode_frames (body ++ tail) /\
    (body = [] \/ tail <> []).
Proof.
  destruct (session_reply_contract mem_config (client echo) (MemWriter [] 1000) mem_table false echo_run
    eq_refl) as (body & tail & out & err & _ & _ & _ & _ & _ & _ & _ & Hdone).
  exists body, tail. apply Hdone; vm_compute; reflexivity.
Defined.

Lemma exec_output_complete_witness :
  exists fs : list Frame,
    outgoing (s_ob (run mem_config (connect echo 1000) echo_to_exit)) = encode_frames fs /\
    stream_data FRAME_STDOUT fs = [x68; x69] /\ stream_data FRAME_STDERR fs = [x21].
Proof.
  destruct (exec_output_complete mem_config (client echo) (MemWriter [] 1000) mem_table false echo_to_exit
    (exec_of (run mem_config (connect echo 1000) echo_to_exit)) (exit_frame 3 "exited") eq_refl) as (req & k0 & ch & k1 & fs & _ & Hsp & Hout & _ & Ho & He & _);
    [vm_compute; reflexivity .. |].
  apply mem_spawned in Hsp as ->. exists fs. split; [exact Hout|]. split; [exact Ho | exact He].
Defined.

Lemma mem_config_ok : config_ok mem_config.
Proof. split; [|split]; [vm_compute; discriminate..|]. intros d [= <-]. vm_compute. discriminate. Qed.

Lemma session_refines_promise_witness :
  exists a a', rtc promise_step promise_init a /\ rtc promise_step a a' /\ pr_stage a = Serving /\ pr_stage a' = Over /\
    written (ob_sink (s_ob (run mem_config (run mem_config (connect echo 1000) (take 4 echo_run)) (drop 4 echo_run)))) = encode_frames (pr_log a').
Proof.
  destruct (session_refines_promise mem_config (client echo) (MemWriter [] 1000) mem_table false
    (take 4 echo_run) (drop 4 echo_run) mem_config_ok eq_refl)
    as (a & a' & Hr & Hr' & _ & [Hs Hs'] & [_ Hl] & _ & _ & Hall).
  exists a, a'. split; [exact Hr|]. split; [exact Hr'|]. split; [rewrite Hs; vm_compute; reflexivity|].
  split; [rewrite Hs'; vm_compute; reflexivity|].
  apply Hall; [vm_compute; reflexivity|]. rewrite Hl. vm_compute. reflexivity.
Defined.

(** The same client on a connection that never stops taking bytes. *)
Abbreviation open_session := (session list_chan open_sink mem_reader mem_reader mem_writer mem_kernel).
Definition connect_open (fs : list Frame) : open_session := new_session (client fs) (OpenSink []) mem_table false.

#[export] Instance open_KeepsReading : KeepsReading open_sink.
Proof.
  intros [ft p] w Hf. unfold frame_fits in Hf. cbn [payload] in Hf.
  unfold write_frame. cbn [ftype payload]. rewrite (proj2 (Z.ltb_ge _ _) Hf). destruct p; eexists; reflexivity.
Qed.

(** The command has exited, its output still in the pipes. *)
Definition echo_exited : list event := [main; EvOut io_done; EvErr io_done; EvChild (exited_status 3)].
Lemma verdict_delivered_witness :
  exists es' out, (length es' < 370)%nat /\ Forall delivery_event es' /\
    finished (run mem_config (run mem_config (connect_open echo) echo_exited) es') = true /\ Forall is_output out /\
    written (ob_sink (s_ob (run mem_config (run mem_config (connect_open echo) echo_exited) es'))) =
      outgoing (s_ob (run mem_config (connect_open echo) echo_exited)) ++ encode_frames out ++
      encode_frame (exit_frame 3 "exited").
Proof.
  destruct (verdict_delivered mem_config (client echo) (OpenSink []) mem_table false echo_exited (exit_frame 3 "exited")
    eq_refl) as (es' & out & Hl & Hq & Hfin & _ & Hout & Hw);
    [vm_compute; reflexivity | vm_compute; discriminate | vm_compute; reflexivity |].
  exists es', out. split; [exact Hl|]. split; [exact Hq|]. split; [exact Hfin|]. split; [exact Hout | exact Hw].
Defined.

(** ** A peer that goes away *)

Definition gone : list Frame := [mkFrame FRAME_REQUEST [x01]].
Definition gone_run : list event := [main; main].
Definition gone_end : list event :=
  [idle; EvWriterTask parked_env; EvTick 5000000000; idle; EvTick 250000000; idle; EvTick 250000000;
   idle; idle; idle; idle].

(** The child never exits: it is killed, and the session still ends. *)
Example gone_finishes :
  let s := run mem_config (connect gone 1000) (gone_run ++ gone_end) in
  finished s = true /\ s_now s = 5500000000 /\ replies s = [].
Proof. vm_compute. auto. Qed.

Lemma cancelled_session_bounded_witness :
  finished (run mem_config (run mem_config (connect gone 1000) gone_run) (take 4 gone_end)) = true \/
  s_now (run mem_config (run mem_config (connect gone 1000) gone_run) (take 4 gone_end)) <= 0 + TEARDOWN.
Proof.
  exact (cancelled_session_bounded mem_config (client gone) (MemWriter [] 1000) mem_table false gone_run
    (take 4 gone_end) mem_config_ok eq_refl).
Defined.

Lemma cancelled_session_completes_witness :
  exists es, (length es <= 20)%nat /\ Forall quiet_event es /\
    finished (run mem_config (run mem_config (connect gone 1000) gone_run) es) = true.
Proof.
  exact (cancelled_session_completes mem_config (client gone) (MemWriter [] 1000) mem_table false gone_run
    mem_config_ok eq_refl).
Defined.

(** The command runs, nobody has gone: the session ends all the same. *)
Lemma every_session_ends_witness :
  ob_cancel (s_ob (run mem_config (connect gone 1000) [main])) = false /\
  exists es, (length es <= 64)%nat /\ Forall quiet_event es /\
    finished (run mem_config (run mem_config (connect gone 1000) [main]) es) = true.
Proof.
  split; [vm_compute; reflexivity|].
  exact (every_session_ends mem_config (client gone) (MemWriter [] 1000) mem_table false [main]
    mem_config_ok eq_refl eq_refl).
Defined.

(** A command with the default deadline of an hour. *)
Lemma exec_deadline_bounded_witness :
  finished (run mem_config (run mem_config (connect gone 1000) [main]) gone_end) = true \/
  s_now (run mem_config (run mem_config (connect gone 1000) [main]) gone_end) <=
    from_secs 3600 + (from_secs 5 + from_millis 250 + from_millis 250 + 66 * from_secs 60).
Proof.
  exact (exec_deadline_bounded mem_config (client gone) (MemWriter [] 1000) mem_table false [main] gone_end
    (exec_of (run mem_config (connect gone 1000) [main])) (from_secs 3600)
    mem_config_ok eq_refl eq_refl eq_refl eq_refl).
Defined.

(** Deadline 0, five bytes of STDIN to a pipe that takes four, then silence. *)
Definition deaf : list Frame :=
  [mkFrame FRAME_REQUEST [x02]; mkFrame FRAME_STDIN [x61; x62; x63; x64; x65]].

(** Both streams read, nothing written yet, and five bytes for a deaf child. *)
Definition hoarding : list event := [main; main; EvOut io_done; EvErr io_done; EvOut io_done].

Lemma session_memory_bounded_witness :
  chunks_held (run mem_config (connect deaf 1000) hoarding) = [[x68; x69]; [x21]] /\
  input_held (run mem_config (connect deaf 1000) hoarding) = [x61; x62; x63; x64; x65] /\
  bytes_held (run mem_config (connect deaf 1000) hoarding) <= OUTPUT_BOUND + 1048576.
Proof.
  split; [vm_compute; reflexivity|]. split; [vm_compute; reflexivity|].
  exact (proj2 (proj2 (proj2 (session_memory_bounded mem_config (client deaf) (MemWriter [] 1000) mem_table false hoarding
    (Z.lt_le_incl 0 1048576 eq_refl) eq_refl)))).
Defined.

(** ** A terminal *)

#[export] Instance mem_FreshInputs : FreshInputs mem_reader mem_writer mem_kernel.
Proof.
  split; [|by intros cmd k r k'; unfold spawn, mem_Spawn; destruct (mk_full 3 k); intros [= _ <-]|done].
  by intros cmd k ch k' ->%mem_spawned.
Qed.

(** A window change between two chunks of input, and an STDIN_EOF, which a
    terminal does not know. *)
Definition shell_input : list Frame :=
  [mkFrame FRAME_STDIN [x61; x62; x63; x64]; mkFrame FRAME_RESIZE [x10; x20]; mkFrame FRAME_STDIN_EOF [];
   mkFrame FRAME_STDIN [x65]].
Definition shell_client : list Frame := mkFrame FRAME_REQUEST [x03] :: shell_input.
Definition shell_typing : list event := [main; main] ++ repeat main 7.
Definition input_of (s : mem_session) : list byte :=
  match s_main s with MPty (PtyLive l) => written (lv_write l) | _ => [] end.

Lemma session_input_in_order_witness :
  input_of (run mem_config (connect shell_client 1000) shell_typing) = [x61; x62; x63; x64; x65].
Proof.
  pose proof (session_input_in_order mem_config (mkFrame FRAME_REQUEST [x03]) shell_input (client shell_client)
    (MemWriter [] 1000) mem_table false shell_typing) as Hi.
  fold (connect shell_client 1000) in Hi. unfold input_of.
  destruct (run mem_config (connect shell_client 1000) shell_typing) as [now m r ob k b c] eqn:E.
  vm_compute in E. injection E as <- <- <- <- <- <- <-. cbn [s_main s_reader] in *.
  apply (proj2 (Hi ltac:(repeat constructor; vm_compute; congruence)
    ltac:(repeat constructor; vm_compute; congruence) eq_refl) 0); reflexivity.
Defined.

(** 50 rows were requested, 80 columns are the default; then the resize. *)
Lemma session_window_sizes_witness :
  exists master, winsizes (s_kernel (run mem_config (connect shell_client 1000) shell_typing)) =
    [(master, (50, 80)); (master, (16, 32))].
Proof.
  pose proof (session_window_sizes mem_config (mkFrame FRAME_REQUEST [x03]) shell_input (client shell_client)
    (MemWriter [] 1000) mem_table false shell_typing) as Hi.
  fold (connect shell_client 1000) in Hi.
  destruct (run mem_config (connect shell_client 1000) shell_typing) as [now m r ob k b c] eqn:E.
  vm_compute in E. injection E as <- <- <- <- <- <- <-. cbn [s_main s_reader s_kernel] in *.
  destruct (proj2 (Hi ltac:(repeat constructor; vm_compute; congruence)
    ltac:(repeat constructor; vm_compute; congruence) eq_refl) _ 0 eq_refl eq_refl eq_refl) as (req & Hd & Hw).
  injection Hd as <-. eexists. exact Hw.
Defined.

(** The shell exits: its output, its status, and the freed session. *)
Example shell_reply :
  let s := run mem_config (connect shell_client 1000)
    (shell_typing ++ [EvOut io_done; EvOut io_done; EvOut io_done; EvChild (exited_status 0);
       EvMain parked_env 1; main; main; main] ++ repeat (EvWriterTask io_done) 5 ++ [main]) in
  finished s = true /\ replies s = [mkFrame FRAME_STDOUT [x24]; exit_frame 0 "exited"] /\
  open_fds (s_kernel s) = {[0; 1; 2]}.
Proof. vm_compute. auto. Qed.

(** ** A command that refuses its input *)

Definition refused : mem_session := run mem_config (connect deaf 1000) [main; main].
Definition long_after : list event := [idle; EvTick (from_secs 1000000); main; EvWriterTask io_done].

Lemma exec_deaf_after_stdin_error_witness :
  let s1 := step mem_config refused main in
  finished (run mem_config (with_io (s_main s1) (client []) (s_ob s1) (s_kernel s1) s1) long_after) = false.
Proof.
  destruct (exec_deaf_after_stdin_error mem_config writing_exec refused
    [x61; x62; x63; x64; x65] 0 (Os EPIPE) (MemWriter [x61; x62; x63; x64] 0) 0 long_after) with (r := client []) as [Hf _].
  - vm_compute. repeat split; discriminate.
  - reflexivity.
  - reflexivity.
  - repeat constructor.
  - exact Hf.
Defined.

(** A command with the default deadline, left by a client that goes away while
    its output is on the way. *)
Definition between : list event :=
  [EvOut io_done; EvWriterTask io_done; EvOut io_done; EvChild (exited_status 0); EvErr io_done].

Definition talking : mem_session := run mem_config (connect gone 1000) [main; EvOut io_done].

Lemma exec_hears_disconnect_witness :
  exists x, s_main (run mem_config talking (main :: between ++ [idle])) = MExec x /\
    ex_phase x = ExReaping "disconnected" 0 /\ ex_kills x = [] ++ kill_group (Some 42).
Proof.
  pose proof (exec_hears_disconnect mem_config (exec_of talking) talking io_done 0 between parked_env 0) as Hx.
  cbv zeta in Hx.
  assert (Hs : s_now (run mem_config talking (main :: between ++ [idle])) = 0) by (vm_compute; reflexivity).
  destruct Hx as (x & Em & Ep & _ & Hk & _); [vm_compute; reflexivity.. | vm_compute; exact I | repeat constructor |].
  exists x. split; [exact Em|]. split; [rewrite Ep; f_equal; exact Hs | exact Hk].
Defined.



Definition mem_ob : outbound list_chan mem_writer := new_outbound (MemWriter [] 1000).

(** ** Descriptors *)


Lemma write_all_fd_total_witness :
  (write_all_fd [true; false; true] [x61; x62; x63; x64; x65] (MemWriter [] 9)).1 = Some (Ok tt) /\
  written (write_all_fd [true; false; true] [x61; x62; x63; x64; x65] (MemWriter [] 9)).2
    = [x61; x62; x63; x64; x65].
Proof.
  destruct (write_all_fd_total [true; false; true] [x61; x62; x63; x64; x65] (MemWriter [] 9)
    (Some (Ok tt)) (write_all_fd [true; false; true] [x61; x62; x63; x64; x65] (MemWriter [] 9)).2)
    as ((k & _ & Hw & Hk) & _); [reflexivity|].
  split; [reflexivity|]. rewrite Hw, (Hk eq_refl). reflexivity.
Defined.

(** ** A terminal, from openpty to the closed master *)

Definition pty_request : Request := mkRequest "open-pty" None None (Some 50) None.
Abbreviation mem_pty := (pty_state mem_reader mem_writer * mem_kernel)%type.
Definition pty_polled (now : Z) (env : poll_env) (r : mem_reader) (pk : mem_pty) : mem_pty :=
  match poll_pty mem_config now env 0 pk.1 r mem_ob pk.2 with
  | Some (p', _, _, k') => (p', k')
  | None => pk
  end.
Abbreviation mem_reach := (pty_reach (C := list_chan) (W := mem_writer) (R := mem_reader) mem_config pty_request).

Lemma pty_polled_reach k0 now env r pk :
  mem_reach k0 pk.1 pk.2 -> mem_reach k0 (pty_polled now env r pk).1 (pty_polled now env r pk).2.
Proof.
  intros Hp. unfold pty_polled. destruct (poll_pty _ _ _ _ _ _ _ _) as [[[[p' r'] ob'] k']|] eqn:E; [|done].
  by eapply reach_poll.
Qed.

(** Hung up by the client, deaf to SIGHUP and SIGKILL, drained, EXIT sent. *)
Definition pty_opened : mem_pty := pty_polled 0 io_done (client []) (PtyOpening pty_request, mem_table).
Definition pty_hung : mem_pty :=
  pty_polled (from_secs 8) parked_env (client [])
    (pty_polled (from_secs 3) parked_env (client [])
      (pty_polled (from_secs 1) io_done (client []) pty_opened)).
Definition pty_over : mem_pty :=
  pty_polled (from_secs 9) parked_env (client []) (pty_polled (from_secs 9) parked_env (client []) pty_hung).

Lemma pty_descriptors_balanced_witness :
  pty_over.1 = PtyReturned [(-77, SIGHUP); (-77, SIGKILL)] (Ok tt) /\
  size (open_fds pty_opened.2) = 4%nat /\ open_fds pty_over.2 = open_fds mem_table.
Proof.
  split; [vm_compute; reflexivity|]. split; [vm_compute; reflexivity|].
  destruct (pty_descriptors_balanced (C := list_chan) (W := mem_writer) (R := mem_reader) mem_config
    pty_request mem_table pty_over.1 pty_over.2) as (_ & Hr & _).
  - do 6 apply pty_polled_reach. apply reach_start.
  - apply (Hr [(-77, SIGHUP); (-77, SIGKILL)] (Ok tt)). vm_compute. reflexivity.
Defined.


(** ** The agent *)

Definition any_args : ListenAddress := mkListenAddress None 12341234 None.
Definition one_slot : environment := fun name =>
  if String.eqb name "GUESTHOPPER_MAX_SESSIONS" then Some "1" else None.
Definition one_slot_config : config := startup_config Width64 one_slot None (Err (Os 2)).
Definition one_slot_agent : mem_agent := Agent Acquiring 1 [] mem_table false.

(** A failed accept, then a client that asks for a command and leaves. *)
Definition one_client : list (agent_event mem_writer mem_reader) :=
  [AgAcquire; AgAccept (Err (Os 24)); AgAcquire; AgAccept (Ok (client gone, MemWriter [] 1000)); AgAcquire;
   AgSession 0 main; AgSession 0 main].

Lemma one_slot_starts :
  agent_start Width64 one_slot any_args (Err (Os 2)) mem_table = (0, Listening one_slot_config one_slot_agent).
Proof. reflexivity. Qed.

Lemma one_client_fresh : fresh_connections one_client.
Proof.
  unfold fresh_connections, one_client. repeat (constructor; [intros r w Heq|]); [..|constructor];
    try discriminate. injection Heq as _ <-. reflexivity.
Qed.

Lemma agent_permits_conserved_witness :
  Z.of_nat (length (ag_sessions (agent_run one_slot_config one_slot_agent one_client))) = 1 /\
  Z.of_nat (length (ag_sessions (agent_run one_slot_config one_slot_agent one_client))) <= 1.
Proof.
  split; [vm_compute; reflexivity|].
  exact (proj1 (proj2 (agent_permits_conserved Width64 one_slot any_args (Err (Os 2)) mem_table 0
    one_slot_config one_slot_agent one_client one_slot_starts one_client_fresh))).
Defined.

Definition first_session (a : mem_agent) : mem_session :=
  match ag_sessions a with s :: _ => s | [] => connect [] 0 end.

Lemma agent_slot_recovers_witness :
  exists es, (length es <= 64)%nat /\ Forall quiet_event es /\
    permits (ag_sem (agent_run one_slot_config
      (agent_run one_slot_config one_slot_agent one_client) (map (AgSession 0) es))) = 0 + 1.
Proof.
  destruct (agent_slot_recovers Width64 one_slot any_args (Err (Os 2)) mem_table 0
    one_slot_config one_slot_agent one_client 0
    (first_session (agent_run one_slot_config one_slot_agent one_client))
    one_slot_starts one_client_fresh) as (es & Hl & Hq & _ & Hp & _);
    [vm_compute; reflexivity | vm_compute; reflexivity |].
  exists es. split; [exact Hl|]. split; [exact Hq | exact Hp].
Defined.

(** A client that closes at once, and the command of [echo] after it: the
    second session moves to the front of the list when the first is over. *)
Definition one_session : mem_agent := Agent Accepting 5 [connect [] 1000] mem_table false.
Definition second_client : list (agent_event mem_writer mem_reader) :=
  [AgSession 0 main; AgSession 1 main; AgSession 0 (EvWriterTask io_done); AgSession 0 main] ++
  map (AgSession 0) (tail echo_to_exit).

Definition accepted : mem_agent :=
  agent_step mem_config one_session (AgAccept (Ok (client echo, MemWriter [] 1000))).

Lemma agent_isolates_witness :
  exists s k b, ag_sessions (agent_run mem_config accepted second_client) = [s] /\
    s ≡ run mem_config (new_session (client echo) (MemWriter [] 1000) k b) echo_to_exit.
Proof.
  pose proof (agent_isolates mem_config one_session (client echo) (MemWriter [] 1000) second_client eq_refl eq_refl) as Hi.
  cbv zeta in Hi. fold accepted in Hi.
  destruct (follow mem_config (length (ag_sessions one_session)) accepted second_client) as [o es] eqn:Ef.
  vm_compute in Ef. injection Ef as <- <-. destruct Hi as (evs1 & evs2 & _ & s & Hs & Heq).
  exists s, (ag_kernel (agent_run mem_config accepted evs1)), (ag_warned (agent_run mem_config accepted evs1)).
  split; [|exact Heq].
  assert (Hl : length (ag_sessions (agent_run mem_config accepted second_client)) = 1%nat) by (vm_compute; reflexivity).
  destruct (ag_sessions (agent_run mem_config accepted second_client)) as [|s0 [|]]; [discriminate | | discriminate].
  injection Hs as ->. reflexivity.
Defined.

Lemma agent_memory_bounded_witness :
  agent_bytes (agent_run one_slot_config one_slot_agent one_client) <= 1 * (OUTPUT_BOUND + 1048576).
Proof.
  exact (agent_memory_bounded Width64 one_slot any_args (Err (Os 2)) mem_table 0
    one_slot_config one_slot_agent one_client one_slot_starts one_client_fresh).
Defined.

(** 2 ^ 62 sessions. *)
Definition too_many : environment := fun name =>
  if String.eqb name "GUESTHOPPER_MAX_SESSIONS" then Some "4611686018427387904" else None.

Example too_many_panics :
  agent_start (P := Z) (C := list_chan) (W := mem_writer) (R := mem_reader) (S := mem_reader) (I := mem_writer)
    Width64 too_many any_args (Err (Os 2)) mem_table = (0, Panicked).
Proof. vm_compute. reflexivity. Qed.

Lemma agent_start_outcomes_witness : MAX_PERMITS (P := Z) < max_sessions Width64 too_many.
Proof.
  pose proof (agent_start_outcomes (P := Z) (C := list_chan) (W := mem_writer) (R := mem_reader) (S := mem_reader)
    (I := mem_writer) Width64 too_many any_args (Err (Os 2)) mem_table) as Ho.
  rewrite too_many_panics in Ho. exact Ho.
Defined.
